(* ===== verification/_CoqProject ===== *)
-Q . S2P
Prelude.v
GoNum.v
Structs.v
Interfaces.v
Frame.v
Sim.v
Helper.v
Nomad.v
PoolEval.v
PoolEvalFacts.v
PoolTotal.v
NodeSelect.v
NodeDiscovery.v
State.v
Consul.v
NodeDiscoveryFacts.v
RegistryMap.v
StateFacts.v
Leader.v
Failsafe.v
FailsafeFacts.v
AwsProvider.v
AwsFacts.v
JobEval.v
JobScale.v
Client.v
ClusterScaling.v
ClusterFacts.v
GoSlice.v
JobPolicies.v
JobPoliciesFacts.v
Orphans.v
JobScaling.v
FanOut.v
Config.v
Flags.v
Meta.v
FailsafeCmd.v
Server.v
Fleet.v
Actions.v
Watcher.v
System.v
Notifier.v
Logging.v
InitCmd.v
Cli.v
Http.v
ApiClient.v
Agent.v
AgentFacts.v
Controller.v
Operator.v
Breaker.v
FindIP.v
Help.v
