(* ===== verification/Prelude.v ===== *)
(** * Replicator: a verified model of its scaling core

    Replicator is a daemon that scales a Nomad cluster.  It watches the nodes
    of the cluster and groups them into worker pools, evaluates the load of
    each pool and of each job group with a scaling policy, and asks a cloud
    provider for one node more or less, or Nomad for one allocation more or
    less.  Several agents may run; a lock in Consul elects the one that acts,
    and the scaling state of every resource is kept in Consul, with a circuit
    breaker that stops scaling after repeated failures.

    ** How the code is modelled

    Every function of the source is a Rocq function of the same name, written
    in the monad [M W] of this file: a computation over a world [W] that
    returns or panics.  The world stands for everything outside of the
    function's own variables.  The Nomad, Consul and AWS APIs, the
    notification backends and the Go runtime (clock, map order, tickers) are
    type classes over [W] ([Interfaces.v]); nothing is assumed of their answers
    unless a theorem names a class of laws ([ConsulKVLaws], [ConsulLockLaws],
    [StateStoreLaws], [RuntimeLaws]).  The Go interfaces [ConsulClient],
    [NomadClient] and [ScalingProvider] are classes as well: the server's loops
    are verified against them, [Consul.v], [Client.v] and [AwsProvider.v] give
    the instances, and [StateFacts.v] proves that the Consul client meets the
    laws the server relies on.

    Integers are Z with Go's 64-bit wrap-around written out ([+!], [-!], [*!]),
    [float64] is IEEE binary64 ([GoNum.v]).  A struct is a record, a struct
    field assignment is [r <| f := v |>], a map is a [gmap], and the order in
    which [range] visits a map is chosen by the runtime.  A nil pointer that is
    dereferenced, an index out of range and the close of a closed channel are
    panics, kept as values; a lock that is never released is recorded the same
    way.  A struct that the source passes by pointer and updates is an argument
    and a result.  A method that implements an interface method carries the
    suffix [_impl].

    Loops over a slice are [for_range]; the polling loops
    [for { select { case <-timeout: ...; case <-ticker: ... } }] are [poll n],
    where [n], the number of ticks before the timeout, is the runtime's choice,
    so every theorem holds for every interleaving of the two.  The only loop
    that is neither is the retry loop of the AWS provider: [verifyLoop] takes as
    fuel the attempts the retry threshold leaves, and
    [verify_scaled_node_ends] shows that it never runs out.

    ** The files

    - [Prelude.v] (this file): the monad, loops, struct updates, inversion
      tactics, loop rules, sums.  [GoNum.v]: integers, floats, time.
    - [Structs.v]: [replicator/structs] and the Nomad objects.
      [Interfaces.v]: services and client interfaces with their laws.
      [Sim.v]: a concrete world in which every service answers from finite
      maps; it satisfies the laws and is where the witnesses run.
    - [Helper.v]: [helper/funcs.go].
    - [Nomad.v]: [client/nomad.go]; [NodeSelect.v] shows that the node chosen
      for removal is never the protected one and, among nodes with load, is the
      least allocated on the pool's most utilised resource.
    - [PoolEval.v]: [client/cluster_scaling.go]; [PoolEvalFacts.v] shows that
      capacity and consumption are the sums over the pool's nodes and
      allocations, what direction is chosen, and that a permitted scale-in
      leaves the configured margin.
    - [NodeDiscovery.v]: [client/node_discovery.go], [cloud/cloud_provider.go]
      and [replicator/node_protection.go]; [NodeDiscoveryFacts.v] has the
      registry invariant, the round trip of registration and deregistration,
      and the completeness of accepted node configurations.  [RegistryMap.v]:
      sequences of registrations and deregistrations refine the updates of a map
      from nodes to pools.
    - [State.v]: [client/state.go] with the JSON codec; [StateFacts.v]: the
      round trip through Consul.
    - [Consul.v]: [client/consul.go].  [Leader.v]: [replicator/leader.go] and
      the status endpoint, several agents over one Consul as a step relation,
      the exclusion the lock gives and the split brain the agents' flag allows.
    - [Failsafe.v], [FailsafeFacts.v]: [replicator/failsafe.go]; the breaker
      latches, resets and notifies once.
    - [AwsProvider.v], [AwsFacts.v]: [cloud/aws]; limits of the autoscaling
      group, capacity of a scale-out, termination of the verification.
    - [JobScale.v]: [client/job_scaling.go]; a job changes by one step within
      the limits of its policy and is confirmed only by a successful
      deployment.  [Client.v]: the Nomad client's instance.
    - [ClusterScaling.v], [ClusterFacts.v]: [replicator/cluster_scaling.go];
      the gates in front of a scaling action and the counting of consecutive
      requests.
    - [GoSlice.v]: Go's slices with their backing arrays, [append] and the
      removal of an element in place.  [JobPolicies.v],
      [JobPoliciesFacts.v]: [client/job_scaling_policies.go], the table of
      policies shared through pointers and aliased slices; what an update and
      a removal do to the groups listed for a job.  [Orphans.v]: the orphan
      check against a filter of the listed groups.
    - [JobScaling.v]: [replicator/job_scaling.go]; the gates in front of the
      scaling of a job group.  [FanOut.v]: the rounds of worker threads of
      [asyncClusterScaling] and [asyncJobScaling] as a step relation; a round
      that sends the pools it counted ends after every pool was processed once,
      provided the evaluations return, and a round that sends others hangs or
      panics.
    - [Config.v]: [Merge] of [replicator/structs/config.go] and
      [command/base]; merging is associative and idempotent, and what is
      loaded from a directory does not depend on the order of its listing.
    - [Flags.v]: Go's [flag] package, as far as the commands use it: the
      parsing of arguments by a table of flag types, and its round trip.
    - [FailsafeCmd.v]: [command/failsafe.go]; a request goes ahead only on an
      existing state, in a new mode and after a confirmation.
    - [Server.v]: [replicator/server.go] and the accept loop of
      [replicator/rpc.go]; followers do not act, and the leaked lock stops a
      leader for good.
    - [Frame.v]: the three small program logics the compositions use: what a
      computation keeps ([keeps], [gated]), total runs under an invariant
      ([does]) and the values it returns ([yields]).  [PoolTotal.v]: the
      evaluation of a pool always ends with a decision or with one of Nomad's
      errors, but for a pool without nodes.
    - [Fleet.v]: whole ticks of the server over the real clients: the cloud
      groups and the jobs of the cluster change only through the gates.
      [Watcher.v]: an iteration of the node watcher keeps the registry
      invariant and returns.
    - [Actions.v]: the sequence of actions (drain, resize, detach, terminate)
      of one evaluation of a pool, with a program logic for traces; what is
      detached and terminated by a scale-in was drained and is not the
      protected node, and what the clean-up of a failed scale-out removes is the
      instance that was found not to join.  [Breaker.v]: a
      scale-out that exhausts its retries trips the breaker for the next
      rounds.  [JobEval.v]: the direction of every group of a job, from the
      statistics of its running allocations.
    - [System.v]: all goroutines of an agent over one registry, interleaved at
      the calls of the services, with the writes that the workers make to the
      state of a pool without the lock; a rely-guarantee argument shows that the
      registry stays well-formed, or its lock is lost for good and nothing but
      the states of its pools changes any more.
    - [Controller.v]: the abstract controller of a pool, two counters, a
      threshold and a cooldown, which the scaling loop refines over the rounds
      of consecutive ticks, scaling actions included.
      [Operator.v]: the [failsafe] command and the scaling loop together
      through the stored state.
    - [Notifier.v]: [notifier/], the instance of the notification interface.
      [Http.v]: [command/agent/http.go], [status_endpoint.go] and the
      in-memory RPC of [replicator/server.go].  [ApiClient.v]: [api/], and the
      leader query from the client through HTTP and RPC to Consul and back.
    - [Agent.v], [AgentFacts.v]: [command/agent/agent.go], start-up, flags over
      files over defaults, the signal loop and what a reload leaves behind.
      [InitCmd.v]: [command/init.go].  [Cli.v]: [main.go], [commands.go] and
      [version/].
    - [Meta.v]: [command/meta.go], the pipe between a flag set and the goroutine
      that forwards its errors to the terminal, as a step relation.
      [Logging.v]: [logging/logging.go].  [Help.v]: the help texts and the flags
      they document.
    - [FindIP.v]: the regular expression of [helper.FindIP] against the texts
      it describes.

    Properties across components.  [fleet_changes_gated] and
    [job_changes_gated] compose a server tick with the registry, the state
    store, the failsafe, the evaluation and the provider;
    [failsafe_command_stops_pool] composes a command run by an operator with the
    next rounds of the agent; [leader_query_roundtrip] composes the API client,
    the HTTP server, the RPC server and the Consul client; [flag_precedence]
    composes flag parsing with configuration merging; [pool_blast_radius] and
    [scale_in_removes_drained] compose the gates, the choice of the node, the
    drain and the provider; [failed_scale_out_stops_pool] composes the provider's
    retries with the breaker through the stored state; [agent_keeps_registry]
    composes every goroutine of the server with every other one.  The fuel of the retry
    loop apart, the definitions need none: [FindIP] recurses on the text, flag
    parsing on the arguments, [Agent_Run] on the list of events it is given.
    Theorems whose subject is a defect of the source state what the code does:
    the leaked registry lock, the split brain, the panics on a missing group or
    pool, the threshold tested for equality, limits applied to sibling groups.

    ** What is not modelled

    Logging and metrics have no effect on the model.  Error messages keep only
    their constant text.  The decoding of node meta data into a pool
    ([mapstructure]) and the hash of a pool ([hashstructure]) are third-party
    code and are parameters.  JSON documents are trees in which a timestamp is
    the instant it denotes, so the text of a timestamp and the escaping of
    strings are not modelled.  The registry is shared by the watcher and the
    scaling workers; each operation under its lock is atomic ([System.v] runs
    them in every order), reads outside of the lock see a whole registry, and
    the functions of a worker work on their own copy of the pool they read.
    What the source writes through the pointer it shares with the registry
    without the lock, the state of a pool, is not seen by the other functions of
    a sequential run; [System.v] adds these writes as steps of their own.  AWS
    strings and times are values, so a nil one in an answer is not modelled.
    The global settings of the logger and of the metrics sink are not state of
    the model.

    Not modelled: the MessagePack codec of a remote RPC connection
    ([NewServerCodec] of [replicator/rpc.go], an argument of [handleConn]), and
    the text of the log messages: the functions of a severity in
    [logging/logging.go] format a message and hand it to the logging library,
    and only [SetLevel] and [Fatal] can end the program. *)

From Stdlib Require Export ZArith Lia.
From stdpp Require Export prelude base option list strings gmap sorting pretty.

#[global] Open Scope Z_scope.

(** ** Go outcomes

    A Go function either returns or panics; a panic is kept as a value so that
    the paths of the source that crash the daemon can be stated and excluded. *)

Inductive outcome (A : Type) : Type :=
| Ret (a : A)
| Panic (why : string).
Arguments Ret {A} _.
Arguments Panic {A} _.

(** [M W A] is a computation that may read and change a world [W] (the remote
    services, the clock, the shared registries) and yields an outcome. *)
Definition M (W A : Type) : Type := W → outcome A * W.

#[export] Instance M_ret W : MRet (M W) := λ A a w, (Ret a, w).
#[export] Instance M_bind W : MBind (M W) := λ A B f m w,
  match m w with
  | (Ret a, w') => f a w'
  | (Panic e, w') => (Panic e, w')
  end.
#[export] Instance M_fmap W : FMap (M W) := λ A B f m, m ≫= λ a, mret (f a).

(** The run-time panic of the Go program. *)
Definition go_panic {W A} (why : string) : M W A := λ w, (Panic why, w).

(** Dereferencing a possibly nil pointer. *)
Definition deref {W A} (p : option A) : M W A :=
  match p with
  | Some a => mret a
  | None => go_panic "nil pointer dereference"
  end.

(** [defer d] in front of [m]: [d] runs when [m] is left, by a panic as well. *)
Definition defer {W A} (d : M W unit) (m : M W A) : M W A := λ w,
  let '(o, w1) := m w in
  match d w1 with
  | (Ret _, w2) => (o, w2)
  | (Panic e, w2) => (Panic e, w2)
  end.

(** ** Loops

    [for_range body l s] is [for _, x := range l { body }]: the body yields the
    updated local variables ([Next], also used for [continue]) or leaves the
    enclosing function ([Return]). *)

Inductive loop (S R : Type) : Type :=
| Next (s : S)
| Return (r : R).
Arguments Next {S R} _.
Arguments Return {S R} _.

Section loops.
Context {W A S R : Type}.

Fixpoint for_range (body : S → A → M W (loop S R)) (l : list A) (s : S)
  : M W (loop S R) :=
  match l with
  | [] => mret (Next s)
  | x :: l' =>
      o ← body s x;
      match o with
      | Next s' => for_range body l' s'
      | Return r => mret (Return r)
      end
  end.

(** [poll ticks body timeout s] is the shape
    [for { select { case <-timeout.C: ...; case <-ticker.C: ... } }]: [ticks]
    is the number of times the ticker case is selected before the timeout
    case is, so every run of the loop is [poll n] for some [n]. *)
Fixpoint poll (ticks : nat) (body : S → M W (loop S R)) (timeout : S → M W R)
    (s : S) : M W R :=
  match ticks with
  | O => timeout s
  | Datatypes.S n =>
      o ← body s;
      match o with
      | Next s' => poll n body timeout s'
      | Return r => mret r
      end
  end.
End loops.

(** ** Reasoning about computations *)

(** [wp m Q w]: running [m] in world [w] ends in an outcome and a world
    related by [Q]; [Q] sees panics. *)
Definition wp {W A} (m : M W A) (Q : outcome A → W → Prop) (w : W) : Prop :=
  Q (m w).1 (m w).2.

Section wp_rules.
Context {W A B : Type}.
Implicit Types (w : W).

Lemma bind_ret (m : M W A) (f : A → M W B) w b w' :
  (m ≫= f) w = (Ret b, w') ↔
  ∃ a w1, m w = (Ret a, w1) ∧ f a w1 = (Ret b, w').
Proof.
  unfold mbind, M_bind. destruct (m w) as [[a|e] w1]; split.
  - eauto.
  - intros (a' & w1' & [= <- <-] & H); exact H.
  - discriminate.
  - intros (? & ? & [=] & _).
Qed.

Lemma bind_run (m : M W A) (f : A → M W B) w a w1 :
  m w = (Ret a, w1) → (m ≫= f) w = f a w1.
Proof. intros E. unfold mbind, M_bind. by rewrite E. Qed.

Lemma bind_panic (m : M W A) (f : A → M W B) w e w1 :
  m w = (Panic e, w1) → (m ≫= f) w = (Panic e, w1).
Proof. intros E. unfold mbind, M_bind. by rewrite E. Qed.

Lemma wp_ret (a : A) Q w : Q (Ret a) w → wp (mret a) Q w.
Proof. done. Qed.

Lemma wp_bind (m : M W A) (f : A → M W B) Q w :
  wp m (λ o w1, match o with
                | Ret a => wp (f a) Q w1
                | Panic e => Q (Panic e) w1
                end) w →
  wp (m ≫= f) Q w.
Proof.
  unfold wp, mbind, M_bind. destruct (m w) as [[a|e] w1]; done.
Qed.

Lemma wp_mono (m : M W A) (P Q : outcome A → W → Prop) w :
  wp m P w → (∀ o w', P o w' → Q o w') → wp m Q w.
Proof. unfold wp; eauto. Qed.
End wp_rules.

(** ** Struct updates

    [r <| f := v |>] is the Go assignment [r.f = v] on a struct held by value.
    A record supports it once its eta expansion is declared with [Eta]; the
    setter of a field is then found by instance search. *)

Class Eta (R : Type) := eta : R → R.
Class Setter {R T : Type} (proj : R → T) := modify : (T → T) → R → R.
#[export] Hint Mode Setter ! ! ! : typeclass_instances.

Ltac derive_setter :=
  match goal with
  | |- @Setter ?R ?T ?proj =>
      let e := constr:(ltac:(typeclasses eauto) : Eta R) in
      let b := eval hnf in e in
      let g := eval pattern proj in b in
      match g with
      | ?h _ =>
          let upd := eval cbv beta in
            (fun (f : T → T) (r : R) => h (fun r0 => f (proj r0)) r) in
          exact upd
      end
  end.

#[export] Hint Extern 1 (Setter _) => derive_setter : typeclass_instances.

Declare Scope go_scope.
Delimit Scope go_scope with go.
Notation "r <| f := v |>" := (modify (proj:=f) (λ _, v) r)
  (at level 1, left associativity, f at next level, v at level 200,
   format "r  <| f  :=  v |>") : go_scope.
Notation "r <| f ::= g |>" := (modify (proj:=f) g r)
  (at level 1, left associativity, f at next level, g at level 200,
   format "r  <| f  ::=  g |>") : go_scope.
#[global] Open Scope go_scope.

(** ** Inverting runs

    [go_inv] takes apart the hypotheses that say how a computation ran:
    sequencing, returns, panics and the case analysis of the program. *)

Lemma mret_inv {W A} (a b : A) (w w' : W) :
  (mret a : M W A) w = (Ret b, w') ↔ a = b ∧ w = w'.
Proof. unfold mret, M_ret. split; [by intros [= -> ->] | by intros [-> ->]]. Qed.

Lemma deref_inv {W A} (p : option A) (a : A) (w w' : W) :
  deref p w = (Ret a, w') ↔ p = Some a ∧ w = w'.
Proof.
  destruct p; simpl; [rewrite mret_inv|unfold go_panic]; naive_solver.
Qed.

Ltac go_inv_step :=
  match goal with
  | H : (_ ≫= _) _ = (Ret _, _) |- _ =>
      let a := fresh "r" in let w := fresh "w" in let E := fresh "E" in
      apply bind_ret in H as (a & w & E & H); cbn beta in H
  | H : mret _ _ = (Ret _, _) |- _ => apply mret_inv in H as [? ?]; subst
  | H : deref _ _ = (Ret _, _) |- _ => apply deref_inv in H as [? ?]; subst
  | H : go_panic _ _ = (Ret _, _) |- _ => discriminate H
  | H : (let (_, _) := ?x in _) _ = _ |- _ => destruct x eqn:?; cbn beta iota in H
  | H : (match ?x with _ => _ end) _ = _ |- _ => destruct x eqn:?; cbn beta iota in H
  | H : (if ?b then _ else _) _ = _ |- _ => destruct b eqn:?; cbn beta iota in H
  end.
(** One sequencing step, with names. *)
Tactic Notation "go_bind" hyp(H) "as" simple_intropattern(a) ident(w) ident(E) :=
  apply bind_ret in H as (a & w & E & H); cbn beta iota in H.

Ltac go_inv := repeat (go_inv_step; simplify_eq).

(** ** Loop invariants *)

Section loop_rules.
Context {W A S R : Type}.
Implicit Types (body : S → A → M W (loop S R)) (w : W).

(** [I] holds of the elements already visited, [J] of an early return. *)
Lemma for_range_inv body l s w o w' (I : list A → S → Prop) (J : R → Prop) :
  for_range body l s w = (Ret o, w') →
  I [] s →
  (∀ done x s1 w1 o1 w1', x ∈ l → I done s1 → body s1 x w1 = (Ret o1, w1') →
     match o1 with Next s2 => I (done ++ [x]) s2 | Return r => J r end) →
  match o with Next s' => I l s' | Return r => J r end.
Proof.
  intros Hrun HI Hstep.
  enough (∀ done l' s w, l = done ++ l' → I done s →
    for_range body l' s w = (Ret o, w') →
    match o with Next s' => I l s' | Return r => J r end) as Hgen
    by exact (Hgen [] l s w eq_refl HI Hrun).
  clear s w HI Hrun.
  intros done l'. revert done. induction l' as [|x l' IH]; intros done s w -> HI Hrun; simpl in Hrun.
  { apply mret_inv in Hrun as [<- <-]. by rewrite app_nil_r. }
  apply bind_ret in Hrun as (o1 & w1 & E & Hrun).
  pose proof (Hstep done x s w o1 w1 ltac:(set_solver) HI E) as Ho.
  destruct o1 as [s2|r].
  - eapply IH; [|done|done]. by rewrite <-app_assoc.
  - apply mret_inv in Hrun as [<- <-]. exact Ho.
Qed.

Lemma for_range_ext (body1 body2 : S → A → M W (loop S R)) l s w :
  (∀ s x w, body1 s x w = body2 s x w) →
  for_range body1 l s w = for_range body2 l s w.
Proof.
  intros Heq. revert s w. induction l as [|x l IH]; intros s w; simpl; [done|].
  unfold mbind, M_bind. rewrite Heq. destruct (body2 s x w) as [[[]|] ?]; [apply IH|done|done].
Qed.

Lemma for_range_app body l1 l2 s w :
  for_range body (l1 ++ l2) s w =
  (o ← for_range body l1 s;
   match o with
   | Next s' => for_range body l2 s'
   | Return r => mret (Return r)
   end) w.
Proof.
  revert s w. induction l1 as [|x l1 IH]; intros s w; simpl; [done|].
  unfold mbind, M_bind. destruct (body s x w) as [[[s'|r]|e] w1]; [|done|done].
  rewrite IH. done.
Qed.
End loop_rules.

Section poll_rules.
Context {W S R : Type}.
Implicit Types (body : S → M W (loop S R)) (timeout : S → M W R) (w : W).

(** A polling loop ends either by a tick that returns or by the timeout. *)
Lemma poll_inv n body timeout s w r w' (I : S → Prop) (J : R → Prop) :
  poll n body timeout s w = (Ret r, w') →
  I s →
  (∀ s1 w1 o1 w1', I s1 → body s1 w1 = (Ret o1, w1') →
     match o1 with Next s2 => I s2 | Return r1 => J r1 end) →
  (∀ s1 w1 r1 w1', I s1 → timeout s1 w1 = (Ret r1, w1') → J r1) →
  J r.
Proof.
  intros Hrun HI Hbody Htime. revert s w HI Hrun.
  induction n as [|n IH]; intros s w HI Hrun; simpl in Hrun; [eauto|].
  apply bind_ret in Hrun as (o1 & w1 & E & Hrun).
  pose proof (Hbody s w o1 w1 HI E) as Ho.
  destruct o1 as [s2|r1]; [eauto|]. apply mret_inv in Hrun as [<- _]. done.
Qed.
End poll_rules.

(** ** Sums *)

Definition sumZ {A} (f : A → Z) (l : list A) : Z := foldr (λ x acc, f x + acc) 0 l.

Lemma sumZ_app {A} (f : A → Z) l1 l2 : sumZ f (l1 ++ l2) = sumZ f l1 + sumZ f l2.
Proof. induction l1; simpl; lia. Qed.

Lemma sumZ_perm {A} (f : A → Z) l1 l2 : l1 ≡ₚ l2 → sumZ f l1 = sumZ f l2.
Proof. induction 1; simpl; lia. Qed.

Lemma sumZ_fmap {A B} (g : A → B) (f : B → Z) l : sumZ f (g <$> l) = sumZ (f ∘ g) l.
Proof. induction l as [|x l IH]; csimpl; [done|]. by rewrite IH. Qed.

Lemma sumZ_nonneg {A} (f : A → Z) l : (∀ x, x ∈ l → 0 ≤ f x) → 0 ≤ sumZ f l.
Proof.
  induction l as [|x l IH]; simpl; intros H; [lia|].
  assert (0 ≤ f x) by (apply H; left). 
  assert (0 ≤ sumZ f l) by (apply IH; intros; apply H; by right). lia.
Qed.

Create HintDb go.
#[export] Hint Resolve sumZ_nonneg : go.
