(* ===== verification/GoNum.v ===== *)
(** * Go numbers: 64-bit [int], [float64] and [time]

    [int] and [int64] values are integers of [Z] in the two's-complement range
    and every operation wraps; [float64] is IEEE 754 binary64, the standard
    library's [spec_float] at precision 53 and exponent bound 1024; instants are
    nanoseconds since the zero [time.Time]. *)

From Stdlib Require Export SpecFloat.
From S2P Require Import Prelude.

(** ** 64-bit integers *)

Definition min_int : Z := - 2 ^ 63.
Definition max_int : Z := 2 ^ 63 - 1.
Definition is_int (z : Z) : Prop := min_int ≤ z ≤ max_int.

Definition wrap (z : Z) : Z := (z + 2 ^ 63) mod 2 ^ 64 - 2 ^ 63.

Definition iadd (a b : Z) : Z := wrap (a + b).
Definition isub (a b : Z) : Z := wrap (a - b).
Definition imul (a b : Z) : Z := wrap (a * b).
Definition iopp (a : Z) : Z := wrap (- a).

(** Go's [/] truncates toward zero; a zero divisor panics. *)
Definition iquot {W} (a b : Z) : M W Z :=
  if b =? 0 then go_panic "integer divide by zero" else mret (wrap (Z.quot a b)).

Notation "a +! b" := (iadd a b) (at level 50, left associativity) : go_scope.
Notation "a -! b" := (isub a b) (at level 50, left associativity) : go_scope.
Notation "a *! b" := (imul a b) (at level 40, left associativity) : go_scope.

Lemma wrap_id z : is_int z → wrap z = z.
Proof.
  unfold is_int, min_int, max_int, wrap. intros H.
  rewrite Z.mod_small; lia.
Qed.

Lemma wrap_range z : is_int (wrap z).
Proof.
  unfold is_int, min_int, max_int, wrap.
  pose proof (Z.mod_pos_bound (z + 2 ^ 63) (2 ^ 64) ltac:(lia)). lia.
Qed.

Lemma iadd_id a b : is_int (a + b) → a +! b = a + b.
Proof. apply wrap_id. Qed.
Lemma isub_id a b : is_int (a - b) → a -! b = a - b.
Proof. apply wrap_id. Qed.
Lemma imul_id a b : is_int (a * b) → a *! b = a * b.
Proof. apply wrap_id. Qed.

Lemma wrap_add_l a b : wrap (wrap a + b) = wrap (a + b).
Proof.
  unfold wrap.
  replace ((a + 2 ^ 63) mod 2 ^ 64 - 2 ^ 63 + b + 2 ^ 63)
    with ((a + 2 ^ 63) mod 2 ^ 64 + b) by lia.
  rewrite Zplus_mod_idemp_l. f_equal. f_equal. lia.
Qed.

Lemma iadd_assoc a b c : (a +! b) +! c = a +! (b + c).
Proof. unfold iadd. rewrite wrap_add_l. f_equal. lia. Qed.

(** ** [float64] *)

Abbreviation float64 := spec_float.

Module F64.
Definition prec : Z := 53.
Definition emax : Z := 1024.

Definition of_int (z : Z) : float64 := binary_normalize prec emax z 0 false.
Definition add : float64 → float64 → float64 := SFadd prec emax.
Definition mul : float64 → float64 → float64 := SFmul prec emax.
Definition div : float64 → float64 → float64 := SFdiv prec emax.
Definition ltb : float64 → float64 → bool := SFltb.
Definition leb : float64 → float64 → bool := SFleb.
Definition eqb : float64 → float64 → bool := SFeqb.
Definition gtb (x y : float64) : bool := ltb y x.
Definition geb (x y : float64) : bool := leb y x.
Definition zero : float64 := S754_zero false.

Definition is_nan (x : float64) : bool :=
  match x with S754_nan => true | _ => false end.

(** [math.Floor] followed by the conversion to [int]: [None] is the case the
    language leaves to the implementation (NaN, infinities, overflow). *)
Definition floor_int (x : float64) : option Z :=
  match x with
  | S754_zero _ => Some 0
  | S754_finite s m e =>
      let v := if s then Z.neg m else Z.pos m in
      let z := if 0 <=? e then v * 2 ^ e else v / 2 ^ (- e) in
      if (min_int <=? z) && (z <=? max_int) then Some z else None
  | _ => None
  end.

(** The order key of a float that is not NaN: comparison of floats is the
    lexicographic comparison of keys. *)
Definition key (x : float64) : Z * Z * Z :=
  match x with
  | S754_infinity true => (0, 0, 0)
  | S754_finite true m e => (1, - e, Z.neg m)
  | S754_zero _ => (2, 0, 0)
  | S754_finite false m e => (3, e, Z.pos m)
  | S754_infinity false => (4, 0, 0)
  | S754_nan => (5, 0, 0)
  end.

Definition key_lt (a b : Z * Z * Z) : Prop :=
  a.1.1 < b.1.1 ∨ a.1.1 = b.1.1 ∧ (a.1.2 < b.1.2 ∨ a.1.2 = b.1.2 ∧ a.2 < b.2).

Definition num (x : float64) : Prop := is_nan x = false.

Lemma compare_key x y :
  num x → num y →
  match SFcompare x y with
  | Some Lt => key_lt (key x) (key y)
  | Some Eq => key x = key y
  | Some Gt => key_lt (key y) (key x)
  | None => False
  end.
Proof.
  unfold num, is_nan, key_lt. intros Hx Hy.
  destruct x as [sx|sx| |sx mx ex], y as [sy|sy| |sy my ey]; try done;
    try destruct sx; try destruct sy; simpl; try (left; lia); try lia;
    try reflexivity.
  - rewrite (Z.compare_antisym ey ex). destruct (Z.compare_spec ey ex); simpl;
      [subst | lia | lia].
    change (Pos.compare_cont Eq mx my) with (mx ?= my)%positive.
    destruct (Pos.compare_spec mx my); simpl; [by subst | lia | lia].
  - destruct (Z.compare_spec ex ey); simpl; [subst | lia | lia].
    change (Pos.compare_cont Eq mx my) with (mx ?= my)%positive.
    destruct (Pos.compare_spec mx my); simpl; [by subst | lia | lia].
Qed.

Lemma compare_nan_l x : SFcompare S754_nan x = None.
Proof. by destruct x. Qed.
Lemma compare_nan_r x : SFcompare x S754_nan = None.
Proof. by destruct x as [[]|[]| |[]]. Qed.

Lemma key_lt_irrefl a : ¬ key_lt a a.
Proof. unfold key_lt; lia. Qed.

Lemma ltb_key x y : ltb x y = true ↔ num x ∧ num y ∧ key_lt (key x) (key y).
Proof.
  unfold ltb, SFltb. destruct (is_nan x) eqn:Ex.
  { destruct x; try done. rewrite compare_nan_l.
    split; [done | intros ([=] & _)]. }
  destruct (is_nan y) eqn:Ey.
  { destruct y; try done. rewrite compare_nan_r.
    split; [done | intros (_ & [=] & _)]. }
  pose proof (compare_key x y Ex Ey) as H.
  destruct (SFcompare x y) as [[]|]; [| | |done]; split; try done.
  - intros (_ & _ & Hlt). rewrite H in Hlt. by apply key_lt_irrefl in Hlt.
  - intros (_ & _ & Hlt). unfold key_lt in *. lia.
Qed.

Lemma eqb_key x y : eqb x y = true ↔ num x ∧ num y ∧ key x = key y.
Proof.
  unfold eqb, SFeqb. destruct (is_nan x) eqn:Ex.
  { destruct x; try done. rewrite compare_nan_l.
    split; [done | intros ([=] & _)]. }
  destruct (is_nan y) eqn:Ey.
  { destruct y; try done. rewrite compare_nan_r.
    split; [done | intros (_ & [=] & _)]. }
  pose proof (compare_key x y Ex Ey) as H.
  destruct (SFcompare x y) as [[]|]; [| | |done]; split; try done.
  - intros (_ & _ & Hlt). rewrite Hlt in H. by apply key_lt_irrefl in H.
  - intros (_ & _ & Hlt). rewrite Hlt in H. by apply key_lt_irrefl in H.
Qed.

Lemma leb_key x y :
  leb x y = true ↔ num x ∧ num y ∧ ¬ key_lt (key y) (key x).
Proof.
  unfold leb, SFleb. destruct (is_nan x) eqn:Ex.
  { destruct x; try done. rewrite compare_nan_l.
    split; [done | intros ([=] & _)]. }
  destruct (is_nan y) eqn:Ey.
  { destruct y; try done. rewrite compare_nan_r.
    split; [done | intros (_ & [=] & _)]. }
  pose proof (compare_key x y Ex Ey) as H.
  destruct (SFcompare x y) as [[]|]; [| | |done]; split; try done.
  - intros _. rewrite H. repeat split; try done. apply key_lt_irrefl.
  - intros _. repeat split; try done. unfold key_lt in *. lia.
  - intros (_ & _ & Hn). done.
Qed.

Lemma leb_refl x : num x → leb x x = true.
Proof. intros H. apply leb_key. repeat split; try done. apply key_lt_irrefl. Qed.

Lemma leb_trans x y z : leb x y = true → leb y z = true → leb x z = true.
Proof.
  rewrite !leb_key. intros (? & ? & H1) (? & ? & H2). repeat split; try done.
  unfold key_lt in *. lia.
Qed.

Lemma leb_antisym x y : leb x y = true → leb y x = true → eqb x y = true.
Proof.
  rewrite !leb_key, eqb_key. intros (? & ? & H1) (_ & _ & H2).
  repeat split; try done. unfold key_lt in *.
  destruct (key x) as [[a b] c], (key y) as [[a' b'] c']. simpl in *.
  repeat f_equal; lia.
Qed.

Lemma ltb_leb x y : ltb x y = true → leb x y = true.
Proof.
  rewrite ltb_key, leb_key. intros (? & ? & H). repeat split; try done.
  unfold key_lt in *. lia.
Qed.

Lemma ltb_false_leb x y : num x → num y → ltb x y = false → leb y x = true.
Proof.
  intros Hx Hy H. apply leb_key. repeat split; try done.
  intros Hk. assert (ltb x y = true) as E by (apply ltb_key; done).
  congruence.
Qed.

Lemma leb_ltb_false x y : leb y x = true → ltb x y = false.
Proof.
  intros (? & ? & H)%leb_key. destruct (ltb x y) eqn:E; [|done].
  by apply ltb_key in E as (_ & _ & ?).
Qed.

Lemma eqb_refl x : num x → eqb x x = true.
Proof. intros H. by apply eqb_key. Qed.

Lemma eqb_sym x y : eqb x y = eqb y x.
Proof.
  destruct (eqb x y) eqn:E1, (eqb y x) eqn:E2; try done;
    [apply eqb_key in E1 as (? & ? & ?) | apply eqb_key in E2 as (? & ? & ?)];
    [assert (eqb y x = true) by (apply eqb_key; done)
    |assert (eqb x y = true) by (apply eqb_key; done)]; congruence.
Qed.

Lemma nan_ltb_l x : ltb S754_nan x = false.
Proof. unfold ltb, SFltb. by rewrite compare_nan_l. Qed.
Lemma nan_ltb_r x : ltb x S754_nan = false.
Proof. unfold ltb, SFltb. by rewrite compare_nan_r. Qed.
End F64.

(** ** [time.Time] and [time.Duration] *)

Abbreviation Time := Z (only parsing).

Definition zero_time : Time := 0.
Definition IsZero (t : Time) : bool := t =? 0.
Definition Second : Z := 1000000000.
Definition time_add (t : Time) (d : Z) : Time := t + d.
Definition Before (t u : Time) : bool := t <? u.
Definition After (t u : Time) : bool := u <? t.
