(* ===== verification/Structs.v ===== *)
(** * Data model

    The structs of [replicator/structs], the message of [notifier], and the
    fields Replicator reads of the Nomad API objects.  A Go pointer that may be
    nil is an [option]; a Go map is a [gmap]; a string enumeration keeps its
    string constants because the zero value [""] is observable. *)

From S2P Require Import Prelude GoNum.

(** Go's [error]: [None] is nil. Messages keep the constant text of the format. *)
Abbreviation error := string (only parsing).

(** ** String enumerations *)

Definition NodeStatusInit : string := "initializing".
Definition NodeStatusReady : string := "ready".
Definition NodeStatusDown : string := "down".

Definition ScalingDirectionOut : string := "Out".
Definition ScalingDirectionIn : string := "In".
Definition ScalingDirectionNone : string := "None".

Definition ScalingMetricNone : string := "None".
Definition ScalingMetricDisk : string := "Disk".
Definition ScalingMetricMemory : string := "Memory".
Definition ScalingMetricProcessor : string := "CPU".

(** Status strings of the Nomad API the code compares with. *)
Definition AllocClientStatusRunning : string := "running".
Definition AllocClientStatusPending : string := "pending".
Definition AllocDesiredStatusRun : string := "run".
Definition TaskStateRunning : string := "running".
Definition JobStatusRunning : string := "running".
Definition JobStatusDead : string := "dead".
Definition JobTypeSystem : string := "system".
Definition DeploymentStatusRunning : string := "running".
Definition DeploymentStatusPaused : string := "paused".
Definition DeploymentStatusSuccessful : string := "successful".
Definition DeploymentStatusDescriptionPaused : string := "Deployment is paused".

(** ** Nomad API objects (the fields that are read) *)

Record Resources := mkResources {
  res_CPU : option Z;
  res_MemoryMB : option Z;
  res_DiskMB : option Z;
}.

Record Node := mkNode {
  node_ID : string;
  node_Status : string;
  node_Drain : bool;
  node_Meta : gmap string string;
  node_Resources : option Resources;
  node_HTTPAddr : string;
  node_Attributes : gmap string string;
}.

Record NodeListStub := mkNodeListStub {
  nls_ID : string;
  nls_Status : string;
  nls_Drain : bool;
  nls_ModifyIndex : Z;
}.

Record Allocation := mkAllocation {
  al_ID : string;
  al_NodeID : string;
  al_ClientStatus : string;
  al_DesiredStatus : string;
  al_Resources : option Resources;
}.

Record Task := mkTask { task_Resources : option Resources }.

Record TaskGroup := mkTaskGroup {
  tg_Name : option string;
  tg_Count : option Z;
  tg_Tasks : list Task;
  tg_Update : bool;                (* whether the update stanza is present *)
  tg_Meta : gmap string string;
}.

Record Job := mkJob {
  job_ID : option string;
  job_Type : option string;
  job_Status : option string;
  job_TaskGroups : list TaskGroup;
}.

Record JobListStub := mkJobListStub {
  jls_ID : string;
  jls_Status : string;
  jls_ModifyIndex : Z;
}.

(** ** [replicator/structs/nomad.go] *)

Record AllocationResources := mkAllocationResources {
  ar_MemoryMB : Z;
  ar_CPUMHz : Z;
  ar_DiskMB : Z;
  ar_MemoryPercent : float64;
  ar_CPUPercent : float64;
  ar_DiskPercent : float64;
}.

Record ScalingMetric := mkScalingMetric {
  sm_Type : string;
  sm_Capacity : Z;
  sm_Utilization : Z;
}.

Record NodeAllocation := mkNodeAllocation {
  na_NodeID : string;
  na_NodeIP : string;
  na_UsedCapacity : AllocationResources;
}.

Record TaskAllocation := mkTaskAllocation {
  ta_TaskName : string;
  ta_Resources : AllocationResources;
}.

Record ClusterCapacity := mkClusterCapacity {
  cc_NodeCount : Z;
  cc_ScalingMetric : ScalingMetric;
  cc_MaxAllowedUtilization : Z;
  cc_TotalCapacity : AllocationResources;
  cc_UsedCapacity : AllocationResources;
  cc_TaskAllocation : AllocationResources;
  cc_NodeList : list string;
  cc_NodeAllocations : list NodeAllocation;
  cc_ScalingDirection : string;
}.

(** ** [replicator/structs/state.go] *)

Record ScalingState := mkScalingState {
  st_EligibleNodes : list string;
  st_FailsafeAdmin : bool;
  st_FailsafeMode : bool;
  st_FailureCount : Z;
  st_LastNotificationEvent : Time;
  st_LastScalingEvent : Time;
  st_LastUpdated : Time;
  st_ResourceName : string;
  st_ResourceType : string;
  st_ScaleInRequests : Z;
  st_ScaleOutRequests : Z;
  st_ScalingDirection : string;
  st_StatePath : string;
}.

(** ** [replicator/structs/job_scaling.go] *)

Record GroupScalingPolicy := mkGroupScalingPolicy {
  gsp_Cooldown : Z;
  gsp_Enabled : bool;
  gsp_RetryThreshold : Z;
  gsp_GroupName : string;
  gsp_Max : Z;
  gsp_Min : Z;
  gsp_ScaleDirection : string;
  gsp_ScaleInCPU : float64;
  gsp_ScaleInMem : float64;
  gsp_ScalingMetric : string;
  gsp_ScaleOutCPU : float64;
  gsp_ScaleOutMem : float64;
  gsp_Tasks : TaskAllocation;
  gsp_UID : string;
}.

(** ** [replicator/structs/node_discovery.go] *)

(** The dynamic value of a [ScalingProvider] interface field: the only builtin
    provider is the AWS one, which holds the autoscaling service of a region. *)
Inductive ScalingProviderValue := AwsScalingProvider (region : string).

Record WorkerPool := mkWorkerPool {
  wp_Cooldown : Z;
  wp_FaultTolerance : Z;
  wp_Name : string;
  wp_NodeRegistrations : gmap string Time;
  wp_Nodes : gmap string Node;
  wp_NotificationUID : string;
  wp_ProtectedNode : string;
  wp_ProviderName : string;
  wp_Region : string;
  wp_RetryThreshold : Z;
  wp_ScalingEnabled : bool;
  wp_ScalingProvider : option ScalingProviderValue;
  wp_ScalingThreshold : Z;
  wp_State : option ScalingState;
}.

Record NodeRegistry := mkNodeRegistry {
  nr_LastChangeIndex : Z;
  nr_Locked : bool;                (* whether the write lock is held *)
  nr_RegisteredNodes : gmap string string;
  nr_RegisteredNodesHash : Z;
  nr_WorkerPools : gmap string WorkerPool;
}.

Record MostRecentNode := mkMostRecentNode {
  mrn_InstanceID : string;
  mrn_InstanceIP : string;
  mrn_LaunchTime : Time;
  mrn_MostRecentLaunch : Time;
}.

Record LeaderResponse := mkLeaderResponse {
  lr_SessionID : string;
  lr_NodeID : string;
}.

(** ** [notifier/notifier.go] *)

Record FailureMessage := mkFailureMessage {
  fm_AlertUID : string;
  fm_ClusterIdentifier : string;
  fm_Reason : string;
  fm_ResourceID : string;
  fm_ResourceType : string;
  fm_StatePath : string;
}.

(** The dynamic value of a [Notifier] interface: the two backends. *)
Inductive NotifierValue :=
| PagerDutyProvider (config : gmap string string)
| OpsGenieProvider (config : gmap string string).

(** ** [replicator/structs/config.go] *)

Record Telemetry := mkTelemetry { tel_StatsdAddress : string }.

Record Notification := mkNotification {
  not_ClusterIdentifier : string;
  not_PagerDutyServiceKey : string;
  not_OpsGenieAPIKey : string;
  not_Notifiers : list NotifierValue;
}.

(** A [net.TCPAddr] with a textual address. *)
Record TCPAddr := mkTCPAddr { tcp_IP : string; tcp_Port : Z }.

(** The settings an initialised API client was built from. *)
Record ConsulHandle := mkConsulHandle {
  ch_Scheme : string;
  ch_Address : string;
  ch_Token : string;
}.

Record NomadHandle := mkNomadHandle {
  nh_Address : string;
  nh_SecretID : string;
  nh_TLSServerName : string;
}.

Record Config := mkConfig {
  cfg_BindAddress : string;
  cfg_ClusterScalingDisable : bool;
  cfg_ClusterScalingInterval : Z;
  cfg_Consul : string;
  cfg_ConsulClient : option ConsulHandle;
  cfg_ConsulKeyRoot : string;
  cfg_ConsulToken : string;
  cfg_HTTPPort : string;
  cfg_JobScalingDisable : bool;
  cfg_JobScalingInterval : Z;
  cfg_LogLevel : string;
  cfg_Nomad : string;
  cfg_NomadToken : string;
  cfg_NomadTLSServerName : string;
  cfg_NomadClient : option NomadHandle;
  cfg_Notification : option Notification;
  cfg_RPCAddr : option TCPAddr;
  cfg_RPCAdvertise : option TCPAddr;
  cfg_RPCPort : Z;
  cfg_ScalingConcurrency : Z;
  cfg_Telemetry : option Telemetry;
}.

(** ** Eta expansions, for struct updates *)

#[export] Instance eta_TaskGroup : Eta TaskGroup := λ r,
  mkTaskGroup (tg_Name r) (tg_Count r) (tg_Tasks r) (tg_Update r) (tg_Meta r).
#[export] Instance eta_Job : Eta Job := λ r,
  mkJob (job_ID r) (job_Type r) (job_Status r) (job_TaskGroups r).
#[export] Instance eta_AllocationResources : Eta AllocationResources := λ r,
  mkAllocationResources (ar_MemoryMB r) (ar_CPUMHz r) (ar_DiskMB r)
    (ar_MemoryPercent r) (ar_CPUPercent r) (ar_DiskPercent r).
#[export] Instance eta_ScalingMetric : Eta ScalingMetric := λ r,
  mkScalingMetric (sm_Type r) (sm_Capacity r) (sm_Utilization r).
#[export] Instance eta_NodeAllocation : Eta NodeAllocation := λ r,
  mkNodeAllocation (na_NodeID r) (na_NodeIP r) (na_UsedCapacity r).
#[export] Instance eta_TaskAllocation : Eta TaskAllocation := λ r,
  mkTaskAllocation (ta_TaskName r) (ta_Resources r).
#[export] Instance eta_ClusterCapacity : Eta ClusterCapacity := λ r,
  mkClusterCapacity (cc_NodeCount r) (cc_ScalingMetric r)
    (cc_MaxAllowedUtilization r) (cc_TotalCapacity r) (cc_UsedCapacity r)
    (cc_TaskAllocation r) (cc_NodeList r) (cc_NodeAllocations r)
    (cc_ScalingDirection r).
#[export] Instance eta_ScalingState : Eta ScalingState := λ r,
  mkScalingState (st_EligibleNodes r) (st_FailsafeAdmin r) (st_FailsafeMode r)
    (st_FailureCount r) (st_LastNotificationEvent r) (st_LastScalingEvent r)
    (st_LastUpdated r) (st_ResourceName r) (st_ResourceType r)
    (st_ScaleInRequests r) (st_ScaleOutRequests r) (st_ScalingDirection r)
    (st_StatePath r).
#[export] Instance eta_GroupScalingPolicy : Eta GroupScalingPolicy := λ r,
  mkGroupScalingPolicy (gsp_Cooldown r) (gsp_Enabled r) (gsp_RetryThreshold r)
    (gsp_GroupName r) (gsp_Max r) (gsp_Min r) (gsp_ScaleDirection r)
    (gsp_ScaleInCPU r) (gsp_ScaleInMem r) (gsp_ScalingMetric r)
    (gsp_ScaleOutCPU r) (gsp_ScaleOutMem r) (gsp_Tasks r) (gsp_UID r).
#[export] Instance eta_WorkerPool : Eta WorkerPool := λ r,
  mkWorkerPool (wp_Cooldown r) (wp_FaultTolerance r) (wp_Name r)
    (wp_NodeRegistrations r) (wp_Nodes r) (wp_NotificationUID r)
    (wp_ProtectedNode r) (wp_ProviderName r) (wp_Region r) (wp_RetryThreshold r)
    (wp_ScalingEnabled r) (wp_ScalingProvider r) (wp_ScalingThreshold r)
    (wp_State r).
#[export] Instance eta_NodeRegistry : Eta NodeRegistry := λ r,
  mkNodeRegistry (nr_LastChangeIndex r) (nr_Locked r) (nr_RegisteredNodes r)
    (nr_RegisteredNodesHash r) (nr_WorkerPools r).
#[export] Instance eta_MostRecentNode : Eta MostRecentNode := λ r,
  mkMostRecentNode (mrn_InstanceID r) (mrn_InstanceIP r) (mrn_LaunchTime r)
    (mrn_MostRecentLaunch r).
#[export] Instance eta_LeaderResponse : Eta LeaderResponse := λ r,
  mkLeaderResponse (lr_SessionID r) (lr_NodeID r).
#[export] Instance eta_FailureMessage : Eta FailureMessage := λ r,
  mkFailureMessage (fm_AlertUID r) (fm_ClusterIdentifier r) (fm_Reason r)
    (fm_ResourceID r) (fm_ResourceType r) (fm_StatePath r).
#[export] Instance eta_Telemetry : Eta Telemetry := λ r, mkTelemetry (tel_StatsdAddress r).
#[export] Instance eta_Notification : Eta Notification := λ r,
  mkNotification (not_ClusterIdentifier r) (not_PagerDutyServiceKey r)
    (not_OpsGenieAPIKey r) (not_Notifiers r).
#[export] Instance eta_ConsulHandle : Eta ConsulHandle := λ r,
  mkConsulHandle (ch_Scheme r) (ch_Address r) (ch_Token r).
#[export] Instance eta_NomadHandle : Eta NomadHandle := λ r,
  mkNomadHandle (nh_Address r) (nh_SecretID r) (nh_TLSServerName r).
#[export] Instance eta_Config : Eta Config := λ r,
  mkConfig (cfg_BindAddress r) (cfg_ClusterScalingDisable r)
    (cfg_ClusterScalingInterval r) (cfg_Consul r) (cfg_ConsulClient r)
    (cfg_ConsulKeyRoot r) (cfg_ConsulToken r) (cfg_HTTPPort r)
    (cfg_JobScalingDisable r) (cfg_JobScalingInterval r) (cfg_LogLevel r)
    (cfg_Nomad r) (cfg_NomadToken r) (cfg_NomadTLSServerName r)
    (cfg_NomadClient r) (cfg_Notification r) (cfg_RPCAddr r)
    (cfg_RPCAdvertise r) (cfg_RPCPort r) (cfg_ScalingConcurrency r)
    (cfg_Telemetry r).

(** ** Zero values and constructors *)

Definition zero_AllocationResources : AllocationResources :=
  mkAllocationResources 0 0 0 F64.zero F64.zero F64.zero.

Definition zero_ClusterCapacity : ClusterCapacity :=
  mkClusterCapacity 0 (mkScalingMetric "" 0 0) 0 zero_AllocationResources
    zero_AllocationResources zero_AllocationResources [] [] "".

Definition zero_ScalingState : ScalingState :=
  mkScalingState [] false false 0 zero_time zero_time zero_time "" "" 0 0 "" "".

Definition zero_FailureMessage : FailureMessage :=
  mkFailureMessage "" "" "" "" "" "".

(** [NewGroupScalingPolicy] *)
Definition NewGroupScalingPolicy : GroupScalingPolicy :=
  mkGroupScalingPolicy 60 false 1 "" 0 0 "" F64.zero F64.zero "" F64.zero
    F64.zero (mkTaskAllocation "" zero_AllocationResources) "".

(** [NewNodeRegistry] *)
Definition NewNodeRegistry : NodeRegistry := mkNodeRegistry 0 false ∅ 0 ∅.

(** [NewWorkerPool] *)
Definition NewWorkerPool : WorkerPool :=
  mkWorkerPool 300 1 "" ∅ ∅ "" "" "" "" 3 false None 3 None.

(** The zero configuration, [&structs.Config{}]. *)
Definition zero_Config : Config :=
  mkConfig "" false 0 "" None "" "" "" false 0 "" "" "" "" None None None None 0 0 None.
