(* ===== verification/Interfaces.v ===== *)
(** * Interfaces: remote services and the client interfaces of the source

    The Nomad, Consul and AWS APIs and the Go runtime are not part of the
    repository: each is a class of operations over an arbitrary world [W], so a
    call may answer anything and change anything (another goroutine's work
    included).  What the code relies on is a separate class of laws.  The Go
    interfaces [ConsulClient], [NomadClient] and [ScalingProvider] of
    [replicator/structs] are classes too: the server is verified against them
    and the client files provide the instances. *)

From S2P Require Import Prelude GoNum Structs.

(** ** JSON values

    The tree a [[]byte] holding JSON denotes.  A JSON string that is an
    RFC 3339 timestamp is kept as the instant it denotes ([JTime]); [JNum] is an
    integer literal and [JFrac] any other number. *)
#[local] Set Warnings "-register-all".
Inductive json : Type :=
| JNull
| JBool (b : bool)
| JNum (z : Z)
| JFrac (s : string)
| JStr (s : string)
| JTime (t : Time)
| JArr (l : list json)
| JObj (l : list (string * json)).

(** ** The Go runtime *)

Class Runtime (W : Type) := {
  time_Now : M W Time;
  (** the order in which [range] visits the keys of a map *)
  range_keys : list string → M W (list string);
  (** how often the ticker case of a [select] runs before the timeout case *)
  poll_ticks : Z → Z → M W nat;
  os_Getenv : string → M W string;
  (** the [int] conversion of a float that has no [int] value *)
  int_of_float_undefined : float64 → Z;
  (** the text of a JSON timestamp, which depends on the zone of the process *)
  time_text : Time → string;
}.

Class RuntimeLaws (W : Type) {RT : Runtime W} : Prop := {
  time_Now_runs : ∀ w, ∃ t w', time_Now w = (Ret t, w');
  range_keys_perm : ∀ ks w, ∃ l w', range_keys ks w = (Ret l, w') ∧ l ≡ₚ ks;
}.

(** [for k, v := range m]: the entries of [m] in the runtime's order. *)
Definition range_map {W A} `{Runtime W} (m : gmap string A) : M W (list (string * A)) :=
  ks ← range_keys ((map_to_list m).*1);
  mret (omap (λ k, v ← m !! k; Some (k, v)) ks).

Definition Millisecond : Z := 1000000.
Definition Minute : Z := 60 * Second.

(** ** The Nomad HTTP API ([vendor/github.com/hashicorp/nomad/api]) *)

(** [AllocResourceUsage.ResourceUsage]: CPU ticks and resident set size, each
    behind a pointer. *)
Record ResourceUsage := mkResourceUsage {
  ru_CpuTotalTicks : option float64;
  ru_MemoryRSS : option Z;
}.

Record Deployment := mkDeployment { dep_Status : string }.

Class NomadAPI (W : Type) := {
  Jobs_List : Z → M W (error + (list JobListStub * Z));
  Jobs_Info : string → M W (error + Job);
  Jobs_Allocations : string → M W (error + list Allocation);
  Jobs_Register : Job → M W (error + string);
  Jobs_LatestDeployment : string → M W (error + option Deployment);
  Nodes_List : Z → M W (error + (list NodeListStub * Z));
  Nodes_Info : string → M W (error + Node);
  Nodes_Allocations : string → M W (error + list Allocation);
  Nodes_UpdateDrain : string → bool → M W (option error);
  Allocations_Info : string → M W (error + option Allocation);
  Allocations_Stats : Allocation → M W (error + option ResourceUsage);
  Deployments_Info : string → Z → M W (error + (Deployment * Z));
  Evaluations_Info : string → M W (error + string);
}.

(** ** The Consul HTTP API ([vendor/github.com/hashicorp/consul/api]) *)

(** The value is [None] when its bytes are not a JSON document. *)
Record KVPair := mkKVPair {
  kv_Key : string;
  kv_Value : option json;
  kv_Session : string;
}.

Record SessionEntry := mkSessionEntry {
  se_ID : string;
  se_Node : string;
  se_TTL : string;
}.

Class ConsulAPI (W : Type) := {
  KV_Get : string → M W (error + option KVPair);
  KV_Put : KVPair → M W (option error);
  KV_Acquire : KVPair → M W (error + bool);
  KV_Release : KVPair → M W (error + bool);
  Session_Create : string → string → M W (error + string);
  Session_Info : string → M W (error + option SessionEntry);
  Session_Renew : string → M W (error + option SessionEntry);
  Session_Destroy : string → M W (option error);
}.

(** A value that was put is the value read next. *)
Class ConsulKVLaws (W : Type) {CA : ConsulAPI W} : Prop := {
  kv_get_put : ∀ p w w', KV_Put p w = (Ret None, w') →
    ∃ q w2, KV_Get (kv_Key p) w' = (Ret (inr (Some q)), w2) ∧ kv_Value q = kv_Value p;
}.

(** What leader election relies on: a lock on a key belongs to one session at a
    time, [KV().Acquire] succeeds only if the session then holds it, a session
    identifier is never handed out twice and is not empty. *)
Class ConsulLockLaws (W : Type) {CA : ConsulAPI W} := {
  lock_holder : W → string → string;
  issued : W → gset string;
  get_lock : ∀ k w r w', KV_Get k w = (Ret r, w') →
    issued w ⊆ issued w' ∧
    (∀ k', lock_holder w' k' = lock_holder w k') ∧
    (∀ p, r = inr (Some p) → kv_Session p = lock_holder w k);
  info_lock : ∀ s w r w', Session_Info s w = (Ret r, w') →
    issued w ⊆ issued w' ∧ (∀ k', lock_holder w' k' = lock_holder w k');
  acquire_lock : ∀ p w r w', KV_Acquire p w = (Ret r, w') →
    issued w ⊆ issued w' ∧
    (r = inr true → lock_holder w' (kv_Key p) = kv_Session p);
  create_session : ∀ ttl n w r w', Session_Create ttl n w = (Ret r, w') →
    issued w ⊆ issued w' ∧
    (∀ s, r = inr s → s ≠ "" ∧ (s ∉ issued w) ∧ (s ∈ issued w'));
}.

(** ** The AWS API ([vendor/github.com/aws/aws-sdk-go]) *)

Record AutoScalingGroup := mkAutoScalingGroup {
  asg_DesiredCapacity : option Z;
  asg_MaxSize : option Z;
  asg_MinSize : option Z;
  asg_Instances : list string;
  asg_AvailabilityZones : list string;
  asg_TerminationPolicies : list string;
}.

Record Activity := mkActivity {
  act_ActivityId : string;
  act_StatusCode : string;
}.

Record Instance := mkInstance {
  in_InstanceId : string;
  in_PrivateIpAddress : string;
  in_LaunchTime : Time;
}.

Record Filter := mkFilter { fl_Name : string; fl_Values : list string }.

(** Every call is made with the session of a region.  [DescribeAutoScalingGroups]
    returns its output structure together with the error. *)
Class AwsAPI (W : Type) := {
  DescribeAutoScalingGroups : string → string → M W (list AutoScalingGroup * option error);
  UpdateAutoScalingGroup : string → string → Z → list string → list string → M W (option error);
  DetachInstances : string → string → string → M W (error + list Activity);
  DescribeScalingActivities : string → string → M W (error + list Activity);
  DescribeInstances : string → list Filter → M W (error + list (list Instance));
  TerminateInstances : string → string → M W (option error);
  DescribeInstanceStatus : string → string → M W (error + list string);
}.

(** ** Notification backends ([notifier]) *)

Class NotifierAPI (W : Type) := {
  SendNotification : NotifierValue → FailureMessage → M W unit;
}.

(** ** The interfaces of [replicator/structs] *)

Class ConsulClient (W : Type) := {
  ReadState : ScalingState → bool → M W ScalingState;
  PersistState : ScalingState → M W (ScalingState * option error);
  LoadPoolConfig : string → M W (error + gmap string string);
  AcquireLeadership : string → string → M W (bool * string);
  CreateSession : Z → M W (error + string);
  GetLeaderInfo : LeaderResponse → string → string → M W (LeaderResponse * option error);
  ResignLeadership : string → string → M W unit;
}.

(** The counters of a state are Go integers. *)
Record state_ok (st : ScalingState) : Prop := {
  ok_failures : is_int (st_FailureCount st);
  ok_in : is_int (st_ScaleInRequests st);
  ok_out : is_int (st_ScaleOutRequests st);
}.

(** What the scaling loops rely on of the state store: persisting only sets the
    time stamp of the state, and a state that was persisted is what the next
    read of its path returns, the direction excepted. *)
Class StateStoreLaws (W : Type) {CC : ConsulClient W} : Prop := {
  persist_touches : ∀ st (w : W) st' e w', PersistState st w = (Ret (st', e), w') →
    ∃ now, st' = st <| st_LastUpdated := now |>;
  persist_then_read : ∀ st (w : W) st' w' st0 force, state_ok st →
    PersistState st w = (Ret (st', None), w') →
    st_StatePath st0 = st_StatePath st →
    ∃ w2, ReadState st0 force w' =
      (Ret (st' <| st_ScalingDirection := st_ScalingDirection st0 |>), w2);
}.

(** The part of [NomadClient] the scaling loops call; [jobs] is the set of job
    names that have a scaling policy. *)
Class NomadClient (W : Type) := {
  EvaluatePoolScaling : ClusterCapacity → WorkerPool → list string →
    M W (ClusterCapacity * (bool * option error));
  LeastAllocatedNode : ClusterCapacity → string → M W (string * string);
  DrainNode : string → M W (option error);
  NodeReverseLookup : string → M W (string * option error);
  EvaluateJobScaling : string → list GroupScalingPolicy →
    M W (list GroupScalingPolicy * option error);
  JobGroupScale : string → GroupScalingPolicy → ScalingState → M W ScalingState;
  IsJobInDeployment : string → M W bool;
}.

(** [ScalingProvider]: the provider value stored in the pool selects the
    implementation. *)
Class ScalingProvider (W : Type) := {
  SafetyCheck : ScalingProviderValue → WorkerPool → M W bool;
  Scale : ScalingProviderValue → WorkerPool → M W (WorkerPool * option error);
}.

(** The node registry shared by the watcher and the scaling threads. *)
Class RegistryStore (W : Type) := {
  get_registry : M W NodeRegistry;
  put_registry : NodeRegistry → M W unit;
}.

(** Locking a lock that is held never returns, which is recorded as an outcome
    of its own kind beside the run-time panics. *)
Definition blocked : string := "blocked: the registry lock is held".

(** The registry under [RLock]; readers do not exclude each other, so the lock
    is not taken. *)
Definition read_registry {W} `{RegistryStore W} : M W NodeRegistry :=
  reg ← get_registry;
  if nr_Locked reg then go_panic blocked else mret reg.
