(* ===== verification/Frame.v ===== *)
(** * Frame: what a computation leaves alone

    A small program logic for frame conditions.  [keeps R m] says that [m],
    however it ends, takes every world to one that [R] relates it to; with [R]
    a preorder such as "has the same fleet", it is closed under sequencing and
    loops, so that it holds of a whole routine as soon as it holds of the calls
    the routine makes.  The tactic [frame] does that descent; the calls are
    found in the hint database of the same name. *)

From S2P Require Import Prelude Interfaces.

Definition keeps {W A} (R : W → W → Prop) (m : M W A) : Prop := ∀ w, R w (m w).2.

Create HintDb frame.

Section rules.
Context {W : Type} (R : W → W → Prop) {PO : PreOrder R}.

Lemma keeps_run {A} (m : M W A) w o w' : keeps R m → m w = (o, w') → R w w'.
Proof. intros H E. specialize (H w). by rewrite E in H. Qed.

Lemma keeps_ret {A} (a : A) : keeps R (mret a : M W A).
Proof. intros w. simpl. reflexivity. Qed.

Lemma keeps_panic {A} e : keeps R (go_panic e : M W A).
Proof. intros w. simpl. reflexivity. Qed.

Lemma keeps_deref {A} (p : option A) : keeps R (deref p : M W A).
Proof. destruct p; [apply keeps_ret|apply keeps_panic]. Qed.

Lemma keeps_bind {A B} (m : M W A) (f : A → M W B) :
  keeps R m → (∀ a, keeps R (f a)) → keeps R (m ≫= f).
Proof.
  intros Hm Hf w. unfold mbind, M_bind. specialize (Hm w).
  destruct (m w) as [[a|e] w1]; simpl in Hm; [|done]. etrans; [exact Hm|apply Hf].
Qed.

Lemma keeps_for_range {A S T} (body : S → A → M W (loop S T)) l s :
  (∀ s x, keeps R (body s x)) → keeps R (for_range body l s).
Proof.
  intros H. revert s. induction l as [|x l IH]; intros s; simpl; [apply keeps_ret|].
  apply keeps_bind; [done|]. intros [|]; [apply IH|apply keeps_ret].
Qed.

Lemma keeps_poll {S T} n (body : S → M W (loop S T)) timeout s :
  (∀ s, keeps R (body s)) → (∀ s, keeps R (timeout s)) → keeps R (poll n body timeout s).
Proof.
  intros Hb Ht. revert s. induction n as [|n IH]; intros s; simpl; [done|].
  apply keeps_bind; [done|]. intros [|]; [apply IH|apply keeps_ret].
Qed.

Lemma keeps_range_map {A} `{Runtime W} (m : gmap string A) :
  (∀ ks, keeps R (range_keys ks)) → keeps R (range_map m).
Proof. intros Hr. apply keeps_bind; [done|]. intros; apply keeps_ret. Qed.

(** [gated P m]: [m] keeps [R] unless it comes, through worlds that [R] relates,
    to one in which [P] holds. *)
Definition gated {A} (P : W → Prop) (m : M W A) : Prop :=
  ∀ w, R w (m w).2 ∨ ∃ w1, R w w1 ∧ P w1.

Lemma gated_keeps {A} P (m : M W A) : keeps R m → gated P m.
Proof. intros H w. left. apply H. Qed.

Lemma gated_bind {A B} P (m : M W A) (f : A → M W B) :
  gated P m → (∀ a, gated P (f a)) → gated P (m ≫= f).
Proof.
  intros Hm Hf w. unfold mbind, M_bind. destruct (Hm w) as [Hk|?]; [|by right].
  destruct (m w) as [[a|e] w1]; simpl in Hk; [|by left].
  destruct (Hf a w1) as [Hk'|(w2 & Hk' & HP)]; [left|right; exists w2; split; [|done]]; by etrans.
Qed.

Lemma gated_for_range {A S T} P (body : S → A → M W (loop S T)) l s :
  (∀ s x, gated P (body s x)) → gated P (for_range body l s).
Proof.
  intros H. revert s. induction l as [|x l IH]; intros s; simpl; [apply gated_keeps, keeps_ret|].
  apply gated_bind; [done|]. intros [|]; [apply IH|apply gated_keeps, keeps_ret].
Qed.

(** The same from one world, so that [P] may speak of what was answered on the
    way. *)
Definition gated_from {A} (P : W → Prop) (m : M W A) (w : W) : Prop :=
  R w (m w).2 ∨ ∃ w1, R w w1 ∧ P w1.

Lemma gated_from_keeps {A} P (m : M W A) w : keeps R m → gated_from P m w.
Proof. intros H. left. apply H. Qed.

Lemma gated_from_bind {A B} P (m : M W A) (f : A → M W B) w :
  gated_from P m w → (∀ a w', m w = (Ret a, w') → R w w' → gated_from P (f a) w') →
  gated_from P (m ≫= f) w.
Proof.
  intros [Hk|?] Hf; [|by right]. unfold gated_from, mbind, M_bind in *.
  destruct (m w) as [[a|e] w1]; simpl in Hk; [|by left].
  destruct (Hf a w1 eq_refl Hk) as [Hk'|(w2 & Hk' & HP)];
    [left|right; exists w2; split; [|done]]; by etrans.
Qed.

(** A step that is quiet: what it answers and where it leads is known. *)
Lemma gated_from_step {A B} P (m : M W A) (f : A → M W B) w :
  keeps R m → (∀ a w', m w = (Ret a, w') → R w w' → gated_from P (f a) w') →
  gated_from P (m ≫= f) w.
Proof. intros Hm. apply gated_from_bind. by apply gated_from_keeps. Qed.

Lemma gated_from_for_range {A S T} P (body : S → A → M W (loop S T)) l s w :
  (∀ s x w', x ∈ l → R w w' → gated_from P (body s x) w') → gated_from P (for_range body l s) w.
Proof.
  revert s w. induction l as [|x l IH]; intros s w H; simpl; [apply gated_from_keeps, keeps_ret|].
  apply gated_from_bind; [apply H; [left|reflexivity]|].
  intros [s'|r] w' _ HR; [|apply gated_from_keeps, keeps_ret].
  apply IH. intros s'' y w'' Hy HR'. apply H; [by right|by etrans].
Qed.
End rules.

#[export] Hint Resolve keeps_ret keeps_panic keeps_deref : frame.

(** A loop that keeps a predicate of its state ends with a state or with an
    early answer. *)
Definition loop_ok {S R} (P : S → Prop) (Q : R → Prop) (o : loop S R) : Prop :=
  match o with Next s => P s | Return r => Q r end.

(** ** Total runs under an invariant

    [does I m Q]: from every world in which [I] holds, [m] returns a value of
    [Q] in a world in which [I] holds again; it neither panics nor blocks. *)
Definition does {W A} (I : W → Prop) (m : M W A) (Q : A → Prop) : Prop :=
  ∀ w, I w → ∃ a w', m w = (Ret a, w') ∧ I w' ∧ Q a.

Section total.
Context {W : Type} (I : W → Prop).

Lemma does_ret {A} (a : A) (Q : A → Prop) : Q a → does I (mret a) Q.
Proof. intros HQ w HI. by exists a, w. Qed.

Lemma does_bind {A B} (m : M W A) (f : A → M W B) (P : A → Prop) (Q : B → Prop) :
  does I m P → (∀ a, P a → does I (f a) Q) → does I (m ≫= f) Q.
Proof.
  intros Hm Hf w HI. destruct (Hm w HI) as (a & w1 & E & HI1 & HP).
  rewrite (bind_run _ _ _ _ _ E). by apply Hf.
Qed.

Lemma does_weaken {A} (m : M W A) (P Q : A → Prop) : does I m P → (∀ a, P a → Q a) → does I m Q.
Proof. intros Hm HPQ w HI. destruct (Hm w HI) as (a & w1 & E & HI1 & HP). eauto 6. Qed.

Lemma does_for_range {A S R} (body : S → A → M W (loop S R)) l s :
  (∀ s x, does I (body s x) (λ _, True)) → does I (for_range body l s) (λ _, True).
Proof.
  intros H. revert s. induction l as [|x l IH]; intros s; simpl; [by apply does_ret|].
  eapply does_bind; [apply H|]. intros [|] _; [apply IH|by apply does_ret].
Qed.

Lemma does_for_range_ok {A S R} (X : A → Prop) (P : S → Prop) (Q : R → Prop)
    (body : S → A → M W (loop S R)) l s :
  (∀ s x, P s → X x → does I (body s x) (loop_ok P Q)) → Forall X l → P s →
  does I (for_range body l s) (loop_ok P Q).
Proof.
  intros Hb Hl. revert s. induction Hl as [|x l Hx Hl IH]; intros s Hs; simpl; [by apply does_ret|].
  eapply does_bind; [by apply Hb|]. intros [s'|r] Ho; [by apply IH|by apply does_ret].
Qed.
End total.

(** ** The values a computation returns

    [yields m Q]: every value that [m] returns satisfies [Q]. *)
Definition yields {W A} (m : M W A) (Q : A → Prop) : Prop := ∀ w a w', m w = (Ret a, w') → Q a.

Section values.
Context {W : Type}.

Lemma yields_ret {A} (a : A) (Q : A → Prop) : Q a → yields (mret a : M W A) Q.
Proof. intros HQ w a' w' [= <- _]. done. Qed.

Lemma yields_any {A} (m : M W A) : yields m (λ _, True).
Proof. done. Qed.

Lemma yields_bind {A B} (m : M W A) (f : A → M W B) (P : A → Prop) (Q : B → Prop) :
  yields m P → (∀ a, P a → yields (f a) Q) → yields (m ≫= f) Q.
Proof. intros Hm Hf w b w' H. go_inv. eapply Hf; [|done]. by eapply Hm. Qed.
End values.

(** A computation whose continuation depends on the value it is given. *)
Lemma keeps_bind_yields {W A B} (R : W → W → Prop) {PO : PreOrder R} (m : M W A) (f : A → M W B) (P : A → Prop) :
  keeps R m → yields m P → (∀ a, P a → keeps R (f a)) → keeps R (m ≫= f).
Proof.
  intros Hm Hy Hf w. unfold mbind, M_bind. specialize (Hm w). destruct (m w) as [[a|e] w1] eqn:E; simpl in Hm; [|done].
  etrans; [exact Hm|]. eapply Hf, Hy, E.
Qed.

(** One syntactic step, then the calls of the hint database. *)
Ltac frame_step :=
  match goal with
  | |- keeps _ (mret _) => refine (keeps_ret _ _)
  | |- keeps _ (go_panic _) => refine (keeps_panic _ _)
  | |- keeps _ (deref _) => refine (keeps_deref _ _)
  | |- keeps _ (_ ≫= _) => refine (keeps_bind _ _ _ _ _); [|intros]
  | |- keeps _ (for_range _ _ _) => refine (keeps_for_range _ _ _ _ _); intros
  | |- keeps _ (poll _ _ _ _) => refine (keeps_poll _ _ _ _ _ _ _); intros
  | |- keeps _ (range_map _) => refine (keeps_range_map _ _ _); intros
  | |- keeps _ (let '_ := ?x in _) => destruct x
  | |- keeps _ (match ?x with _ => _ end) => destruct x
  | |- keeps _ (if ?x then _ else _) => destruct x
  | |- keeps _ (let x := _ in _) => cbv zeta
  | |- keeps _ _ => solve [eauto 3 with frame]
  end.

Ltac frame := intros; repeat (frame_step; cbn beta iota).

Ltac gated_step :=
  match goal with
  | H : gated _ _ ?m |- gated _ _ ?m => exact H
  | |- gated _ _ (_ ≫= _) => refine (gated_bind _ _ _ _ _ _); [|intros]
  | |- gated _ _ (for_range _ _ _) => refine (gated_for_range _ _ _ _ _ _); intros
  | |- gated _ _ (let '_ := ?x in _) => destruct x
  | |- gated _ _ (match ?x with _ => _ end) => destruct x
  | |- gated _ _ (if ?x then _ else _) => destruct x
  | |- gated _ _ _ => refine (gated_keeps _ _ _ _); solve [frame]
  | |- gated _ _ _ => solve [eauto 3 with frame]
  end.

Ltac gated := intros; repeat (gated_step; cbn beta iota).
