(* ===== verification/Sim.v ===== *)
(** * A simulated environment

    A concrete world in which every remote service answers from finite maps:
    the Consul store and sessions, the Nomad jobs, nodes and allocations, one
    AWS region, the node registry and a clock that advances at each reading.
    It inhabits the interfaces of [Interfaces.v] and their laws, and is where
    the general theorems are exercised on concrete inputs. *)

From S2P Require Import Prelude GoNum Structs Interfaces.

Record world := mkworld {
  sim_clock : Time;
  sim_ticks : nat;
  sim_env : gmap string string;
  sim_kv : gmap string KVPair;
  sim_sessions : gmap string SessionEntry;
  sim_next_session : nat;
  sim_jobs : gmap string Job;
  sim_job_allocs : gmap string (list Allocation);
  sim_registered : list Job;
  sim_nodes : gmap string Node;
  sim_node_allocs : gmap string (list Allocation);
  sim_asgs : gmap string AutoScalingGroup;
  sim_instances : list Instance;
  sim_terminated : list string;
  sim_detached : list string;
  sim_sent : list (NotifierValue * FailureMessage);
  sim_registry : NodeRegistry;
}.

#[export] Instance eta_world : Eta world := λ r,
  mkworld (sim_clock r) (sim_ticks r) (sim_env r) (sim_kv r) (sim_sessions r)
    (sim_next_session r) (sim_jobs r) (sim_job_allocs r) (sim_registered r)
    (sim_nodes r) (sim_node_allocs r) (sim_asgs r) (sim_instances r)
    (sim_terminated r) (sim_detached r) (sim_sent r) (sim_registry r).

Definition sim0 : world :=
  mkworld 1000000000000 3 ∅ ∅ ∅ 1 ∅ ∅ [] ∅ ∅ ∅ [] [] [] [] NewNodeRegistry.

(** A read-only answer. *)
Definition ask {A} (f : world → A) : M world A := λ w, (Ret (f w), w).
Definition tell (f : world → world) : M world unit := λ w, (Ret tt, f w).

Definition or_404 {A} (o : option A) : error + A :=
  match o with Some a => inr a | None => inl "Unexpected response code: 404" end.

#[export] Instance sim_runtime : Runtime world := {
  time_Now := λ w, (Ret (sim_clock w), w <| sim_clock ::= λ t, t + Second |>);
  range_keys := λ ks, mret ks;
  poll_ticks := λ _ _, ask sim_ticks;
  os_Getenv := λ k, ask (λ w, default "" (sim_env w !! k));
  int_of_float_undefined := λ _, min_int;
  time_text := λ t, pretty t;
}.

#[export] Instance sim_runtime_laws : RuntimeLaws world.
Proof. split; intros; simpl; eauto. Qed.

#[export] Instance sim_nomad : NomadAPI world := {
  Jobs_List := λ _, mret (inr ([], 1));
  Jobs_Info := λ n, ask (λ w, or_404 (sim_jobs w !! n));
  Jobs_Allocations := λ n, ask (λ w, or_404 (sim_job_allocs w !! n));
  Jobs_Register := λ j, _ ← tell (λ w, w <| sim_registered ::= cons j |>); mret (inr "eval-1");
  Jobs_LatestDeployment := λ _, mret (inr None);
  Nodes_List := λ _, ask (λ w, inr ((λ '(_, n), mkNodeListStub (node_ID n) (node_Status n)
                                       (node_Drain n) 1) <$> map_to_list (sim_nodes w), 1));
  Nodes_Info := λ n, ask (λ w, or_404 (sim_nodes w !! n));
  Nodes_Allocations := λ n, ask (λ w, inr (default [] (sim_node_allocs w !! n)));
  Nodes_UpdateDrain := λ n d,
    _ ← tell (λ w, w <| sim_nodes ::= alter (λ x, mkNode (node_ID x) (node_Status x) d
      (node_Meta x) (node_Resources x) (node_HTTPAddr x) (node_Attributes x)) n |>);
    mret None;
  Allocations_Info := λ a, ask (λ w,
    match List.find (λ x, String.eqb (al_ID x) a) (concat (map_to_list (sim_node_allocs w)).*2) with
    | Some x => inr (Some x)
    | None => inl "Unexpected response code: 404"
    end);
  Allocations_Stats := λ a, mret (inl "no statistics");
  Deployments_Info := λ _ _, mret (inr (mkDeployment DeploymentStatusSuccessful, 2));
  Evaluations_Info := λ _, mret (inr "deployment-1");
}.

Definition fresh_session (n : nat) : string := "session-" +:+ pretty n.

#[export] Instance sim_consul : ConsulAPI world := {
  KV_Get := λ k, ask (λ w, inr (sim_kv w !! k));
  KV_Put := λ p, _ ← tell (λ w, w <| sim_kv ::= <[kv_Key p := p]> |>); mret None;
  KV_Acquire := λ p w,
    match sim_kv w !! kv_Key p with
    | Some q =>
        if String.eqb (kv_Session q) "" || String.eqb (kv_Session q) (kv_Session p)
        then (Ret (inr true), w <| sim_kv ::= <[kv_Key p := p]> |>)
        else (Ret (inr false), w)
    | None => (Ret (inr true), w <| sim_kv ::= <[kv_Key p := p]> |>)
    end;
  KV_Release := λ p w,
    match sim_kv w !! kv_Key p with
    | Some q =>
        if String.eqb (kv_Session q) (kv_Session p)
        then (Ret (inr true), w <| sim_kv ::= <[kv_Key p := mkKVPair (kv_Key p) (kv_Value p) ""]> |>)
        else (Ret (inr false), w)
    | None => (Ret (inr false), w)
    end;
  Session_Create := λ ttl name w,
    let s := fresh_session (sim_next_session w) in
    (Ret (inr s), w <| sim_next_session ::= S |>
                    <| sim_sessions ::= <[s := mkSessionEntry s "sim-node" ttl]> |>);
  Session_Info := λ s, ask (λ w, inr (sim_sessions w !! s));
  Session_Renew := λ s, ask (λ w, inr (sim_sessions w !! s));
  Session_Destroy := λ s, _ ← tell (λ w, w <| sim_sessions ::= delete s |>); mret None;
}.

#[export] Instance sim_aws : AwsAPI world := {
  DescribeAutoScalingGroups := λ _ n, ask (λ w,
    match sim_asgs w !! n with Some g => ([g], None) | None => ([], None) end);
  UpdateAutoScalingGroup := λ _ n d _ _,
    _ ← tell (λ w, w <| sim_asgs ::= alter (λ g, mkAutoScalingGroup (Some d) (asg_MaxSize g)
      (asg_MinSize g) (asg_Instances g ++ ["i-new"]) (asg_AvailabilityZones g)
      (asg_TerminationPolicies g)) n |>);
    mret None;
  DetachInstances := λ _ _ i,
    _ ← tell (λ w, w <| sim_detached ::= cons i |>);
    mret (inr [mkActivity "activity-1" "Successful"]);
  DescribeScalingActivities := λ _ _, mret (inr [mkActivity "activity-1" "Successful"]);
  DescribeInstances := λ _ _, ask (λ w, inr [sim_instances w]);
  TerminateInstances := λ _ i,
    _ ← tell (λ w, w <| sim_terminated ::= cons i |>); mret None;
  DescribeInstanceStatus := λ _ _, mret (inr ["terminated"]);
}.

#[export] Instance sim_notifier : NotifierAPI world := {
  SendNotification := λ n m, tell (λ w, w <| sim_sent ::= λ l, l ++ [(n, m)] |>);
}.

#[export] Instance sim_registry_store : RegistryStore world := {
  get_registry := ask sim_registry;
  put_registry := λ r, tell (λ w, w <| sim_registry := r |>);
}.

(** ** A small cluster

    Three nodes of 10000 MHz, 8000 MB and 100000 MB of disk; the first one runs
    an allocation, the second a smaller one, the third none. *)

Definition sim_resources (cpu mem disk : Z) : option Resources :=
  Some (mkResources (Some cpu) (Some mem) (Some disk)).

Definition sim_node (id ip : string) : Node :=
  mkNode id NodeStatusReady false ∅ (sim_resources 10000 8000 100000)
    (ip +:+ ":4646") {[ "unique.network.ip-address" := ip ]}.

Definition sim_alloc (id node : string) (cpu mem disk : Z) : Allocation :=
  mkAllocation id node AllocClientStatusRunning AllocDesiredStatusRun
    (sim_resources cpu mem disk).

Definition node1 : Node := sim_node "node-1" "10.0.0.1".
Definition node2 : Node := sim_node "node-2" "10.0.0.2".
Definition node3 : Node := sim_node "node-3" "10.0.0.3".

Definition pool_nodes : gmap string Node :=
  {[ "node-1" := node1; "node-2" := node2; "node-3" := node3 ]}.

Definition sim_pool : WorkerPool :=
  NewWorkerPool <| wp_Name := "pool" |> <| wp_Nodes := pool_nodes |>
    <| wp_NodeRegistrations := {[ "node-1" := 5; "node-2" := 6; "node-3" := 7 ]} |>
    <| wp_ProviderName := "aws" |> <| wp_Region := "us-east-1" |>
    <| wp_ScalingEnabled := true |> <| wp_NotificationUID := "REP2" |>
    <| wp_ScalingProvider := Some (AwsScalingProvider "us-east-1") |>.

Definition sim_cluster : world :=
  sim0 <| sim_nodes := pool_nodes |>
       <| sim_node_allocs := {[ "node-1" := [sim_alloc "a1" "node-1" 1500 400 300];
                                "node-2" := [sim_alloc "a2" "node-2" 500 100 100];
                                "node-3" := [sim_alloc "a3" "node-3" 100 50 50] ]} |>
       <| sim_asgs := {[ "pool" := mkAutoScalingGroup (Some 3) (Some 5) (Some 1)
                                     ["i-1"; "i-2"; "i-3"] ["us-east-1a"] ["Default"] ]} |>
       <| sim_instances := [mkInstance "i-9" "10.0.0.1" 1000000000000] |>
       <| sim_registry := NewNodeRegistry
            <| nr_RegisteredNodes := {[ "node-1" := "pool"; "node-2" := "pool"; "node-3" := "pool" ]} |>
            <| nr_WorkerPools := {[ "pool" := sim_pool ]} |> |>.

(** The value and the world of a run that returns. *)
Definition run_value {W A} (d : A) (m : M W A) (w : W) : A :=
  match (m w).1 with Ret a => a | Panic _ => d end.
Definition run_world {W A} (m : M W A) (w : W) : W := (m w).2.

Definition run_ok {W A} (m : M W A) (w : W) : bool :=
  match (m w).1 with Ret _ => true | Panic _ => false end.

Lemma run_eq {W A} (d : A) (m : M W A) (w : W) :
  run_ok m w = true → m w = (Ret (run_value d m w), run_world m w).
Proof. unfold run_ok, run_value, run_world. by destruct (m w) as [[]]. Qed.
