(* ===== verification/Helper.v ===== *)
(** * Helpers ([helper/funcs.go]) and percentages ([dariubs/percent]) *)

From Stdlib Require Import Ascii.
From S2P Require Import Prelude GoNum Structs Interfaces.

(** [percent.PercentOf]: [float64(current) * 100 / float64(all)]. *)
Definition PercentOf (current all : Z) : float64 :=
  F64.div (F64.mul (F64.of_int current) (F64.of_int 100)) (F64.of_int all).

(** [helper.Max]: the first value, then a left fold; the call with no argument
    indexes an empty slice. *)
Definition Max (values : list float64) : option float64 :=
  match values with
  | [] => None
  | v :: vs => Some (fold_left (λ max i, if F64.gtb i max then i else max) vs v)
  end.

Definition Min (values : list float64) : option float64 :=
  match values with
  | [] => None
  | v :: vs => Some (fold_left (λ min i, if F64.ltb i min then i else min) vs v)
  end.

Fixpoint StringInSlice (a : string) (l : list string) : bool :=
  match l with
  | [] => false
  | b :: l' => if String.eqb b a then true else StringInSlice a l'
  end.

Definition ParseMetaConfig (meta : gmap string string) (reqKeys : list string)
    : list string :=
  fold_left (λ missing reqKey,
    match meta !! reqKey with
    | Some _ => missing
    | None => missing ++ [reqKey]
    end) reqKeys [].

(** [helper.HasObjectChanged] over a hashing function ([hashstructure.Hash]). *)
Definition HasObjectChanged {A} (Hash : A → error + Z) (objectA objectB : A)
    : bool * option error :=
  match Hash objectA with
  | inl _ => (false, Some "error hashing first object")
  | inr objectAHash =>
      match Hash objectB with
      | inl _ => (false, Some "error hashing second object")
      | inr objectBHash => (negb (objectAHash =? objectBHash), None)
      end
  end.

(** ** [helper.FindIP]

    The pattern is four [numBlock]s separated by dots.  Go's [FindString] takes
    the leftmost match and, at that position, the first alternative that lets
    the whole pattern match: [numBlock s] lists what each way of matching the
    block leaves of [s], in the order of preference. *)

Definition in_range (lo hi : ascii) (c : ascii) : bool :=
  ((Ascii.N_of_ascii lo <=? Ascii.N_of_ascii c) &&
   (Ascii.N_of_ascii c <=? Ascii.N_of_ascii hi))%N.

(** One character of a class. *)
Definition chr (p : ascii → bool) (s : string) : list string :=
  match s with
  | String c s' => if p c then [s'] else []
  | EmptyString => []
  end.

Definition is_char (c : ascii) : ascii → bool := Ascii.eqb c.

(** [(25[0-5]|2[0-4][0-9]|1[0-9][0-9]|[1-9]?[0-9])] *)
Definition numBlock (s : string) : list string :=
  (s1 ← chr (is_char "2") s; s2 ← chr (is_char "5") s1; chr (in_range "0" "5") s2) ++
  (s1 ← chr (is_char "2") s; s2 ← chr (in_range "0" "4") s1; chr (in_range "0" "9") s2) ++
  (s1 ← chr (is_char "1") s; s2 ← chr (in_range "0" "9") s1; chr (in_range "0" "9") s2) ++
  (s1 ← chr (in_range "1" "9") s; chr (in_range "0" "9") s1) ++
  chr (in_range "0" "9") s.

Definition regexPattern (s : string) : list string :=
  s1 ← numBlock s; s2 ← chr (is_char ".") s1;
  s3 ← numBlock s2; s4 ← chr (is_char ".") s3;
  s5 ← numBlock s4; s6 ← chr (is_char ".") s5;
  numBlock s6.

(** The text between a match's start and what it leaves. *)
Definition matched (s rest : string) : string :=
  String.substring 0 (String.length s - String.length rest) s.

Fixpoint FindIP (input : string) : string :=
  match head (regexPattern input) with
  | Some rest => matched input rest
  | None =>
      match input with
      | EmptyString => ""
      | String _ input' => FindIP input'
      end
  end.

(** ** Polling the node registry *)

Section polling.
Context {W : Type} `{Runtime W, RegistryStore W}.

(** The lookup made at each tick of [FindNodeByAddress]. *)
Definition findByAddress (nodes : list (string * Node)) (nodeAddress : string) : bool :=
  existsb (λ '(_, nodeRecord), String.eqb (FindIP (node_HTTPAddr nodeRecord)) nodeAddress)
    nodes.

Definition FindNodeByAddress (workerPoolName nodeAddress : string) : M W bool :=
  n ← poll_ticks (10 * Second) (5 * Minute);
  poll n (λ _ : unit,
    reg ← read_registry;
    workerPool ← deref (nr_WorkerPools reg !! workerPoolName);
    nodes ← range_map (wp_Nodes workerPool);
    mret (if findByAddress nodes nodeAddress then Return true else Next tt))
    (λ _, mret false) tt.

(** One pass over the registrations, tracking the most recent one. *)
Definition trackMostRecent (t : MostRecentNode) (r : string * Time) : MostRecentNode :=
  if After r.2 (mrn_MostRecentLaunch t)
  then t <| mrn_MostRecentLaunch := r.2 |> <| mrn_InstanceID := r.1 |>
  else t.

Definition FindNodeByRegistrationTime (workerPoolName : string)
    : M W (string * option error) :=
  now ← time_Now;
  let launchThreshold := time_add now (-60 * Second) in
  n ← poll_ticks (10 * Second) (5 * Minute);
  poll n (λ instanceTracking,
    reg ← read_registry;
    workerPool ← deref (nr_WorkerPools reg !! workerPoolName);
    regs ← range_map (wp_NodeRegistrations workerPool);
    let instanceTracking := fold_left trackMostRecent regs instanceTracking in
    mret (if After (mrn_MostRecentLaunch instanceTracking) launchThreshold
          then Return (mrn_InstanceID instanceTracking, None)
          else Next instanceTracking))
    (λ _, mret ("", Some "timeout reached while attempting to determine the most recently launched node"))
    (mkMostRecentNode "" "" zero_time zero_time).
End polling.

(** ** Lemmas *)

Section max_min.
Implicit Types (l : list float64).

Lemma fold_max_in l v : fold_left (λ max i, if F64.gtb i max then i else max) l v ∈ v :: l.
Proof.
  revert v. induction l as [|x l IH]; intros v; simpl; [set_solver|].
  specialize (IH (if F64.gtb x v then x else v)).
  destruct (F64.gtb x v); set_solver.
Qed.

Lemma fold_max_ge l v :
  F64.num v → Forall F64.num l →
  F64.leb v (fold_left (λ max i, if F64.gtb i max then i else max) l v) = true ∧
  Forall (λ x, F64.leb x (fold_left (λ max i, if F64.gtb i max then i else max) l v) = true) l.
Proof.
  revert v. induction l as [|x l IH]; intros v Hv Hl; simpl.
  { split; [by apply F64.leb_refl | done]. }
  inversion Hl as [|?? Hx Hl']; subst.
  destruct (F64.gtb x v) eqn:E; unfold F64.gtb in E.
  - destruct (IH x Hx Hl') as [H1 H2]. split; [|by constructor].
    eapply F64.leb_trans; [by apply F64.ltb_leb | done].
  - destruct (IH v Hv Hl') as [H1 H2]. split; [done|]. constructor; [|done].
    eapply F64.leb_trans; [|done]. by apply F64.ltb_false_leb.
Qed.
End max_min.

Lemma StringInSlice_spec a l : StringInSlice a l = true ↔ a ∈ l.
Proof.
  induction l as [|b l IH]; simpl; [set_solver|].
  destruct (String.eqb_spec b a) as [->|Hne]; [set_solver|].
  rewrite IH, elem_of_cons. naive_solver.
Qed.

Lemma ParseMetaConfig_filter meta reqKeys :
  ParseMetaConfig meta reqKeys = filter (λ k, meta !! k = None) reqKeys.
Proof.
  unfold ParseMetaConfig.
  enough (∀ acc, fold_left (λ missing reqKey,
    match meta !! reqKey with Some _ => missing | None => missing ++ [reqKey] end)
    reqKeys acc = acc ++ filter (λ k, meta !! k = None) reqKeys) as H by apply H.
  induction reqKeys as [|k ks IH]; intros acc; simpl.
  { by rewrite app_nil_r. }
  rewrite filter_cons, IH. destruct (meta !! k) eqn:E; case_decide; try done.
  by rewrite <-(assoc_L (++)).
Qed.
