(* ===== verification/Nomad.v ===== *)
(** * Nomad client: metrics, node selection, draining ([client/nomad.go])

    The methods of [nomadClient] that read the cluster: the most-utilized
    resource, the least-allocated node, the utilization ceiling, the drain and
    health polling loops and the evaluation of a job group. *)

From S2P Require Import Prelude GoNum Structs Interfaces Helper.

Section nomad.
Context {W : Type} `{Runtime W, NomadAPI W}.

Definition NodeReverseLookup_impl (allocID : string) : M W (string * option error) :=
  r ← Allocations_Info allocID;
  match r with
  | inl err => mret ("", Some err)
  | inr resp =>
      resp ← deref resp;
      if (String.length (al_NodeID resp) =? 0)%nat
      then mret ("", Some "The node reverse lookup returned an empty result")
      else mret (al_NodeID resp, None)
  end.

Definition set_metric_type (alloc : ClusterCapacity) (t : string) : ClusterCapacity :=
  alloc <| cc_ScalingMetric ::= λ m, m <| sm_Type := t |> |>.

Definition MostUtilizedResource (alloc : ClusterCapacity) : ClusterCapacity :=
  let u := cc_UsedCapacity alloc in
  match Max [ar_CPUPercent u; ar_MemoryPercent u; ar_DiskPercent u] with
  | None => alloc
  | Some max =>
      if F64.eqb max F64.zero then set_metric_type alloc ScalingMetricNone
      else if F64.eqb max (ar_CPUPercent u) then set_metric_type alloc ScalingMetricProcessor
      else if F64.eqb max (ar_DiskPercent u) then set_metric_type alloc ScalingMetricDisk
      else if F64.eqb max (ar_MemoryPercent u) then set_metric_type alloc ScalingMetricMemory
      else alloc
  end.

Definition MostUtilizedGroupResource (gsp : GroupScalingPolicy) : GroupScalingPolicy :=
  let r := ta_Resources (gsp_Tasks gsp) in
  match Max [ar_CPUPercent r; ar_MemoryPercent r] with
  | None => gsp
  | Some max =>
      if F64.eqb max (ar_CPUPercent r) then gsp <| gsp_ScalingMetric := ScalingMetricProcessor |>
      else if F64.eqb max (ar_MemoryPercent r) then gsp <| gsp_ScalingMetric := ScalingMetricMemory |>
      else gsp
  end.

(** One iteration of the loop of [LeastAllocatedNode] over
    [(lowest, nodeID)]. *)
Definition leastAllocatedStep (metric protectedNode : string)
    (acc : float64 * string) (alloc : NodeAllocation) : float64 * string :=
  let '(lowest, nodeID) := acc in
  let u := na_UsedCapacity alloc in
  let consider (pct : float64) :=
    if F64.eqb lowest F64.zero || F64.ltb pct lowest
    then (pct, na_NodeID alloc) else (lowest, nodeID) in
  if String.eqb (na_NodeID alloc) protectedNode then acc
  else if String.eqb metric ScalingMetricProcessor then consider (ar_CPUPercent u)
  else if String.eqb metric ScalingMetricMemory then consider (ar_MemoryPercent u)
  else if String.eqb metric ScalingMetricDisk then consider (ar_DiskPercent u)
  else if String.eqb metric ScalingMetricNone then (lowest, na_NodeID alloc)
  else acc.

Definition leastAllocated (capacity : ClusterCapacity) (protectedNode : string)
    : float64 * string :=
  fold_left (leastAllocatedStep (sm_Type (cc_ScalingMetric capacity)) protectedNode)
    (cc_NodeAllocations capacity) (F64.zero, "").

Definition LeastAllocatedNode_impl (capacity : ClusterCapacity) (protectedNode : string)
    : M W (string * string) :=
  let nodeID := (leastAllocated capacity protectedNode).2 in
  r ← Nodes_Info nodeID;
  match r with
  | inl _ => mret (nodeID, "")
  | inr resp =>
      mret (nodeID, default "" (node_Attributes resp !! "unique.network.ip-address"))
  end.

(** The number of allocations that are running or pending. *)
Definition activeAllocations (allocations : list Allocation) : nat :=
  length (filter (λ nodeAlloc,
    Is_true (String.eqb (al_ClientStatus nodeAlloc) AllocClientStatusRunning ||
             String.eqb (al_ClientStatus nodeAlloc) AllocClientStatusPending)) allocations).

Definition DrainNode_impl (nodeID : string) : M W (option error) :=
  err ← Nodes_UpdateDrain nodeID true;
  match err with
  | Some e => mret (Some e)
  | None =>
      r ← Nodes_Info nodeID;
      match r with
      | inl e => mret (Some e)
      | inr resp =>
          if negb (node_Drain resp) then mret None
          else
            n ← poll_ticks (500 * Millisecond) (3 * Minute);
            poll n (λ _ : unit,
              r ← Nodes_Allocations nodeID;
              mret (match r with
                    | inl e => Return (Some e)
                    | inr allocations =>
                        if (activeAllocations allocations =? 0)%nat
                        then Return None else Next tt
                    end))
              (λ _, mret None) tt
      end
  end.

(** [*task.Resources.CPU] and its siblings: two dereferences. *)
Definition resource (field : Resources → option Z) (r : option Resources) : M W Z :=
  r ← deref r; deref (field r).

Definition set_resources (f : AllocationResources → AllocationResources)
    (gsp : GroupScalingPolicy) : GroupScalingPolicy :=
  gsp <| gsp_Tasks ::= λ t, t <| ta_Resources ::= f |> |>.

Definition GetTaskGroupResources (jobName : string) (groupPolicy : GroupScalingPolicy)
    : M W (GroupScalingPolicy * option error) :=
  r ← Jobs_Info jobName;
  match r with
  | inl err => mret (groupPolicy, Some err)
  | inr job =>
      let groupPolicy := set_resources (λ r, r <| ar_CPUMHz := 0 |> <| ar_MemoryMB := 0 |>)
                           groupPolicy in
      o ← for_range (λ gp task,
            cpu ← resource res_CPU (task_Resources task);
            let gp := set_resources (λ r, r <| ar_CPUMHz ::= λ x, x +! cpu |>) gp in
            mem ← resource res_MemoryMB (task_Resources task);
            mret (Next (set_resources (λ r, r <| ar_MemoryMB ::= λ x, x +! mem |>) gp)))
          (g ← job_TaskGroups job; tg_Tasks g) groupPolicy;
      match o with
      | Next gp => mret (gp, None)
      | Return r => mret r
      end
  end.

Definition bytesPerMegabyte : Z := 1024000.

Definition GetAllocationStats (allocation : Allocation) (scalingPolicy : GroupScalingPolicy)
    : M W (float64 * float64) :=
  r ← Allocations_Stats allocation;
  match r with
  | inl _ => mret (F64.zero, F64.zero)
  | inr usage =>
      usage ← deref usage;
      ticks ← deref (ru_CpuTotalTicks usage);
      rss ← deref (ru_MemoryRSS usage);
      let policy := ta_Resources (gsp_Tasks scalingPolicy) in
      let ticks := default (int_of_float_undefined ticks) (F64.floor_int ticks) in
      mret (PercentOf ticks (ar_CPUMHz policy),
            PercentOf (wrap (rss / bytesPerMegabyte)) (ar_MemoryMB policy))
  end.

Definition isRunning (a : Allocation) : bool :=
  String.eqb (al_ClientStatus a) AllocClientStatusRunning &&
  String.eqb (al_DesiredStatus a) AllocDesiredStatusRun.

(** One iteration of [GetJobAllocations] over the running totals. *)
Definition jobAllocationStep (gsp : GroupScalingPolicy)
    (acc : float64 * float64 * Z) (allocationStub : Allocation)
    : M W (loop (float64 * float64 * Z) unit) :=
  let '(cpuPercentAll, memPercentAll, nAllocs) := acc in
  if isRunning allocationStub then
    r ← Allocations_Info (al_ID allocationStub);
    match r with
    | inr (Some alloc) =>
        '(cpuPercent, memPercent) ← GetAllocationStats alloc gsp;
        mret (Next (F64.add cpuPercentAll cpuPercent, F64.add memPercentAll memPercent,
                    nAllocs +! 1))
    | _ => mret (Next acc)
    end
  else mret (Next acc).

Definition GetJobAllocations (allocs : list Allocation) (gsp : GroupScalingPolicy)
    : M W GroupScalingPolicy :=
  o ← for_range (jobAllocationStep gsp) allocs (F64.zero, F64.zero, 0);
  match o with
  | Return _ => mret gsp
  | Next (cpuPercentAll, memPercentAll, nAllocs) =>
      mret (if 0 <? nAllocs
            then set_resources (λ r, r
                   <| ar_CPUPercent := F64.div cpuPercentAll (F64.of_int nAllocs) |>
                   <| ar_MemoryPercent := F64.div memPercentAll (F64.of_int nAllocs) |>) gsp
            else set_resources (λ r, r <| ar_CPUPercent := F64.zero |>
                                       <| ar_MemoryPercent := F64.zero |>) gsp)
  end.

(** The direction chosen for a group once its utilization is known. *)
Definition groupDirection (gsp : GroupScalingPolicy) : GroupScalingPolicy :=
  let r := ta_Resources (gsp_Tasks gsp) in
  let gsp := gsp <| gsp_ScaleDirection := ScalingDirectionNone |> in
  let gsp :=
    if String.eqb (gsp_ScalingMetric gsp) ScalingMetricProcessor then
      if F64.gtb (ar_CPUPercent r) (gsp_ScaleOutCPU gsp)
      then gsp <| gsp_ScaleDirection := ScalingDirectionOut |> else gsp
    else if String.eqb (gsp_ScalingMetric gsp) ScalingMetricMemory then
      if F64.gtb (ar_MemoryPercent r) (gsp_ScaleOutMem gsp)
      then gsp <| gsp_ScaleDirection := ScalingDirectionOut |> else gsp
    else gsp in
  if F64.ltb (ar_CPUPercent r) (gsp_ScaleInCPU gsp) &&
     F64.ltb (ar_MemoryPercent r) (gsp_ScaleInMem gsp)
  then gsp <| gsp_ScaleDirection := ScalingDirectionIn |> else gsp.

(** The body of the loop of [EvaluateJobScaling]. *)
Definition evaluateGroup (jobName : string) (gsp : GroupScalingPolicy)
    : M W (GroupScalingPolicy * option error) :=
  '(gsp, err) ← GetTaskGroupResources jobName gsp;
  match err with
  | Some e => mret (gsp, Some e)
  | None =>
      r ← Jobs_Allocations jobName;
      match r with
      | inl e => mret (gsp, Some e)
      | inr allocs =>
          gsp ← GetJobAllocations allocs gsp;
          mret (groupDirection (MostUtilizedGroupResource gsp), None)
      end
  end.

(** The policies are updated in place; an error leaves the rest untouched. *)
Fixpoint EvaluateJobScaling_impl (jobName : string) (policies : list GroupScalingPolicy)
    : M W (list GroupScalingPolicy * option error) :=
  match policies with
  | [] => mret ([], None)
  | gsp :: rest =>
      '(gsp, err) ← evaluateGroup jobName gsp;
      match err with
      | Some e => mret (gsp :: rest, Some e)
      | None =>
          '(rest, err) ← EvaluateJobScaling_impl jobName rest;
          mret (gsp :: rest, err)
      end
  end.

(** The scan of the node list in [VerifyNodeHealth]: a node whose details
    cannot be read leaves [resp] nil. *)
Definition healthScan (nodeIP : string) (nodes : list NodeListStub)
    : M W (loop unit bool) :=
  for_range (λ _ node,
    if negb (String.eqb (nls_Status node) "ready") then mret (Next tt)
    else
      r ← Nodes_Info (nls_ID node);
      resp ← deref (match r with inl _ => None | inr resp => Some resp end);
      mret (if String.eqb (default "" (node_Attributes resp !! "unique.network.ip-address")) nodeIP
            then Return true else Next tt)) nodes tt.

Definition VerifyNodeHealth (nodeIP : string) : M W bool :=
  n ← poll_ticks (10 * Second) (5 * Minute);
  poll n (λ _ : unit,
    r ← Nodes_List 0;
    match r with
    | inl _ => mret (Return false)
    | inr (nodes, _) => healthScan nodeIP nodes
    end)
    (λ _, mret false) tt.

(** [MaxAllowedClusterUtilization]: any metric but memory uses the CPU. *)
Definition MaxAllowedClusterUtilization (capacity : ClusterCapacity)
    (nodeFaultTolerance : Z) (scaleIn : bool) : M W Z :=
  let mem := String.eqb (sm_Type (cc_ScalingMetric capacity)) ScalingMetricMemory in
  let allocTotal := if mem then ar_MemoryMB (cc_TaskAllocation capacity)
                    else ar_CPUMHz (cc_TaskAllocation capacity) in
  let capacityTotal := if mem then ar_MemoryMB (cc_TotalCapacity capacity)
                       else ar_CPUMHz (cc_TotalCapacity capacity) in
  nodeAvgAlloc ← iquot capacityTotal (cc_NodeCount capacity);
  let capacityTotal := if scaleIn then capacityTotal -! nodeAvgAlloc else capacityTotal in
  mret ((capacityTotal -! allocTotal) -! (nodeAvgAlloc *! nodeFaultTolerance)).

End nomad.
