(* ===== verification/PoolEval.v ===== *)
(** * Worker pool evaluation ([client/cluster_scaling.go])

    [EvaluatePoolScaling] computes the capacity and consumption of a worker
    pool, the reserve for job scaling and the utilization ceiling, and decides
    whether the pool should be scaled and whether that is safe. *)

From S2P Require Import Prelude GoNum Structs Interfaces Helper Nomad.

Section pool_eval.
Context {W : Type} `{Runtime W, NomadAPI W}.

Definition scaleInCapacityThreshold : float64 := F64.of_int 90.

(** [capacity.X.CPUMHz += a] and its siblings, on the three amounts of a
    resource record. *)
Definition add_amounts (cpu mem disk : Z) (r : AllocationResources) : AllocationResources :=
  r <| ar_CPUMHz ::= λ x, x +! cpu |> <| ar_MemoryMB ::= λ x, x +! mem |>
    <| ar_DiskMB ::= λ x, x +! disk |>.

(** The three dereferences of a resource record, in the order of the code. *)
Definition amounts (r : option Resources) : M W (Z * Z * Z) :=
  cpu ← resource res_CPU r; mem ← resource res_MemoryMB r;
  disk ← resource res_DiskMB r;
  mret (cpu, mem, disk).

Definition calculatePoolCapacity (capacity : ClusterCapacity) (workerPool : WorkerPool)
    : M W (ClusterCapacity * option error) :=
  nodes ← range_map (wp_Nodes workerPool);
  o ← for_range (λ capacity '(_, node),
        let capacity := capacity <| cc_NodeCount ::= λ n, n +! 1 |>
                                 <| cc_NodeList ::= λ l, l ++ [node_ID node] |> in
        '(cpu, mem, disk) ← amounts (node_Resources node);
        mret (Next (capacity <| cc_TotalCapacity ::= add_amounts cpu mem disk |>)))
      nodes capacity;
  match o with
  | Next capacity => mret (capacity, None)
  | Return r => mret r
  end.

(** The percentages of [CalculateUsage]. *)
Definition CalculateUsage (clusterInfo : ClusterCapacity) : ClusterCapacity :=
  let total := cc_TotalCapacity clusterInfo in
  let used := cc_UsedCapacity clusterInfo in
  let percents (u all : AllocationResources) := u
    <| ar_CPUPercent := PercentOf (ar_CPUMHz u) (ar_CPUMHz all) |>
    <| ar_DiskPercent := PercentOf (ar_DiskMB u) (ar_DiskMB all) |>
    <| ar_MemoryPercent := PercentOf (ar_MemoryMB u) (ar_MemoryMB all) |> in
  clusterInfo
    <| cc_UsedCapacity ::= λ u, percents u total |>
    <| cc_NodeAllocations ::= map (λ nodeUsage,
         nodeUsage <| na_UsedCapacity ::= λ u, percents u used |>) |>.

(** One allocation of a node: the pool total and the node's record grow by the
    same amounts. *)
Definition consumeStep (acc : ClusterCapacity * NodeAllocation) (nodeAlloc : Allocation)
    : M W (loop (ClusterCapacity * NodeAllocation) (ClusterCapacity * option error)) :=
  let '(capacity, nodeInfo) := acc in
  if String.eqb (al_ClientStatus nodeAlloc) TaskStateRunning &&
     String.eqb (al_DesiredStatus nodeAlloc) AllocDesiredStatusRun
  then
    '(cpu, mem, disk) ← amounts (al_Resources nodeAlloc);
    mret (Next (capacity <| cc_UsedCapacity ::= add_amounts cpu mem disk |>,
                nodeInfo <| na_UsedCapacity ::= add_amounts cpu mem disk |>))
  else mret (Next acc).

(** One node of the pool. *)
Definition consumeNode (capacity : ClusterCapacity) (node : string)
    : M W (loop ClusterCapacity (ClusterCapacity * option error)) :=
  r ← Nodes_Allocations node;
  match r with
  | inl err => mret (Return (capacity, Some err))
  | inr allocations =>
      o ← for_range consumeStep allocations
            (capacity, mkNodeAllocation node "" zero_AllocationResources);
      mret (match o with
            | Next (capacity, nodeInfo) =>
                Next (capacity <| cc_NodeAllocations ::= λ l, l ++ [nodeInfo] |>)
            | Return r => Return r
            end)
  end.

Definition calculatePoolConsumed (capacity : ClusterCapacity) (workerPool : WorkerPool)
    : M W (ClusterCapacity * option error) :=
  nodes ← range_map (wp_Nodes workerPool);
  o ← for_range consumeNode (nodes.*1) capacity;
  match o with
  | Next capacity => mret (CalculateUsage capacity, None)
  | Return r => mret r
  end.

(** Whether a running allocation of the job sits on a node of the pool. *)
Definition placed (workerPool : WorkerPool) (alloc : Allocation) : bool :=
  isRunning alloc && bool_decide (is_Some (wp_Nodes workerPool !! al_NodeID alloc)).

Definition checkJobPlacement (job : string) (workerPool : WorkerPool) : M W bool :=
  r ← Jobs_Allocations job;
  match r with
  | inl _ => mret false
  | inr allocs => mret (existsb (placed workerPool) allocs)
  end.

Definition reserveJob (workerPool : WorkerPool) (capacity : ClusterCapacity) (jobName : string)
    : M W (loop ClusterCapacity (ClusterCapacity * option error)) :=
  ok ← checkJobPlacement jobName workerPool;
  if negb ok then mret (Next capacity)
  else
    r ← Jobs_Info jobName;
    match r with
    | inl err => mret (Return (capacity, Some err))
    | inr job =>
        for_range (λ capacity task,
          '(cpu, mem, disk) ← amounts (task_Resources task);
          mret (Next (capacity <| cc_TaskAllocation ::= add_amounts cpu mem disk |>)))
        (g ← job_TaskGroups job; tg_Tasks g) capacity
    end.

(** [jobs] are the keys of [jobs.Policies]. *)
Definition calculateScalingReserve (capacity : ClusterCapacity) (jobs : list string)
    (workerPool : WorkerPool) : M W (ClusterCapacity * option error) :=
  jobs ← range_keys jobs;
  o ← for_range (reserveJob workerPool) jobs capacity;
  match o with
  | Next capacity => mret (capacity, None)
  | Return r => mret r
  end.

(** The capacity and utilization of the prioritized metric. *)
Definition setScalingMetric (capacity : ClusterCapacity) : ClusterCapacity :=
  let mem := String.eqb (sm_Type (cc_ScalingMetric capacity)) ScalingMetricMemory in
  let pick (r : AllocationResources) := if mem then ar_MemoryMB r else ar_CPUMHz r in
  capacity <| cc_ScalingMetric ::= λ m, m
    <| sm_Capacity := pick (cc_TotalCapacity capacity) |>
    <| sm_Utilization := pick (cc_UsedCapacity capacity) |> |>.

Definition clusterScalingRequired (capacity : ClusterCapacity) (workerPool : WorkerPool)
    : ClusterCapacity * bool :=
  let capacity := setScalingMetric capacity in
  let metric := cc_ScalingMetric capacity in
  let max := cc_MaxAllowedUtilization capacity in
  let capacity :=
    if (sm_Utilization metric <? max) || String.eqb (sm_Type metric) ScalingMetricNone
    then capacity <| cc_ScalingDirection := ScalingDirectionIn |> else capacity in
  let capacity :=
    if (max <=? sm_Utilization metric) && negb (String.eqb (sm_Type metric) ScalingDirectionNone)
    then capacity <| cc_ScalingDirection := ScalingDirectionOut |> else capacity in
  (capacity, negb (String.eqb (cc_ScalingDirection capacity) ScalingDirectionNone)).

(** The utilization the safety check compares: zero for the disk metric and
    for [None]. *)
Definition poolUsedCapacity (capacity : ClusterCapacity) : Z :=
  let metric := sm_Type (cc_ScalingMetric capacity) in
  if String.eqb metric ScalingMetricProcessor then ar_CPUMHz (cc_UsedCapacity capacity)
  else if String.eqb metric ScalingMetricMemory then ar_MemoryMB (cc_UsedCapacity capacity)
  else 0.

Definition ClusterScalingSafe (capacity : ClusterCapacity) (workerPool : WorkerPool)
    : M W bool :=
  if String.eqb (cc_ScalingDirection capacity) ScalingDirectionIn then
    newMaxAllowedUtilization ←
      MaxAllowedClusterUtilization capacity (wp_FaultTolerance workerPool) true;
    let newClusterUtilization :=
      PercentOf (poolUsedCapacity capacity) newMaxAllowedUtilization in
    mret (negb ((newMaxAllowedUtilization <=? poolUsedCapacity capacity) ||
                F64.geb newClusterUtilization scaleInCapacityThreshold))
  else mret true.

Definition EvaluatePoolScaling_impl (capacity : ClusterCapacity) (workerPool : WorkerPool)
    (jobs : list string) : M W (ClusterCapacity * (bool * option error)) :=
  '(capacity, err) ← calculatePoolCapacity capacity workerPool;
  match err with
  | Some _ => mret (capacity, (false, err))
  | None =>
  '(capacity, err) ← calculatePoolConsumed capacity workerPool;
  match err with
  | Some _ => mret (capacity, (false, err))
  | None =>
  '(capacity, err) ← calculateScalingReserve capacity jobs workerPool;
  match err with
  | Some _ => mret (capacity, (false, err))
  | None =>
  let capacity := MostUtilizedResource capacity in
  max ← MaxAllowedClusterUtilization capacity (wp_FaultTolerance workerPool) false;
  let capacity := capacity <| cc_MaxAllowedUtilization := max |> in
  let '(capacity, scale) := clusterScalingRequired capacity workerPool in
  if negb scale then mret (capacity, (scale, None))
  else
    scale ← ClusterScalingSafe capacity workerPool;
    mret (capacity, (scale, None))
  end end end.

End pool_eval.
