(* ===== verification/PoolEvalFacts.v ===== *)
(** * Worker pool evaluation: what it guarantees

    The accounting of the pool (totals are the sums over nodes, whatever order
    the map is visited in), the ceiling, the decision and the safety margin of
    a scale-in, and the choice of the node to remove. *)

From S2P Require Import Prelude GoNum Structs Interfaces Sim Helper Nomad PoolEval.

(** ** The three resources *)

Inductive res_kind := KCpu | KMem | KDisk.

Definition get_amount (k : res_kind) (r : AllocationResources) : Z :=
  match k with KCpu => ar_CPUMHz r | KMem => ar_MemoryMB r | KDisk => ar_DiskMB r end.

Definition pick_amount (k : res_kind) (cpu mem disk : Z) : Z :=
  match k with KCpu => cpu | KMem => mem | KDisk => disk end.

(** The amount of a Nomad resource record, zero when it is absent. *)
Definition res_amount (k : res_kind) (r : option Resources) : Z :=
  match r with
  | None => 0
  | Some r => default 0 (match k with KCpu => res_CPU r | KMem => res_MemoryMB r | KDisk => res_DiskMB r end)
  end.

Lemma get_add_amounts k cpu mem disk r :
  get_amount k (add_amounts cpu mem disk r) = get_amount k r +! pick_amount k cpu mem disk.
Proof. by destruct k. Qed.

Lemma wrap_wrap z : wrap (wrap z) = wrap z.
Proof. apply wrap_id, wrap_range. Qed.

Lemma wrap_add_r a b : wrap (a + wrap b) = wrap (a + b).
Proof. rewrite Z.add_comm, wrap_add_l. f_equal; lia. Qed.

Section facts.
Context {W : Type} `{RT : Runtime W, NA : NomadAPI W}.
Implicit Types (w : W) (c : ClusterCapacity).

Lemma amounts_inv r w cpu mem disk w' k :
  amounts r w = (Ret (cpu, mem, disk), w') →
  pick_amount k cpu mem disk = res_amount k r.
Proof.
  unfold amounts, resource. intros H.
  destruct r as [[[] [] []]|]; go_inv; simplify_eq/=; by destruct k.
Qed.

Lemma range_map_inv {A} `{!RuntimeLaws W} (m : gmap string A) w l w' :
  range_map m w = (Ret l, w') → l ≡ₚ map_to_list m.
Proof.
  unfold range_map. intros H. go_inv.
  destruct (range_keys_perm (map_to_list m).*1 w) as (l' & w2 & E' & Hp).
  rewrite E' in E. simplify_eq. rewrite Hp.
  enough (omap (λ k, v ← m !! k; Some (k, v)) (map_to_list m).*1 = map_to_list m) as -> by done.
  assert (∀ l : list (string * A), l ⊆ map_to_list m →
    omap (λ k, v ← m !! k; Some (k, v)) l.*1 = l) as Hgen; [|by apply Hgen].
  induction l as [|[k v] l IH]; intros Hsub; simpl; [done|].
  assert (m !! k = Some v) as -> by (apply elem_of_map_to_list, Hsub; left). simpl.
  f_equal. apply IH. intros x Hx. apply Hsub. by right.
Qed.

(** ** Accounting *)

(** Visiting the nodes one by one keeps the totals equal to the sums over the
    nodes already visited. *)
Lemma pool_capacity_run `{!RuntimeLaws W} c pool w c' e w' k :
  calculatePoolCapacity c pool w = (Ret (c', e), w') →
  is_int (get_amount k (cc_TotalCapacity c)) → is_int (cc_NodeCount c) →
  e = None ∧
  cc_NodeCount c' = wrap (cc_NodeCount c + Z.of_nat (size (wp_Nodes pool))) ∧
  cc_NodeList c' ≡ₚ cc_NodeList c ++ (node_ID ∘ snd <$> map_to_list (wp_Nodes pool)) ∧
  get_amount k (cc_TotalCapacity c') =
    wrap (get_amount k (cc_TotalCapacity c) +
          sumZ (λ n, res_amount k (node_Resources n.2)) (map_to_list (wp_Nodes pool))) ∧
  cc_UsedCapacity c' = cc_UsedCapacity c ∧ cc_TaskAllocation c' = cc_TaskAllocation c ∧
  cc_NodeAllocations c' = cc_NodeAllocations c.
Proof.
  unfold calculatePoolCapacity. intros H Hi Hn. go_inv_step.
  apply range_map_inv in E. go_inv_step.
  eapply (for_range_inv _ _ _ _ _ _ (λ done s,
    cc_NodeCount s = wrap (cc_NodeCount c + Z.of_nat (length done)) ∧
    cc_NodeList s = cc_NodeList c ++ (node_ID ∘ snd <$> done) ∧
    get_amount k (cc_TotalCapacity s) = wrap (get_amount k (cc_TotalCapacity c) +
          sumZ (λ n, res_amount k (node_Resources n.2)) done) ∧
    cc_UsedCapacity s = cc_UsedCapacity c ∧ cc_TaskAllocation s = cc_TaskAllocation c ∧
    cc_NodeAllocations s = cc_NodeAllocations c) (λ _, False)) in E0.
  - destruct r0 as [s|]; [|done]. go_inv.
    destruct E0 as (Hc & Hl & Ht & Hu & Ha & Hna).
    rewrite <-length_map_to_list, <-(Permutation_length E).
    repeat split; try done.
    + by rewrite Hl, E.
    + by rewrite Ht, (sumZ_perm _ _ _ E).
  - simpl. rewrite app_nil_r, !Z.add_0_r, !wrap_id by done. done.
  - clear H. intros done [i node] s1 wa o1 wb _ (Hc & Hl & Ht & ?) Hb. go_inv.
    simpl. repeat split; try tauto.
    + rewrite Hc. unfold iadd. rewrite wrap_add_l, length_app. simpl. f_equal. lia.
    + rewrite Hl, fmap_app, <-app_assoc. done.
    + rewrite get_add_amounts, Ht. unfold iadd. rewrite wrap_add_l, sumZ_app. simpl.
      erewrite amounts_inv by done. f_equal. lia.
Qed.

(** One allocation adds the same amounts to the pool and to the node. *)
Lemma consume_node_run c node w o w' k :
  consumeNode c node w = (Ret o, w') →
  match o with
  | Next c' => ∃ nodeInfo,
      cc_NodeAllocations c' = cc_NodeAllocations c ++ [nodeInfo] ∧
      na_NodeID nodeInfo = node ∧
      wrap (get_amount k (cc_UsedCapacity c')) =
        wrap (get_amount k (cc_UsedCapacity c) + get_amount k (na_UsedCapacity nodeInfo)) ∧
      cc_TotalCapacity c' = cc_TotalCapacity c ∧ cc_NodeCount c' = cc_NodeCount c ∧
      cc_TaskAllocation c' = cc_TaskAllocation c
  | Return (_, e) => is_Some e
  end.
Proof.
  unfold consumeNode. intros H. go_inv_step. destruct r as [err|allocs]; [by go_inv|].
  go_inv_step.
  eapply (for_range_inv _ _ _ _ _ _ (λ _ s,
    cc_NodeAllocations s.1 = cc_NodeAllocations c ∧ na_NodeID s.2 = node ∧
    wrap (get_amount k (cc_UsedCapacity s.1)) =
      wrap (get_amount k (cc_UsedCapacity c) + get_amount k (na_UsedCapacity s.2)) ∧
    cc_TotalCapacity s.1 = cc_TotalCapacity c ∧ cc_NodeCount s.1 = cc_NodeCount c ∧
      cc_TaskAllocation s.1 = cc_TaskAllocation c) (λ _, False)) in E0.
  - destruct r as [[c1 ni]|]; [|done]. destruct E0 as (Hna & Hid & Hu & ? & ? & ?).
    simpl in *. go_inv. exists ni. simpl. rewrite Hna. done.
  - simpl. repeat split; try done. destruct k; simpl; by rewrite Z.add_0_r.
  - clear H. intros _ a [s ni] wa o1 wb _ (Hna & Hid & Hu & ?) Hb. unfold consumeStep in Hb.
    go_inv; [|done]. simpl in *. repeat split; try tauto.
    rewrite !get_add_amounts. unfold iadd. rewrite wrap_wrap, wrap_add_r, <-wrap_add_l, Hu.
    rewrite wrap_add_l. f_equal. lia.
Qed.

Lemma pool_consumed_run `{!RuntimeLaws W} c pool w c' w' k :
  calculatePoolConsumed c pool w = (Ret (c', None), w') →
  cc_NodeAllocations c = [] → get_amount k (cc_UsedCapacity c) = 0 →
  (na_NodeID <$> cc_NodeAllocations c') ≡ₚ (map_to_list (wp_Nodes pool)).*1 ∧
  wrap (get_amount k (cc_UsedCapacity c')) =
    wrap (sumZ (λ n, get_amount k (na_UsedCapacity n)) (cc_NodeAllocations c')) ∧
  cc_TotalCapacity c' = cc_TotalCapacity c ∧ cc_NodeCount c' = cc_NodeCount c ∧
  cc_TaskAllocation c' = cc_TaskAllocation c.
Proof.
  unfold calculatePoolConsumed. intros H Hna0 Hu0. go_inv_step.
  apply range_map_inv in E. go_inv_step.
  eapply (for_range_inv _ _ _ _ _ _ (λ done s,
    (na_NodeID <$> cc_NodeAllocations s) = done ∧
    wrap (get_amount k (cc_UsedCapacity s)) =
      wrap (sumZ (λ n, get_amount k (na_UsedCapacity n)) (cc_NodeAllocations s)) ∧
    cc_TotalCapacity s = cc_TotalCapacity c ∧ cc_NodeCount s = cc_NodeCount c ∧
    cc_TaskAllocation s = cc_TaskAllocation c) (λ r, is_Some r.2)) in E0.
  - destruct r0 as [s|[]]; go_inv; [|by destruct E0].
    destruct E0 as (Hid & Hu & ? & ? & ?). unfold CalculateUsage. simpl.
    rewrite <-list_fmap_compose, sumZ_fmap.
    repeat split; try done.
    replace (na_NodeID ∘ _) with na_NodeID by done. by rewrite Hid, E.
  - by rewrite Hna0, Hu0.
  - intros done x s1 wa o1 wb _ (Hid & Hu & Ht & Hc & Ha) Hb.
    apply (consume_node_run _ _ _ _ _ k) in Hb. destruct o1 as [s2|[]]; [|done].
    destruct Hb as (ni & Hna & Hx & Hu' & -> & -> & ->). rewrite Hna, fmap_app. csimpl. rewrite Hid, Hx.
    repeat split; try done. rewrite Hu', <-wrap_add_l, Hu, wrap_add_l, sumZ_app. simpl.
    f_equal. lia.
Qed.

(** ** The utilization ceiling *)

(** The resource the decision is based on: memory for the memory metric, CPU
    for every other one. *)
Definition metric_kind c : res_kind :=
  if String.eqb (sm_Type (cc_ScalingMetric c)) ScalingMetricMemory then KMem else KCpu.

Definition total c : Z := get_amount (metric_kind c) (cc_TotalCapacity c).
Definition used c : Z := get_amount (metric_kind c) (cc_UsedCapacity c).
Definition reserve c : Z := get_amount (metric_kind c) (cc_TaskAllocation c).
Definition node_average c : Z := total c / cc_NodeCount c.

(** Amounts for which the 64-bit arithmetic of the ceiling does not wrap. *)
Definition no_overflow c (faultTolerance : Z) : Prop :=
  0 < cc_NodeCount c ∧ 0 ≤ total c ≤ 2 ^ 61 ∧ 0 ≤ reserve c ≤ 2 ^ 61 ∧
  0 ≤ faultTolerance ∧ node_average c * faultTolerance ≤ 2 ^ 61.

(** The abstract ceiling: what is left of the pool once the reserve and the
    nodes that may fail are set aside, after removing a node for a scale-in. *)
Definition ceiling c (faultTolerance : Z) (scaleIn : bool) : Z :=
  total c - (if scaleIn then node_average c else 0) - reserve c
  - node_average c * faultTolerance.

Lemma max_allowed_run c ft scaleIn w :
  no_overflow c ft →
  MaxAllowedClusterUtilization c ft scaleIn w = (Ret (ceiling c ft scaleIn), w).
Proof.
  intros (Hn & Ht & Hr & Hf & Hm). unfold MaxAllowedClusterUtilization, ceiling.
  assert (0 ≤ node_average c ≤ total c) as Ha.
  { unfold node_average. split; [by apply Z.div_pos; lia|]. apply Z.div_le_upper_bound; nia. }
  replace (if String.eqb _ _ then ar_MemoryMB (cc_TotalCapacity c) else _) with (total c)
    by (unfold total, metric_kind; by destruct (String.eqb _ _)).
  replace (if String.eqb _ _ then ar_MemoryMB (cc_TaskAllocation c) else _) with (reserve c)
    by (unfold reserve, metric_kind; by destruct (String.eqb _ _)).
  assert (iquot (W:=W) (total c) (cc_NodeCount c) w = (Ret (node_average c), w)) as Hq.
  { unfold iquot. destruct (Z.eqb_spec (cc_NodeCount c) 0); [lia|].
    rewrite Z.quot_div_nonneg by lia. unfold mret, M_ret. fold (node_average c).
    rewrite wrap_id; [done|]. unfold is_int, min_int, max_int. lia. }
  rewrite (bind_run _ _ _ _ _ Hq). unfold mret, M_ret. f_equal. f_equal.
  assert (0 ≤ node_average c * ft) as Hp by nia.
  rewrite (imul_id (node_average c) ft) by (unfold is_int, min_int, max_int; lia).
  set (t' := if scaleIn then total c -! node_average c else total c).
  assert (t' = total c - (if scaleIn then node_average c else 0)) as Ht'.
  { subst t'. destruct scaleIn; [|lia].
    apply isub_id. unfold is_int, min_int, max_int. lia. }
  assert (0 ≤ t' ≤ 2 ^ 61) by (rewrite Ht'; destruct scaleIn; lia).
  rewrite (isub_id t' (reserve c)), isub_id by (unfold is_int, min_int, max_int; lia).
  rewrite Ht'. done.
Qed.

Lemma max_allowed_no_nodes c ft scaleIn w :
  cc_NodeCount c = 0 →
  MaxAllowedClusterUtilization c ft scaleIn w = (Panic "integer divide by zero", w).
Proof.
  intros Hn. unfold MaxAllowedClusterUtilization. erewrite bind_panic; [done|].
  unfold iquot. by rewrite Hn.
Qed.

(** ** The decision *)

Lemma scaling_required_run c pool :
  let c' := setScalingMetric c in
  clusterScalingRequired c pool =
  (c' <| cc_ScalingDirection :=
     if (used c <? cc_MaxAllowedUtilization c)
        || String.eqb (sm_Type (cc_ScalingMetric c)) ScalingMetricNone
     then ScalingDirectionIn else ScalingDirectionOut |>, true).
Proof.
  unfold clusterScalingRequired. simpl.
  replace (if String.eqb _ ScalingMetricMemory then _ else _) with (used c)
    by (unfold used, metric_kind; by destruct (String.eqb _ _)).
  unfold ScalingDirectionNone, ScalingMetricNone.
  destruct (Z.ltb_spec (used c) (cc_MaxAllowedUtilization c)),
    (Z.leb_spec (cc_MaxAllowedUtilization c) (used c)); try lia;
    destruct (String.eqb (sm_Type (cc_ScalingMetric c)) "None"); reflexivity.
Qed.

Lemma evaluate_inv c pool jobs w c' scale w' :
  EvaluatePoolScaling_impl c pool jobs w = (Ret (c', (scale, None)), w') →
  ∃ c3 max w3 w4,
    MaxAllowedClusterUtilization c3 (wp_FaultTolerance pool) false w3 = (Ret max, w4) ∧
    c' = (setScalingMetric (c3 <| cc_MaxAllowedUtilization := max |>))
           <| cc_ScalingDirection :=
              if (used c3 <? max) || String.eqb (sm_Type (cc_ScalingMetric c3)) ScalingMetricNone
              then ScalingDirectionIn else ScalingDirectionOut |> ∧
    ClusterScalingSafe c' pool w4 = (Ret scale, w').
Proof.
  unfold EvaluatePoolScaling_impl. intros H. go_inv_step.
  destruct r as [c1 [e1|]]; [by go_inv|]. go_inv_step.
  destruct r as [c2 [e2|]]; [by go_inv|]. go_inv_step.
  destruct r as [c3 [e3|]]; [by go_inv|]. go_inv_step.
  rewrite scaling_required_run in H. cbn beta iota delta [negb] in H. go_inv_step.
  apply mret_inv in H as [[= <- <-] <-].
  do 4 eexists. split; [exact E2|]. split; [reflexivity|exact E3].
Qed.

(** The three amounts and the ceiling are unchanged by the decision fields. *)
Lemma decision_amounts c max d ft :
  let c' := (setScalingMetric (c <| cc_MaxAllowedUtilization := max |>))
              <| cc_ScalingDirection := d |> in
  used c' = used c ∧ total c' = total c ∧ reserve c' = reserve c ∧
  node_average c' = node_average c ∧ (no_overflow c' ft ↔ no_overflow c ft) ∧
  ∀ scaleIn, ceiling c' ft scaleIn = ceiling c ft scaleIn.
Proof. done. Qed.
End facts.

Section claims.
Context {W : Type} `{RT : Runtime W, NA : NomadAPI W}.

(** C1. Safety of a cluster scale-in.  When [EvaluatePoolScaling] asks for a
    scale-in of a pool whose prioritized metric is CPU or memory, the pool,
    after losing one average node, still covers the current utilization, the
    scaling reserve of the jobs and the configured number of failing nodes;
    provided that the pool has a node, that the total, the reserve and the part
    set aside for failing nodes are between 0 and [2^61], and that the fault
    tolerance is not negative, so that no sum overflows. *)
Theorem evaluate_scale_in_margin c pool jobs (w : W) c' w' :
  EvaluatePoolScaling_impl c pool jobs w = (Ret (c', (true, None)), w') →
  cc_ScalingDirection c' = ScalingDirectionIn →
  sm_Type (cc_ScalingMetric c') = ScalingMetricProcessor ∨
  sm_Type (cc_ScalingMetric c') = ScalingMetricMemory →
  no_overflow c' (wp_FaultTolerance pool) →
  used c' + reserve c' + node_average c' * (wp_FaultTolerance pool + 1) < total c'.
Proof.
  intros (c3 & max & w3 & w4 & _ & _ & Hs)%evaluate_inv Hd Ht Hno.
  unfold ClusterScalingSafe in Hs. rewrite Hd, String.eqb_refl in Hs.
  rewrite (bind_run _ _ _ _ _ (max_allowed_run c' _ true w4 Hno)) in Hs. go_inv.
  apply negb_true_iff, orb_false_iff in H as [Hlt%Z.leb_gt _].
  replace (poolUsedCapacity c') with (used c') in Hlt.
  - unfold ceiling in Hlt. lia.
  - unfold used, metric_kind, poolUsedCapacity. by destruct Ht as [-> | ->].
Qed.

(** C26. The scaling decision.  A pool evaluation that succeeds stores the
    ceiling (capacity less reserve less fault tolerance), asks for a scale-in
    exactly when utilization is below it (or nothing is used) and for a
    scale-out otherwise; a scale-out is never vetoed.  The pool has a node, its
    total, its reserve and the part set aside for failing nodes are between 0
    and [2^61], and its fault tolerance is not negative, so that no sum
    overflows. *)
Theorem evaluate_decision c pool jobs (w : W) c' scale w' :
  EvaluatePoolScaling_impl c pool jobs w = (Ret (c', (scale, None)), w') →
  no_overflow c' (wp_FaultTolerance pool) →
  cc_MaxAllowedUtilization c' = ceiling c' (wp_FaultTolerance pool) false ∧
  (cc_ScalingDirection c' = ScalingDirectionIn ∧
     (used c' < ceiling c' (wp_FaultTolerance pool) false ∨
      sm_Type (cc_ScalingMetric c') = ScalingMetricNone) ∨
   cc_ScalingDirection c' = ScalingDirectionOut ∧ scale = true ∧
     ceiling c' (wp_FaultTolerance pool) false ≤ used c' ∧
     sm_Type (cc_ScalingMetric c') ≠ ScalingMetricNone).
Proof.
  intros (c3 & max & w3 & w4 & Hm & Hc & Hs)%evaluate_inv Hno.
  destruct (decision_amounts c3 max
    (if (used c3 <? max) || String.eqb (sm_Type (cc_ScalingMetric c3)) ScalingMetricNone
     then ScalingDirectionIn else ScalingDirectionOut) (wp_FaultTolerance pool))
    as (Hu & _ & _ & _ & Ho & Hce). rewrite <-Hc in *.
  rewrite max_allowed_run in Hm by by apply Ho. simplify_eq.
  rewrite Hce, Hu. split; [done|]. simpl in Hs |- *.
  destruct (Z.ltb_spec (used c3) (ceiling c3 (wp_FaultTolerance pool) false));
    [left; auto|].
  destruct (String.eqb_spec (sm_Type (cc_ScalingMetric c3)) ScalingMetricNone);
    [left; auto|].
  right. repeat split; try done. simpl in Hs. unfold ClusterScalingSafe in Hs. simpl in Hs.
  by go_inv.
Qed.

(** Accounting of the pool capacity.  From a zeroed capacity object the
    node count is the number of registered nodes, the node list their IDs, and
    each total the sum over the nodes, in whatever order the map is visited. *)
Theorem pool_capacity_total `{!RuntimeLaws W} pool (w : W) c' e w' k :
  calculatePoolCapacity zero_ClusterCapacity pool w = (Ret (c', e), w') →
  e = None ∧
  cc_NodeCount c' = wrap (Z.of_nat (size (wp_Nodes pool))) ∧
  cc_NodeList c' ≡ₚ (node_ID ∘ snd <$> map_to_list (wp_Nodes pool)) ∧
  get_amount k (cc_TotalCapacity c') =
    wrap (sumZ (λ n, res_amount k (node_Resources n.2)) (map_to_list (wp_Nodes pool))).
Proof.
  intros H. apply (pool_capacity_run _ _ _ _ _ _ k) in H as (-> & Hn & Hl & Ht & _);
    [|by destruct k..].
  split; [done|]. split; [done|]. split; [done|]. rewrite Ht. by destruct k.
Qed.

(** C31. Conservation of consumption.  One node record is kept per node of the
    pool and, for each resource, the pool's consumption is the sum of the
    consumption of its nodes (in 64-bit arithmetic). *)
Theorem pool_consumed_conserved `{!RuntimeLaws W} c pool (w : W) c' w' k :
  calculatePoolConsumed c pool w = (Ret (c', None), w') →
  cc_NodeAllocations c = [] → get_amount k (cc_UsedCapacity c) = 0 →
  (na_NodeID <$> cc_NodeAllocations c') ≡ₚ (map_to_list (wp_Nodes pool)).*1 ∧
  wrap (get_amount k (cc_UsedCapacity c')) =
    wrap (sumZ (λ n, get_amount k (na_UsedCapacity n)) (cc_NodeAllocations c')).
Proof. intros H Hn Hu. destruct (pool_consumed_run _ _ _ _ _ k H Hn Hu) as (? & ? & _). done. Qed.

End claims.

(** ** Witnesses: the simulated cluster *)

Definition sim_eval : ClusterCapacity * (bool * option error) :=
  run_value (zero_ClusterCapacity, (false, None))
    (EvaluatePoolScaling_impl zero_ClusterCapacity sim_pool []) sim_cluster.

Definition sim_consumed : ClusterCapacity * option error :=
  run_value (zero_ClusterCapacity, None)
    (calculatePoolConsumed zero_ClusterCapacity sim_pool) sim_cluster.

Lemma evaluate_scale_in_margin_witness :
  used sim_eval.1 = 2100 ∧
  used sim_eval.1 + reserve sim_eval.1 + node_average sim_eval.1 * (1 + 1) < total sim_eval.1.
Proof.
  split; [vm_compute; reflexivity|].
  apply (evaluate_scale_in_margin zero_ClusterCapacity sim_pool [] sim_cluster _
    (run_world (EvaluatePoolScaling_impl zero_ClusterCapacity sim_pool []) sim_cluster)).
  - vm_compute. reflexivity.
  - vm_compute. reflexivity.
  - left. vm_compute. reflexivity.
  - repeat split; vm_compute; congruence.
Defined.

Lemma evaluate_decision_witness :
  cc_MaxAllowedUtilization sim_eval.1 = 20000 ∧
  (cc_ScalingDirection sim_eval.1 = ScalingDirectionIn ∧
     (used sim_eval.1 < ceiling sim_eval.1 1 false ∨
      sm_Type (cc_ScalingMetric sim_eval.1) = ScalingMetricNone) ∨
   cc_ScalingDirection sim_eval.1 = ScalingDirectionOut ∧ true = true ∧
     ceiling sim_eval.1 1 false ≤ used sim_eval.1 ∧
     sm_Type (cc_ScalingMetric sim_eval.1) ≠ ScalingMetricNone).
Proof.
  apply (evaluate_decision zero_ClusterCapacity sim_pool [] sim_cluster sim_eval.1 true
    (run_world (EvaluatePoolScaling_impl zero_ClusterCapacity sim_pool []) sim_cluster)).
  - vm_compute. reflexivity.
  - repeat split; vm_compute; congruence.
Defined.

Definition sim_total : ClusterCapacity * option error :=
  run_value (zero_ClusterCapacity, None)
    (calculatePoolCapacity zero_ClusterCapacity sim_pool) sim_cluster.

Lemma pool_capacity_total_witness : get_amount KCpu (cc_TotalCapacity sim_total.1) = 30000.
Proof.
  destruct (pool_capacity_total sim_pool sim_cluster sim_total.1 sim_total.2
    (run_world (calculatePoolCapacity zero_ClusterCapacity sim_pool) sim_cluster) KCpu)
    as (_ & _ & _ & ->); vm_compute; reflexivity.
Defined.

Lemma pool_consumed_conserved_witness :
  wrap (get_amount KMem (cc_UsedCapacity sim_consumed.1)) = 550.
Proof.
  destruct (pool_consumed_conserved zero_ClusterCapacity sim_pool sim_cluster sim_consumed.1
    (run_world (calculatePoolConsumed zero_ClusterCapacity sim_pool) sim_cluster) KMem)
    as [_ ->]; vm_compute; reflexivity.
Defined.
