(* ===== verification/PoolTotal.v ===== *)
(** * Worker pool evaluation: it returns

    The evaluation of a worker pool dereferences the resources of nodes,
    allocations and tasks and divides by the number of nodes.  When Nomad's
    answers are complete it always returns, but for a pool without nodes. *)

From S2P Require Import Prelude GoNum Structs Interfaces Frame Sim Helper Nomad PoolEval PoolEvalFacts.

(** All three amounts of a resource record are present. *)
Definition complete (r : option Resources) : Prop :=
  ∃ cpu mem disk, r = Some (mkResources (Some cpu) (Some mem) (Some disk)).

(** An answer of Nomad's list of allocations: what runs has its resources. *)
Definition running_complete (l : list Allocation) : Prop :=
  Forall (λ a, isRunning a = true → complete (al_Resources a)) l.

Definition tasks_complete (j : Job) : Prop :=
  Forall (λ t, complete (task_Resources t)) (g ← job_TaskGroups j; tg_Tasks g).

Section total.
Context {W : Type} `{RT : Runtime W, NA : NomadAPI W, !RuntimeLaws W}.
(** The worlds in which Nomad's data is complete, and the errors it answers. *)
Context (healthy : W → Prop) (nomad_error : error → Prop).
Context (range_healthy : ∀ ks w, healthy w → healthy (range_keys ks w).2).

Abbreviation total m Q := (does healthy m Q).

(** A call that answers, with one of Nomad's errors or with a value of [Q]. *)
Definition answers {A} (m : M W (error + A)) (Q : A → Prop) : Prop :=
  total m (λ r, match r with inl e => nomad_error e | inr a => Q a end).

Context (node_allocs : ∀ n, answers (Nodes_Allocations n) running_complete).
Context (job_allocs : ∀ j, answers (Jobs_Allocations j) (λ _, True)).
Context (job_info : ∀ j, answers (Jobs_Info j) tasks_complete).
Context (pool : WorkerPool).
Context (nodes_complete : map_Forall (λ _ n, complete (node_Resources n)) (wp_Nodes pool)).

(** An answer of a part of the evaluation: a record with [n] nodes, or an error
    of Nomad's. *)
Definition counted (n : Z) (c : ClusterCapacity) : Prop := cc_NodeCount c = n.
Definition part (n : Z) (r : ClusterCapacity * option error) : Prop :=
  match r.2 with Some e => nomad_error e | None => counted n r.1 end.

Lemma total_amounts r : complete r → total (amounts r) (λ _, True).
Proof. intros (cpu & mem & disk & ->) w Hw. by do 2 eexists. Qed.

Lemma total_range_keys ks : total (range_keys ks) (λ _, True).
Proof.
  intros w Hw. pose proof (range_healthy ks w Hw) as Hw1.
  destruct (range_keys_perm ks w) as (l & w1 & E & _). rewrite E in Hw1. by exists l, w1.
Qed.

Lemma total_range_map {A} (m : gmap string A) :
  total (range_map m) (Forall (λ x, m !! x.1 = Some x.2)).
Proof.
  unfold range_map. eapply does_bind; [apply total_range_keys|]. intros l _. apply does_ret.
  apply Forall_forall. intros [k v] (k' & _ & Hk)%list_elem_of_omap.
  destruct (m !! k') eqn:Hm; simpl in Hk; [|done]. by simplify_eq.
Qed.

(** ** The parts of the evaluation *)

Lemma capacity_total : total (calculatePoolCapacity zero_ClusterCapacity pool)
  (λ r, r.2 = None ∧ counted (wrap (Z.of_nat (size (wp_Nodes pool)))) r.1).
Proof.
  assert (total (calculatePoolCapacity zero_ClusterCapacity pool) (λ _, True)) as Ht.
  { unfold calculatePoolCapacity. eapply does_bind; [apply total_range_map|]. intros l Hl.
    eapply does_bind.
    - eapply (does_for_range_ok _ _ (λ _, True) (λ _, True)); [|exact Hl|done]. intros s [i n] _ Hn.
      eapply does_bind; [apply total_amounts; by eapply nodes_complete|].
      intros [[cpu mem] disk] _. by apply does_ret.
    - intros [c|r] _; by apply does_ret. }
  intros w Hw. destruct (Ht w Hw) as ([c e] & w1 & E & Hw1 & _). exists (c, e), w1. split; [done|]. split; [done|].
  destruct (pool_capacity_run _ _ _ _ _ _ KCpu E) as (He & Hc & _);
    [by unfold is_int, min_int, max_int; simpl..|]. done.
Qed.

Lemma consume_total n c node : counted n c → total (consumeNode c node) (loop_ok (counted n) (part n)).
Proof.
  intros Hc. unfold consumeNode. eapply does_bind; [apply node_allocs|].
  intros [e|l] Hl; [by apply does_ret|]. eapply does_bind.
  - eapply (does_for_range_ok _ _ (λ a, counted n a.1) (part n)); [|exact Hl|done].
    intros [c1 i] a Hc1 Ha. unfold consumeStep.
    destruct (_ && _) eqn:Hr; [|by apply does_ret].
    eapply does_bind; [by apply total_amounts, Ha|]. intros [[cpu mem] disk] _. by apply does_ret.
  - intros [[c1 i]|r] Ho; by apply does_ret.
Qed.

Lemma consumed_total n c : counted n c → total (calculatePoolConsumed c pool) (part n).
Proof.
  intros Hc. unfold calculatePoolConsumed. eapply does_bind; [apply total_range_map|]. intros l _.
  eapply does_bind.
  - eapply (does_for_range_ok _ (λ _, True) (counted n) (part n)); [|by apply Forall_true|exact Hc]. intros. by apply consume_total.
  - intros [c1|r] Ho; by apply does_ret.
Qed.

Lemma placed_total j : total (checkJobPlacement j pool) (λ _, True).
Proof.
  unfold checkJobPlacement. eapply does_bind; [apply job_allocs|]. intros [e|l] _; by apply does_ret.
Qed.

Lemma reserve_total n c jobs : counted n c → total (calculateScalingReserve c jobs pool) (part n).
Proof.
  intros Hc. unfold calculateScalingReserve. eapply does_bind; [apply total_range_keys|]. intros l _. eapply does_bind.
  - eapply (does_for_range_ok _ (λ _, True) (counted n) (part n)); [|by apply Forall_true|exact Hc]. intros c1 j Hc1 _.
    unfold reserveJob. eapply does_bind; [apply placed_total|].
    intros [|] _; [cbn [negb]|by apply does_ret]. eapply does_bind; [apply job_info|].
    intros [e|job] Hj; [by apply does_ret|].
    eapply (does_for_range_ok _ _ (counted n) (part n)); [|exact Hj|done]. intros c2 t Hc2 Ht.
    eapply does_bind; [by apply total_amounts|]. intros [[cpu mem] disk] _. by apply does_ret.
  - intros [c1|r] Ho; by apply does_ret.
Qed.

Lemma most_utilized_count c : cc_NodeCount (MostUtilizedResource c) = cc_NodeCount c.
Proof. unfold MostUtilizedResource, set_metric_type. by repeat case_match. Qed.

Lemma required_count c : cc_NodeCount (clusterScalingRequired c pool).1 = cc_NodeCount c.
Proof. unfold clusterScalingRequired, setScalingMetric. by repeat case_match. Qed.

Lemma ceiling_total c ft scaleIn :
  cc_NodeCount c ≠ 0 → total (MaxAllowedClusterUtilization c ft scaleIn) (λ _, True).
Proof.
  intros Hn w Hw. unfold MaxAllowedClusterUtilization, iquot. rewrite (proj2 (Z.eqb_neq _ _) Hn).
  by do 2 eexists.
Qed.

(** ** The evaluation *)

(** The last part: the ceiling, the decision and its safety. *)
Definition decide_scaling (c : ClusterCapacity) : M W (ClusterCapacity * (bool * option error)) :=
  max ← MaxAllowedClusterUtilization c (wp_FaultTolerance pool) false;
  let '(c, scale) := clusterScalingRequired (c <| cc_MaxAllowedUtilization := max |>) pool in
  if negb scale then mret (c, (scale, None))
  else scale ← ClusterScalingSafe c pool; mret (c, (scale, None)).

Lemma decide_total c : cc_NodeCount c ≠ 0 → total (decide_scaling c) (λ r, r.2.2 = None).
Proof.
  intros Hn. unfold decide_scaling. eapply does_bind; [by apply ceiling_total|]. intros max _.
  pose proof (required_count (c <| cc_MaxAllowedUtilization := max |>)) as Hc. cbv zeta.
  destruct (clusterScalingRequired _ pool) as [c1 []]; cbn [negb]; [|by apply does_ret].
  simpl in Hc. unfold ClusterScalingSafe. destruct (String.eqb _ _); [|by apply (does_bind _ _ _ (λ _, True)); [apply does_ret|intros; apply does_ret]].
  eapply (does_bind _ _ _ (λ _, True)); [|by intros; apply does_ret].
  eapply does_bind; [apply ceiling_total; by rewrite Hc|]. intros; by apply does_ret.
Qed.

Lemma decide_empty c w : cc_NodeCount c = 0 → decide_scaling c w = (Panic "integer divide by zero", w).
Proof. intros Hn. unfold decide_scaling. erewrite bind_panic; [done|]. by apply max_allowed_no_nodes. Qed.

(** What an evaluation may end with. *)
Definition ends (o : outcome (ClusterCapacity * (bool * option error))) : Prop :=
  match o with
  | Ret (_, (scale, Some e)) => scale = false ∧ nomad_error e
  | Ret (_, (_, None)) => wp_Nodes pool ≠ ∅
  | Panic e => wp_Nodes pool = ∅ ∧ e = "integer divide by zero"
  end.

(** C20. The evaluation of a worker pool returns, with a decision or an error,
    for every pool with a node, whatever the order in which its maps are
    visited: when the nodes of the pool, the allocations that run and the tasks
    of the jobs have their resources, it neither dereferences a missing amount
    nor divides by zero; allocations that do not run need none.  An error it
    returns is one that Nomad answered, and comes with the answer not to scale.  A pool
    without nodes is the exception: no decision is ever made for it, and unless
    Nomad fails the evaluation panics with a division by zero. *)
Theorem evaluate_total jobs (w : W) :
  Z.of_nat (size (wp_Nodes pool)) ≤ max_int → healthy w →
  ∃ o w', EvaluatePoolScaling_impl zero_ClusterCapacity pool jobs w = (o, w') ∧ ends o.
Proof.
  intros Hs Hw. set (n := wrap (Z.of_nat (size (wp_Nodes pool)))).
  assert (n = 0 ↔ wp_Nodes pool = ∅) as Hn.
  { unfold n. rewrite wrap_id by (unfold is_int, min_int; lia). rewrite <-map_size_empty_iff. lia. }
  unfold EvaluatePoolScaling_impl.
  destruct (capacity_total w Hw) as ([c1 e1] & w1 & E1 & Hw1 & He & H1).
  simpl in He. subst e1. rewrite (bind_run _ _ _ _ _ E1).
  destruct (consumed_total n c1 H1 w1 Hw1) as ([c2 [e2|]] & w2 & E2 & Hw2 & H2); rewrite (bind_run _ _ _ _ _ E2);
    [by do 2 eexists|].
  destruct (reserve_total n c2 jobs H2 w2 Hw2) as ([c3 [e3|]] & w3 & E3 & Hw3 & H3); rewrite (bind_run _ _ _ _ _ E3);
    [by do 2 eexists|].
  change (∃ o w', decide_scaling (MostUtilizedResource c3) w3 = (o, w') ∧ ends o).
  assert (cc_NodeCount (MostUtilizedResource c3) = n) as H4 by by rewrite most_utilized_count.
  destruct (decide (n = 0)) as [H0|H0].
  - rewrite decide_empty by congruence. do 2 eexists. split; [done|]. split; [by apply Hn|done].
  - destruct (decide_total (MostUtilizedResource c3) ltac:(congruence) w3 Hw3) as ([c [b e]] & w4 & E4 & _ & He). simpl in He. subst e. do 2 eexists. split; [exact E4|]. simpl. tauto.
Qed.
End total.


(** ** Witness: the simulated cluster, and a pool that has lost its nodes *)

Definition sim_fine (w : world) : Prop := w = sim_cluster.
Definition sim_error (e : error) : Prop := e = "Unexpected response code: 404".

Definition sim_ends (pool : WorkerPool) : Prop :=
  ends sim_error pool (EvaluatePoolScaling_impl zero_ClusterCapacity pool ["shop"] sim_cluster).1.

Lemma sim_node_allocs n : answers sim_fine sim_error (Nodes_Allocations n) running_complete.
Proof.
  intros w ->. do 2 eexists. split; [reflexivity|]. split; [done|]. unfold running_complete. simpl.
  assert (map_Forall (λ _, running_complete) (sim_node_allocs sim_cluster)) as Ha.
  { simpl. repeat (apply map_Forall_insert_2; [repeat constructor; by do 3 eexists|]).
    apply map_Forall_empty. }
  destruct (_ !! n) eqn:E; simpl; [by eapply Ha|constructor].
Qed.

Lemma sim_range ks w : sim_fine w → sim_fine (range_keys ks w).2.
Proof. done. Qed.

Lemma sim_job_allocs_404 j : answers sim_fine sim_error (Jobs_Allocations j) (λ _, True).
Proof. intros w ->. do 2 eexists. split; [reflexivity|]. split; [done|]. simpl. by rewrite lookup_empty. Qed.

Lemma sim_job_404 j : answers sim_fine sim_error (Jobs_Info j) tasks_complete.
Proof. intros w ->. do 2 eexists. split; [reflexivity|]. split; [done|]. simpl. by rewrite lookup_empty. Qed.

Lemma sim_nodes_complete : map_Forall (λ _ n, complete (node_Resources n)) (wp_Nodes sim_pool).
Proof.
  simpl. repeat (apply map_Forall_insert_2; [by do 3 eexists|]). apply map_Forall_empty.
Qed.

Lemma evaluate_total_witness : sim_ends sim_pool ∧ sim_ends (sim_pool <| wp_Nodes := ∅ |>).
Proof.
  unfold sim_ends. split.
  - destruct (evaluate_total sim_fine sim_error sim_range sim_node_allocs sim_job_allocs_404 sim_job_404
      sim_pool sim_nodes_complete ["shop"] sim_cluster) as (o & w' & E & H); [by vm_compute|reflexivity|].
    rewrite E. exact H.
  - destruct (evaluate_total sim_fine sim_error sim_range sim_node_allocs sim_job_allocs_404 sim_job_404
      (sim_pool <| wp_Nodes := ∅ |>) (map_Forall_empty _) ["shop"] sim_cluster) as (o & w' & E & H);
      [by vm_compute|reflexivity|].
    rewrite E. exact H.
Defined.
