(* ===== verification/NodeSelect.v ===== *)
(** * Choosing the resource and the node

    [MostUtilizedResource] and [LeastAllocatedNode]: the metric is a resource of
    maximal utilization and the node to remove is never the protected one and,
    when every candidate is in use, one of minimal utilization. *)

From S2P Require Import Prelude GoNum Structs Interfaces Sim Helper Nomad PoolEval.

(** The percentage a metric refers to; [None] and unknown metrics have none. *)
Definition metric_pct (metric : string) (u : AllocationResources) : option float64 :=
  if String.eqb metric ScalingMetricProcessor then Some (ar_CPUPercent u)
  else if String.eqb metric ScalingMetricMemory then Some (ar_MemoryPercent u)
  else if String.eqb metric ScalingMetricDisk then Some (ar_DiskPercent u)
  else None.

#[local] Arguments leastAllocatedStep : simpl never.

Section select.
Implicit Types (a : NodeAllocation) (l : list NodeAllocation) (metric prot : string).

Lemma least_step_eq metric prot lowest id a p :
  na_NodeID a ≠ prot → metric_pct metric (na_UsedCapacity a) = Some p →
  leastAllocatedStep metric prot (lowest, id) a =
  if F64.eqb lowest F64.zero || F64.ltb p lowest then (p, na_NodeID a) else (lowest, id).
Proof.
  intros Hne Hp. unfold leastAllocatedStep.
  destruct (String.eqb_spec (na_NodeID a) prot); [done|].
  unfold metric_pct in Hp.
  destruct (String.eqb metric ScalingMetricProcessor); [by simplify_eq|].
  destruct (String.eqb metric ScalingMetricMemory); [by simplify_eq|].
  destruct (String.eqb metric ScalingMetricDisk); [by simplify_eq|done].
Qed.

Lemma least_step_protected metric prot acc a :
  na_NodeID a = prot → leastAllocatedStep metric prot acc a = acc.
Proof.
  intros <-. unfold leastAllocatedStep. destruct acc. by rewrite String.eqb_refl.
Qed.

(** The node kept by the scan is one of the candidates. *)
Lemma least_fold_candidate metric prot l acc :
  let r := fold_left (leastAllocatedStep metric prot) l acc in
  r.2 = acc.2 ∨ ∃ a, a ∈ l ∧ na_NodeID a ≠ prot ∧ r.2 = na_NodeID a.
Proof.
  revert acc. induction l as [|a l IH]; intros acc; simpl; [by left|].
  destruct (IH (leastAllocatedStep metric prot acc a)) as [E|(b & Hb & Hn & E)];
    [|right; exists b; set_solver].
  destruct (decide (na_NodeID a = prot)) as [Hp|Hp].
  { rewrite (least_step_protected _ _ _ _ Hp) in *. by left. }
  assert ((leastAllocatedStep metric prot acc a).2 = acc.2 ∨
          (leastAllocatedStep metric prot acc a).2 = na_NodeID a) as [E'|E'].
  { unfold leastAllocatedStep. destruct acc. repeat case_match; auto. }
  - left. congruence.
  - right. exists a. split; [set_solver|]. split; [done|]. congruence.
Qed.

(** [best metric prot l p id]: among the candidates of [l], the one named [id]
    has the smallest percentage [p]. *)
Definition best metric prot l (p : float64) (id : string) : Prop :=
  (∃ a, a ∈ l ∧ na_NodeID a ≠ prot ∧ na_NodeID a = id ∧
        metric_pct metric (na_UsedCapacity a) = Some p) ∧
  ∀ b q, b ∈ l → na_NodeID b ≠ prot → metric_pct metric (na_UsedCapacity b) = Some q →
         F64.leb p q = true.

(** Every candidate has a percentage, a number greater than zero. *)
Definition in_use metric prot l : Prop :=
  ∀ a, a ∈ l → na_NodeID a ≠ prot →
  ∃ p, metric_pct metric (na_UsedCapacity a) = Some p ∧ F64.ltb F64.zero p = true.

Lemma ltb_zero_not_eq p : F64.ltb F64.zero p = true → F64.eqb p F64.zero = false.
Proof.
  intros (_ & _ & H)%F64.ltb_key. destruct (F64.eqb p F64.zero) eqn:E; [|done].
  apply F64.eqb_key in E as (_ & _ & E). rewrite E in H. by apply F64.key_lt_irrefl in H.
Qed.

Lemma ltb_num_r p q : F64.ltb p q = true → F64.num q.
Proof. by intros (_ & ? & _)%F64.ltb_key. Qed.

Lemma best_extend metric prot l p id a :
  na_NodeID a = prot → best metric prot l p id → best metric prot (l ++ [a]) p id.
Proof.
  intros Ha [(x & ? & ?) Hall]. split; [exists x; set_solver|].
  intros b q [Hb| ->%list_elem_of_singleton]%elem_of_app; [by apply Hall|done].
Qed.

Lemma least_fold_best metric prot l :
  in_use metric prot l →
  let r := fold_left (leastAllocatedStep metric prot) l (F64.zero, "") in
  best metric prot l r.1 r.2 ∨
  r = (F64.zero, "") ∧ (∀ a, a ∈ l → na_NodeID a = prot).
Proof.
  induction l as [|a l IH] using rev_ind; intros Huse; simpl.
  { right. split; [done|]. intros ? []%elem_of_nil. }
  rewrite fold_left_app. simpl.
  specialize (IH ltac:(intros x Hx; apply Huse; set_solver)).
  destruct (fold_left _ l _) as [lowest id] eqn:E. simpl in IH |- *.
  destruct (decide (na_NodeID a = prot)) as [Hp|Hp].
  { rewrite (least_step_protected _ _ _ _ Hp). simpl.
    destruct IH as [Hb|[Hz Hall]]; [left; by apply best_extend|right].
    split; [done|]. intros x [Hx| ->%list_elem_of_singleton]%elem_of_app; auto. }
  destruct (Huse a ltac:(set_solver) Hp) as (p & Hpct & Hpos).
  rewrite (least_step_eq _ _ _ _ _ p Hp Hpct). left.
  destruct IH as [[(x & Hx & Hxp & Hid & Hxpct) Hall]|[[= -> ->] Hall]].
  - destruct (Huse x ltac:(set_solver) Hxp) as (p' & ? & Hpos'). simplify_eq.
    rewrite (ltb_zero_not_eq _ Hpos'). simpl.
    destruct (F64.ltb p lowest) eqn:Elt; simpl.
    + split; [exists a; set_solver|].
      intros b q [Hb| ->%list_elem_of_singleton]%elem_of_app Hbp Hq.
      * eapply F64.leb_trans; [by apply F64.ltb_leb|by eapply Hall].
      * simplify_eq. by apply F64.leb_refl, (ltb_num_r F64.zero).
    + split; [exists x; set_solver|].
      intros b q [Hb| ->%list_elem_of_singleton]%elem_of_app Hbp Hq; [by eapply Hall|].
      simplify_eq. apply F64.ltb_false_leb; [by apply (ltb_num_r F64.zero)..|done].
  - simpl. split; [exists a; set_solver|].
    intros b q [Hb| ->%list_elem_of_singleton]%elem_of_app Hbp Hq; [by destruct Hbp; auto|].
    simplify_eq. by apply F64.leb_refl, (ltb_num_r F64.zero).
Qed.
End select.

Section claims.
Context {W : Type} `{RT : Runtime W, NA : NomadAPI W}.

(** C12. The node running Replicator is never chosen.  Whatever the metric, the
    node ID [LeastAllocatedNode] returns is empty or the ID of one of the
    pool's node records, and it differs from the protected node. *)
Theorem least_allocated_not_protected c prot (w : W) id ip w' :
  LeastAllocatedNode_impl c prot w = (Ret (id, ip), w') →
  id = "" ∨ id ≠ prot ∧ ∃ a, a ∈ cc_NodeAllocations c ∧ na_NodeID a = id.
Proof.
  unfold LeastAllocatedNode_impl. intros H.
  assert (id = (leastAllocated c prot).2) as -> by by go_inv.
  destruct (least_fold_candidate (sm_Type (cc_ScalingMetric c)) prot
    (cc_NodeAllocations c) (F64.zero, "")) as [E|(a & Ha & Hn & E)]; [by left|].
  right. unfold leastAllocated. rewrite E. eauto.
Qed.

(** C30. Optimality of the choice.  When every candidate node of the pool uses
    some of the prioritized resource and there is a candidate, the node
    returned is a candidate whose share of that resource is minimal. *)
Theorem least_allocated_minimal c prot (w : W) id ip w' :
  LeastAllocatedNode_impl c prot w = (Ret (id, ip), w') →
  in_use (sm_Type (cc_ScalingMetric c)) prot (cc_NodeAllocations c) →
  (∃ a, a ∈ cc_NodeAllocations c ∧ na_NodeID a ≠ prot) →
  ∃ p, best (sm_Type (cc_ScalingMetric c)) prot (cc_NodeAllocations c) p id.
Proof.
  unfold LeastAllocatedNode_impl. intros H Huse (a & Ha & Hn).
  assert (id = (leastAllocated c prot).2) as -> by by go_inv.
  destruct (least_fold_best _ _ _ Huse) as [Hb|[_ Hall]]; [by eexists|].
  by destruct Hn; auto.
Qed.

(** The prioritized metric.  For utilization percentages that are numbers
    and not negative, [MostUtilizedResource] records [None] only when all three
    are zero, and otherwise a resource whose percentage is the largest. *)
Theorem most_utilized_maximal c :
  let u := cc_UsedCapacity c in
  let pcts := [ar_CPUPercent u; ar_MemoryPercent u; ar_DiskPercent u] in
  Forall (λ p, F64.leb F64.zero p = true) pcts →
  let t := sm_Type (cc_ScalingMetric (MostUtilizedResource c)) in
  (t = ScalingMetricNone ∧ Forall (λ p, F64.eqb p F64.zero = true) pcts) ∨
  (∃ p, metric_pct t u = Some p ∧ F64.eqb p F64.zero = false ∧
        Forall (λ q, F64.leb q p = true) pcts).
Proof.
  intros u pcts Hpos.
  assert (Forall F64.num pcts) as Hnum.
  { eapply Forall_impl; [exact Hpos|]. by intros p (_ & ? & _)%F64.leb_key. }
  unfold MostUtilizedResource. fold u. subst pcts. cbn [Max].
  set (max := fold_left _ _ _).
  assert (max ∈ [ar_CPUPercent u; ar_MemoryPercent u; ar_DiskPercent u]) as Hin
    by apply fold_max_in.
  assert (Forall (λ q, F64.leb q max = true)
            [ar_CPUPercent u; ar_MemoryPercent u; ar_DiskPercent u]) as Hge.
  { apply Forall_cons in Hnum as [H1 H2]. apply Forall_cons. by apply fold_max_ge. }
  clearbody max u.
  assert (∀ q, F64.eqb max q = true → Forall (λ p, F64.leb p q = true)
            [ar_CPUPercent u; ar_MemoryPercent u; ar_DiskPercent u]) as Htrans.
  { intros q (? & ? & E)%F64.eqb_key. eapply Forall_impl; [exact Hge|].
    intros p (? & ? & ?)%F64.leb_key. apply F64.leb_key. by rewrite <-E. }
  assert (∀ q, F64.eqb max q = true → F64.eqb max F64.zero = false → F64.eqb q F64.zero = false) as Hz.
  { intros q (? & ? & E)%F64.eqb_key Hm. destruct (F64.eqb q F64.zero) eqn:Eq; [|done].
    apply F64.eqb_key in Eq as (? & ? & Eq). rewrite <-Hm. symmetry. apply F64.eqb_key.
    by rewrite E. }
  destruct (F64.eqb max F64.zero) eqn:Em; simpl.
  { left. split; [done|]. specialize (Htrans _ Em). clear -Hpos Htrans.
    rewrite Forall_forall in *. intros p Hp. apply F64.leb_antisym; auto. }
  right.
  assert (∀ t q, metric_pct t u = Some q → F64.eqb max q = true →
    ∃ p, metric_pct t u = Some p ∧ F64.eqb p F64.zero = false ∧
      Forall (λ q, F64.leb q p = true) [ar_CPUPercent u; ar_MemoryPercent u; ar_DiskPercent u])
    as Hfin by (intros t q Ht Hq; exists q; auto).
  destruct (F64.eqb max (ar_CPUPercent u)) eqn:E1; [by eapply Hfin|].
  destruct (F64.eqb max (ar_DiskPercent u)) eqn:E2; [by eapply Hfin|].
  destruct (F64.eqb max (ar_MemoryPercent u)) eqn:E3; [by eapply Hfin|].
  exfalso. rewrite Forall_forall in Hnum.
  pose proof (F64.eqb_refl max (Hnum _ Hin)).
  apply elem_of_cons in Hin as [Hin|Hin]; [congruence|].
  apply elem_of_cons in Hin as [Hin|Hin]; [congruence|].
  apply list_elem_of_singleton in Hin. congruence.
Qed.

(** A node that is completely idle is passed over.  Of two candidates with
    0% and 50% of the pool's CPU consumption, visited in that order, the scan
    keeps the busy one: the value 0 of [lowest] also means "nothing seen". *)
Theorem least_allocated_skips_idle c prot a b p :
  sm_Type (cc_ScalingMetric c) = ScalingMetricProcessor →
  cc_NodeAllocations c = [a; b] →
  na_NodeID a ≠ prot → na_NodeID b ≠ prot →
  ar_CPUPercent (na_UsedCapacity a) = F64.zero →
  ar_CPUPercent (na_UsedCapacity b) = p →
  (leastAllocated c prot).2 = na_NodeID b.
Proof.
  intros Hm Hl Ha Hb Hz Hp. unfold leastAllocated. rewrite Hl, Hm. cbn [fold_left].
  rewrite (least_step_eq _ _ _ _ _ F64.zero Ha) by (unfold metric_pct; simpl; by rewrite Hz).
  simpl. by rewrite (least_step_eq _ _ _ _ _ p Hb) by (unfold metric_pct; simpl; by rewrite Hp).
Qed.

End claims.

(** ** Witnesses *)

Definition usage_record (id : string) (cpu : Z) : NodeAllocation :=
  mkNodeAllocation id "" (zero_AllocationResources <| ar_CPUPercent := F64.of_int cpu |>).

Definition sim_capacity (l : list NodeAllocation) : ClusterCapacity :=
  zero_ClusterCapacity <| cc_ScalingMetric := mkScalingMetric ScalingMetricProcessor 0 0 |>
                       <| cc_NodeAllocations := l |>.

Definition sim_three : ClusterCapacity :=
  sim_capacity [usage_record "node-1" 60; usage_record "node-2" 10; usage_record "node-3" 5].

Lemma least_allocated_not_protected_witness :
  "node-2" = "" ∨ "node-2" ≠ "node-3" ∧
  ∃ a, a ∈ cc_NodeAllocations sim_three ∧ na_NodeID a = "node-2".
Proof.
  apply (least_allocated_not_protected sim_three "node-3" sim_cluster "node-2" "10.0.0.2" sim_cluster).
  vm_compute. reflexivity.
Defined.

Lemma least_allocated_minimal_witness :
  ∃ p, best ScalingMetricProcessor "node-3" (cc_NodeAllocations sim_three) p "node-2".
Proof.
  apply (least_allocated_minimal sim_three "node-3" sim_cluster "node-2" "10.0.0.2" sim_cluster).
  - vm_compute. reflexivity.
  - intros a Ha Hn. simpl in Ha.
    repeat (apply elem_of_cons in Ha as [->|Ha]; [eexists; split; reflexivity|]).
    by apply elem_of_nil in Ha.
  - exists (usage_record "node-1" 60). split; [left|discriminate].
Defined.

Lemma most_utilized_maximal_witness :
  let c := zero_ClusterCapacity <| cc_UsedCapacity :=
    mkAllocationResources 0 0 0 (F64.of_int 40) (F64.of_int 30) (F64.of_int 10) |> in
  (sm_Type (cc_ScalingMetric (MostUtilizedResource c)) = ScalingMetricNone ∧
   Forall (λ p, F64.eqb p F64.zero = true)
     [ar_CPUPercent (cc_UsedCapacity c); ar_MemoryPercent (cc_UsedCapacity c);
      ar_DiskPercent (cc_UsedCapacity c)]) ∨
  ∃ p, metric_pct (sm_Type (cc_ScalingMetric (MostUtilizedResource c))) (cc_UsedCapacity c) = Some p
    ∧ F64.eqb p F64.zero = false
    ∧ Forall (λ q, F64.leb q p = true)
     [ar_CPUPercent (cc_UsedCapacity c); ar_MemoryPercent (cc_UsedCapacity c);
      ar_DiskPercent (cc_UsedCapacity c)].
Proof. intros c. apply (most_utilized_maximal c). repeat constructor. Defined.

Lemma least_allocated_skips_idle_witness :
  (leastAllocated (sim_capacity [usage_record "node-1" 0; usage_record "node-2" 50]) "").2 = "node-2".
Proof.
  apply (least_allocated_skips_idle _ "" (usage_record "node-1" 0) (usage_record "node-2" 50)
    (F64.of_int 50)); vm_compute; congruence.
Defined.
