(* ===== verification/NodeDiscovery.v ===== *)
(** * Node discovery ([client/node_discovery.go], [cloud/cloud_provider.go],
      [replicator/node_protection.go])

    The node registry maps node IDs to worker pools and worker pools to their
    nodes.  Its operations are computations over the registry itself; the
    watcher runs them on the registry of the world. *)

From S2P Require Import Prelude GoNum Structs Interfaces Helper.

(** ** The registry lock *)

Definition Lock : M NodeRegistry unit := λ reg,
  if nr_Locked reg then (Panic blocked, reg) else (Ret tt, reg <| nr_Locked := true |>).
Definition Unlock : M NodeRegistry unit := λ reg, (Ret tt, reg <| nr_Locked := false |>).
Definition get_reg : M NodeRegistry NodeRegistry := λ reg, (Ret reg, reg).
Definition modify_reg (f : NodeRegistry → NodeRegistry) : M NodeRegistry unit :=
  λ reg, (Ret tt, f reg).

(** ** Scaling providers *)

Definition NewAwsScalingProvider (workerPool : WorkerPool) : error + ScalingProviderValue :=
  if String.eqb (wp_Region workerPool) ""
  then inl "replicator_region is required for the aws scaling provider"
  else inr (AwsScalingProvider (wp_Region workerPool)).

Definition BuiltinScalingProviders
    : gmap string (WorkerPool → error + ScalingProviderValue) :=
  {[ "aws" := NewAwsScalingProvider ]}.

Definition NewScalingProvider (workerPool : WorkerPool) : error + ScalingProviderValue :=
  if String.eqb (wp_ProviderName workerPool) "" then inl "no scaling provider specified"
  else
    match BuiltinScalingProviders !! wp_ProviderName workerPool with
    | None => inl "unknown scaling provider"
    | Some providerFactory =>
        match providerFactory workerPool with
        | inl _ => inl "an error occurred while setting up scaling provider"
        | inr scalingProvider => inr scalingProvider
        end
    end.

(** ** Registration *)

(** The configuration fields copied to an existing pool. *)
Definition update_pool_config (existingPool workerPool : WorkerPool) : WorkerPool :=
  existingPool <| wp_Region := wp_Region workerPool |>
    <| wp_Cooldown := wp_Cooldown workerPool |>
    <| wp_RetryThreshold := wp_RetryThreshold workerPool |>
    <| wp_FaultTolerance := wp_FaultTolerance workerPool |>
    <| wp_ScalingEnabled := wp_ScalingEnabled workerPool |>
    <| wp_NotificationUID := wp_NotificationUID workerPool |>
    <| wp_ScalingThreshold := wp_ScalingThreshold workerPool |>.

Definition add_node (now : Time) (node : Node) (pool : WorkerPool) : WorkerPool :=
  pool <| wp_NodeRegistrations ::= <[node_ID node := now]> |>
       <| wp_Nodes ::= <[node_ID node := node]> |>.

Definition set_pool (name : string) (pool : WorkerPool) (reg : NodeRegistry) : NodeRegistry :=
  reg <| nr_WorkerPools ::= <[name := pool]> |>.

Section discovery.
(** [hashstructure.Hash] on worker pools and on the registered nodes. *)
Context (HashPool : WorkerPool → error + Z) (HashNodes : gmap string string → error + Z).

(** [Register]; [now] is the reading of the clock it makes. *)
Definition Register (now : Time) (node : Node) (workerPool : WorkerPool)
    : M NodeRegistry (option error) :=
  if negb (String.eqb (node_Status node) NodeStatusReady)
  then mret (Some "an attempt to register node failed because of the node state")
  else if node_Drain node
  then mret (Some "an attempt to register node failed because the node is in drain mode")
  else
    _ ← Lock;
    defer Unlock
    (reg ← get_reg;
    match nr_WorkerPools reg !! wp_Name workerPool with
    | Some existingPool =>
        let '(changed, _) := HasObjectChanged HashPool existingPool workerPool in
        let existingPool :=
          if changed then update_pool_config existingPool workerPool else existingPool in
        _ ← modify_reg (set_pool (wp_Name workerPool) existingPool);
        _ ← (match wp_Nodes existingPool !! node_ID node with
             | Some _ => mret tt
             | None =>
                 if wp_ScalingEnabled workerPool then
                   _ ← modify_reg (set_pool (wp_Name workerPool) (add_node now node existingPool));
                   modify_reg (λ reg, reg <| nr_RegisteredNodes ::=
                                               <[node_ID node := wp_Name workerPool]> |>)
                 else mret tt
             end);
        mret None
    | None =>
        let workerPool := add_node now node workerPool in
        match NewScalingProvider workerPool with
        | inl _ => mret (Some "failed to initialize scaling provider for worker pool")
        | inr scalingProvider =>
            let workerPool := workerPool <| wp_ScalingProvider := Some scalingProvider |> in
            _ ← modify_reg (λ reg, reg <| nr_RegisteredNodes ::=
                                            <[node_ID node := wp_Name workerPool]> |>);
            _ ← modify_reg (set_pool (wp_Name workerPool) workerPool);
            mret None
        end
    end).

(** The lock is released when the function is left, by a panic as well. *)
Definition Deregister (node : string) : M NodeRegistry (option error) :=
  _ ← Lock;
  defer Unlock
  (reg ← get_reg;
  match nr_RegisteredNodes reg !! node with
  | None => mret (Some "node was not previously registered, no deregistration is required")
  | Some pool =>
      workerPool ← deref (nr_WorkerPools reg !! pool);
      let workerPool := workerPool <| wp_Nodes ::= delete node |>
                                   <| wp_NodeRegistrations ::= delete node |> in
      _ ← modify_reg (set_pool pool workerPool);
      _ ← modify_reg (λ reg, reg <| nr_RegisteredNodes ::= delete node |>);
      _ ← (if (size (wp_Nodes workerPool) <=? 0)%nat
           then modify_reg (λ reg, reg <| nr_WorkerPools ::= delete (wp_Name workerPool) |>)
           else mret tt);
      mret None
  end).

(** A failed hash is zero. *)
Definition NodeRegistryUpdated : M NodeRegistry bool :=
  _ ← Lock;
  reg ← get_reg;
  let nodeHash := match HashNodes (nr_RegisteredNodes reg) with inr h => h | inl _ => 0 end in
  if negb (nr_RegisteredNodesHash reg =? nodeHash) then
    _ ← modify_reg (λ reg, reg <| nr_RegisteredNodesHash := nodeHash |>);
    _ ← Unlock;
    mret true
  else
    _ ← Unlock;
    mret false.

(** ** Node configuration *)

Definition nodeRequiredKeys : list string :=
  ["replicator_enabled"; "replicator_notification_uid"; "replicator_provider";
   "replicator_region"; "replicator_worker_pool"].

Section watcher.
Context {W : Type} `{Runtime W, NomadAPI W, ConsulClient W, RegistryStore W}.

(** [mapstructure.Decoder.Decode] of string parameters over a pool. *)
Context (DecodePool : gmap string string → WorkerPool → error + WorkerPool).

Definition ProcessNodeConfig (ConsulKeyRoot : string) (node : Node)
    : M W (error + WorkerPool) :=
  let poolName := "replicator_worker_pool" in
  let configParams := node_Meta node in
  let missingKeys := ParseMetaConfig configParams nodeRequiredKeys in
  let decode (params : gmap string string) := DecodePool params NewWorkerPool in
  if (length missingKeys =? length nodeRequiredKeys)%nat
  then mret (inl "node does not contain a valid autoscaling configuration")
  else if (0 <? length missingKeys)%nat && negb (StringInSlice poolName missingKeys) then
    let workerPool := default "" (configParams !! poolName) in
    let poolKey := ConsulKeyRoot +:+ "/nodes/" +:+ workerPool in
    r ← LoadPoolConfig poolKey;
    match r with
    | inl _ => mret (inl "unable to find fallback configuration for worker pool")
    | inr configParams =>
        let missingKeys := ParseMetaConfig configParams nodeRequiredKeys in
        if (0 <? length missingKeys)%nat
        then mret (inl "the autoscaling configuration is missing required configuration parameters")
        else mret (decode configParams)
    end
  else if (0 <? length missingKeys)%nat
  then mret (inl "the autoscaling configuration is missing required configuration parameters")
  else mret (decode configParams).

(** Run a registry operation on the registry of the world. *)
Definition on_registry {A} (m : M NodeRegistry A) : M W A :=
  reg ← get_registry;
  let '(o, reg') := m reg in
  _ ← put_registry reg';
  match o with
  | Ret a => mret a
  | Panic e => go_panic e
  end.

(** The body of the loop over the listed nodes. *)
Definition watchNode (ConsulKeyRoot : string) (node : NodeListStub) : M W unit :=
  reg ← get_registry;
  if nls_ModifyIndex node <=? nr_LastChangeIndex reg then mret tt
  else if nls_Drain node && String.eqb (nls_Status node) NodeStatusReady then
    _ ← on_registry (Deregister (nls_ID node)); mret tt
  else if String.eqb (nls_Status node) NodeStatusReady then
    r ← Nodes_Info (nls_ID node);
    match r with
    | inl _ => mret tt
    | inr nodeRecord =>
        r ← ProcessNodeConfig ConsulKeyRoot nodeRecord;
        match r with
        | inl _ =>
            reg ← get_registry;
            match nr_RegisteredNodes reg !! nls_ID node with
            | Some _ => _ ← on_registry (Deregister (nls_ID node)); mret tt
            | None => mret tt
            end
        | inr nodeConfig =>
            now ← time_Now;
            _ ← on_registry (Register now nodeRecord nodeConfig);
            if negb (wp_ScalingEnabled nodeConfig)
            then _ ← on_registry (Deregister (nls_ID node)); mret tt
            else mret tt
        end
    end
  else if String.eqb (nls_Status node) NodeStatusDown then
    _ ← on_registry (Deregister (nls_ID node)); mret tt
  else mret tt.

(** One iteration of the loop of [NodeWatcher]; the result is the wait index
    of the next blocking query. *)
Definition NodeWatcher_iteration (ConsulKeyRoot : string) (waitIndex : Z) : M W Z :=
  r ← Nodes_List waitIndex;
  match r with
  | inl _ => mret waitIndex
  | inr (nodes, lastIndex) =>
      reg ← get_registry;
      if lastIndex <=? nr_LastChangeIndex reg then mret waitIndex
      else
        _ ← for_range (λ (_ : unit) node, _ ← watchNode ConsulKeyRoot node; mret (Next (R:=unit) tt))
              nodes tt;
        _ ← on_registry NodeRegistryUpdated;
        _ ← on_registry (_ ← Lock;
              _ ← modify_reg (λ reg, reg <| nr_LastChangeIndex := lastIndex |>); Unlock);
        mret lastIndex
  end.
End watcher.

(** ** Protection of the node that runs Replicator *)

Section protection.
Context {W : Type} `{Runtime W, NomadClient W, RegistryStore W}.

(** The part of [nodeProtectionCheck] under the lock: the early return on an
    unregistered host does not release it. *)
Definition protectHost (host : string) : M NodeRegistry (option error) :=
  _ ← Lock;
  reg ← get_reg;
  match nr_RegisteredNodes reg !! host with
  | None => mret (Some "running as a Nomad job but unable to determine the worker pool for our host node")
  | Some pool =>
      workerPool ← deref (nr_WorkerPools reg !! pool);
      _ ← (if negb (String.eqb (wp_ProtectedNode workerPool) host)
           then modify_reg (set_pool pool (workerPool <| wp_ProtectedNode := host |>))
           else mret tt);
      _ ← Unlock;
      mret None
  end.

Definition nodeProtectionCheck : M W (option error) :=
  allocID ← os_Getenv "NOMAD_ALLOC_ID";
  if (String.length allocID =? 0)%nat then mret None
  else
    '(host, err) ← NodeReverseLookup allocID;
    if bool_decide (is_Some err) || (String.length host =? 0)%nat
    then mret (Some "Replicator is running as a Nomad job but we are unable to determine the node hosting our allocation")
    else on_registry (protectHost host).
End protection.
End discovery.
