(* ===== verification/State.v ===== *)
(** * State: persistent scaling state

    [client/state.go]: [ReadState] and [PersistState] over the Consul key/value
    store, with the part of [encoding/json] they use: [Marshal] of a
    [ScalingState] and [Unmarshal] of a document over an existing one. *)

From Stdlib Require Import Ascii.
From S2P Require Import Prelude GoNum Structs Interfaces.

(** ** [json.Marshal] *)

(** [Time.MarshalJSON] fails outside of the years 0 to 9999.  In seconds from
    year 1, year 0 starts 366 days earlier and year 10000 starts at day 3652059. *)
Definition json_time_min : Time := - (366 * 86400 * Second).
Definition json_time_max : Time := 3652059 * 86400 * Second.
Definition json_time_ok (t : Time) : bool := (json_time_min <=? t) && (t <? json_time_max).

(** A nil slice is written as null. *)
Definition marshal_strings (l : list string) : json :=
  match l with [] => JNull | _ => JArr (JStr <$> l) end.

(** The [json] tags give the keys, in the order of the fields; [Lock] and
    [ScalingDirection] are tagged ["-"]. *)
Definition marshal_fields (st : ScalingState) : list (string * json) :=
  [("eligible_nodes", marshal_strings (st_EligibleNodes st));
   ("failsafe_admin", JBool (st_FailsafeAdmin st));
   ("failsafe_mode", JBool (st_FailsafeMode st));
   ("failure_count", JNum (st_FailureCount st));
   ("last_notification_event", JTime (st_LastNotificationEvent st));
   ("last_scaling_event", JTime (st_LastScalingEvent st));
   ("last_updated", JTime (st_LastUpdated st));
   ("resource_name", JStr (st_ResourceName st));
   ("resource_type", JStr (st_ResourceType st));
   ("scalein_requests", JNum (st_ScaleInRequests st));
   ("scaleout_requests", JNum (st_ScaleOutRequests st));
   ("state_path", JStr (st_StatePath st))].

Definition json_Marshal (st : ScalingState) : error + json :=
  if json_time_ok (st_LastNotificationEvent st) && json_time_ok (st_LastScalingEvent st)
     && json_time_ok (st_LastUpdated st)
  then inr (JObj (marshal_fields st))
  else inl "Time.MarshalJSON: year outside of range [0,9999]".

(** ** [json.Unmarshal]

    A value of the wrong type leaves the field as it was and is reported at the
    end, after the remaining fields were decoded; null leaves any field but the
    slice as it was; a malformed timestamp stops the decoding. *)

Definition mismatch : option error := Some "json: cannot unmarshal value into Go value".

Definition decode_bool (v : json) (old : bool) : bool * option error :=
  match v with JBool b => (b, None) | JNull => (old, None) | _ => (old, mismatch) end.

Definition decode_int (v : json) (old : Z) : Z * option error :=
  match v with
  | JNum z => if (min_int <=? z) && (z <=? max_int) then (z, None) else (old, mismatch)
  | JNull => (old, None)
  | _ => (old, mismatch)
  end.

Definition decode_time (v : json) (old : Time) : error + Time :=
  match v with
  | JTime t => inr t
  | JNull => inr old
  | _ => inl "parsing time"
  end.

(** Keys are matched to fields without regard to case. *)
Definition lower_ascii (c : ascii) : ascii :=
  let n := nat_of_ascii c in
  if (65 <=? n)%nat && (n <=? 90)%nat then ascii_of_nat (n + 32) else c.
Fixpoint ToLower (s : string) : string :=
  match s with
  | EmptyString => EmptyString
  | String c s => String (lower_ascii c) (ToLower s)
  end.

Section client_state.
Context {W : Type} {RT : Runtime W} {CA : ConsulAPI W}.

Definition decode_string (v : json) (old : string) : string * option error :=
  match v with
  | JStr s => (s, None)
  | JTime t => (time_text t, None)
  | JNull => (old, None)
  | _ => (old, mismatch)
  end.

(** The elements are decoded over those the slice already has. *)
Fixpoint decode_elems (vs : list json) (old : list string) : list string * option error :=
  match vs with
  | [] => ([], None)
  | v :: vs =>
      let '(s, e) := decode_string v (default "" (head old)) in
      let '(l, e') := decode_elems vs (tail old) in
      (s :: l, match e with Some _ => e | None => e' end)
  end.

Definition decode_strings (v : json) (old : list string) : list string * option error :=
  match v with
  | JArr vs => decode_elems vs old
  | JNull => ([], None)
  | _ => (old, mismatch)
  end.

(** [inl] stops the decoding; an unknown key is ignored. *)
Definition decode_field (key : string) (v : json) (st : ScalingState)
    : error + (ScalingState * option error) :=
  let keyIs := String.eqb (ToLower key) in
  if keyIs "eligible_nodes" then
    let '(x, e) := decode_strings v (st_EligibleNodes st) in
    inr (st <| st_EligibleNodes := x |>, e)
  else if keyIs "failsafe_admin" then
    let '(x, e) := decode_bool v (st_FailsafeAdmin st) in inr (st <| st_FailsafeAdmin := x |>, e)
  else if keyIs "failsafe_mode" then
    let '(x, e) := decode_bool v (st_FailsafeMode st) in inr (st <| st_FailsafeMode := x |>, e)
  else if keyIs "failure_count" then
    let '(x, e) := decode_int v (st_FailureCount st) in inr (st <| st_FailureCount := x |>, e)
  else if keyIs "last_notification_event" then
    match decode_time v (st_LastNotificationEvent st) with
    | inl e => inl e
    | inr t => inr (st <| st_LastNotificationEvent := t |>, None)
    end
  else if keyIs "last_scaling_event" then
    match decode_time v (st_LastScalingEvent st) with
    | inl e => inl e
    | inr t => inr (st <| st_LastScalingEvent := t |>, None)
    end
  else if keyIs "last_updated" then
    match decode_time v (st_LastUpdated st) with
    | inl e => inl e
    | inr t => inr (st <| st_LastUpdated := t |>, None)
    end
  else if keyIs "resource_name" then
    let '(x, e) := decode_string v (st_ResourceName st) in inr (st <| st_ResourceName := x |>, e)
  else if keyIs "resource_type" then
    let '(x, e) := decode_string v (st_ResourceType st) in inr (st <| st_ResourceType := x |>, e)
  else if keyIs "scalein_requests" then
    let '(x, e) := decode_int v (st_ScaleInRequests st) in inr (st <| st_ScaleInRequests := x |>, e)
  else if keyIs "scaleout_requests" then
    let '(x, e) := decode_int v (st_ScaleOutRequests st) in inr (st <| st_ScaleOutRequests := x |>, e)
  else if keyIs "state_path" then
    let '(x, e) := decode_string v (st_StatePath st) in inr (st <| st_StatePath := x |>, e)
  else inr (st, None).

Fixpoint decode_fields (l : list (string * json)) (st : ScalingState) (saved : option error)
    : ScalingState * option error :=
  match l with
  | [] => (st, saved)
  | (k, v) :: l =>
      match decode_field k v st with
      | inl e => (st, Some e)
      | inr (st', e) => decode_fields l st' (match saved with Some _ => saved | None => e end)
      end
  end.

Definition json_Unmarshal (doc : option json) (st : ScalingState) : ScalingState * option error :=
  match doc with
  | None => (st, Some "invalid character")
  | Some (JObj l) => decode_fields l st None
  | Some JNull => (st, None)
  | Some _ => (st, mismatch)
  end.

(** ** Operations *)

Definition PersistState_impl (state : ScalingState) : M W (ScalingState * option error) :=
  now ← time_Now;
  let state := state <| st_LastUpdated := now |> in
  match json_Marshal state with
  | inl e => mret (state, Some "an error occurred when attempting to serialize scaling state for persistent storage")
  | inr scalingState =>
      err ← KV_Put (mkKVPair (st_StatePath state) (Some scalingState) "");
      match err with
      | Some _ => mret (state, Some "an error occurred when attempting to write scaling state data to Consul")
      | None => mret (state, None)
      end
  end.

Definition ReadState_impl (state : ScalingState) (force : bool) : M W ScalingState :=
  r ← KV_Get (st_StatePath state);
  match r with
  | inl _ => mret state
  | inr None =>
      if force then
        '(state, _) ← PersistState_impl state;
        mret state
      else mret state
  | inr (Some kvPair) =>
      let '(state, err) := json_Unmarshal (kv_Value kvPair) state in
      mret state
  end.
End client_state.
