(* ===== verification/Consul.v ===== *)
(** * Consul: the Consul client

    [client/consul.go] over the Consul HTTP API, and the instance of the
    [ConsulClient] interface it provides together with [client/state.go]. *)

From S2P Require Import Prelude GoNum Structs Interfaces State.

Section client.
Context {W : Type} {RT : Runtime W} {CA : ConsulAPI W}.

(** The session is the caller's or the one that holds the key; neither the key
    nor the session is checked to exist. *)
Definition GetLeaderInfo_impl (info : LeaderResponse) (key session : string)
    : M W (LeaderResponse * option error) :=
  r ← (if String.eqb session "" then
         r ← KV_Get key;
         match r with
         | inl err => mret (inl err)
         | inr k => k ← deref k; mret (inr (kv_Session k))
         end
       else mret (inr session));
  match r with
  | inl err => mret (info, Some err)
  | inr session =>
      r ← Session_Info session;
      match r with
      | inl err => mret (info, Some err)
      | inr s =>
          s ← deref s;
          mret (info <| lr_NodeID := se_Node s |> <| lr_SessionID := se_ID s |>, None)
      end
  end.

(** The goroutine that renews the session is [renewSession] below. *)
Definition CreateSession_impl (ttl : Z) : M W (error + string) :=
  r ← Session_Create (pretty ttl +:+ "s") "replicator_leader_lock";
  match r with
  | inl err => mret (inl err)
  | inr resp => mret (inr resp)
  end.

(** [json.Unmarshal] into a [map[string]string]: any value that is not a string
    or null is an error. *)
Fixpoint unmarshal_string_map (l : list (string * json)) (m : gmap string string)
    : error + gmap string string :=
  match l with
  | [] => inr m
  | (k, v) :: l =>
      match decode_string v "" with
      | (s, None) => unmarshal_string_map l (<[k := s]> m)
      | (_, Some e) => inl e
      end
  end.

Definition LoadPoolConfig_impl (key : string) : M W (error + gmap string string) :=
  r ← KV_Get key;
  match r with
  | inl _ | inr None => mret (inl "unable to find or read pool configuration data")
  | inr (Some config) =>
      match kv_Value config with
      | Some (JObj l) =>
          match unmarshal_string_map l ∅ with
          | inl _ => mret (inl "failed to process pool configuration data")
          | inr result => mret (inr result)
          end
      | Some JNull => mret (inr ∅)
      | _ => mret (inl "failed to process pool configuration data")
      end
  end.

(** The result is whether the lock is held and the candidate's session, which
    is cleared when Consul no longer knows it. *)
Definition AcquireLeadership_impl (key session : string) : M W (bool * string) :=
  r ← KV_Get key;
  match r with
  | inl _ => mret (false, session)
  | inr k =>
      r ← Session_Info session;
      match r with
      | inl _ => mret (false, session)
      | inr None => mret (false, "")
      | inr (Some _) =>
          let ours := match k with Some k => String.eqb (kv_Session k) session | None => false end in
          if ours then mret (true, session)
          else
            r ← KV_Acquire (mkKVPair key None session);
            match r with
            | inl _ => mret (false, session)
            | inr resp => if resp : bool then mret (true, session) else mret (false, session)
            end
      end
  end.

Definition ResignLeadership_impl (key session : string) : M W unit :=
  r ← KV_Release (mkKVPair key None session);
  mret tt.

(** ** The renewal goroutine

    Each turn of its loop answers either the renewal timer or the stop channel,
    which is always ready once it is closed. *)

Inductive renew_event := RenewDue | StopRequested.
Inductive renew_status := Renewing (sessionDestroyAttempts : Z) | RenewEnded.

Definition maxSessionDestroyAttempts : Z := 5.

Definition renew_step (session : string) (sessionDestroyAttempts : Z) (ev : renew_event)
    : M W renew_status :=
  match ev with
  | RenewDue =>
      r ← Session_Renew session;
      match r with
      | inl _ => mret RenewEnded
      | inr None => mret RenewEnded
      | inr (Some _) => mret (Renewing sessionDestroyAttempts)
      end
  | StopRequested =>
      err ← Session_Destroy session;
      match err with
      | None => mret RenewEnded
      | Some _ =>
          if maxSessionDestroyAttempts <=? sessionDestroyAttempts then mret RenewEnded
          else mret (Renewing (sessionDestroyAttempts +! 1))
      end
  end.

Fixpoint renewSession (session : string) (sessionDestroyAttempts : Z) (evs : list renew_event)
    : M W renew_status :=
  match evs with
  | [] => mret (Renewing sessionDestroyAttempts)
  | ev :: evs =>
      s ← renew_step session sessionDestroyAttempts ev;
      match s with
      | RenewEnded => mret RenewEnded
      | Renewing n => renewSession session n evs
      end
  end.
End client.

(** The interface instance. *)
Definition consulClient {W} {RT : Runtime W} {CA : ConsulAPI W} : ConsulClient W := {|
  ReadState := ReadState_impl;
  PersistState := PersistState_impl;
  LoadPoolConfig := LoadPoolConfig_impl;
  AcquireLeadership := AcquireLeadership_impl;
  CreateSession := CreateSession_impl;
  GetLeaderInfo := GetLeaderInfo_impl;
  ResignLeadership := ResignLeadership_impl;
|}.
