(* ===== verification/NodeDiscoveryFacts.v ===== *)
(** * Node discovery: the registry invariant

    [reg_wf] is preserved by every operation and keeps the daemon from
    dereferencing a missing pool; [reg_exact] says that a node belongs to the
    pool it is registered with and to no other. *)

From S2P Require Import Prelude GoNum Structs Interfaces Sim Helper State Consul NodeDiscovery.

(** ** Well-formedness *)

Record pool_wf (name : string) (wp : WorkerPool) : Prop := {
  pool_name : wp_Name wp = name;
  pool_registrations : dom (wp_NodeRegistrations wp) = dom (wp_Nodes wp);
  pool_nonempty : wp_Nodes wp ≠ ∅;
  pool_provider : is_Some (wp_ScalingProvider wp);
  pool_ids : map_Forall (λ id n, node_ID n = id) (wp_Nodes wp);
  pool_ready : map_Forall (λ _ n, node_Status n = NodeStatusReady ∧ node_Drain n = false) (wp_Nodes wp);
}.

Record reg_wf (reg : NodeRegistry) : Prop := {
  wf_unlocked : nr_Locked reg = false;
  wf_pools : map_Forall pool_wf (nr_WorkerPools reg);
  wf_registered : ∀ n p, nr_RegisteredNodes reg !! n = Some p →
    ∃ wp, nr_WorkerPools reg !! p = Some wp ∧ is_Some (wp_Nodes wp !! n);
}.

(** Membership is exactly registration. *)
Definition reg_exact (reg : NodeRegistry) : Prop :=
  ∀ p wp n, nr_WorkerPools reg !! p = Some wp → is_Some (wp_Nodes wp !! n) →
    nr_RegisteredNodes reg !! n = Some p.

(** The pool records [ProcessNodeConfig] builds: no nodes yet. *)
Definition fresh_pool (pool : WorkerPool) : Prop :=
  wp_Nodes pool = ∅ ∧ wp_NodeRegistrations pool = ∅.

(** ** What each operation computes *)

Section runs.
Context (HashPool : WorkerPool → error + Z) (HashNodes : gmap string string → error + Z).
Implicit Types (reg : NodeRegistry) (node : Node) (pool wp : WorkerPool).

Lemma unlock_id reg : nr_Locked reg = false →
  reg <| nr_Locked := true |> <| nr_Locked := false |> = reg.
Proof. destruct reg; simpl. by intros ->. Qed.

(** The pool an existing registration is merged into. *)
Definition merged wp pool : WorkerPool :=
  if (HasObjectChanged HashPool wp pool).1 then update_pool_config wp pool else wp.

Definition registered reg (n p : string) : NodeRegistry :=
  reg <| nr_RegisteredNodes ::= <[n := p]> |>.

Lemma Register_not_ready now node pool reg :
  node_Status node ≠ NodeStatusReady ∨ node_Drain node = true →
  ∃ e, Register HashPool now node pool reg = (Ret (Some e), reg).
Proof.
  intros H. unfold Register.
  destruct (String.eqb_spec (node_Status node) NodeStatusReady); simpl; [|by eexists].
  destruct H as [|H]; [done|]. rewrite H. by eexists.
Qed.

Lemma Register_run now node pool reg :
  nr_Locked reg = false → node_Status node = NodeStatusReady → node_Drain node = false →
  Register HashPool now node pool reg =
  match nr_WorkerPools reg !! wp_Name pool with
  | Some wp =>
      (Ret None,
       match wp_Nodes wp !! node_ID node with
       | Some _ => set_pool (wp_Name pool) (merged wp pool) reg
       | None =>
           if wp_ScalingEnabled pool
           then registered (set_pool (wp_Name pool) (add_node now node (merged wp pool)) reg)
                  (node_ID node) (wp_Name pool)
           else set_pool (wp_Name pool) (merged wp pool) reg
       end)
  | None =>
      match NewScalingProvider (add_node now node pool) with
      | inl _ => (Ret (Some "failed to initialize scaling provider for worker pool"), reg)
      | inr sp =>
          (Ret None, set_pool (wp_Name pool)
             ((add_node now node pool) <| wp_ScalingProvider := Some sp |>)
             (registered reg (node_ID node) (wp_Name pool)))
      end
  end.
Proof.
  intros Hl Hs Hd. unfold Register. rewrite Hs, Hd. simpl.
  unfold defer, mbind, M_bind, Lock. rewrite Hl. unfold get_reg. simpl.
  destruct (nr_WorkerPools reg !! wp_Name pool) as [wp|] eqn:Ep.
  - destruct (HasObjectChanged HashPool wp pool) as [ch er] eqn:Ech. simpl.
    assert ((if ch then update_pool_config wp pool else wp) = merged wp pool) as ->
      by (unfold merged; by rewrite Ech).
    replace (wp_Nodes (merged wp pool)) with (wp_Nodes wp)
      by (unfold merged; by destruct (HasObjectChanged _ _ _).1).
    destruct (wp_Nodes wp !! node_ID node); [|destruct (wp_ScalingEnabled pool)];
      unfold mret, M_ret, modify_reg, Unlock, registered, set_pool; simpl;
      destruct reg; simpl in *; subst; try done.
    unfold modify; simpl. by rewrite insert_insert_eq.
  - destruct (NewScalingProvider _) as [e|sp];
      unfold mret, M_ret, modify_reg, Unlock, registered, set_pool; simpl;
      destruct reg; simpl in *; subst; done.
Qed.

(** The registry after a deregistration of [n] from the pool [p]. *)
Definition removed reg (n p : string) wp : NodeRegistry :=
  let wp' := wp <| wp_Nodes ::= delete n |> <| wp_NodeRegistrations ::= delete n |> in
  reg <| nr_RegisteredNodes ::= delete n |>
      <| nr_WorkerPools ::= λ m,
           if (size (wp_Nodes wp') <=? 0)%nat then delete (wp_Name wp) (<[p := wp']> m)
           else <[p := wp']> m |>.

Lemma Deregister_run n reg :
  nr_Locked reg = false →
  Deregister n reg =
  match nr_RegisteredNodes reg !! n with
  | None => (Ret (Some "node was not previously registered, no deregistration is required"), reg)
  | Some p =>
      match nr_WorkerPools reg !! p with
      | None => (Panic "nil pointer dereference", reg)
      | Some wp => (Ret None, removed reg n p wp)
      end
  end.
Proof.
  intros Hl. unfold Deregister, defer, mbind, M_bind, Lock. rewrite Hl. unfold get_reg. simpl.
  destruct (nr_RegisteredNodes reg !! n) as [p|].
  2:{ unfold Unlock, mret, M_ret. by rewrite unlock_id. }
  destruct (nr_WorkerPools reg !! p) as [wp|]; simpl; [|by rewrite unlock_id].
  unfold mret, M_ret, removed. simpl.
  destruct (size (delete n (wp_Nodes wp)) <=? 0)%nat;
    unfold modify_reg, Unlock, set_pool; simpl; destruct reg; simpl in *; subst; done.
Qed.
End runs.

(** ** Preservation *)

Section preservation.
Context (HashPool : WorkerPool → error + Z) (HashNodes : gmap string string → error + Z).
Implicit Types (reg : NodeRegistry) (node : Node) (pool wp : WorkerPool).

Lemma merged_nodes wp pool :
  wp_Nodes (merged HashPool wp pool) = wp_Nodes wp ∧
  wp_NodeRegistrations (merged HashPool wp pool) = wp_NodeRegistrations wp ∧
  wp_Name (merged HashPool wp pool) = wp_Name wp ∧
  wp_ScalingProvider (merged HashPool wp pool) = wp_ScalingProvider wp.
Proof. unfold merged. by destruct (HasObjectChanged _ _ _).1. Qed.

Lemma merged_wf name wp pool : pool_wf name wp → pool_wf name (merged HashPool wp pool).
Proof.
  intros [? ? ? ? ? ?]. destruct (merged_nodes wp pool) as (E1 & E2 & E3 & E4).
  split; by rewrite ?E1, ?E2, ?E3, ?E4.
Qed.

Lemma add_node_wf name now node wp :
  pool_wf name wp → node_Status node = NodeStatusReady → node_Drain node = false →
  pool_wf name (add_node now node wp).
Proof.
  intros [? Hd ? ? ? ?] Hs Hn. split; simpl; try done.
  - by rewrite !dom_insert_L, Hd.
  - apply insert_non_empty.
  - by apply map_Forall_insert_2.
  - by apply map_Forall_insert_2.
Qed.

Lemma add_node_fresh_wf now node pool sp :
  fresh_pool pool → node_Status node = NodeStatusReady → node_Drain node = false →
  pool_wf (wp_Name pool) ((add_node now node pool) <| wp_ScalingProvider := Some sp |>).
Proof.
  intros [Hn Hr] Hs Hd. split; simpl; try done; rewrite ?Hn, ?Hr.
  - by rewrite !dom_insert_L, !dom_empty_L.
  - apply insert_non_empty.
  - by apply map_Forall_insert_2.
  - by apply map_Forall_insert_2.
Qed.

(** Writing a well-formed pool that keeps the nodes of the one it replaces. *)
Lemma set_pool_wf reg name wp wp' :
  reg_wf reg → nr_WorkerPools reg !! name = Some wp → pool_wf name wp' →
  wp_Nodes wp ⊆ wp_Nodes wp' → reg_wf (set_pool name wp' reg).
Proof.
  intros [Hl Hp Hr] Hw Hwf Hsub. split; simpl; [done|by apply map_Forall_insert_2|].
  intros n p (wp0 & Hp0 & Hn)%Hr. destruct (decide (p = name)) as [->|Hne].
  - simplify_eq. exists wp'. rewrite lookup_insert_eq. split; [done|].
    destruct Hn as [x Hx]. exists x. by eapply lookup_weaken.
  - exists wp0. by rewrite lookup_insert_ne by done.
Qed.

Lemma registered_wf reg n p wp :
  reg_wf reg → nr_WorkerPools reg !! p = Some wp → is_Some (wp_Nodes wp !! n) →
  reg_wf (registered reg n p).
Proof.
  intros [Hl Hp Hr] Hw Hn. split; simpl; [done|done|].
  intros m q [[<- <-]|[Hne Hm]]%lookup_insert_Some; [by exists wp|by apply Hr].
Qed.

Lemma add_node_nodes now node wp : wp_Nodes wp !! node_ID node = None →
  wp_Nodes wp ⊆ wp_Nodes (add_node now node wp).
Proof. intros H. by apply insert_subseteq. Qed.

Lemma register_wf now node pool reg :
  reg_wf reg → fresh_pool pool →
  ∃ e reg', Register HashPool now node pool reg = (Ret e, reg') ∧ reg_wf reg'.
Proof.
  intros Hwf Hf.
  destruct (decide (node_Status node = NodeStatusReady)) as [Hs|Hs].
  2:{ destruct (Register_not_ready HashPool now node pool reg) as [e He]; eauto. }
  destruct (node_Drain node) eqn:Hd.
  { destruct (Register_not_ready HashPool now node pool reg) as [e He]; eauto. }
  rewrite Register_run by (try done; apply Hwf).
  destruct (nr_WorkerPools reg !! wp_Name pool) as [wp|] eqn:Ep.
  - do 2 eexists. split; [reflexivity|].
    pose proof (wf_pools _ Hwf _ _ Ep) as Hpw.
    destruct (merged_nodes wp pool) as (E1 & _).
    pose proof (merged_wf _ _ pool Hpw) as Hmw.
    assert (reg_wf (set_pool (wp_Name pool) (merged HashPool wp pool) reg)) as Hset
      by (apply (set_pool_wf _ _ wp); try done; by rewrite E1).
    destruct (wp_Nodes wp !! node_ID node) eqn:En; [done|].
    destruct (wp_ScalingEnabled pool); [|done].
    eapply registered_wf; [|by apply lookup_insert_eq|simpl; rewrite lookup_insert_eq; eauto].
    apply (set_pool_wf _ _ wp); try done; [by apply add_node_wf|].
    rewrite <-E1. apply add_node_nodes. by rewrite E1.
  - destruct (NewScalingProvider _) as [e|sp]; [by eauto|].
    do 2 eexists. split; [reflexivity|].
    pose proof (add_node_fresh_wf now node pool sp Hf Hs Hd) as Hpw.
    destruct Hwf as [Hl Hp Hr]. split; simpl; [done|by apply map_Forall_insert_2|].
    intros n p [[<- <-]|[Hne (wp & Hw & Hn)%Hr]]%lookup_insert_Some.
    + eexists. split; [apply lookup_insert_eq|]. simpl. rewrite lookup_insert_eq. eauto.
    + exists wp. rewrite lookup_insert_ne by congruence. done.
Qed.

(** The pool [n] is taken from, after the removal. *)
Definition without (n : string) wp : WorkerPool :=
  wp <| wp_Nodes ::= delete n |> <| wp_NodeRegistrations ::= delete n |>.

Lemma without_wf name n wp :
  pool_wf name wp → wp_Nodes (without n wp) ≠ ∅ → pool_wf name (without n wp).
Proof.
  intros [? Hd ? ? ? ?] Hne. split; try done; simpl.
  - by rewrite !dom_delete_L, Hd.
  - by apply map_Forall_delete.
  - by apply map_Forall_delete.
Qed.

Lemma size_le_0 {A} (m : gmap string A) : (size m <=? 0)%nat = true ↔ m = ∅.
Proof. rewrite Nat.leb_le, Nat.le_0_r. apply map_size_empty_iff. Qed.

(** The pools after a removal: the pool disappears with its last node. *)
Lemma removed_pools reg n p wp q :
  nr_WorkerPools reg !! p = Some wp → wp_Name wp = p →
  nr_WorkerPools (removed reg n p wp) !! q =
  if decide (q = p) then
    (if decide (wp_Nodes (without n wp) = ∅) then None else Some (without n wp))
  else nr_WorkerPools reg !! q.
Proof.
  intros Hp Hn. unfold removed. cbn -[Nat.leb]. rewrite Hn.
  destruct (size (delete n (wp_Nodes wp)) <=? 0)%nat eqn:Es; cbn -[Nat.leb].
  - apply size_le_0 in Es. destruct (decide (q = p)) as [->|Hne].
    + rewrite lookup_delete_eq. by rewrite decide_True.
    + by rewrite lookup_delete_ne, lookup_insert_ne.
  - destruct (decide (q = p)) as [->|Hne].
    + rewrite lookup_insert_eq, decide_False; [done|]. simpl. rewrite <-size_le_0. congruence.
    + by rewrite lookup_insert_ne.
Qed.

Lemma removed_registered reg n p wp :
  nr_RegisteredNodes (removed reg n p wp) = delete n (nr_RegisteredNodes reg).
Proof. done. Qed.

Lemma removed_wf reg n p wp :
  reg_wf reg → nr_WorkerPools reg !! p = Some wp → reg_wf (removed reg n p wp).
Proof.
  intros [Hl Hp Hr] Hw. pose proof (Hp _ _ Hw) as Hpw.
  pose proof (removed_pools reg n p wp) as Hlook. specialize (λ q, Hlook q Hw (pool_name _ _ Hpw)).
  split; [done|..].
  - intros q wq Hq. rewrite Hlook in Hq. case_decide; [|by apply Hp].
    case_decide as Hne; simplify_eq. by apply without_wf.
  - intros m q. rewrite removed_registered.
    intros [Hne (wq & Hwq & Hm)%Hr]%lookup_delete_Some. rewrite Hlook.
    destruct (decide (q = p)) as [->|Hqp]; [|by exists wq]. simplify_eq.
    assert (is_Some (wp_Nodes (without n wp) !! m)) as Hm' by (simpl; by rewrite lookup_delete_ne).
    rewrite decide_False; [by exists (without n wp)|]. intros He. rewrite He in Hm'.
    destruct Hm' as [x Hx]. by rewrite lookup_empty in Hx.
Qed.

Lemma deregister_wf n reg :
  reg_wf reg →
  ∃ e reg', Deregister n reg = (Ret e, reg') ∧ reg_wf reg' ∧
            nr_RegisteredNodes reg' = delete n (nr_RegisteredNodes reg).
Proof.
  intros Hwf. rewrite Deregister_run by apply Hwf.
  destruct (nr_RegisteredNodes reg !! n) as [p|] eqn:E.
  - destruct (wf_registered _ Hwf _ _ E) as (wp & Hw & _). rewrite Hw.
    do 2 eexists. split; [done|]. split; [by apply removed_wf|done].
  - do 2 eexists. split; [done|]. split; [done|]. by rewrite delete_id.
Qed.

Lemma deregister_exact n reg e reg' :
  reg_wf reg → reg_exact reg → Deregister n reg = (Ret e, reg') → reg_exact reg'.
Proof.
  intros Hwf Hex. rewrite Deregister_run by apply Hwf.
  destruct (nr_RegisteredNodes reg !! n) as [p|] eqn:E; [|by intros [= _ <-]].
  destruct (wf_registered _ Hwf _ _ E) as (wp & Hw & _). rewrite Hw. intros [= _ <-].
  intros q wq m Hq Hm. rewrite removed_pools in Hq; [|done|by apply (wf_pools _ Hwf)].
  rewrite removed_registered. apply lookup_delete_Some. case_decide as Hqp.
  - case_decide; simplify_eq. simpl in Hm. apply lookup_delete_is_Some in Hm as [Hne Hm]. eauto.
  - assert (nr_RegisteredNodes reg !! m = Some q) by eauto. split; [|done]. congruence.
Qed.

Lemma register_exact now node pool reg e reg' :
  reg_wf reg → reg_exact reg → fresh_pool pool →
  (∀ p, nr_RegisteredNodes reg !! node_ID node = Some p → p = wp_Name pool) →
  Register HashPool now node pool reg = (Ret e, reg') → reg_exact reg'.
Proof.
  intros Hwf Hex [Hfn _] Hsame.
  destruct (decide (node_Status node = NodeStatusReady)) as [Hs|Hs].
  2:{ destruct (Register_not_ready HashPool now node pool reg) as [? ->]; [auto|].
      by intros [= _ <-]. }
  destruct (node_Drain node) eqn:Hd.
  { destruct (Register_not_ready HashPool now node pool reg) as [? ->]; [auto|].
    by intros [= _ <-]. }
  rewrite Register_run by (try done; apply Hwf).
  destruct (nr_WorkerPools reg !! wp_Name pool) as [wp|] eqn:Ep.
  - intros [= _ <-]. destruct (merged_nodes wp pool) as (E1 & _).
    assert (reg_exact (set_pool (wp_Name pool) (merged HashPool wp pool) reg)) as Hset.
    { intros q wq m; simpl; intros [[<- <-]|[Hne Hq]]%lookup_insert_Some Hm; [|by eapply Hex].
      rewrite E1 in Hm. by eapply Hex. }
    destruct (wp_Nodes wp !! node_ID node) eqn:En; [done|].
    destruct (wp_ScalingEnabled pool); [|done].
    intros q wq m; simpl; intros [[<- <-]|[Hne Hq]]%lookup_insert_Some Hm; simpl in *;
      destruct (decide (m = node_ID node)) as [->|Hmn].
    + by rewrite lookup_insert_eq.
    + rewrite lookup_insert_ne by done. rewrite lookup_insert_ne, E1 in Hm by done. by eapply Hex.
    + destruct Hne. symmetry. by eapply Hsame, Hex.
    + rewrite lookup_insert_ne by done. by eapply Hex.
  - destruct (NewScalingProvider _) as [er|sp]; [by intros [= _ <-]|]. intros [= _ <-].
    intros q wq m; simpl; intros [[<- <-]|[Hne Hq]]%lookup_insert_Some Hm; simpl in *;
      destruct (decide (m = node_ID node)) as [->|Hmn].
    + by rewrite lookup_insert_eq.
    + rewrite Hfn, lookup_insert_ne, lookup_empty in Hm by done. by destruct Hm.
    + destruct Hne. symmetry. by eapply Hsame, Hex.
    + rewrite lookup_insert_ne by done. by eapply Hex.
Qed.
End preservation.

(** ** The registry with the lock held *)

(** The registry invariant without the lock, which a goroutine may hold. *)
Record shape (reg : NodeRegistry) : Prop := {
  shape_pools : map_Forall pool_wf (nr_WorkerPools reg);
  shape_registered : ∀ n p, nr_RegisteredNodes reg !! n = Some p →
    ∃ wp, nr_WorkerPools reg !! p = Some wp ∧ is_Some (wp_Nodes wp !! n);
}.

Lemma shape_wf reg : reg_wf reg ↔ nr_Locked reg = false ∧ shape reg.
Proof. split; [intros [? ? ?]; by split|intros [? [? ?]]; by split]. Qed.

(** A write under the lock that leaves the nodes of the pools alone. *)
Lemma shape_set_pool reg name wp wp' :
  nr_WorkerPools reg !! name = Some wp → wp_Nodes wp' = wp_Nodes wp →
  pool_wf name wp' → shape reg → shape (set_pool name wp' reg).
Proof.
  intros Hn Hnodes Hwp' [Hp Hr]. unfold set_pool. split; simpl; [by apply map_Forall_insert_2|].
  intros n p Hnp. destruct (Hr _ _ Hnp) as (q & Hq & Hin). destruct (decide (p = name)) as [->|Hne].
  - rewrite lookup_insert_eq. exists wp'. split; [done|]. rewrite Hnodes. naive_solver.
  - rewrite lookup_insert_ne by done. by exists q.
Qed.

Lemma shape_locked reg b : shape (reg <| nr_Locked := b |>) ↔ shape reg.
Proof. split; intros [? ?]; by split. Qed.

(** The error of [nodeProtectionCheck] for a host that is not registered. *)
Definition unregistered : error :=
  "running as a Nomad job but unable to determine the worker pool for our host node".

(** ** The registry as a state machine *)

Section machine.
Context (HashPool : WorkerPool → error + Z) (HashNodes : gmap string string → error + Z).
Implicit Types (reg : NodeRegistry) (node : Node) (pool wp : WorkerPool).

Lemma updated_wf reg : reg_wf reg →
  ∃ b reg', NodeRegistryUpdated HashNodes reg = (Ret b, reg') ∧ reg_wf reg' ∧
    nr_RegisteredNodes reg' = nr_RegisteredNodes reg ∧ nr_WorkerPools reg' = nr_WorkerPools reg.
Proof.
  intros [Hl Hp Hr]. unfold NodeRegistryUpdated, mbind, M_bind, Lock. rewrite Hl.
  unfold get_reg. simpl. destruct (negb _); do 2 eexists; (split; [reflexivity|]);
    (split; [by split|done]).
Qed.

Lemma protect_wf host reg p :
  reg_wf reg → nr_RegisteredNodes reg !! host = Some p →
  ∃ reg', protectHost host reg = (Ret None, reg') ∧ reg_wf reg' ∧
    nr_RegisteredNodes reg' = nr_RegisteredNodes reg ∧
    ∃ wp, nr_WorkerPools reg !! p = Some wp ∧
      nr_WorkerPools reg' = <[p := wp <| wp_ProtectedNode := host |>]> (nr_WorkerPools reg).
Proof.
  intros Hwf Hh. destruct (wf_registered _ Hwf _ _ Hh) as (wp & Hw & Hn).
  pose proof (wf_pools _ Hwf _ _ Hw) as Hpw. pose proof (wf_unlocked _ Hwf) as Hl.
  unfold protectHost, mbind, M_bind, Lock. rewrite Hl. unfold get_reg. simpl.
  rewrite Hh, Hw. simpl. destruct (String.eqb_spec (wp_ProtectedNode wp) host) as [E|E];
    unfold mret, M_ret, modify_reg, Unlock; simpl.
  - eexists. split; [reflexivity|]. rewrite unlock_id by done. split; [done|]. split; [done|].
    exists wp. split; [done|]. rewrite insert_id; [done|]. rewrite Hw. f_equal.
    subst host. by destruct wp.
  - eexists. split; [reflexivity|]. split; [|split; [done|]; by exists wp].
    destruct Hwf as [_ Hp Hr]. split; simpl; [done|..].
    + apply map_Forall_insert_2; [|done]. destruct Hpw. by split.
    + intros m q (wq & Hq & Hm)%Hr. destruct (decide (q = p)) as [->|Hne].
      * simplify_eq. eexists. by rewrite lookup_insert_eq.
      * exists wq. by rewrite lookup_insert_ne.
Qed.

(** The calls made by the watcher and by the leader protection. *)
Inductive reg_step : NodeRegistry → NodeRegistry → Prop :=
| step_register now node pool reg e reg' :
    fresh_pool pool → Register HashPool now node pool reg = (Ret e, reg') → reg_step reg reg'
| step_deregister n reg e reg' :
    Deregister n reg = (Ret e, reg') → reg_step reg reg'
| step_updated reg b reg' :
    NodeRegistryUpdated HashNodes reg = (Ret b, reg') → reg_step reg reg'
| step_protect host reg e reg' :
    protectHost host reg = (Ret e, reg') → reg_step reg reg'.

(** A host that is not registered: the error is returned with the lock held. *)
Lemma protect_unregistered host reg :
  nr_Locked reg = false → nr_RegisteredNodes reg !! host = None →
  protectHost host reg = (Ret (Some unregistered), reg <| nr_Locked := true |>).
Proof.
  intros Hl Hn. unfold protectHost, mbind, M_bind, Lock. rewrite Hl. unfold get_reg. simpl. by rewrite Hn.
Qed.

(** The lock was lost by the protection of an unregistered host. *)
Definition lock_leaked reg1 reg : Prop :=
  reg_wf reg1 ∧ ∃ host, nr_RegisteredNodes reg1 !! host = None ∧
    protectHost host reg1 = (Ret (Some unregistered), reg).

Lemma step_wf reg reg' : reg_step reg reg' → reg_wf reg → reg_wf reg' ∨ lock_leaked reg reg'.
Proof.
  intros Hs Hwf. inversion Hs as [? ? ? ? ? ? Hf E|? ? ? ? E|? ? ? E|? ? ? ? E]; subst.
  - left. destruct (register_wf HashPool now node pool reg Hwf Hf) as (? & ? & E' & ?). congruence.
  - left. destruct (deregister_wf n reg Hwf) as (? & ? & E' & ? & _). congruence.
  - left. destruct (updated_wf reg Hwf) as (? & ? & E' & ? & _). congruence.
  - destruct (nr_RegisteredNodes reg !! host) as [p|] eqn:Hp.
    + left. destruct (protect_wf host reg p Hwf Hp) as (? & E' & ? & _). congruence.
    + right. split; [done|]. exists host. split; [done|].
      rewrite protect_unregistered in * by (done || apply Hwf). congruence.
Qed.

(** With the lock held no operation changes anything. *)
Lemma step_locked reg reg' : reg_step reg reg' → nr_Locked reg = true → reg' = reg.
Proof.
  intros Hs Hl. inversion Hs as [? ? ? ? ? ? Hf E|? ? ? ? E|? ? ? E|? ? ? ? E]; subst; revert E.
  - unfold Register. destruct (negb _); [by intros [= _ <-]|]. destruct (node_Drain node); [by intros [= _ <-]|].
    unfold mbind, M_bind, Lock. by rewrite Hl.
  - unfold Deregister, mbind, M_bind, Lock. by rewrite Hl.
  - unfold NodeRegistryUpdated, mbind, M_bind, Lock. by rewrite Hl.
  - unfold protectHost, mbind, M_bind, Lock. by rewrite Hl.
Qed.

Lemma new_registry_wf : reg_wf NewNodeRegistry ∧ reg_exact NewNodeRegistry.
Proof.
  split; [split; simpl; [done|apply map_Forall_empty|]|].
  - intros n p H. by apply lookup_empty_Some in H.
  - intros p wp n H. simpl in H. by apply lookup_empty_Some in H.
Qed.

Lemma reachable_wf reg : rtc reg_step NewNodeRegistry reg →
  reg_wf reg ∨ ∃ reg1, rtc reg_step NewNodeRegistry reg1 ∧ lock_leaked reg1 reg.
Proof.
  revert reg. refine (rtc_ind_r (λ reg, reg_wf reg ∨ ∃ reg1, rtc reg_step NewNodeRegistry reg1 ∧ lock_leaked reg1 reg)
    NewNodeRegistry _ _); [left; apply new_registry_wf|].
  intros reg reg' H Hs IH. destruct IH as [Hwf|(reg1 & Hr & Hl)].
  - destruct (step_wf _ _ Hs Hwf) as [?|Hl]; [by left|right]. by exists reg.
  - right. exists reg1. split; [done|]. assert (reg' = reg) as ->; [|done].
    apply step_locked; [done|]. destruct Hl as (Hwf & host & Hn & E).
    rewrite protect_unregistered in E by (done || apply Hwf). by injection E as <-.
Qed.

(** C6. Invariant of the node registry.  In every registry reachable by
    registrations, deregistrations, hash updates and protections of any host
    that return, a registered node belongs to an existing pool that lists it,
    and every pool is non-empty, has its scaling provider and lists ready nodes
    under their identifiers.  The lock is free, and then every further
    registration and deregistration returns, unless the host to protect was
    once not registered: the check returned its error with the lock held, and
    the registry is as it was then. *)
Theorem registry_invariant reg :
  rtc reg_step NewNodeRegistry reg →
  shape reg ∧
  (reg_wf reg ∧ (∀ n, ∃ e reg', Deregister n reg = (Ret e, reg')) ∧
   (∀ now node pool, fresh_pool pool →
      ∃ e reg', Register HashPool now node pool reg = (Ret e, reg')) ∨
   ∃ reg1 host, rtc reg_step NewNodeRegistry reg1 ∧ reg_wf reg1 ∧ nr_RegisteredNodes reg1 !! host = None ∧
     protectHost host reg1 = (Ret (Some unregistered), reg) ∧ reg = reg1 <| nr_Locked := true |>).
Proof.
  intros [Hwf|(reg1 & Hr & Hwf & host & Hn & E)]%reachable_wf.
  - split; [by apply shape_wf|left]. split; [done|]. split.
    + intros n. destruct (deregister_wf n reg Hwf) as (e & reg' & ? & _). eauto.
    + intros now node pool Hf. destruct (register_wf HashPool now node pool reg Hwf Hf) as (e & reg' & ? & _). eauto.
  - assert (reg = reg1 <| nr_Locked := true |>) as El.
    { rewrite protect_unregistered in E by (done || apply Hwf). by injection E as <-. }
    split; [rewrite El; by apply shape_locked, shape_wf|right]. exists reg1, host. done.
Qed.

(** Round trip.  Deregistering a node right after its registration gives
    back the very registry that was there before, whether the registration
    created the pool or joined one whose configuration it left unchanged. *)
Theorem register_deregister_roundtrip reg now node pool reg' :
  reg_wf reg → reg_exact reg → fresh_pool pool → wp_ScalingEnabled pool = true →
  nr_RegisteredNodes reg !! node_ID node = None →
  (∀ wp, nr_WorkerPools reg !! wp_Name pool = Some wp →
     (HasObjectChanged HashPool wp pool).1 = false) →
  Register HashPool now node pool reg = (Ret None, reg') →
  Deregister (node_ID node) reg' = (Ret None, reg).
Proof.
  intros Hwf Hex [Hfn Hfr] Hen Hnone Hsame HR.
  destruct (decide (node_Status node = NodeStatusReady)) as [Hs|Hs].
  2:{ destruct (Register_not_ready HashPool now node pool reg) as [? Hx]; [auto|congruence]. }
  destruct (node_Drain node) eqn:Hd.
  { destruct (Register_not_ready HashPool now node pool reg) as [? Hx]; [auto|congruence]. }
  rewrite Register_run in HR by (try done; apply Hwf).
  destruct (nr_WorkerPools reg !! wp_Name pool) as [wp|] eqn:Ep.
  - destruct (wp_Nodes wp !! node_ID node) eqn:En.
    { assert (nr_RegisteredNodes reg !! node_ID node = Some (wp_Name pool)) by eauto. congruence. }
    rewrite Hen in HR. simplify_eq.
    pose proof (wf_pools _ Hwf _ _ Ep) as [Hname Hdom Hne _ _ _].
    assert (wp_NodeRegistrations wp !! node_ID node = None) as Hrn
      by (apply not_elem_of_dom; rewrite Hdom; by apply not_elem_of_dom).
    rewrite Deregister_run by apply Hwf. simpl. rewrite lookup_insert_eq, lookup_insert_eq.
    f_equal. unfold removed, merged. rewrite (Hsame wp) by done. simpl.
    rewrite !delete_insert_id by done.
    destruct (size (wp_Nodes wp) <=? 0)%nat eqn:Esz; [by apply size_le_0 in Esz|].
    unfold modify; simpl. rewrite delete_insert_id by done.
    rewrite insert_insert_eq, insert_id; [by destruct reg|]. rewrite Ep. f_equal.
    rewrite !delete_insert_id by done. by destruct wp.
  - destruct (NewScalingProvider _) as [|sp]; simplify_eq.
    rewrite Deregister_run by apply Hwf. simpl. rewrite lookup_insert_eq, lookup_insert_eq.
    f_equal. unfold removed. simpl. rewrite Hfn, delete_insert_id by apply lookup_empty.
    rewrite map_size_empty. unfold modify; simpl. rewrite delete_insert_id by done.
    rewrite insert_insert_eq, delete_insert_id by done. by destruct reg.
Qed.

(** A node that comes back with another pool name stays a member of its
    old pool: the registration under the new pool does not remove it there, so
    the two records of membership disagree from then on. *)
Theorem register_moved_node reg now node pool wpA wpB a reg' :
  reg_wf reg → a ≠ wp_Name pool →
  nr_RegisteredNodes reg !! node_ID node = Some a →
  nr_WorkerPools reg !! a = Some wpA → is_Some (wp_Nodes wpA !! node_ID node) →
  nr_WorkerPools reg !! wp_Name pool = Some wpB → wp_Nodes wpB !! node_ID node = None →
  wp_ScalingEnabled pool = true →
  node_Status node = NodeStatusReady → node_Drain node = false →
  Register HashPool now node pool reg = (Ret None, reg') →
  nr_RegisteredNodes reg' !! node_ID node = Some (wp_Name pool) ∧
  nr_WorkerPools reg' !! a = Some wpA ∧ ¬ reg_exact reg'.
Proof.
  intros Hwf Hne Hra Ha Hna HB HnB Hen Hs Hd HR.
  rewrite Register_run, HB, HnB, Hen in HR by (try done; apply Hwf). simplify_eq. simpl.
  rewrite lookup_insert_eq, lookup_insert_ne by done. split; [done|]. split; [done|].
  intros Hex. specialize (Hex a wpA (node_ID node)). simpl in Hex.
  rewrite lookup_insert_eq, lookup_insert_ne in Hex by done.
  specialize (Hex Ha Hna). congruence.
Qed.

(** The leader-protection check leaks the registry lock.  When the host
    of Replicator's own allocation is not a registered node the check returns
    an error with the lock held, and from then on no registration of a ready
    node and no deregistration returns. *)
Theorem protect_unregistered_host_blocks reg host :
  nr_Locked reg = false → nr_RegisteredNodes reg !! host = None →
  ∃ e reg', protectHost host reg = (Ret (Some e), reg') ∧ nr_Locked reg' = true ∧
    (∀ n, (Deregister n reg').1 = Panic blocked) ∧
    (∀ now node pool, node_Status node = NodeStatusReady → node_Drain node = false →
       (Register HashPool now node pool reg').1 = Panic blocked).
Proof.
  intros Hl Hn. unfold protectHost, mbind, M_bind, Lock. rewrite Hl. unfold get_reg. simpl.
  rewrite Hn. do 2 eexists. split; [reflexivity|]. split; [done|]. split; [done|].
  intros now node pool Hs Hd. unfold Register. by rewrite Hs, Hd.
Qed.
End machine.

(** ** Node configuration and the watcher *)

Section config.
Context {W : Type} {CC : ConsulClient W}.
Context (DecodePool : gmap string string → WorkerPool → error + WorkerPool).

Lemma no_missing_keys params ks :
  (0 <? length (ParseMetaConfig params ks))%nat = false →
  ∀ k, k ∈ ks → is_Some (params !! k).
Proof.
  rewrite ParseMetaConfig_filter. intros H%Nat.ltb_ge k Hk.
  destruct (params !! k) eqn:E; [by eexists|]. exfalso.
  assert (k ∈ filter (λ k, params !! k = None) ks) as Hin
    by (by apply list_elem_of_filter).
  destruct (filter _ ks); [by apply elem_of_nil in Hin|simpl in H; lia].
Qed.

Lemma missing_key params ks :
  (0 <? length (ParseMetaConfig params ks))%nat = true → ∃ k, k ∈ ks ∧ params !! k = None.
Proof.
  rewrite ParseMetaConfig_filter. intros H. destruct (filter _ ks) as [|k l] eqn:E; [done|].
  assert (k ∈ filter (λ k, params !! k = None) ks) as [Hk Hin]%list_elem_of_filter by (rewrite E; left).
  by exists k.
Qed.

(** C35. A pool configuration is only ever built from a complete set of
    parameters: the node's own meta parameters when they hold all five required
    keys, and only when one of them is missing the fallback stored in Consul
    under the name of the node's worker pool, which must hold them all. *)
Theorem process_node_config_complete root node (w : W) pool w' :
  ProcessNodeConfig DecodePool root node w = (Ret (inr pool), w') →
  ∃ params, DecodePool params NewWorkerPool = inr pool ∧
    (∀ k, k ∈ nodeRequiredKeys → is_Some (params !! k)) ∧
    (params = node_Meta node ∧ w' = w ∨
     (∃ k, k ∈ nodeRequiredKeys ∧ node_Meta node !! k = None) ∧
     ∃ name, node_Meta node !! "replicator_worker_pool" = Some name ∧
       LoadPoolConfig (root +:+ "/nodes/" +:+ name) w = (Ret (inr params), w')).
Proof.
  unfold ProcessNodeConfig. intros H.
  destruct (_ =? _)%nat; [by go_inv|].
  destruct (0 <? length (ParseMetaConfig (node_Meta node) nodeRequiredKeys))%nat eqn:Em;
    cbn [andb] in H.
  2:{ apply mret_inv in H as [Hd ->]. exists (node_Meta node). split; [done|].
      split; [by apply no_missing_keys|by left]. }
  destruct (StringInSlice _ _) eqn:Es; cbn [negb] in H; [by go_inv|].
  assert (is_Some (node_Meta node !! "replicator_worker_pool")) as [name Hname].
  { destruct (node_Meta node !! "replicator_worker_pool") eqn:E; [by eexists|].
    exfalso. rewrite <-not_true_iff_false, StringInSlice_spec in Es.
    destruct Es. rewrite ParseMetaConfig_filter. apply list_elem_of_filter. split; [done|].
    unfold nodeRequiredKeys. set_solver. }
  rewrite Hname in H. simpl in H. go_inv_step. destruct r as [|params]; [by go_inv|].
  destruct (0 <? length (ParseMetaConfig params nodeRequiredKeys))%nat eqn:Em'; [by go_inv|].
  apply mret_inv in H as [Hd ->]. exists params. split; [done|].
  split; [by apply no_missing_keys|]. right. split; [by apply missing_key|by exists name].
Qed.
End config.

(** ** Witnesses *)

Definition sim_hash (wp : WorkerPool) : error + Z := inr (wp_Cooldown wp + wp_RetryThreshold wp).
Definition sim_hash_nodes (m : gmap string string) : error + Z := inr (Z.of_nat (size m)).

Definition demo_pool (name : string) : WorkerPool :=
  NewWorkerPool <| wp_Name := name |> <| wp_ProviderName := "aws" |>
    <| wp_Region := "us-east-1" |> <| wp_ScalingEnabled := true |>.

Definition demo_reg1 : NodeRegistry :=
  (Register sim_hash 5 node1 (demo_pool "pool-a") NewNodeRegistry).2.
Definition demo_reg2 : NodeRegistry :=
  (Register sim_hash 6 node2 (demo_pool "pool-b") demo_reg1).2.

Lemma registry_invariant_witness : shape demo_reg1.
Proof.
  apply (registry_invariant sim_hash sim_hash_nodes demo_reg1).
  eapply rtc_once, (step_register _ _ 5 node1 (demo_pool "pool-a")); [done|].
  vm_compute. reflexivity.
Defined.

Lemma demo_reg1_wf : reg_wf demo_reg1 ∧ reg_exact demo_reg1.
Proof.
  destruct new_registry_wf as [Hw He].
  assert (Register sim_hash 5 node1 (demo_pool "pool-a") NewNodeRegistry = (Ret None, demo_reg1)) as E
    by (vm_compute; reflexivity).
  destruct (register_wf sim_hash 5 node1 (demo_pool "pool-a") NewNodeRegistry Hw) as (? & ? & E' & ?);
    [done|].
  split; [congruence|].
  eapply register_exact; [exact Hw|exact He| |intros p Hp; simpl in Hp; by apply lookup_empty_Some in Hp|exact E]. done.
Qed.

Lemma register_deregister_roundtrip_witness :
  Deregister "node-2" demo_reg2 = (Ret None, demo_reg1).
Proof.
  apply (register_deregister_roundtrip sim_hash demo_reg1 6 node2 (demo_pool "pool-b") demo_reg2);
    [apply demo_reg1_wf..|done|done|vm_compute; reflexivity| |vm_compute; reflexivity].
  intros wp Hwp. vm_compute in Hwp. discriminate.
Defined.

Lemma demo_reg2_wf : reg_wf demo_reg2.
Proof.
  destruct demo_reg1_wf as [Hw _].
  destruct (register_wf sim_hash 6 node2 (demo_pool "pool-b") demo_reg1 Hw) as (e & r & E & ?); [done|].
  assert (Register sim_hash 6 node2 (demo_pool "pool-b") demo_reg1 = (Ret None, demo_reg2)) as E'
    by (vm_compute; reflexivity).
  congruence.
Qed.

Definition demo_reg3 : NodeRegistry :=
  (Register sim_hash 7 node1 (demo_pool "pool-b") demo_reg2).2.

Lemma register_moved_node_witness :
  nr_RegisteredNodes demo_reg3 !! "node-1" = Some "pool-b" ∧ ¬ reg_exact demo_reg3.
Proof.
  edestruct (register_moved_node sim_hash demo_reg2 7 node1 (demo_pool "pool-b")) as (H1 & _ & H2);
    [apply demo_reg2_wf| |vm_compute; reflexivity|vm_compute; reflexivity|vm_compute; eauto
    |vm_compute; reflexivity|vm_compute; reflexivity|done|done|done|vm_compute; reflexivity|].
  - discriminate.
  - exact (conj H1 H2).
Defined.

Lemma protect_unregistered_host_blocks_witness :
  ∃ e reg', protectHost "node-9" demo_reg1 = (Ret (Some e), reg') ∧ nr_Locked reg' = true ∧
    (∀ n, (Deregister n reg').1 = Panic blocked) ∧
    (∀ now node pool, node_Status node = NodeStatusReady → node_Drain node = false →
       (Register sim_hash now node pool reg').1 = Panic blocked).
Proof.
  apply (protect_unregistered_host_blocks sim_hash demo_reg1 "node-9"); vm_compute; reflexivity.
Defined.

(** A node that only names its pool, and the fallback in Consul. *)
Definition sim_decode (params : gmap string string) (wp : WorkerPool) : error + WorkerPool :=
  inr (wp <| wp_Name := default "" (params !! "replicator_worker_pool") |>
          <| wp_Region := default "" (params !! "replicator_region") |>).

Definition fallback_node : Node :=
  mkNode "node-4" NodeStatusReady false {[ "replicator_worker_pool" := "pool-c" ]} None "" ∅.

Definition fallback_world : world :=
  sim0 <| sim_kv := {[ "replicator/config/nodes/pool-c" :=
    mkKVPair "replicator/config/nodes/pool-c"
      (Some (JObj [("replicator_enabled", JStr "true"); ("replicator_notification_uid", JStr "R1");
                   ("replicator_provider", JStr "aws"); ("replicator_region", JStr "us-east-1");
                   ("replicator_worker_pool", JStr "pool-c")])) "" ]} |>.

Definition fallback_pool : WorkerPool :=
  NewWorkerPool <| wp_Name := "pool-c" |> <| wp_Region := "us-east-1" |>.

#[local] Existing Instance consulClient.

Lemma process_node_config_complete_witness :
  ∃ params, sim_decode params NewWorkerPool = inr fallback_pool ∧
    (∀ k, k ∈ nodeRequiredKeys → is_Some (params !! k)) ∧
    (params = node_Meta fallback_node ∧ fallback_world = fallback_world ∨
     (∃ k, k ∈ nodeRequiredKeys ∧ node_Meta fallback_node !! k = None) ∧
     ∃ name, node_Meta fallback_node !! "replicator_worker_pool" = Some name ∧
       LoadPoolConfig ("replicator/config" +:+ "/nodes/" +:+ name) fallback_world =
         (Ret (inr params), fallback_world)).
Proof.
  apply (process_node_config_complete sim_decode "replicator/config" fallback_node fallback_world);
    vm_compute; reflexivity.
Defined.
