(* ===== verification/RegistryMap.v ===== *)
(** * RegistryMap: the registry as a map from nodes to pools

    The abstract view of [client/node_discovery.go]: a map from node
    identifiers to pool names.  Sequences of registrations and deregistrations
    of the registry are matched by sequences of the map, answer for answer, as
    long as no node is registered under a second pool. *)

From S2P Require Import Prelude GoNum Structs Interfaces Sim Helper State Consul NodeDiscovery NodeDiscoveryFacts.

(** ** The abstract registry *)

Inductive registry_op :=
| OpRegister (now : Time) (node : Node) (pool : WorkerPool)
| OpDeregister (node : string).

(** Whether some node is in the pool. *)
Definition inhabited (m : gmap string string) (p : string) : Prop := map_Exists (λ _ q, q = p) m.

(** The provider of the pool can be built, so it may become a pool. *)
Definition providable (pool : WorkerPool) : bool :=
  match NewScalingProvider pool with inr _ => true | inl _ => false end.

(** The new map and whether the operation succeeds.  A ready node that is not
    draining joins an existing pool if the pool it comes with is enabled, and
    opens a new one if its provider can be built. *)
Definition abstract_op (op : registry_op) (m : gmap string string) : gmap string string * bool :=
  match op with
  | OpRegister _ node pool =>
      if bool_decide (node_Status node = NodeStatusReady) && negb (node_Drain node) then
        if bool_decide (inhabited m (wp_Name pool)) then
          (if wp_ScalingEnabled pool then <[node_ID node := wp_Name pool]> m else m, true)
        else if providable pool then (<[node_ID node := wp_Name pool]> m, true)
        else (m, false)
      else (m, false)
  | OpDeregister n => (delete n m, bool_decide (is_Some (m !! n)))
  end.

Fixpoint abstract_ops (ops : list registry_op) (m : gmap string string) : gmap string string * list bool :=
  match ops with
  | [] => (m, [])
  | op :: ops =>
      let '(m, b) := abstract_op op m in
      let '(m, bs) := abstract_ops ops m in
      (m, b :: bs)
  end.

(** No node that is in a pool is registered under another one. *)
Definition keeps_pool (op : registry_op) (m : gmap string string) : Prop :=
  match op with
  | OpRegister _ node pool => fresh_pool pool ∧ ∀ p, m !! node_ID node = Some p → p = wp_Name pool
  | OpDeregister _ => True
  end.

Fixpoint keep_pools (ops : list registry_op) (m : gmap string string) : Prop :=
  match ops with
  | [] => True
  | op :: ops => keeps_pool op m ∧ keep_pools ops (abstract_op op m).1
  end.

(** ** The registry *)

Section refinement.
Context (HashPool : WorkerPool → error + Z).
Implicit Types (reg : NodeRegistry).

(** An operation, and whether it succeeds. *)
Definition run_op (op : registry_op) : M NodeRegistry bool :=
  err ← match op with
        | OpRegister now node pool => Register HashPool now node pool
        | OpDeregister n => Deregister n
        end;
  mret (bool_decide (err = None)).

Fixpoint run_ops (ops : list registry_op) : M NodeRegistry (list bool) :=
  match ops with
  | [] => mret []
  | op :: ops => b ← run_op op; bs ← run_ops ops; mret (b :: bs)
  end.

(** The members of the pools are the nodes the map sends there. *)
Definition represents reg (m : gmap string string) : Prop :=
  reg_wf reg ∧ nr_RegisteredNodes reg = m ∧
  ∀ p n, (∃ wp, nr_WorkerPools reg !! p = Some wp ∧ is_Some (wp_Nodes wp !! n)) ↔ m !! n = Some p.

Lemma represents_exact reg m : represents reg m ↔ reg_wf reg ∧ nr_RegisteredNodes reg = m ∧ reg_exact reg.
Proof.
  split; intros (Hwf & <- & H); (split; [done|]); (split; [done|]).
  - intros p wp n Hp Hn. apply H. by exists wp.
  - intros p n. split; [intros (wp & Hp & Hn); by eapply H|apply Hwf].
Qed.

(** A pool is in the registry if some node is in it. *)
Lemma pool_inhabited reg m p : represents reg m → inhabited m p ↔ is_Some (nr_WorkerPools reg !! p).
Proof.
  intros (Hwf & Hm & Hex). split.
  - intros (n & q & Hn & ->). apply Hex in Hn as (wp & Hp & _). by exists wp.
  - intros [wp Hp]. destruct (map_choose _ (pool_nonempty _ _ (wf_pools _ Hwf _ _ Hp))) as (n & x & Hn).
    exists n, p. split; [|done]. apply Hex. exists wp. by rewrite Hn.
Qed.

(** The provider does not depend on the nodes. *)
Lemma providable_add now node pool :
  match NewScalingProvider (add_node now node pool) with inr _ => true | inl _ => false end = providable pool.
Proof.
  unfold providable, NewScalingProvider. simpl. destruct (String.eqb _ _); [done|].
  destruct (BuiltinScalingProviders !! _) as [f|] eqn:E; [|done].
  unfold BuiltinScalingProviders in E. apply lookup_singleton_Some in E as [_ <-]. unfold NewAwsScalingProvider. simpl. by destruct (String.eqb _ _).
Qed.

(** What a registration answers and the map it leaves. *)
Lemma register_map now node pool reg m :
  represents reg m → keeps_pool (OpRegister now node pool) m →
  ∃ err reg', Register HashPool now node pool reg = (Ret err, reg') ∧
    nr_RegisteredNodes reg' = (abstract_op (OpRegister now node pool) m).1 ∧
    bool_decide (err = None) = (abstract_op (OpRegister now node pool) m).2.
Proof.
  intros Hrep [Hf Hkeep]. pose proof Hrep as (Hwf & Hm & Hex). simpl.
  destruct (decide (node_Status node = NodeStatusReady)) as [Hs|Hs].
  2:{ destruct (Register_not_ready HashPool now node pool reg) as [e ->]; [auto|].
      rewrite bool_decide_eq_false_2 by done. by do 2 eexists. }
  rewrite (bool_decide_eq_true_2 _ Hs). destruct (node_Drain node) eqn:Hd; simpl.
  { destruct (Register_not_ready HashPool now node pool reg) as [e ->]; [auto|]. by do 2 eexists. }
  rewrite Register_run by (done || apply Hwf).
  pose proof (pool_inhabited reg m (wp_Name pool) Hrep) as Hin.
  destruct (nr_WorkerPools reg !! wp_Name pool) as [wp|] eqn:Ep.
  - do 2 eexists. split; [reflexivity|]. rewrite bool_decide_eq_true_2 by (apply Hin; eauto). simpl. split; [|done].
    destruct (wp_Nodes wp !! node_ID node) eqn:En; simpl.
    + assert (m !! node_ID node = Some (wp_Name pool)) by (apply Hex; exists wp; rewrite En; eauto).
      rewrite insert_id by done. by destruct (wp_ScalingEnabled pool).
    + destruct (wp_ScalingEnabled pool); simpl; by rewrite Hm.
  - rewrite bool_decide_eq_false_2 by (rewrite Hin; by intros [? ?]).
    rewrite <-(providable_add now node pool).
    destruct (NewScalingProvider _); do 2 eexists; (split; [reflexivity|]); simpl; by rewrite ?Hm.
Qed.

Lemma op_simulated op reg m :
  represents reg m → keeps_pool op m →
  ∃ reg', run_op op reg = (Ret (abstract_op op m).2, reg') ∧ represents reg' (abstract_op op m).1.
Proof.
  intros Hrep Hk. pose proof (proj1 (represents_exact _ _) Hrep) as (Hwf & Hm & Hex).
  destruct op as [now node pool|n]; unfold run_op.
  - destruct (register_map now node pool reg m Hrep Hk) as (err & reg' & E & Hm' & <-).
    exists reg'. rewrite (bind_run _ _ _ _ _ E). split; [done|]. apply represents_exact.
    destruct Hk as [Hf Hk]. split; [|split; [done|]].
    + destruct (register_wf HashPool now node pool reg Hwf Hf) as (? & ? & E' & ?). congruence.
    + eapply register_exact; [done|done|done|by rewrite Hm|done].
  - destruct (deregister_wf n reg Hwf) as (err & reg' & E & Hwf' & Hm').
    exists reg'. rewrite (bind_run _ _ _ _ _ E). split.
    + rewrite Deregister_run in E by apply Hwf. simpl. rewrite <-Hm. unfold mret, M_ret. do 2 f_equal.
      destruct (nr_RegisteredNodes reg !! n) as [p|] eqn:En; simplify_eq; [|done].
      destruct (nr_WorkerPools reg !! p); by simplify_eq.
    + apply represents_exact. simpl. rewrite <-Hm. split; [done|]. split; [done|].
      exact (deregister_exact n reg err reg' Hwf Hex E).
Qed.

(** C19. The registry refines the map from nodes to pools: over any sequence of
    registrations and deregistrations in which no node is registered under a
    second pool, every operation returns and succeeds exactly when that of the
    map does, and in the end the registered nodes are those of the map and the
    members of every pool, which exists as long as it has one, are exactly the
    nodes the map sends to it. *)
Theorem registry_refines_map ops reg m :
  represents reg m → keep_pools ops m →
  ∃ reg', run_ops ops reg = (Ret (abstract_ops ops m).2, reg') ∧ represents reg' (abstract_ops ops m).1.
Proof.
  revert reg m. induction ops as [|op ops IH]; intros reg m Hrep Hk; [by exists reg|].
  destruct Hk as [Hop Hk]. destruct (op_simulated op reg m Hrep Hop) as (reg1 & E1 & Hrep1).
  cbn [run_ops abstract_ops]. destruct (abstract_op op m) as [m1 b]. simpl in *.
  destruct (IH reg1 m1 Hrep1 Hk) as (reg2 & E2 & Hrep2). destruct (abstract_ops ops m1) as [m2 bs]. simpl in *.
  exists reg2. split; [|done]. by rewrite (bind_run _ _ _ _ _ E1), (bind_run _ _ _ _ _ E2).
Qed.
End refinement.

(** ** Witness *)

Lemma empty_represents : represents NewNodeRegistry ∅.
Proof. apply represents_exact. destruct new_registry_wf as [? ?]. done. Qed.

(** Two nodes come, one of them again, one of them leaves twice. *)
Definition demo_ops : list registry_op :=
  [OpRegister 5 node1 (demo_pool "pool-a"); OpRegister 6 node2 (demo_pool "pool-b");
   OpRegister 7 node1 (demo_pool "pool-a"); OpDeregister "node-1"; OpDeregister "node-1"].

Lemma registry_refines_map_witness :
  ∃ reg, run_ops sim_hash demo_ops NewNodeRegistry = (Ret [true; true; true; true; false], reg) ∧
    represents reg {[ "node-2" := "pool-b" ]}.
Proof.
  destruct (registry_refines_map sim_hash demo_ops NewNodeRegistry ∅ empty_represents) as (reg & E & H).
  - repeat split; intros p Hp; vm_compute in Hp |- *; congruence.
  - exists reg. split.
    + rewrite E. do 2 f_equal.
    + refine (eq_rect _ (represents reg) H _ _). vm_compute. reflexivity.
Defined.
