(* ===== verification/StateFacts.v ===== *)
(** * StateFacts: what the persistent state guarantees

    Round trip of a state through Consul, the behaviour of [ReadState] on a
    missing key and on a document that does not decode. *)

From S2P Require Import Prelude GoNum Structs Interfaces Sim State Consul.

Section facts.
Context {W : Type} {RT : Runtime W} {CA : ConsulAPI W}.

#[local] Arguments decode_int : simpl never.
#[local] Arguments decode_strings : simpl never.

Lemma decode_int_num z old : is_int z → decode_int (JNum z) old = (z, None).
Proof.
  unfold is_int, decode_int. intros [??].
  by rewrite (proj2 (Z.leb_le _ _)), (proj2 (Z.leb_le _ _)).
Qed.

Lemma decode_elems_strings (l old : list string) : decode_elems (JStr <$> l) old = (l, None).
Proof. revert old. induction l as [|s l IH]; intros old; csimpl; [done|]. by rewrite IH. Qed.

Lemma decode_marshal_strings l old : decode_strings (marshal_strings l) old = (l, None).
Proof. destruct l as [|s l]; [done|]. apply decode_elems_strings. Qed.

(** Decoding a marshalled state restores every field but the direction, which
    is not part of the document. *)
Lemma unmarshal_marshal st doc st0 :
  state_ok st → json_Marshal st = inr doc →
  json_Unmarshal (Some doc) st0 = (st <| st_ScalingDirection := st_ScalingDirection st0 |>, None).
Proof.
  intros [H1 H2 H3]. unfold json_Marshal. destruct (_ && _); [|done]. intros [= <-].
  unfold json_Unmarshal, marshal_fields, decode_fields, decode_field.
  unfold ToLower; simpl. rewrite decode_marshal_strings. simpl.
  unfold modify; simpl. repeat (rewrite decode_int_num by done; simpl). done.
Qed.

(** What a successful [PersistState] does: the time stamp is set and the
    marshalled state is put under its path. *)
Lemma persist_ok st w st' w' :
  PersistState_impl st w = (Ret (st', None), w') →
  ∃ now w1 doc, time_Now w = (Ret now, w1) ∧ st' = st <| st_LastUpdated := now |> ∧
    json_Marshal st' = inr doc ∧
    KV_Put (mkKVPair (st_StatePath st') (Some doc) "") w1 = (Ret None, w').
Proof.
  unfold PersistState_impl. intros H. go_inv_step. exists r.
  destruct (json_Marshal (st <| st_LastUpdated := r |>)) as [|doc] eqn:Em; [by go_inv|].
  go_inv_step. destruct r0; [by go_inv|]. apply mret_inv in H as [[= <-] <-]. eauto 10.
Qed.

Lemma persist_state st w st' e w' :
  PersistState_impl st w = (Ret (st', e), w') → ∃ now, st' = st <| st_LastUpdated := now |>.
Proof.
  unfold PersistState_impl. intros H. go_inv_step. exists r.
  destruct (json_Marshal _); [by go_inv|]. go_inv_step. by destruct r0; go_inv.
Qed.

Lemma persist_read `{!ConsulKVLaws W} st w st' w' st0 force :
  state_ok st →
  PersistState_impl st w = (Ret (st', None), w') →
  st_StatePath st0 = st_StatePath st →
  ∃ w2, ReadState_impl st0 force w' =
    (Ret (st' <| st_ScalingDirection := st_ScalingDirection st0 |>), w2).
Proof.
  intros Hok (now & w1 & doc & _ & -> & Hm & Hput)%persist_ok Hp.
  apply kv_get_put in Hput as (q & w2 & Hget & Hv). exists w2.
  unfold ReadState_impl. rewrite Hp. erewrite bind_run by exact Hget. simpl in Hv. cbn beta iota. rewrite Hv.
  assert (state_ok (st <| st_LastUpdated := now |>)) as Hok' by (destruct Hok; by split).
  by rewrite (unmarshal_marshal _ _ st0 Hok' Hm).
Qed.

(** The Consul client is a state store. *)
#[export] Instance consul_state_store `{!ConsulKVLaws W} :
  StateStoreLaws W (CC:=consulClient (W:=W)).
Proof. split; [apply persist_state|apply persist_read]. Qed.

(** C13. Persisting a scaling state and reading it back, into any state object
    with the same path, restores every persisted field: only the scaling
    direction, which is not stored, is the reader's.  It holds for every state
    whose counters are Go integers and whatever [force] is. *)
Theorem persist_read_roundtrip `{!ConsulKVLaws W} st w st' w' st0 force :
  state_ok st →
  PersistState_impl st w = (Ret (st', None), w') →
  st_StatePath st0 = st_StatePath st →
  ∃ w2, ReadState_impl st0 force w' =
    (Ret (st' <| st_ScalingDirection := st_ScalingDirection st0 |>), w2).
Proof. apply persist_read. Qed.

(** A first read with initialisation is idempotent: when the key is absent
    and writing succeeds, [ReadState] stores the caller's state, and a second
    read returns the state the first one returned. *)
Theorem read_state_initialises `{!ConsulKVLaws W} st w w1 st1 w2 :
  state_ok st →
  KV_Get (st_StatePath st) w = (Ret (inr None), w1) →
  PersistState_impl st w1 = (Ret (st1, None), w2) →
  ReadState_impl st true w = (Ret st1, w2) ∧
  ∃ w3, ReadState_impl st1 true w2 = (Ret st1, w3).
Proof.
  intros Hok Hget Hp. split.
  - unfold ReadState_impl. erewrite bind_run by exact Hget. simpl. by erewrite bind_run by exact Hp.
  - pose proof Hp as (now & ? & doc & _ & -> & Hm & Hput)%persist_ok.
    apply kv_get_put in Hput as (q & w3 & Hq & Hv). simpl in Hv. exists w3.
    unfold ReadState_impl. erewrite bind_run by exact Hq. cbn beta iota. rewrite Hv.
    rewrite (unmarshal_marshal (st <| st_LastUpdated := now |>)); [|destruct Hok; by split|done].
    destruct st; done.
Qed.

(** A stored document with a field of the wrong type does not leave the
    state unmodified: the remaining fields are still taken over.  Here a
    document whose failure count is a string switches the circuit breaker. *)
Theorem read_state_partial_decode st force w w1 kvp s b :
  KV_Get (st_StatePath st) w = (Ret (inr (Some kvp)), w1) →
  kv_Value kvp = Some (JObj [("failure_count", JStr s); ("failsafe_mode", JBool b)]) →
  (json_Unmarshal (kv_Value kvp) st).2 ≠ None ∧
  ReadState_impl st force w = (Ret (st <| st_FailsafeMode := b |>), w1).
Proof.
  intros Hget Hv. split; [by rewrite Hv|].
  unfold ReadState_impl. erewrite bind_run by exact Hget. cbn beta iota. rewrite Hv. by destruct st.
Qed.
End facts.

(** ** Witnesses *)

#[export] Instance sim_kv_laws : ConsulKVLaws world.
Proof.
  split. intros p w w' [= <-]. do 2 eexists. split; [|reflexivity].
  cbn. unfold ask. cbn. by rewrite lookup_insert_eq.
Qed.

Definition demo_state : ScalingState :=
  zero_ScalingState <| st_StatePath := "replicator/config/state/nodes/pool" |>
    <| st_EligibleNodes := ["10.0.0.1"] |> <| st_FailureCount := 2 |> <| st_ScaleOutRequests := 1 |>.

Lemma demo_state_ok : state_ok demo_state.
Proof. split; by unfold is_int, min_int, max_int; simpl. Qed.

Definition demo_persisted : ScalingState := demo_state <| st_LastUpdated := 1000000000000 |>.
Definition demo_world : world := run_world (PersistState_impl demo_state) sim0.

Lemma persist_read_roundtrip_witness :
  ∃ w2, ReadState_impl demo_state false demo_world = (Ret demo_persisted, w2).
Proof.
  apply (persist_read_roundtrip demo_state sim0 demo_persisted demo_world demo_state false);
    [apply demo_state_ok|vm_compute; reflexivity|reflexivity].
Defined.

Lemma read_state_initialises_witness :
  ReadState_impl demo_state true sim0 = (Ret demo_persisted, demo_world) ∧
  ∃ w3, ReadState_impl demo_persisted true demo_world = (Ret demo_persisted, w3).
Proof.
  apply (read_state_initialises demo_state sim0 sim0 demo_persisted demo_world);
    [apply demo_state_ok|vm_compute; reflexivity|vm_compute; reflexivity].
Defined.

Definition demo_bad : world :=
  sim0 <| sim_kv := {[ st_StatePath demo_state :=
    mkKVPair (st_StatePath demo_state)
      (Some (JObj [("failure_count", JStr "two"); ("failsafe_mode", JBool true)])) "" ]} |>.

Lemma read_state_partial_decode_witness :
  ReadState_impl demo_state true demo_bad = (Ret (demo_state <| st_FailsafeMode := true |>), demo_bad).
Proof.
  eapply (read_state_partial_decode demo_state true demo_bad demo_bad);
    [vm_compute; reflexivity|reflexivity].
Defined.
