(* ===== verification/Leader.v ===== *)
(** * Leader: leader election

    [replicator/leader.go] and the status endpoint of the server, against the
    [ConsulClient] interface; then the system of several agents that share one
    Consul, with the mutual exclusion the lock gives and where the agents'
    own flag departs from it. *)

From S2P Require Import Prelude GoNum Structs Interfaces Sim State Consul.

Definition leaderElectionInterval : Z := 10.
Definition leaderLockTimeout : Z := 12.

(** [renewChan]: nil, open or closed. *)
Inductive chan_state := ChanNil | ChanOpen | ChanClosed.

Record LeaderCandidate := mkLeaderCandidate {
  lc_leader : bool;
  lc_key : string;
  lc_session : string;
  lc_ttl : Z;
  lc_renewChan : chan_state;
}.

#[export] Instance eta_LeaderCandidate : Eta LeaderCandidate := λ r,
  mkLeaderCandidate (lc_leader r) (lc_key r) (lc_session r) (lc_ttl r) (lc_renewChan r).

Definition newLeaderCandidate (key : string) (ttl : Z) : LeaderCandidate :=
  mkLeaderCandidate false key "" ttl ChanNil.

Definition isLeader (l : LeaderCandidate) : bool := lc_leader l.

Section candidate.
Context {W : Type} {CC : ConsulClient W}.

Definition leaderElection (l : LeaderCandidate) : M W (LeaderCandidate * bool) :=
  r ← (if String.eqb (lc_session l) "" then
         let l := l <| lc_renewChan := ChanOpen |> in
         r ← CreateSession (lc_ttl l);
         match r with
         | inl _ => mret (inl l)
         | inr id => mret (inr (l <| lc_session := id |>))
         end
       else mret (inr l));
  match r with
  | inl l => mret (l, false)
  | inr l =>
      '(acquired, session) ← AcquireLeadership (lc_key l) (lc_session l);
      let l := l <| lc_session := session |> in
      if acquired : bool then mret (l <| lc_leader := true |>, true)
      else mret (l, false)
  end.

(** [close] of a closed channel panics. *)
Definition releaseSession (l : LeaderCandidate) : M W LeaderCandidate :=
  match lc_renewChan l with
  | ChanNil => mret l
  | ChanOpen => mret (l <| lc_renewChan := ChanClosed |>)
  | ChanClosed => go_panic "close of closed channel"
  end.

Definition endCampaign (l : LeaderCandidate) : M W LeaderCandidate :=
  l ← releaseSession l;
  _ ← (if lc_leader l then ResignLeadership (lc_key l) (lc_session l) else mret tt);
  mret l.

(** [Status.Leader] *)
Definition Status_Leader (l : LeaderCandidate) (reply : LeaderResponse)
    : M W (LeaderResponse * option error) :=
  let session := if lc_leader l then lc_session l else "" in
  GetLeaderInfo reply (lc_key l) session.
End candidate.

(** ** Several agents over one Consul *)

Section system.
Context {W : Type} {RT : Runtime W} {CA : ConsulAPI W} {CL : ConsulLockLaws W}.
#[local] Existing Instance consulClient.

Lemma acquire_spec key session w b s' w' :
  AcquireLeadership_impl key session w = (Ret (b, s'), w') →
  issued w ⊆ issued w' ∧ (s' = session ∨ s' = "") ∧
  (b = true → s' = session ∧ lock_holder w' key = session).
Proof.
  unfold AcquireLeadership_impl. intros H. go_inv_step.
  pose proof (get_lock _ _ _ _ E) as (Hi & Hl & Hk).
  destruct r as [|k].
  { apply mret_inv in H as [[= <- <-] <-]. by split_and!; auto. }
  go_inv_step. pose proof (info_lock _ _ _ _ E0) as (Hi' & Hl').
  assert (issued w ⊆ issued w1) as Hiss by set_solver.
  destruct r as [|[|]];
    [apply mret_inv in H as [[= <- <-] <-]; by split_and!; auto| |apply mret_inv in H as [[= <- <-] <-]; by split_and!; auto].
  destruct (match k with Some k0 => _ | None => false end) eqn:Eo.
  { apply mret_inv in H as [[= <- <-] <-]. split; [set_solver|]. split; [by left|].
    intros _. split; [done|]. destruct k as [k|]; [|done]. apply String.eqb_eq in Eo.
    rewrite Hl', Hl, <-Eo. symmetry. by apply Hk. }
  go_inv_step. pose proof (acquire_lock _ _ _ _ E1) as (Hi'' & Ha). simpl in Ha.
  destruct r as [|[|]]; apply mret_inv in H as [[= <- <-] <-];
    (split; [set_solver|split; [by left|]]); try done.
  intros _. split; [done|]. by apply Ha.
Qed.

(** An election keeps the session, drops it, or moves to a fresh one; when it
    succeeds the session holds the lock. *)
Lemma election_spec l w l' b w' :
  leaderElection l w = (Ret (l', b), w') →
  lc_key l' = lc_key l ∧ issued w ⊆ issued w' ∧
  (lc_session l' = "" ∨ (lc_session l' = lc_session l) ∨
   ((lc_session l' ∉ issued w) ∧ lc_session l' ∈ issued w')) ∧
  (b = true → lock_holder w' (lc_key l) = lc_session l' ∧ lc_session l' ≠ "") ∧
  (lc_leader l' = lc_leader l || b).
Proof.
  unfold leaderElection. intros H. go_inv_step.
  destruct (String.eqb_spec (lc_session l) "") as [Es|Es].
  - go_inv_step. cbn in E0. unfold CreateSession_impl in E0. go_inv_step.
    pose proof (create_session _ _ _ _ _ E1) as (Hi & Hs).
    destruct r1 as [|s]; apply mret_inv in E0 as [<- <-]; apply mret_inv in E as [<- <-].
    { apply mret_inv in H as [[= <- <-] <-]. simpl. rewrite orb_false_r. by split_and!; auto. }
    destruct (Hs s eq_refl) as (Hne & Hf & Hin).
    go_inv_step. destruct r as [acq s']. apply acquire_spec in E as (Hi' & Hs' & Ht).
    cbn in Hi', Hs', Ht.
    destruct acq; apply mret_inv in H as [[= <- <-] <-]; unfold modify; simpl.
    + destruct Ht as [-> Hl]; [done|]. rewrite orb_true_r. split_and!; [done|set_solver|set_solver| |done].
      by intros _.
    + rewrite orb_false_r. split_and!; [done|set_solver| |done|done]. destruct Hs' as [->| ->]; set_solver.
  - apply mret_inv in E as [<- <-].
    go_inv_step. destruct r as [acq s']. apply acquire_spec in E as (Hi' & Hs' & Ht).
    destruct acq; apply mret_inv in H as [[= <- <-] <-]; unfold modify; simpl.
    + destruct Ht as [-> Hl]; [done|]. rewrite orb_true_r. by split_and!; auto.
    + rewrite orb_false_r. split_and!; [done|done| |done|done]. destruct Hs' as [->| ->]; auto.
Qed.

(** The agents by name, and the world they share. *)
Record system := mksystem { sys_candidates : gmap string LeaderCandidate; sys_world : W }.

(** An agent starts, runs an election, or the world moves on: sessions expire,
    locks are released or taken by others, but no session identifier is
    forgotten. *)
Inductive sys_step : system → system → Prop :=
| step_start i key ttl cs w :
    cs !! i = None →
    sys_step (mksystem cs w) (mksystem (<[i := newLeaderCandidate key ttl]> cs) w)
| step_elect i l l' b cs w w' :
    cs !! i = Some l → leaderElection l w = (Ret (l', b), w') →
    sys_step (mksystem cs w) (mksystem (<[i := l']> cs) w')
| step_environment cs w w' :
    issued w ⊆ issued w' →
    sys_step (mksystem cs w) (mksystem cs w').

Definition initial (s : system) : Prop := sys_candidates s = ∅.

(** Every session in use was issued, and no two agents share one. *)
Definition sessions_ok (s : system) : Prop :=
  (∀ i l, sys_candidates s !! i = Some l → lc_session l ≠ "" → lc_session l ∈ issued (sys_world s)) ∧
  (∀ i j li lj, sys_candidates s !! i = Some li → sys_candidates s !! j = Some lj →
     lc_session li ≠ "" → lc_session li = lc_session lj → i = j).

Lemma sessions_ok_step s s' : sessions_ok s → sys_step s s' → sessions_ok s'.
Proof.
  intros [Hi Hu] Hstep.
  destruct Hstep as [i key ttl cs w Hn|i l l' b cs w w' Hl Hrun|cs w w' Hw];
    unfold sessions_ok in *; simpl in *.
  - split.
    + intros j lj [[<- <-]|[? ?]]%lookup_insert_Some; [done|eauto].
    + intros j k lj lk [[<- <-]|[? Hj]]%lookup_insert_Some [[<- <-]|[? Hk]]%lookup_insert_Some;
        simpl; try done; eauto.
  - apply election_spec in Hrun as (_ & Hiss & Hs & _ & _). split.
    + intros j lj [[<- <-]|[? ?]]%lookup_insert_Some Hne; [|by apply Hiss; eauto].
      destruct Hs as [?|[Hs|[_ ?]]]; [done| |done]. rewrite Hs in Hne |- *. apply Hiss. eauto.
    + intros j k lj lk [[<- <-]|[Hij Hj]]%lookup_insert_Some [[<- <-]|[Hik Hk]]%lookup_insert_Some Hne Heq;
        [done| | |by eauto].
      * destruct Hs as [?|[Hs|[Hf _]]]; [done| |].
        -- rewrite Hs in Hne, Heq. by eapply Hu.
        -- destruct Hf. rewrite Heq. eapply Hi; [exact Hk|congruence].
      * destruct Hs as [?|[Hs|[Hf _]]]; [congruence| |].
        -- rewrite Hs in Heq. by eapply Hu.
        -- destruct Hf. rewrite <-Heq. by eapply Hi.
  - split; [|done]. intros j lj Hj Hne. apply Hw. by eapply Hi.
Qed.

Lemma sessions_ok_reachable s0 s : initial s0 → rtc sys_step s0 s → sessions_ok s.
Proof.
  intros H0 Hr. assert (sessions_ok s0) as Hok.
  { unfold initial in H0. destruct s0 as [cs w]; simpl in H0; subst. split; intros ? **; by simplify_map_eq. }
  clear H0. induction Hr; [done|]. eauto using sessions_ok_step.
Qed.

(** C14. The leadership lock excludes: in every reachable system, when an
    agent's election succeeds its session is the one that holds the leader key,
    and no other agent's session holds it. *)
Theorem leadership_exclusive s0 cs w i l l' w' :
  initial s0 → rtc sys_step s0 (mksystem cs w) →
  cs !! i = Some l → leaderElection l w = (Ret (l', true), w') →
  lock_holder w' (lc_key l) = lc_session l' ∧ isLeader l' = true ∧
  ∀ j lj, j ≠ i → cs !! j = Some lj → lc_session lj ≠ lock_holder w' (lc_key l).
Proof.
  intros H0 Hr Hl Hrun.
  assert (sessions_ok (mksystem (<[i := l']> cs) w')) as [_ Hu].
  { eapply sessions_ok_step; [by eapply sessions_ok_reachable|]. by eapply step_elect. }
  apply election_spec in Hrun as (_ & _ & _ & Ht & Hlead). destruct Ht as [Ht Hne]; [done|].
  split; [done|]. split; [unfold isLeader; by rewrite Hlead, orb_true_r|].
  intros j lj Hj Hlj Heq. apply Hj. symmetry.
  apply (Hu i j l' lj); simpl;
    [by rewrite lookup_insert_eq|by rewrite lookup_insert_ne|done|congruence].
Qed.
End system.

(** ** Renewal of the session *)

Section renewal.
Context {W : Type} {RT : Runtime W} {CA : ConsulAPI W}.
Context (renew_runs : ∀ s (w : W), ∃ r w', Session_Renew s w = (Ret r, w')).
Context (destroy_runs : ∀ s (w : W), ∃ r w', Session_Destroy s w = (Ret r, w')).

Definition stops (evs : list renew_event) : Z :=
  sumZ (λ ev, match ev with StopRequested => 1 | RenewDue => 0 end) evs.

Lemma renew_ends session n evs w :
  0 ≤ n ≤ 5 → 6 - n ≤ stops evs →
  ∃ w', renewSession session n evs w = (Ret RenewEnded, w').
Proof.
  revert n w. induction evs as [|ev evs IH]; intros n w Hn Hs; unfold stops in Hs; simpl in Hs; [lia|].
  simpl. unfold mbind, M_bind. destruct ev; simpl; unfold mbind, M_bind.
  - destruct (renew_runs session w) as (r & w1 & ->).
    destruct r as [|[e|]]; simpl; [by eexists| |by eexists]. apply IH; [done|]. unfold stops. lia.
  - destruct (destroy_runs session w) as (r & w1 & ->).
    destruct r; simpl; [|by eexists]. unfold maxSessionDestroyAttempts.
    destruct (Z.leb_spec 5 n); simpl; [by eexists|].
    rewrite iadd_id by (unfold is_int, min_int, max_int; lia).
    apply IH; [lia|]. unfold stops. lia.
Qed.

(** C38. The renewal goroutine ends: once its stop channel was closed it makes
    at most six attempts to destroy the session, whatever Consul answers and
    however renewals interleave. *)
Theorem renew_session_ends session evs w :
  6 ≤ stops evs → ∃ w', renewSession session 0 evs w = (Ret RenewEnded, w').
Proof. intros H. apply renew_ends; lia. Qed.
End renewal.

(** ** The simulated Consul and a split brain *)

Lemma fresh_session_inj n m : fresh_session n = fresh_session m → n = m.
Proof. unfold fresh_session. intros H. by apply (inj (String.append "session-")), (inj pretty) in H. Qed.

#[export, refine] Instance sim_lock_laws : ConsulLockLaws world := {
  lock_holder := λ w k, match sim_kv w !! k with Some p => kv_Session p | None => "" end;
  issued := λ w, list_to_set (fresh_session <$> seq 0 (sim_next_session w));
}.
Proof.
  - intros k w r w' [= <- <-]. split; [done|]. split; [done|]. intros p [= ->]. done.
  - intros s w r w' [= <- <-]. done.
  - intros p w r w' H. simpl in H. destruct (sim_kv w !! kv_Key p) as [q|] eqn:E;
      [destruct (_ || _)|]; simplify_eq; simpl; (split; [done|]); try done; by rewrite lookup_insert_eq.
  - intros ttl n w r w' [= <- <-]. split.
    + intros s. rewrite !elem_of_list_to_set, !list_elem_of_fmap. intros (k & -> & Hk).
      exists k. split; [done|]. rewrite elem_of_seq in *. simpl. lia.
    + intros s [= <-]. split_and!; [done| |].
      * rewrite elem_of_list_to_set, list_elem_of_fmap. intros (k & He%fresh_session_inj & Hk).
        rewrite elem_of_seq in Hk. lia.
      * rewrite elem_of_list_to_set, list_elem_of_fmap. eexists. split; [done|].
        rewrite elem_of_seq. simpl. lia.
Defined.

(** Consul invalidates a session and releases the locks it holds. *)
Definition expire (s : string) (w : world) : world :=
  w <| sim_sessions ::= delete s |>
    <| sim_kv ::= fmap (λ p, if String.eqb (kv_Session p) s
                             then mkKVPair (kv_Key p) (kv_Value p) "" else p) |>.

Definition agent0 : LeaderCandidate := newLeaderCandidate "replicator/config/leader" leaderLockTimeout.
#[local] Existing Instance consulClient.
Definition elect (l : LeaderCandidate) (w : world) : LeaderCandidate :=
  (run_value (l, false) (leaderElection l) w).1.
Definition elect_world (l : LeaderCandidate) : world → world := run_world (leaderElection l).

(** Agent a is elected, its session expires, agent b is elected. *)
Definition agent_a : LeaderCandidate := elect agent0 sim0.
Definition world_a : world := elect_world agent0 sim0.
Definition world_x : world := expire (lc_session agent_a) world_a.
Definition agent_b : LeaderCandidate := elect agent0 world_x.
Definition world_b : world := elect_world agent0 world_x.

Definition agents (a b : LeaderCandidate) : gmap string LeaderCandidate := <["a" := a]> {[ "b" := b ]}.

Lemma agents_set_a a b a' : <["a" := a']> (agents a b) = agents a' b.
Proof. unfold agents. by rewrite insert_insert_eq. Qed.
Lemma agents_set_b a b b' : <["b" := b']> (agents a b) = agents a b'.
Proof. unfold agents. by rewrite insert_insert_ne, insert_singleton_eq. Qed.

Lemma agents_reachable :
  rtc sys_step (mksystem ∅ sim0) (mksystem (agents agent0 agent0) sim0) ∧
  rtc sys_step (mksystem ∅ sim0) (mksystem (agents agent_a agent_b) world_b).
Proof.
  assert (rtc sys_step (mksystem ∅ sim0) (mksystem (agents agent0 agent0) sim0)) as H0.
  { eapply rtc_l; [by apply (step_start "b" "replicator/config/leader" leaderLockTimeout)|].
    apply rtc_once. by apply (step_start "a" "replicator/config/leader" leaderLockTimeout). }
  split; [done|]. etrans; [exact H0|].
  eapply rtc_l.
  { eapply (step_elect "a" agent0 agent_a true _ _ world_a); [done|]. vm_compute. reflexivity. }
  eapply rtc_l; [apply (step_environment _ _ world_x); change (issued world_x) with (issued world_a); done|].
  eapply rtc_l; [|].
  { eapply (step_elect "b" agent0 agent_b true _ _ world_b); [done|]. vm_compute. reflexivity. }
  rewrite agents_set_a, agents_set_b. apply rtc_refl.
Qed.

(** C40. The agents' own flag does not exclude: an agent that lost its session
    keeps [isLeader], so that a state is reachable in which two agents both act
    as the leader, and the one without the lock stays so after an election it
    loses. *)
Theorem split_brain_reachable :
  ∃ s0 cs w a b, initial s0 ∧ rtc sys_step s0 (mksystem cs w) ∧
    cs !! "a" = Some a ∧ cs !! "b" = Some b ∧ isLeader a = true ∧ isLeader b = true ∧
    lock_holder w (lc_key a) = lc_session b ∧
    ∃ a' w', leaderElection a w = (Ret (a', false), w') ∧ isLeader a' = true.
Proof.
  exists (mksystem ∅ sim0), (agents agent_a agent_b), world_b, agent_a, agent_b.
  split_and!; [done|apply agents_reachable|done|done|vm_compute; reflexivity..|].
  do 2 eexists. split; vm_compute; reflexivity.
Qed.

Lemma leadership_exclusive_witness :
  lock_holder world_a "replicator/config/leader" = "session-1" ∧ isLeader agent_a = true ∧
  ∀ j lj, j ≠ "a" → agents agent0 agent0 !! j = Some lj →
    lc_session lj ≠ lock_holder world_a "replicator/config/leader".
Proof.
  apply (leadership_exclusive (mksystem ∅ sim0) (agents agent0 agent0) sim0 "a" agent0 agent_a world_a);
    [done|apply agents_reachable|done|vm_compute; reflexivity].
Defined.

Lemma renew_session_ends_witness :
  ∃ w', renewSession "session-1" 0 [RenewDue; StopRequested; StopRequested; StopRequested;
    StopRequested; StopRequested; StopRequested] world_a = (Ret RenewEnded, w').
Proof.
  apply (renew_session_ends (W:=world)); [intros; by do 2 eexists|intros; by do 2 eexists|].
  by vm_compute.
Defined.
