(* ===== verification/Failsafe.v ===== *)
(** * Failsafe: the circuit breaker

    [replicator/failsafe.go]: the check that stops scaling of a resource after
    too many failures, the switch shared with the command line, and the
    notification of the configured backends. *)

From S2P Require Import Prelude GoNum Structs Interfaces.

Definition ClusterType : string := "worker_pool".
Definition JobType : string := "job_group".
Definition clusterMessage : string := "cluster_failsafe_mode".
Definition jobMessage : string := "job_group_failsafe_mode".

Section failsafe.
Context {W : Type} {RT : Runtime W} {CC : ConsulClient W} {NT : NotifierAPI W}.

Definition sendFailsafeNotification (message : FailureMessage) (state : ScalingState)
    (config : Config) : M W (FailureMessage * ScalingState) :=
  let message :=
    if String.eqb (fm_ResourceType message) ClusterType
    then message <| fm_Reason := clusterMessage |>
    else if String.eqb (fm_ResourceType message) JobType
    then message <| fm_Reason := jobMessage |>
    else message in
  let message := message <| fm_StatePath := st_StatePath state |> in
  notification ← deref (cfg_Notification config);
  if (0 <? length (not_Notifiers notification))%nat then
    _ ← for_range (λ (_ : unit) n, _ ← SendNotification n message; mret (Next (R:=unit) tt))
          (not_Notifiers notification) tt;
    now ← time_Now;
    let state := state <| st_LastNotificationEvent := now |> in
    '(state, _) ← PersistState state;
    mret (message, state)
  else mret (message, state).

(** Returns the message and the state, which the callee updates, and the error. *)
Definition SetFailsafeMode (state : ScalingState) (config : Config) (enabled : bool)
    (message : FailureMessage) : M W (FailureMessage * ScalingState * option error) :=
  '(message, state) ←
    (if enabled then
       if negb (st_FailsafeMode state) then sendFailsafeNotification message state config
       else mret (message, state)
     else mret (message, state <| st_FailureCount := 0 |>));
  let state := state <| st_FailsafeMode := enabled |> in
  '(state, err) ← PersistState state;
  match err with
  | Some _ => mret (message, state,
      Some "an attempt to update the persistent state tracking information failed")
  | None => mret (message, state, None)
  end.

Definition FailsafeCheck (state : ScalingState) (config : Config) (threshold : Z)
    (message : FailureMessage) : M W (ScalingState * bool) :=
  if st_FailsafeMode state then mret (state, false)
  else
    let passing := negb (threshold <=? st_FailureCount state) in
    if passing then mret (state, true)
    else
      '(_, state, _) ← SetFailsafeMode state config true message;
      mret (state, false).
End failsafe.
