(* ===== verification/FailsafeFacts.v ===== *)
(** * FailsafeFacts: the circuit breaker latches

    Proved against the interfaces of the state store and of the notifiers, then
    exercised with the Consul client over the simulated Consul. *)

From S2P Require Import Prelude GoNum Structs Interfaces Sim State Consul StateFacts Failsafe.

Section facts.
Context {W : Type} {RT : Runtime W} {CC : ConsulClient W} {NT : NotifierAPI W}.
Context {SL : StateStoreLaws W}.

Lemma send_notification_state msg st cfg w msg' st' w' :
  sendFailsafeNotification msg st cfg w = (Ret (msg', st'), w') →
  ∃ t u, st' = st <| st_LastNotificationEvent := t |> <| st_LastUpdated := u |>.
Proof.
  unfold sendFailsafeNotification. intros H. go_inv_step. go_inv_step.
  destruct (0 <? _)%nat.
  - do 3 go_inv_step. destruct r2 as [st2 e].
    apply persist_touches in E1 as [now ->]. go_inv. by do 2 eexists.
  - go_inv. exists (st_LastNotificationEvent st'), (st_LastUpdated st'). by destruct st'.
Qed.

Lemma set_failsafe_state st cfg b msg w msg' st' e w' :
  SetFailsafeMode st cfg b msg w = (Ret (msg', st', e), w') →
  st_FailsafeMode st' = b ∧ st_StatePath st' = st_StatePath st ∧
  st_FailureCount st' = (if b then st_FailureCount st else 0) ∧
  st_ScaleInRequests st' = st_ScaleInRequests st ∧
  st_ScaleOutRequests st' = st_ScaleOutRequests st.
Proof.
  unfold SetFailsafeMode. intros H. go_inv_step. destruct r as [m1 st1].
  assert (∃ t u, st1 = st <| st_LastNotificationEvent := t |> <| st_LastUpdated := u |>
      <| st_FailureCount := if b then st_FailureCount st else 0 |>) as (t & u & ->).
  { destruct b; [destruct (st_FailsafeMode st) eqn:Ef; simpl in E|].
    - apply mret_inv in E as [[= <- <-] <-].
      exists (st_LastNotificationEvent st), (st_LastUpdated st). by destruct st.
    - apply send_notification_state in E as (t & u & ->). exists t, u. by destruct st.
    - apply mret_inv in E as [[= <- <-] <-].
      exists (st_LastNotificationEvent st), (st_LastUpdated st). by destruct st. }
  go_inv_step. destruct r as [st2 e2]. apply persist_touches in E0 as [now ->].
  destruct e2; by go_inv.
Qed.

(** A switch fails only when its write is refused. *)
Lemma set_failsafe_written st cfg b msg w msg' st' e w' :
  (∀ st (w : W) st' e w', PersistState st w = (Ret (st', e), w') → e = None) →
  SetFailsafeMode st cfg b msg w = (Ret (msg', st', e), w') → e = None.
Proof.
  intros Hw. unfold SetFailsafeMode. intros E. go_bind E as [m2 st2] w4 E2. go_bind E as [st3 e3] w5 E3.
  apply Hw in E3 as ->. by apply mret_inv in E as [[= _ _ <-] _].
Qed.

(** What a successful switch persisted is what a later read returns. *)
Lemma set_failsafe_read st cfg b msg w msg' st' w' st0 force :
  state_ok st →
  SetFailsafeMode st cfg b msg w = (Ret (msg', st', None), w') →
  st_StatePath st0 = st_StatePath st →
  ∃ w2, ReadState st0 force w' =
    (Ret (st' <| st_ScalingDirection := st_ScalingDirection st0 |>), w2).
Proof.
  intros Hok H Hp. pose proof H as (_ & Hpath & Hfc & Hin & Hout)%set_failsafe_state.
  revert H. unfold SetFailsafeMode. intros H. go_inv_step. destruct r as [m1 st1].
  go_inv_step. destruct r as [st2 [e2|]]; [by go_inv|]. apply mret_inv in H as [[= <- <-] <-].
  pose proof E0 as [now Hst]%persist_touches.
  eapply persist_then_read; [|exact E0|].
  - destruct Hok. subst st2. unfold modify in *; simpl in *. split; simpl; [|congruence..].
    rewrite Hfc. destruct b; [done|]. unfold is_int, min_int, max_int. lia.
  - subst st2. unfold modify in *; simpl in *. congruence.
Qed.

(** The failsafe check passes exactly when the breaker is not tripped and
    the failures are below the threshold; a passing check changes nothing, and
    a failing one leaves the breaker tripped in the caller's state. *)
Theorem failsafe_check_spec st cfg threshold msg w st' passing w' :
  FailsafeCheck st cfg threshold msg w = (Ret (st', passing), w') →
  (passing = true ↔ st_FailsafeMode st = false ∧ st_FailureCount st < threshold) ∧
  (passing = true → st' = st ∧ w' = w) ∧
  (passing = false → st_FailsafeMode st' = true).
Proof.
  unfold FailsafeCheck. intros H.
  destruct (st_FailsafeMode st) eqn:Ef; [by go_inv; naive_solver|].
  destruct (Z.leb_spec threshold (st_FailureCount st)); simpl in H.
  - go_inv_step. destruct r as [[m1 st1] e]. apply set_failsafe_state in E as (Hm & _).
    apply mret_inv in H as [[= <- <-] <-]. split; [|done]. split; [done|lia].
  - apply mret_inv in H as [[= <- <-] <-]. split; [done|]. done.
Qed.

(** C11. The breaker latches across evaluations and agents: once it was tripped
    and the state written, whoever reads that state next finds the check
    failing at once, whatever the threshold, without sending notifications or
    writing anything. *)
Theorem failsafe_latches st cfg msg w msg' st' w' st0 force :
  state_ok st →
  SetFailsafeMode st cfg true msg w = (Ret (msg', st', None), w') →
  st_StatePath st0 = st_StatePath st →
  ∃ st2 w2, ReadState st0 force w' = (Ret st2, w2) ∧
    ∀ cfg2 threshold msg2, FailsafeCheck st2 cfg2 threshold msg2 w2 = (Ret (st2, false), w2).
Proof.
  intros Hok H Hp. pose proof H as (Hm & _)%set_failsafe_state.
  destruct (set_failsafe_read _ _ _ _ _ _ _ _ st0 force Hok H Hp) as [w2 Hr].
  do 2 eexists. split; [exact Hr|]. intros. unfold FailsafeCheck, modify; simpl. by rewrite Hm.
Qed.

(** Disabling failsafe mode gives the resource a clean slate: the state
    read next has no failures, and its check passes for every positive
    threshold. *)
Theorem failsafe_reset st cfg msg w msg' st' w' st0 force :
  state_ok st →
  SetFailsafeMode st cfg false msg w = (Ret (msg', st', None), w') →
  st_StatePath st0 = st_StatePath st →
  ∃ st2 w2, ReadState st0 force w' = (Ret st2, w2) ∧ st_FailureCount st2 = 0 ∧
    ∀ cfg2 threshold msg2, 0 < threshold →
      FailsafeCheck st2 cfg2 threshold msg2 w2 = (Ret (st2, true), w2).
Proof.
  intros Hok H Hp. pose proof H as (Hm & _ & Hf & _)%set_failsafe_state.
  destruct (set_failsafe_read _ _ _ _ _ _ _ _ st0 force Hok H Hp) as [w2 Hr].
  do 2 eexists. split; [exact Hr|]. split; [done|]. intros cfg2 threshold msg2 Ht.
  unfold FailsafeCheck, modify; simpl. rewrite Hm, Hf. by rewrite (proj2 (Z.leb_gt _ _)).
Qed.

(** ** Notifications *)

Section notifications.
(** The messages delivered so far, in order. *)
Context (sent : W → list (NotifierValue * FailureMessage)).
Context (send_appends : ∀ n m w, ∃ w', SendNotification n m w = (Ret tt, w') ∧
  sent w' = sent w ++ [(n, m)]).
Context (now_keeps : ∀ w t w', time_Now w = (Ret t, w') → sent w' = sent w).
Context (persist_keeps : ∀ st w r w', PersistState st w = (Ret r, w') → sent w' = sent w).

Lemma send_all msg (ns : list NotifierValue) w :
  ∃ w', for_range (λ (_ : unit) n, _ ← SendNotification n msg; mret (Next (R:=unit) tt)) ns tt w =
    (Ret (Next tt), w') ∧ sent w' = sent w ++ ((λ n, (n, msg)) <$> ns).
Proof.
  revert w. induction ns as [|n ns IH]; intros w; csimpl.
  { exists w. by rewrite app_nil_r. }
  destruct (send_appends n msg w) as (w1 & E & H1). destruct (IH w1) as (w2 & E2 & H2).
  exists w2. split; [|by rewrite H2, H1, <-app_assoc].
  unfold mbind, M_bind in *. by rewrite E.
Qed.

(** The message as sent: the reason is that of the resource's type. *)
Definition failure_message (msg : FailureMessage) (st : ScalingState) : FailureMessage :=
  (if String.eqb (fm_ResourceType msg) "worker_pool"
   then msg <| fm_Reason := "cluster_failsafe_mode" |>
   else if String.eqb (fm_ResourceType msg) "job_group"
   then msg <| fm_Reason := "job_group_failsafe_mode" |> else msg)
  <| fm_StatePath := st_StatePath st |>.

(** Tripping the breaker notifies every configured backend exactly once,
    in order, with the reason of the resource's type and the path of its state;
    enabling it again, or disabling it, notifies nobody. *)
Theorem failsafe_notifies_once st cfg n b msg w r w' :
  cfg_Notification cfg = Some n →
  SetFailsafeMode st cfg b msg w = (Ret r, w') →
  sent w' = sent w ++
    (if b && negb (st_FailsafeMode st)
     then (λ p, (p, failure_message msg st)) <$> not_Notifiers n else []).
Proof.
  intros Hn. unfold SetFailsafeMode. intros H. go_inv_step. destruct r0 as [m1 st1].
  go_inv_step. destruct r0 as [st2 e2]. apply persist_keeps in E0.
  assert (sent w' = sent w1) as -> by (destruct e2; go_inv; congruence). clear H. rewrite E0.
  destruct b; [destruct (st_FailsafeMode st)|]; simpl in *;
    [apply mret_inv in E as [_ <-]; by rewrite app_nil_r| |apply mret_inv in E as [_ <-]; by rewrite app_nil_r].
  unfold sendFailsafeNotification in E. fold clusterMessage in *. go_inv_step. apply deref_inv in E1 as [Hn' ->].
  rewrite Hn in Hn'. injection Hn' as <-.
  destruct (0 <? length (not_Notifiers n))%nat eqn:Ens.
  2:{ apply mret_inv in E as [_ <-]. destruct (not_Notifiers n); [by rewrite app_nil_r|done]. }
  match type of E with context [SendNotification _ ?m] => change m with (failure_message msg st) in E end.
  destruct (send_all (failure_message msg st) (not_Notifiers n) w2) as (w3 & E3 & H3).
  rewrite (bind_run _ _ _ _ _ E3) in E. do 2 go_inv_step. destruct r1 as [st3 e3].
  apply mret_inv in E as [_ <-]. apply persist_keeps in E2. apply now_keeps in E1. congruence.
Qed.
End notifications.
End facts.

(** ** Witnesses *)

#[local] Existing Instance consulClient.

Definition demo_msg : FailureMessage := mkFailureMessage "REP2" "" "" "pool" "worker_pool" "".
Definition demo_notification : Notification :=
  mkNotification "" "key" "" [PagerDutyProvider {["PagerDutyServiceKey" := "key"]}].
Definition demo_cfg : Config := zero_Config <| cfg_Notification := Some demo_notification |>.

Definition trip (b : bool) : M world (FailureMessage * ScalingState * option error) :=
  SetFailsafeMode demo_state demo_cfg b demo_msg.
Definition tripped (b : bool) : FailureMessage * ScalingState * option error :=
  run_value (demo_msg, demo_state, None) (trip b) sim0.

Lemma trip_runs b : trip b sim0 = (Ret ((tripped b).1.1, (tripped b).1.2, None), run_world (trip b) sim0).
Proof. destruct b; vm_compute; reflexivity. Qed.

Lemma failsafe_check_spec_witness :
  ∃ st' w', FailsafeCheck demo_state demo_cfg 3 demo_msg sim0 = (Ret (st', true), w') ∧ st' = demo_state.
Proof.
  do 2 eexists. split; [vm_compute; reflexivity|].
  eapply (proj1 (proj2 (failsafe_check_spec demo_state demo_cfg 3 demo_msg sim0 _ true sim0 eq_refl))).
  reflexivity.
Defined.

Lemma failsafe_latches_witness :
  ∃ st2 w2, ReadState demo_state false (run_world (trip true) sim0) = (Ret st2, w2) ∧
    ∀ cfg2 threshold msg2, FailsafeCheck st2 cfg2 threshold msg2 w2 = (Ret (st2, false), w2).
Proof.
  eapply (failsafe_latches demo_state demo_cfg demo_msg sim0);
    [apply demo_state_ok|apply (trip_runs true)|reflexivity].
Defined.

Lemma failsafe_reset_witness :
  ∃ st2 w2, ReadState demo_state false (run_world (trip false) sim0) = (Ret st2, w2) ∧
    st_FailureCount st2 = 0 ∧
    ∀ cfg2 threshold msg2, 0 < threshold →
      FailsafeCheck st2 cfg2 threshold msg2 w2 = (Ret (st2, true), w2).
Proof.
  eapply (failsafe_reset demo_state demo_cfg demo_msg sim0);
    [apply demo_state_ok|apply (trip_runs false)|reflexivity].
Defined.

Lemma sim_persist_keeps st w r w' : PersistState st w = (Ret r, w') → sim_sent w' = sim_sent w.
Proof. unfold PersistState; simpl. unfold PersistState_impl, mbind, M_bind; simpl. by destruct (json_Marshal _); intros [= _ <-]. Qed.

Lemma failsafe_notifies_once_witness :
  sim_sent (run_world (trip true) sim0) =
    [(PagerDutyProvider {["PagerDutyServiceKey" := "key"]}, failure_message demo_msg demo_state)].
Proof.
  refine (failsafe_notifies_once sim_sent _ _ sim_persist_keeps demo_state demo_cfg demo_notification
    true demo_msg sim0 _ _ eq_refl (trip_runs true)).
  - intros n m w. by eexists.
  - by intros w t w' [= _ <-].
Defined.
