(* ===== verification/AwsProvider.v ===== *)
(** * AwsProvider: the AWS scaling provider

    [cloud/aws]: the safety check, scale-out with the verification of the new
    node and its retries, scale-in by detaching and terminating a node, and the
    polling helpers over the autoscaling and EC2 APIs. *)

From S2P Require Import Prelude GoNum Structs Interfaces Helper.

(** Status codes of [vendor/github.com/aws/aws-sdk-go/service/autoscaling]. *)
Definition ScalingActivityStatusCodeSuccessful : string := "Successful".
Definition ScalingActivityStatusCodeFailed : string := "Failed".
Definition ScalingActivityStatusCodeCancelled : string := "Cancelled".

(** [l[0]] *)
Definition index0 {W A} (l : list A) : M W A :=
  match l with
  | x :: _ => mret x
  | [] => go_panic "index out of range"
  end.

Section provider.
Context {W : Type} {RT : Runtime W} {AA : AwsAPI W} {CC : ConsulClient W} {RS : RegistryStore W}.

(** ** Autoscaling group helpers; [svc] is the region of the session *)

(** The error message takes the length of the named result, which is still nil. *)
Definition describeScalingGroup (asgName svc : string)
    : M W (list AutoScalingGroup * option error) :=
  '(resp, err) ← DescribeAutoScalingGroups svc asgName;
  if negb (length resp =? 1)%nat then
    _ ← deref (None : option (list AutoScalingGroup));
    mret (resp, Some "the attempt to retrieve the current worker pool autoscaling group configuration expected exaclty one result")
  else mret (resp, err).

Definition trackInstance (t : MostRecentNode) (i : Instance) : MostRecentNode :=
  if After (in_LaunchTime i) (mrn_MostRecentLaunch t)
  then t <| mrn_MostRecentLaunch := in_LaunchTime i |>
         <| mrn_InstanceIP := in_PrivateIpAddress i |>
         <| mrn_InstanceID := in_InstanceId i |>
  else t.

Definition getMostRecentInstance (asg region : string) : M W (error + string) :=
  now ← time_Now;
  let launchThreshold := time_add now (-90 * Second) in
  let params := [mkFilter "tag:aws:autoscaling:groupName" [asg];
                 mkFilter "instance-state-name" ["running"; "pending"]] in
  n ← poll_ticks (10 * Second) (5 * Minute);
  poll n (λ instanceTracking,
    r ← DescribeInstances region params;
    match r with
    | inl _ => mret (Next instanceTracking)
    | inr reservations =>
        if (length reservations =? 0)%nat then mret (Next instanceTracking)
        else
          let instanceTracking :=
            fold_left (λ t res, fold_left trackInstance res t) reservations instanceTracking in
          if After (mrn_MostRecentLaunch instanceTracking) launchThreshold
          then mret (Return (inr (mrn_InstanceIP instanceTracking)))
          else mret (Next instanceTracking)
    end)
    (λ _, mret (inl "timeout reached while attempting to determine the most recently launched instance"))
    (mkMostRecentNode "" "" zero_time zero_time).

Definition checkClusterScalingResult (activityID svc : string) : M W (option error) :=
  n ← poll_ticks (10 * Second) (10 * Minute);
  poll n (λ _ : unit,
    r ← DescribeScalingActivities svc activityID;
    match r with
    | inl err => mret (Return (Some err))
    | inr activities =>
        a ← index0 activities;
        if String.eqb (act_StatusCode a) ScalingActivityStatusCodeFailed
           || String.eqb (act_StatusCode a) ScalingActivityStatusCodeCancelled
        then mret (Return (Some "scaling activity failed to complete successfully"))
        else if String.eqb (act_StatusCode a) ScalingActivityStatusCodeSuccessful
        then mret (Return None)
        else mret (Next tt)
    end)
    (λ _, mret (Some "timeout reached while attempting to verify scaling activity completed successfully"))
    tt.

Definition detachInstance (asg instanceID svc : string) : M W (option error) :=
  r ← DetachInstances svc asg instanceID;
  match r with
  | inl err => mret (Some err)
  | inr activities =>
      a ← index0 activities;
      if negb (String.eqb (act_StatusCode a) ScalingActivityStatusCodeSuccessful)
      then checkClusterScalingResult (act_ActivityId a) svc
      else mret None
  end.

Definition verifyAsgUpdate (workerPool : string) (capacity : Z) (svc : string)
    : M W (option error) :=
  n ← poll_ticks (500 * Millisecond) (3 * Minute);
  poll n (λ _ : unit,
    '(asg, err) ← describeScalingGroup workerPool svc;
    match err with
    | Some _ => mret (Next tt)
    | None =>
        g ← index0 asg;
        if Z.of_nat (length (asg_Instances g)) =? capacity then mret (Return None)
        else mret (Next tt)
    end)
    (λ _, mret (Some "timeout reached while attempting to verify the autoscaling group scaling operation"))
    tt.

(** ** EC2 helpers *)

Definition translateIptoID (ip region : string) : M W string :=
  r ← DescribeInstances region [mkFilter "private-ip-address" [ip]];
  match r with
  | inl _ => mret ""
  | inr reservations =>
      res ← index0 reservations;
      i ← index0 res;
      mret (in_InstanceId i)
  end.

Definition terminateInstance (instanceID region : string) : M W (option error) :=
  err ← TerminateInstances region instanceID;
  match err with
  | Some e => mret (Some e)
  | None =>
      n ← poll_ticks (10 * Second) (3 * Minute);
      poll n (λ _ : unit,
        r ← DescribeInstanceStatus region instanceID;
        match r with
        | inl err => mret (Return (Some err))
        | inr statuses =>
            s ← index0 statuses;
            if String.eqb s "terminated" then mret (Return None) else mret (Next tt)
        end)
        (λ _, mret (Some "timeout reached while attempting to confirm the termination of instance"))
        tt
  end.

(** ** The provider *)

Definition SafetyCheck_impl (sp : ScalingProviderValue) (workerPool : WorkerPool) : M W bool :=
  let 'AwsScalingProvider svc := sp in
  '(asg, err) ← describeScalingGroup (wp_Name workerPool) svc;
  match err with
  | Some _ => mret false
  | None =>
      g ← index0 asg;
      desiredCap ← deref (asg_DesiredCapacity g);
      maxSize ← deref (asg_MaxSize g);
      minSize ← deref (asg_MinSize g);
      if negb (Z.of_nat (size (wp_Nodes workerPool)) =? desiredCap) then mret false
      else
        state ← deref (wp_State workerPool);
        if String.eqb (st_ScalingDirection state) ScalingDirectionIn
           && (desiredCap -! 1 <? minSize) then mret false
        else if String.eqb (st_ScalingDirection state) ScalingDirectionOut
           && (maxSize <? desiredCap +! 1) then mret false
        else mret true
  end.

Definition scaleOut (svc : string) (workerPool : WorkerPool) : M W (option error) :=
  '(asg, err) ← describeScalingGroup (wp_Name workerPool) svc;
  match err with
  | Some e => mret (Some e)
  | None =>
      g ← index0 asg;
      desired ← deref (asg_DesiredCapacity g);
      let newCapacity := desired +! 1 in
      err ← UpdateAutoScalingGroup svc (wp_Name workerPool) newCapacity
              (asg_AvailabilityZones g) (asg_TerminationPolicies g);
      match err with
      | Some e => mret (Some e)
      | None => verifyAsgUpdate (wp_Name workerPool) newCapacity svc
      end
  end.

(** Detaching continues to the termination when it fails, but not when the
    activity it started fails. *)
Definition scaleIn (svc : string) (workerPool : WorkerPool) : M W (WorkerPool * option error) :=
  state ← deref (wp_State workerPool);
  if (length (st_EligibleNodes state) =? 0)%nat
  then mret (workerPool, Some "no nodes are marked as eligible for scaling action, unable to detach and terminate")
  else
    targetNode ← index0 (st_EligibleNodes state);
    let state := state <| st_EligibleNodes ::= λ l, take (length l - 1) l |> in
    let workerPool := workerPool <| wp_State := Some state |> in
    instanceID ← translateIptoID targetNode (wp_Region workerPool);
    r ← DetachInstances svc (wp_Name workerPool) instanceID;
    detached ←
      match r with
      | inl _ => mret None
      | inr activities =>
          a ← index0 activities;
          if negb (String.eqb (act_StatusCode a) ScalingActivityStatusCodeSuccessful)
          then checkClusterScalingResult (act_ActivityId a) svc
          else mret None
      end;
    match detached with
    | Some e => mret (workerPool, Some e)
    | None =>
        err ← terminateInstance instanceID (wp_Region workerPool);
        match err with
        | Some _ => mret (workerPool, Some "an error occurred while attempting to terminate instance")
        | None =>
            now ← time_Now;
            let state := state <| st_LastScalingEvent := now |> <| st_FailureCount := 0 |> in
            '(state, _) ← PersistState state;
            mret (workerPool <| wp_State := Some state |>, None)
        end
    end.

Definition failedEventCleanup (svc workerNode : string) (workerPool : WorkerPool)
    : M W (option error) :=
  instanceID ← translateIptoID workerNode (wp_Region workerPool);
  state ← deref (wp_State workerPool);
  if st_FailureCount state =? wp_RetryThreshold workerPool then
    err ← detachInstance (wp_Name workerPool) instanceID svc;
    match err with
    | Some _ => mret (Some "an error occurred while attempting to detach the failed instance")
    | None => mret None
    end
  else
    err ← terminateInstance instanceID (wp_Region workerPool);
    mret err.

(** Record a failure of the pool and persist it. *)
Definition recordFailure (workerPool : WorkerPool) (state : ScalingState) : M W WorkerPool :=
  let state := state <| st_FailureCount ::= λ n, n +! 1 |> in
  '(state, _) ← PersistState state;
  mret (workerPool <| wp_State := Some state |>).

(** The body of the verification loop: [Return] is the pool once the new node
    has joined, [Next] the pool after a failure. *)
Definition verifyAttempt (svc : string) (workerPool : WorkerPool)
    : M W (loop WorkerPool WorkerPool) :=
  state ← deref (wp_State workerPool);
  r ← getMostRecentInstance (wp_Name workerPool) (wp_Region workerPool);
  match r with
  | inl _ =>
      workerPool ← recordFailure workerPool state;
      mret (Next workerPool)
  | inr instanceIP =>
      ok ← FindNodeByAddress (wp_Name workerPool) instanceIP;
      if ok : bool then
        now ← time_Now;
        let state := state <| st_FailureCount := 0 |> <| st_LastScalingEvent := now |> in
        '(state, _) ← PersistState state;
        mret (Return (workerPool <| wp_State := Some state |>))
      else
        workerPool ← recordFailure workerPool state;
        _ ← failedEventCleanup svc instanceIP workerPool;
        mret (Next workerPool)
  end.

(** The loop [for FailureCount <= RetryThreshold]; [None] is a run that does
    not end within [fuel] attempts. *)
Fixpoint verifyLoop (fuel : nat) (svc : string) (workerPool : WorkerPool)
    : M W (option (WorkerPool * bool)) :=
  state ← deref (wp_State workerPool);
  if st_FailureCount state <=? wp_RetryThreshold workerPool then
    match fuel with
    | O => mret None
    | S fuel =>
        o ← verifyAttempt svc workerPool;
        match o with
        | Return workerPool => mret (Some (workerPool, true))
        | Next workerPool => verifyLoop fuel svc workerPool
        end
    end
  else mret (Some (workerPool, false)).

(** The number of attempts the retry threshold leaves. *)
Definition verifyFuel (workerPool : WorkerPool) : nat :=
  match wp_State workerPool with
  | Some state => Z.to_nat (wp_RetryThreshold workerPool - st_FailureCount state + 1)
  | None => 0
  end.

Definition verifyScaledNode (svc : string) (workerPool : WorkerPool) : M W (WorkerPool * bool) :=
  o ← verifyLoop (verifyFuel workerPool) svc workerPool;
  match o with
  | Some r => mret r
  | None => go_panic "verifyScaledNode: attempts exhausted"
  end.

Definition Scale_impl (sp : ScalingProviderValue) (workerPool : WorkerPool)
    : M W (WorkerPool * option error) :=
  let 'AwsScalingProvider svc := sp in
  state ← deref (wp_State workerPool);
  if String.eqb (st_ScalingDirection state) ScalingDirectionOut then
    err ← scaleOut svc workerPool;
    match err with
    | Some e => mret (workerPool, Some e)
    | None =>
        '(workerPool, ok) ← verifyScaledNode svc workerPool;
        if negb ok then mret (workerPool, Some "an error occurred while attempting to verify the scaling operation")
        else mret (workerPool, None)
    end
  else if String.eqb (st_ScalingDirection state) ScalingDirectionIn then
    scaleIn svc workerPool
  else mret (workerPool, None).
End provider.

(** The interface instance. *)
Definition awsScalingProvider {W} {RT : Runtime W} {AA : AwsAPI W} {CC : ConsulClient W}
    {RS : RegistryStore W} : ScalingProvider W := {|
  SafetyCheck := SafetyCheck_impl;
  Scale := Scale_impl;
|}.
