(* ===== verification/AwsFacts.v ===== *)
(** * AwsFacts: the provider keeps to the limits of the autoscaling group

    The decision of the safety check, the capacity a scale-out requests, the
    bound on the attempts to verify a new node with the state they leave, and
    the choice of the node of a scale-in. *)

From S2P Require Import Prelude GoNum Structs Interfaces Sim State Consul StateFacts Helper AwsProvider.

Section facts.
Context {W : Type} {RT : Runtime W} {AA : AwsAPI W} {CC : ConsulClient W} {RS : RegistryStore W}.

Lemma index0_inv {A} (l : list A) a (w w' : W) :
  index0 l w = (Ret a, w') ↔ (∃ l', l = a :: l') ∧ w = w'.
Proof. destruct l; simpl; [|rewrite mret_inv]; naive_solver. Qed.

Lemma describe_inv n svc (w : W) gs e w' :
  describeScalingGroup n svc w = (Ret (gs, e), w') →
  ∃ g, gs = [g] ∧ DescribeAutoScalingGroups svc n w = (Ret ([g], e), w').
Proof.
  unfold describeScalingGroup. intros H. go_inv_step. destruct r as [resp err].
  destruct resp as [|g [|]]; [by go_inv| |by go_inv]. apply mret_inv in H as [[= <- <-] <-]. eauto.
Qed.

(** ** Safety check *)

(** C9. The safety check permits a scaling operation exactly when the pool has
    as many registered nodes as the autoscaling group desires and the step by
    one node stays within the group's minimum, for scaling in, and maximum, for
    scaling out. *)
Theorem safety_check_decides svc wp st g d lo hi (w w' : W) :
  DescribeAutoScalingGroups svc (wp_Name wp) w = (Ret ([g], None), w') →
  asg_DesiredCapacity g = Some d → asg_MinSize g = Some lo → asg_MaxSize g = Some hi →
  wp_State wp = Some st → min_int < d < max_int →
  ∃ b, SafetyCheck_impl (AwsScalingProvider svc) wp w = (Ret b, w') ∧
    (b = true ↔ Z.of_nat (size (wp_Nodes wp)) = d ∧
       (st_ScalingDirection st = ScalingDirectionIn → lo ≤ d - 1) ∧
       (st_ScalingDirection st = ScalingDirectionOut → d + 1 ≤ hi)).
Proof.
  intros Hd Hdes Hlo Hhi Hst Hr.
  unfold SafetyCheck_impl, describeScalingGroup, mbind, M_bind. rewrite Hd. simpl.
  unfold mret at 1, M_ret at 1. simpl. rewrite Hdes, Hhi, Hlo. simpl.
  rewrite isub_id, iadd_id by (unfold is_int in *; lia).
  destruct (Z.eqb_spec (Z.of_nat (size (wp_Nodes wp))) d); simpl; [|by eexists; naive_solver].
  rewrite Hst. simpl.
  destruct (String.eqb_spec (st_ScalingDirection st) ScalingDirectionIn) as [Hin|Hin],
    (String.eqb_spec (st_ScalingDirection st) ScalingDirectionOut) as [Hout|Hout];
    [by rewrite Hin in Hout| | |]; simpl.
  - destruct (Z.ltb_spec (d - 1) lo); eexists; (split; [done|]); naive_solver lia.
  - destruct (Z.ltb_spec hi (d + 1)); eexists; (split; [done|]); naive_solver lia.
  - eexists. split; [done|]. naive_solver.
Qed.

(** Looking up the autoscaling group crashes instead of failing: whenever
    AWS does not answer with exactly one group, with or without an error, the
    safety check and the scale-out of the pool panic on a nil pointer. *)
Theorem describe_group_panics svc wp gs e (w w' : W) :
  DescribeAutoScalingGroups svc (wp_Name wp) w = (Ret (gs, e), w') → length gs ≠ 1%nat →
  SafetyCheck_impl (AwsScalingProvider svc) wp w = (Panic "nil pointer dereference", w') ∧
  scaleOut svc wp w = (Panic "nil pointer dereference", w').
Proof.
  intros H Hl. unfold SafetyCheck_impl, scaleOut, describeScalingGroup, mbind, M_bind. rewrite H.
  apply Nat.eqb_neq in Hl. by rewrite Hl.
Qed.

(** A scale-out that reports success asked for one node more than the
    group desired, keeping its zones and termination policies, and then saw the
    group run that many instances. *)
Theorem scale_out_one_more svc wp (w w' : W) :
  scaleOut svc wp w = (Ret None, w') →
  ∃ g d w1 w2, DescribeAutoScalingGroups svc (wp_Name wp) w = (Ret ([g], None), w1) ∧
    asg_DesiredCapacity g = Some d ∧
    UpdateAutoScalingGroup svc (wp_Name wp) (d +! 1) (asg_AvailabilityZones g)
      (asg_TerminationPolicies g) w1 = (Ret None, w2) ∧
    ∃ g' w3 w4, DescribeAutoScalingGroups svc (wp_Name wp) w3 = (Ret ([g'], None), w4) ∧
      Z.of_nat (length (asg_Instances g')) = d +! 1.
Proof.
  unfold scaleOut. intros H. go_inv_step. destruct r as [gs e].
  apply describe_inv in E as (g & -> & Hd). destruct e; [by go_inv|].
  go_inv_step. apply index0_inv in E as [[? [= <- <-]] <-].
  go_inv_step. apply deref_inv in E as [Hdes <-].
  go_inv_step. destruct r0; [by go_inv|].
  exists g, r, w0, w1. split_and!; [done..|].
  unfold verifyAsgUpdate in H. go_inv_step.
  refine (poll_inv _ _ _ _ _ _ _ (λ _, True) (λ e, e = None →
    ∃ g' w3 w4, DescribeAutoScalingGroups svc (wp_Name wp) w3 = (Ret ([g'], None), w4) ∧
      Z.of_nat (length (asg_Instances g')) = r +! 1) H I _ _ eq_refl).
  - intros [] w3 o w4 _ Hb. go_inv_step. destruct r1 as [gs e].
    apply describe_inv in E1 as (g' & -> & Hd'). destruct e; [by go_inv|].
    go_inv_step. apply index0_inv in E1 as [[? [= <- <-]] <-].
    destruct (Z.eqb_spec (Z.of_nat (length (asg_Instances g'))) (r +! 1)); apply mret_inv in Hb as [<- <-];
      [|done]. eauto 10.
  - by intros [] ? ? ? _ [<- _]%mret_inv.
Qed.

(** ** Verification of a new node *)

Context {SL : StateStoreLaws W}.

Lemma record_failure_inv wp st (w : W) wp' w' :
  recordFailure wp st w = (Ret wp', w') →
  ∃ st', wp' = wp <| wp_State := Some st' |> ∧ st_FailureCount st' = st_FailureCount st +! 1.
Proof.
  unfold recordFailure. intros H. go_inv_step. destruct r as [st2 e].
  apply persist_touches in E as [now ->]. apply mret_inv in H as [<- _]. by eexists.
Qed.

(** An attempt counts one failure more or ends with none. *)
Lemma verify_attempt_inv svc wp st (w : W) o w' :
  wp_State wp = Some st → verifyAttempt svc wp w = (Ret o, w') →
  ∃ st', match o with
  | Return wp' => wp' = wp <| wp_State := Some st' |> ∧ st_FailureCount st' = 0
  | Next wp' => wp' = wp <| wp_State := Some st' |> ∧ st_FailureCount st' = st_FailureCount st +! 1
  end.
Proof.
  intros Hst. unfold verifyAttempt. intros H. go_inv_step.
  apply deref_inv in E as [Hst' <-]. rewrite Hst in Hst'. injection Hst' as <-.
  go_inv_step. destruct r as [|ip].
  { go_inv_step. apply record_failure_inv in E0 as (st' & -> & ?). apply mret_inv in H as [<- _]. eauto. }
  go_inv_step. destruct r.
  - go_inv_step. go_inv_step. destruct r0 as [st2 e]. apply persist_touches in E2 as [u ->].
    apply mret_inv in H as [<- _]. by eexists.
  - go_inv_step. apply record_failure_inv in E1 as (st' & -> & ?). go_inv_step.
    apply mret_inv in H as [<- _]. eauto.
Qed.

(** With the fuel the threshold leaves, the loop ends and its result says how. *)
Lemma verify_loop_inv fuel svc wp st (w : W) o w' :
  wp_State wp = Some st → is_int (st_FailureCount st) → wp_RetryThreshold wp < max_int →
  (Z.to_nat (wp_RetryThreshold wp - st_FailureCount st + 1) ≤ fuel)%nat →
  verifyLoop fuel svc wp w = (Ret o, w') →
  ∃ st' ok, o = Some (wp <| wp_State := Some st' |>, ok) ∧
    (if ok : bool then st_FailureCount st' = 0
     else st_FailureCount st' = Z.max (st_FailureCount st) (wp_RetryThreshold wp + 1)).
Proof.
  revert wp st w. induction fuel as [|fuel IH]; intros wp st w Hst Hi Hr Hf H; simpl in H;
    go_inv_step; apply deref_inv in E as [Hst' <-]; rewrite Hst in Hst'; injection Hst' as <-.
  - rewrite (proj2 (Z.leb_gt _ _)) in H by lia. apply mret_inv in H as [<- _].
    exists st, false. split; [by destruct wp; simpl in *; subst|]. lia.
  - destruct (Z.leb_spec (st_FailureCount st) (wp_RetryThreshold wp)).
    + go_inv_step. eapply verify_attempt_inv in E as (st' & Ho); [|exact Hst].
      destruct r as [wp'|wp']; destruct Ho as [-> Hc].
      * rewrite iadd_id in Hc by (unfold is_int in *; lia).
        apply (IH _ st') in H; simpl; [|done|unfold is_int in *; lia|done|unfold modify; simpl; lia].
        destruct H as (st2 & ok & -> & H2). unfold modify in *; simpl in *.
        exists st2, ok. split; [done|]. destruct ok; [done|]. lia.
      * apply mret_inv in H as [<- _]. by exists st', true.
    + apply mret_inv in H as [<- _]. exists st, false. split; [by destruct wp; simpl in *; subst|]. lia.
Qed.

(** C18. The verification of a scale-out ends: for a pool whose retry threshold
    is below the largest integer, the loop never needs more attempts than the
    threshold leaves.  It succeeds with the failure count reset, or gives up with
    the count past the threshold, so that the next failsafe check of the pool
    trips. *)
Theorem verify_scaled_node_ends svc wp st (w : W) o w' :
  wp_State wp = Some st → is_int (st_FailureCount st) → wp_RetryThreshold wp < max_int →
  verifyScaledNode svc wp w = (o, w') →
  match o with
  | Ret (wp', ok) => ∃ st', wp' = wp <| wp_State := Some st' |> ∧
      (if ok : bool then st_FailureCount st' = 0 else wp_RetryThreshold wp < st_FailureCount st')
  | Panic e => verifyLoop (verifyFuel wp) svc wp w = (Panic e, w')
  end.
Proof.
  intros Hst Hi Hr. unfold verifyScaledNode, mbind, M_bind.
  destruct (verifyLoop _ _ _ _) as [[o'|e] w1] eqn:E; [|by intros [= <- <-]].
  eapply verify_loop_inv in E as (st' & ok & -> & Hok); [|exact Hst|done|done|].
  2:{ unfold verifyFuel. by rewrite Hst. }
  intros [= <- <-]. exists st'. split; [done|]. destruct ok; [done|lia].
Qed.

(** ** Scale-in *)

(** Popping the node to remove takes the first eligible node but drops the
    last one: a scale-in that succeeds with one eligible node leaves none, and
    with several leaves the removed node as the next target. *)
Theorem scale_in_target svc wp st ip rest (w : W) wp' w' :
  wp_State wp = Some st → st_EligibleNodes st = ip :: rest →
  scaleIn svc wp w = (Ret (wp', None), w') →
  ∃ st' w1 id, wp_State wp' = Some st' ∧ st_FailureCount st' = 0 ∧
    translateIptoID ip (wp_Region wp) w = (Ret id, w1) ∧
    (rest = [] → st_EligibleNodes st' = []) ∧
    (rest ≠ [] → head (st_EligibleNodes st') = Some ip).
Proof.
  intros Hst He. unfold scaleIn. intros H. go_inv_step.
  apply deref_inv in E as [Hst' <-]. rewrite Hst in Hst'. injection Hst' as <-.
  rewrite He in H. simpl in H. go_inv_step. apply mret_inv in E as [<- <-].
  go_inv_step. unfold modify in E; simpl in E.
  do 2 go_inv_step. destruct r1; [by go_inv|].
  go_inv_step. destruct r1; [by go_inv|]. do 2 go_inv_step. destruct r2 as [st2 e].
  apply persist_touches in E4 as [u ->]. apply mret_inv in H as [[= <-] _].
  unfold modify; simpl. rewrite He. do 3 eexists. split_and!; [done|done|exact E|by intros ->|].
  destruct rest; [done|]. by intros _.
Qed.
End facts.

(** ** Witnesses *)

#[local] Existing Instance consulClient.

Definition pool_dir (dir : string) : WorkerPool :=
  sim_pool <| wp_State := Some (demo_state <| st_ScalingDirection := dir |>) |>.

Definition demo_group : AutoScalingGroup :=
  mkAutoScalingGroup (Some 3) (Some 5) (Some 1) ["i-1"; "i-2"; "i-3"] ["us-east-1a"] ["Default"].

Lemma safety_check_decides_witness :
  ∃ b, SafetyCheck_impl (AwsScalingProvider "us-east-1") (pool_dir ScalingDirectionOut) sim_cluster =
         (Ret b, sim_cluster) ∧
    (b = true ↔ Z.of_nat (size (wp_Nodes (pool_dir ScalingDirectionOut))) = 3 ∧
       (ScalingDirectionOut = ScalingDirectionIn → 1 ≤ 3 - 1) ∧
       (ScalingDirectionOut = ScalingDirectionOut → 3 + 1 ≤ 5)).
Proof.
  refine (safety_check_decides "us-east-1" (pool_dir ScalingDirectionOut)
    (demo_state <| st_ScalingDirection := ScalingDirectionOut |>) demo_group 3 1 5 sim_cluster sim_cluster
    _ _ _ _ _ _);
    [vm_compute; reflexivity|reflexivity..|unfold min_int, max_int; lia].
Defined.

Lemma describe_group_panics_witness :
  SafetyCheck_impl (AwsScalingProvider "us-east-1") (pool_dir ScalingDirectionOut) sim0 =
    (Panic "nil pointer dereference", sim0) ∧
  scaleOut "us-east-1" (pool_dir ScalingDirectionOut) sim0 = (Panic "nil pointer dereference", sim0).
Proof.
  apply (describe_group_panics "us-east-1" (pool_dir ScalingDirectionOut) [] None sim0 sim0);
    [vm_compute; reflexivity|discriminate].
Defined.

Lemma scale_out_one_more_witness :
  ∃ g d w1 w2, DescribeAutoScalingGroups "us-east-1" "pool" sim_cluster = (Ret ([g], None), w1) ∧
    asg_DesiredCapacity g = Some d ∧
    UpdateAutoScalingGroup "us-east-1" "pool" (d +! 1) (asg_AvailabilityZones g)
      (asg_TerminationPolicies g) w1 = (Ret None, w2) ∧
    ∃ g' w3 w4, DescribeAutoScalingGroups "us-east-1" "pool" w3 = (Ret ([g'], None), w4) ∧
      Z.of_nat (length (asg_Instances g')) = d +! 1.
Proof.
  apply (scale_out_one_more "us-east-1" (pool_dir ScalingDirectionOut) sim_cluster
    (run_world (scaleOut "us-east-1" (pool_dir ScalingDirectionOut)) sim_cluster)).
  vm_compute. reflexivity.
Defined.

Definition verify_run : M world (WorkerPool * bool) :=
  verifyScaledNode "us-east-1" (pool_dir ScalingDirectionOut).

Lemma verify_scaled_node_ends_witness :
  match (verify_run sim_cluster).1 with
  | Ret (wp', ok) => ∃ st', wp' = (pool_dir ScalingDirectionOut) <| wp_State := Some st' |> ∧
      (if ok : bool then st_FailureCount st' = 0 else 3 < st_FailureCount st')
  | Panic e => False
  end.
Proof.
  pose proof (verify_scaled_node_ends "us-east-1" (pool_dir ScalingDirectionOut)
    (demo_state <| st_ScalingDirection := ScalingDirectionOut |>) sim_cluster
    (verify_run sim_cluster).1 (verify_run sim_cluster).2 eq_refl) as H.
  assert (∃ r, (verify_run sim_cluster).1 = Ret r) as [r Hr] by (eexists; vm_compute; reflexivity).
  rewrite Hr in *. apply H; [unfold is_int, min_int, max_int; simpl; lia|by vm_compute|].
  unfold verify_run in *. rewrite <-Hr. by destruct (verifyScaledNode _ _ _).
Defined.

Definition pool_two : WorkerPool :=
  sim_pool <| wp_State := Some (demo_state <| st_EligibleNodes := ["10.0.0.1"; "10.0.0.2"] |>) |>.

Lemma scale_in_target_witness :
  ∃ wp' w', scaleIn "us-east-1" pool_two sim_cluster = (Ret (wp', None), w') ∧
    ∃ st', wp_State wp' = Some st' ∧ head (st_EligibleNodes st') = Some "10.0.0.1".
Proof.
  do 2 eexists. split; [vm_compute; reflexivity|].
  edestruct (scale_in_target "us-east-1" pool_two
    (demo_state <| st_EligibleNodes := ["10.0.0.1"; "10.0.0.2"] |>) "10.0.0.1" ["10.0.0.2"] sim_cluster)
    as (st' & w1 & id & H1 & _ & _ & _ & H2); [reflexivity|reflexivity|vm_compute; reflexivity|].
  exists st'. split; [exact H1|by apply H2].
Defined.
