(* ===== verification/JobEval.v ===== *)
(** * JobEval: the evaluation of job groups

    What [EvaluateJobScaling] ([client/nomad.go]) decides for the groups of a
    job: the utilization of a group is the mean over its running allocations,
    and the direction is a function of the two utilizations and the thresholds
    of the policy. *)

From S2P Require Import Prelude GoNum Structs Interfaces Sim Helper Nomad.

(** ** Small integers are exact floats *)

Lemma digits_iter m k : Zpos (digits2_pos (Pos.iter xO m k)) = Zpos (digits2_pos m) + Zpos k.
Proof. induction k as [|k IH] using Pos.peano_ind; [simpl; lia|]. rewrite Pos.iter_succ. simpl. lia. Qed.

Lemma digits_lower m : 2 ^ (Zpos (digits2_pos m) - 1) ≤ Zpos m.
Proof.
  induction m as [m IH|m IH|]; simpl digits2_pos; [| |done];
    replace (Z.pos (Pos.succ (digits2_pos m)) - 1) with (Z.succ (Z.pos (digits2_pos m) - 1)) by lia;
    rewrite Z.pow_succ_r by lia; lia.
Qed.

(** A mantissa of 53 digits is not rounded. *)
Lemma round_53 mz ez : Zpos (digits2_pos mz) = 53 → -1074 ≤ ez ≤ 971 →
  binary_round_aux F64.prec F64.emax false (Zpos mz) ez loc_Exact = S754_finite false mz ez.
Proof.
  intros Hd He. assert (shr_fexp F64.prec F64.emax (Zpos mz) ez loc_Exact = (Build_shr_record (Zpos mz) false false, ez)) as Hs.
  { unfold shr_fexp, fexp, emin, F64.prec, F64.emax. cbn [Zdigits2]. rewrite Hd.
    by replace (Z.max (53 + ez - 53) (3 - 1024 - 53) - ez) with 0 by lia. }
  unfold binary_round_aux. rewrite Hs. cbn [shr_m loc_of_shr_record round_nearest_even]. rewrite Hs. cbn [shr_m].
  unfold F64.emax, F64.prec. by rewrite (proj2 (Z.leb_le _ _)) by lia.
Qed.

(** A positive integer below [2 ^ 53] converts to a positive finite float. *)
Lemma of_int_finite n : 0 < n < 2 ^ 53 → ∃ m e, F64.of_int n = S754_finite false m e.
Proof.
  destruct n as [|m|]; [lia| |lia]. intros [_ Hn].
  assert (Zpos (digits2_pos m) ≤ 53) as Hd.
  { pose proof (digits_lower m). destruct (Z.leb_spec (Zpos (digits2_pos m)) 53); [done|].
    assert (2 ^ 53 ≤ 2 ^ (Zpos (digits2_pos m) - 1)) by (apply Z.pow_le_mono_r; lia). lia. }
  unfold F64.of_int, binary_normalize, binary_round, shl_align, fexp, emin.
  replace (Z.max (Z.pos (digits2_pos m) + 0 - F64.prec) (3 - F64.emax - F64.prec) - 0)
    with (Z.pos (digits2_pos m) - 53) by (unfold F64.prec, F64.emax; lia).
  destruct (Z.pos (digits2_pos m) - 53) as [|k|k] eqn:E; [|lia|].
  - do 2 eexists. apply round_53; lia.
  - do 2 eexists. apply round_53; [rewrite digits_iter; lia|]. unfold F64.prec, F64.emax. lia.
Qed.

Lemma zero_div n : 0 < n < 2 ^ 53 → F64.div F64.zero (F64.of_int n) = F64.zero.
Proof. intros (m & e & ->)%of_int_finite. done. Qed.

(** ** Means and decisions *)

(** The mean as it is computed: a sum from the left and one division by the
    number of values, counted in an [int]. *)
Definition mean (l : list float64) : float64 :=
  let n := wrap (Z.of_nat (length l)) in
  if 0 <? n then F64.div (fold_left F64.add l F64.zero) (F64.of_int n) else F64.zero.

Lemma mean_zeros l : Z.of_nat (length l) < 2 ^ 53 → Forall (eq F64.zero) l → mean l = F64.zero.
Proof.
  intros Hn Hl. unfold mean. rewrite wrap_id by (unfold is_int, min_int, max_int; lia).
  destruct (Z.ltb_spec 0 (Z.of_nat (length l))); [|done].
  assert (fold_left F64.add l F64.zero = F64.zero) as -> by (clear -Hl; induction Hl as [|x l <- _ IH]; done).
  by apply zero_div.
Qed.

(** What a policy demands for a group with the two utilizations: scale in when
    both are low, scale out when the higher one is above its limit. *)
Definition group_decision (gsp : GroupScalingPolicy) (cpu mem : float64) : string :=
  if F64.ltb cpu (gsp_ScaleInCPU gsp) && F64.ltb mem (gsp_ScaleInMem gsp) then ScalingDirectionIn
  else if (if F64.gtb mem cpu then F64.gtb mem (gsp_ScaleOutMem gsp) else F64.gtb cpu (gsp_ScaleOutCPU gsp))
  then ScalingDirectionOut else ScalingDirectionNone.

(** The part of a policy that comes from the job's document. *)
Definition config_of (gsp : GroupScalingPolicy) :=
  (gsp_Cooldown gsp, gsp_Enabled gsp, gsp_RetryThreshold gsp, gsp_GroupName gsp, gsp_Max gsp, gsp_Min gsp,
   gsp_ScaleInCPU gsp, gsp_ScaleInMem gsp, gsp_ScaleOutCPU gsp, gsp_ScaleOutMem gsp, gsp_UID gsp).

Lemma decision_config gsp gsp' c m : config_of gsp = config_of gsp' → group_decision gsp c m = group_decision gsp' c m.
Proof.
  unfold config_of, group_decision. intros E. injection E as _ _ _ _ _ _ H1 H2 H3 H4 _. by rewrite H1, H2, H3, H4.
Qed.

Definition cpu_percent (gsp : GroupScalingPolicy) : float64 := ar_CPUPercent (ta_Resources (gsp_Tasks gsp)).
Definition mem_percent (gsp : GroupScalingPolicy) : float64 := ar_MemoryPercent (ta_Resources (gsp_Tasks gsp)).

(** The metric that counts is the higher of the two, and the decision is made
    on it. *)
Lemma direction_decided gsp :
  let gsp' := groupDirection (MostUtilizedGroupResource gsp) in
  config_of gsp' = config_of gsp ∧ gsp_Tasks gsp' = gsp_Tasks gsp ∧
  (F64.num (cpu_percent gsp) →
   gsp_ScaleDirection gsp' = group_decision gsp (cpu_percent gsp) (mem_percent gsp)).
Proof.
  unfold MostUtilizedGroupResource, Max. cbn [fold_left].
  fold (cpu_percent gsp) (mem_percent gsp). set (c := cpu_percent gsp). set (m := mem_percent gsp).
  split_and!.
  - unfold groupDirection. repeat case_match; done.
  - unfold groupDirection. repeat case_match; done.
  - intros Hc. unfold group_decision. destruct (F64.gtb m c) eqn:Emc.
    + assert (F64.eqb m c = false) as ->.
      { destruct (F64.eqb m c) eqn:E; [|done]. apply F64.eqb_key in E as (_ & _ & E).
        apply F64.ltb_key in Emc as (_ & _ & Hk). rewrite E in Hk. by apply F64.key_lt_irrefl in Hk. }
      apply F64.ltb_key in Emc as (_ & Hm & _). rewrite F64.eqb_refl by done.
      unfold groupDirection, modify. simpl. fold (cpu_percent gsp) (mem_percent gsp). fold c m.
      destruct (F64.gtb m (gsp_ScaleOutMem gsp)), (F64.ltb c _ && F64.ltb m _) eqn:E; simpl; rewrite ?E; done.
    + rewrite F64.eqb_refl by done.
      unfold groupDirection, modify. simpl. fold (cpu_percent gsp) (mem_percent gsp). fold c m.
      destruct (F64.gtb c (gsp_ScaleOutCPU gsp)), (F64.ltb c _ && F64.ltb m _) eqn:E; simpl; rewrite ?E; done.
Qed.

Section evaluation.
Context {W : Type} {RT : Runtime W} {NA : NomadAPI W}.
Implicit Types (w : W).

(** [measures gsp l w stats w']: the allocations [l], looked up one after the
    other from [w] on, have the percentages [stats]; one that is not found any
    more has none. *)
Inductive measures (gsp : GroupScalingPolicy) : list Allocation → W → list (float64 * float64) → W → Prop :=
| measures_nil w : measures gsp [] w [] w
| measures_gone a l w r w1 stats w2 :
    Allocations_Info (al_ID a) w = (Ret r, w1) → (∀ alloc, r ≠ inr (Some alloc)) →
    measures gsp l w1 stats w2 → measures gsp (a :: l) w stats w2
| measures_found a l w alloc w1 s w2 stats w3 :
    Allocations_Info (al_ID a) w = (Ret (inr (Some alloc)), w1) →
    GetAllocationStats alloc gsp w1 = (Ret s, w2) →
    measures gsp l w2 stats w3 → measures gsp (a :: l) w (s :: stats) w3.

Definition running (allocs : list Allocation) : list Allocation := filter (λ a, isRunning a = true) allocs.

Lemma measures_length gsp l w stats w' : measures gsp l w stats w' → (length stats ≤ length l)%nat.
Proof. induction 1; simpl; lia. Qed.

Lemma running_length l : (length (running l) ≤ length l)%nat.
Proof. apply length_filter. Qed.

(** The loop over the allocations adds up what the running ones measure. *)
Lemma allocation_loop gsp allocs c m n w o w' :
  for_range (jobAllocationStep gsp) allocs (c, m, n) w = (Ret o, w') →
  ∃ stats, measures gsp (running allocs) w stats w' ∧
    o = Next (fold_left F64.add stats.*1 c, fold_left F64.add stats.*2 m,
              fold_left (λ k _, k +! 1) stats n).
Proof.
  revert c m n w. induction allocs as [|a allocs IH]; intros c m n w H; simpl in H.
  { apply mret_inv in H as [<- <-]. exists []. split; [constructor|done]. }
  unfold running. rewrite filter_cons. go_bind H as o1 w1 E. unfold jobAllocationStep in E.
  destruct (isRunning a) eqn:Ha; [rewrite decide_True by done|rewrite decide_False by done].
  - go_bind E as r w2 Er.
    assert ((∀ alloc, r ≠ inr (Some alloc)) → o1 = Next (c, m, n) → w1 = w2 →
      ∃ stats, measures gsp (a :: filter (λ a, isRunning a = true) allocs) w stats w' ∧
        o = Next (fold_left F64.add stats.*1 c, fold_left F64.add stats.*2 m,
                  fold_left (λ k _, k +! 1) stats n)) as Hgone.
    { intros Hr -> ->. destruct (IH _ _ _ _ H) as (stats & Hm & ->). exists stats. split; [|done].
      by eapply measures_gone. }
    destruct r as [e|[alloc|]]; [apply mret_inv in E as [<- <-]; by apply Hgone| |apply mret_inv in E as [<- <-]; by apply Hgone].
    go_bind E as [cp mp] w3 Es. apply mret_inv in E as [<- <-].
    destruct (IH _ _ _ _ H) as (stats & Hm & ->). exists ((cp, mp) :: stats). split; [|done].
    by eapply measures_found.
  - apply mret_inv in E as [<- <-]. by apply IH.
Qed.

Lemma count_stats {A} (l : list A) k : fold_left (λ k _, k +! 1) l (wrap k) = wrap (k + Z.of_nat (length l)).
Proof.
  revert k. induction l as [|x l IH]; intros k; simpl; [by rewrite Z.add_0_r|].
  replace (wrap k +! 1) with (wrap (k + 1)) by (unfold iadd; by rewrite wrap_add_l).
  rewrite IH. f_equal. lia.
Qed.

(** The utilization of a group is the mean over the allocations that run. *)
Lemma job_allocations_run allocs gsp w gsp' w' :
  GetJobAllocations allocs gsp w = (Ret gsp', w') →
  ∃ stats, measures gsp (running allocs) w stats w' ∧
    config_of gsp' = config_of gsp ∧ cpu_percent gsp' = mean stats.*1 ∧ mem_percent gsp' = mean stats.*2.
Proof.
  unfold GetJobAllocations. intros H. go_bind H as o w1 E.
  apply allocation_loop in E as (stats & Hm & ->).
  change (fold_left (λ k _, k +! 1) stats 0) with (fold_left (λ k _, k +! 1) stats (wrap 0)) in H.
  rewrite count_stats in H. apply mret_inv in H as [<- <-]. exists stats. split; [done|].
  unfold cpu_percent, mem_percent, mean. rewrite !length_fmap, Z.add_0_l.
  destruct (0 <? wrap (Z.of_nat (length stats))); done.
Qed.

Lemma task_resources_run job gsp w gsp' e w' :
  GetTaskGroupResources job gsp w = (Ret (gsp', e), w') → config_of gsp' = config_of gsp.
Proof.
  unfold GetTaskGroupResources. intros H. go_bind H as r w1 E. destruct r as [err|j]; [by apply mret_inv in H as [[= <- _] _]|].
  go_bind H as o w2 E2.
  apply (for_range_inv _ _ _ _ _ _ (λ _ g, config_of g = config_of gsp) (λ _, False)) in E2.
  - destruct o as [g|r]; [|done]. by apply mret_inv in H as [[= <- _] _].
  - done.
  - intros done t g w3 o3 w4 _ Hg Hb. go_bind Hb as cpu w5 E5. go_bind Hb as mem w6 E6. by apply mret_inv in Hb as [<- _].
Qed.

(** What the evaluation of the group [gsp] of a job reads and decides: the
    resources of the job, its allocations, and the percentages of those that
    run, in this order; the utilizations of the result are their means, and its
    direction is the decision on them unless the CPU utilization is no
    number. *)
Definition decided (job : string) (gsp : GroupScalingPolicy) (w : W) (gsp' : GroupScalingPolicy) (w' : W) : Prop :=
  ∃ gsp1 w1 allocs w2 stats,
    GetTaskGroupResources job gsp w = (Ret (gsp1, None), w1) ∧
    Jobs_Allocations job w1 = (Ret (inr allocs), w2) ∧
    measures gsp1 (running allocs) w2 stats w' ∧
    config_of gsp' = config_of gsp ∧
    cpu_percent gsp' = mean stats.*1 ∧ mem_percent gsp' = mean stats.*2 ∧
    (F64.num (cpu_percent gsp') →
     gsp_ScaleDirection gsp' = group_decision gsp (cpu_percent gsp') (mem_percent gsp')).

(** The groups of a job, one after the other. *)
Inductive all_decided (job : string) : list GroupScalingPolicy → W → list GroupScalingPolicy → W → Prop :=
| all_decided_nil w : all_decided job [] w [] w
| all_decided_cons g ps w g' w1 ps' w2 :
    decided job g w g' w1 → all_decided job ps w1 ps' w2 → all_decided job (g :: ps) w (g' :: ps') w2.

Lemma group_run job gsp w gsp' e w' :
  evaluateGroup job gsp w = (Ret (gsp', e), w') →
  config_of gsp' = config_of gsp ∧ (e = None → decided job gsp w gsp' w').
Proof.
  unfold evaluateGroup. intros H. go_bind H as [g1 e1] w1 E1. apply task_resources_run in E1 as Hc1.
  destruct e1; [by apply mret_inv in H as [[= <- <-] _]|]. go_bind H as r w2 E2.
  destruct r as [err|allocs]; [by apply mret_inv in H as [[= <- <-] _]|]. go_bind H as g2 w3 E3.
  apply mret_inv in H as [[= <- <-] <-].
  apply job_allocations_run in E3 as (stats & Hm & Hc2 & Hcpu & Hmem).
  destruct (direction_decided g2) as (Hc3 & Ht & Hd).
  assert (config_of (groupDirection (MostUtilizedGroupResource g2)) = config_of gsp) as Hc by congruence.
  split; [exact Hc|]. intros _. exists g1, w1, allocs, w2, stats.
  unfold cpu_percent, mem_percent in *. rewrite Ht, Hcpu, Hmem in *. split_and!; try done.
  intros Hnum. rewrite (Hd Hnum). apply decision_config. congruence.
Qed.

(** C17. The evaluation of a job decides every group by its policy: the
    utilization of a group is the mean of the percentages of the allocations of
    the job that run and are still found, as they are read one after the other,
    the group is scaled in exactly when both utilizations are below their
    scale-in limits, and otherwise out exactly when the higher of the two is
    above its scale-out limit, provided the CPU utilization is a number; the
    configured part of a policy is not changed.  An error stops at one group:
    those before it are decided, those after it are untouched. *)
Theorem job_groups_decided job ps w ps' err w' :
  EvaluateJobScaling_impl job ps w = (Ret (ps', err), w') →
  match err with
  | None => all_decided job ps w ps' w'
  | Some _ => ∃ pre g post pre' g' w1, ps = pre ++ g :: post ∧ ps' = pre' ++ g' :: post ∧
      all_decided job pre w pre' w1 ∧ config_of g' = config_of g
  end.
Proof.
  revert w ps' err w'. induction ps as [|gsp ps IH]; intros w ps' err w' H; simpl in H.
  { apply mret_inv in H as [[= <- <-] <-]. by constructor. }
  go_bind H as [g1 e1] w1 E1. apply group_run in E1 as [Hc Hdec].
  destruct e1 as [e|].
  - apply mret_inv in H as [[= <- <-] <-]. exists [], gsp, ps, [], g1, w. split_and!; [done|done|constructor|done].
  - go_bind H as [rest e2] w2 E2. apply mret_inv in H as [[= <- <-] <-]. apply IH in E2.
    specialize (Hdec eq_refl). destruct e2; [|by econstructor].
    destruct E2 as (pre & g & post & pre' & g' & w3 & -> & -> & Hf & Hg).
    exists (gsp :: pre), g, post, (g1 :: pre'), g', w3. split_and!; [done|done|by econstructor|done].
Qed.

(** C37. A job whose statistics are not available is taken for idle: when every
    request for the statistics of an allocation fails, each of its groups is
    marked for scale-in, however loaded it is, provided its policy scales in at
    all. *)
Theorem no_statistics_scales_in job gsp w gsp' w' :
  (∀ a w r w', Allocations_Stats a w = (Ret r, w') → ∃ e, r = inl e) →
  (∀ w l w', Jobs_Allocations job w = (Ret (inr l), w') → Z.of_nat (length l) < 2 ^ 53) →
  F64.ltb F64.zero (gsp_ScaleInCPU gsp) = true → F64.ltb F64.zero (gsp_ScaleInMem gsp) = true →
  evaluateGroup job gsp w = (Ret (gsp', None), w') →
  gsp_ScaleDirection gsp' = ScalingDirectionIn.
Proof.
  intros Hstats Hlen Hcpu Hmem H. apply group_run in H as [Hc H].
  destruct (H eq_refl) as (gsp1 & w1 & l & w2 & stats & _ & Hl%Hlen & Hm & _ & Ecpu & Emem & Hd).
  pose proof (measures_length _ _ _ _ _ Hm) as Hle. pose proof (running_length l) as Hle'.
  assert (Forall (λ s, s = (F64.zero, F64.zero)) stats) as Hz.
  { clear -Hm Hstats. induction Hm as [| |a l0 w0 alloc w1' s w2' stats w3' _ Ha _ IH]; [constructor|done|].
    constructor; [|done]. unfold GetAllocationStats in Ha.
    go_bind Ha as r w5 Er. apply Hstats in Er as [e ->]. by apply mret_inv in Ha as [<- _]. }
  assert (mean stats.*1 = F64.zero ∧ mean stats.*2 = F64.zero) as [E1 E2].
  { split; (apply mean_zeros; [rewrite length_fmap; lia|]); apply Forall_fmap; (eapply Forall_impl; [exact Hz|]);
      by intros s ->. }
  rewrite E1 in Ecpu. rewrite E2 in Emem. rewrite Ecpu, Emem in Hd. rewrite (Hd eq_refl).
  unfold group_decision. by rewrite Hcpu, Hmem.
Qed.
End evaluation.

(** ** Witnesses *)

(** A job with one task and two running allocations, over an API that answers
    the same whatever happens: [stats] is what it has for an allocation. *)
Definition eval_job : Job :=
  mkJob (Some "shop") (Some "service") (Some "running")
    [mkTaskGroup (Some "web") (Some 2) [mkTask (sim_resources 500 256 300)] false ∅].
Definition eval_policy : GroupScalingPolicy :=
  NewGroupScalingPolicy <| gsp_GroupName := "web" |> <| gsp_ScaleInCPU := F64.of_int 30 |>
    <| gsp_ScaleInMem := F64.of_int 30 |> <| gsp_ScaleOutCPU := F64.of_int 80 |> <| gsp_ScaleOutMem := F64.of_int 80 |>.
Definition eval_nomad (stats : error + option ResourceUsage) : NomadAPI world := {|
  Jobs_List := Jobs_List; Jobs_Info _ := mret (inr eval_job);
  Jobs_Allocations _ := mret (inr [sim_alloc "a1" "node-1" 500 256 300; sim_alloc "a2" "node-2" 500 256 300]);
  Jobs_Register := Jobs_Register; Jobs_LatestDeployment := Jobs_LatestDeployment; Nodes_List := Nodes_List;
  Nodes_Info := Nodes_Info; Nodes_Allocations := Nodes_Allocations; Nodes_UpdateDrain := Nodes_UpdateDrain;
  Allocations_Info a := mret (inr (Some (sim_alloc a "node-1" 500 256 300))); Allocations_Stats _ := mret stats;
  Deployments_Info := Deployments_Info; Evaluations_Info := Evaluations_Info;
|}.

(** 450 of 500 MHz and 100 of 256 MB. *)
Definition busy : error + option ResourceUsage :=
  inr (Some (mkResourceUsage (Some (F64.of_int 450)) (Some 102400000))).
Definition eval_run (stats : error + option ResourceUsage) : list GroupScalingPolicy * option error :=
  run_value ([], None) (EvaluateJobScaling_impl (H0 := eval_nomad stats) "shop" [eval_policy]) sim0.

Example busy_group_scales_out : gsp_ScaleDirection <$> (eval_run busy).1 = [ScalingDirectionOut].
Proof. vm_compute. reflexivity. Qed.

Lemma job_groups_decided_witness : all_decided (NA := eval_nomad busy) "shop" [eval_policy] sim0 (eval_run busy).1 sim0.
Proof.
  apply (job_groups_decided (NA := eval_nomad busy) "shop" [eval_policy] sim0 (eval_run busy).1 None sim0).
  vm_compute. reflexivity.
Defined.

Definition unmeasured : GroupScalingPolicy * option error :=
  run_value (eval_policy, None) (evaluateGroup (H0 := eval_nomad (inl "timeout")) "shop" eval_policy) sim0.

Lemma no_statistics_scales_in_witness : gsp_ScaleDirection unmeasured.1 = ScalingDirectionIn.
Proof.
  apply (no_statistics_scales_in (NA := eval_nomad (inl "timeout")) "shop" eval_policy sim0 unmeasured.1 sim0).
  - intros a w r w' [= <- _]. by exists "timeout".
  - intros w l w' [= <- _]. simpl. lia.
  - vm_compute. reflexivity.
  - vm_compute. reflexivity.
  - vm_compute. reflexivity.
Defined.
