(* ===== verification/JobScale.v ===== *)
(** * JobScale: scaling of a job's task group

    [client/job_scaling.go]: [JobGroupScale] with its confirmation through the
    evaluation and the deployment of the job, and [IsJobInDeployment]. *)

From S2P Require Import Prelude GoNum Structs Interfaces Sim.

Definition deploymentTimeOut : Z := 15 * Minute.
Definition evaluationTimeOut : Z := 30 * Second.

Section job_scaling.
Context {W : Type} {RT : Runtime W} {NA : NomadAPI W}.

Definition getDeploymentID (evalID : string) : M W (error + string) :=
  n ← poll_ticks (500 * Millisecond) evaluationTimeOut;
  poll n (λ _ : unit,
    r ← Evaluations_Info evalID;
    match r with
    | inl _ => mret (Next tt)
    | inr deploymentID =>
        if String.eqb deploymentID "" then mret (Next tt)
        else mret (Return (inr deploymentID))
    end)
    (λ _, mret (inl "timeout reached while trying to retrieve the deployment ID for evaluation")) tt.

(** The local state of the polling loop is the wait index of the query. *)
Definition scaleConfirmation (evalID : string) : M W bool :=
  r ← getDeploymentID evalID;
  match r with
  | inl _ => mret false
  | inr depID =>
      n ← poll_ticks (500 * Millisecond) deploymentTimeOut;
      poll n (λ waitIndex : Z,
        r ← Deployments_Info depID waitIndex;
        match r with
        | inl _ => mret (Return false)
        | inr (dep, lastIndex) =>
            if lastIndex <=? waitIndex then mret (Next waitIndex)
            else if String.eqb (dep_Status dep) DeploymentStatusSuccessful then mret (Return true)
            else if String.eqb (dep_Status dep) DeploymentStatusRunning then mret (Next lastIndex)
            else mret (Return false)
        end)
        (λ _, mret false) 1
  end.

(** Whether a task group is at the limit of the policy. *)
Definition atLimit (group : GroupScalingPolicy) (taskGroup : TaskGroup) : M W bool :=
  if String.eqb (gsp_ScaleDirection group) ScalingDirectionOut then
    count ← deref (tg_Count taskGroup); mret (gsp_Max group <=? count)
  else if String.eqb (gsp_ScaleDirection group) ScalingDirectionIn then
    count ← deref (tg_Count taskGroup); mret (count <=? gsp_Min group)
  else mret false.

(** The body of the loop over the task groups of the job: [Return] is the early
    return of [JobGroupScale]. *)
Definition scaleTaskGroup (jobID : option string) (group : GroupScalingPolicy)
    (acc : list TaskGroup * ScalingState) (taskGroup : TaskGroup)
    : M W (loop (list TaskGroup * ScalingState) ScalingState) :=
  let '(groups, state) := acc in
  limit ← atLimit group taskGroup;
  if limit : bool then _ ← deref jobID; mret (Return state)
  else
    name ← deref (tg_Name taskGroup);
    if String.eqb name (gsp_GroupName group)
       && String.eqb (gsp_ScaleDirection group) ScalingDirectionOut then
      count ← deref (tg_Count taskGroup);
      mret (Next (groups ++ [taskGroup <| tg_Count := Some (count +! 1) |>],
                  state <| st_ScaleOutRequests ::= λ n, n +! 1 |>))
    else if String.eqb name (gsp_GroupName group)
       && String.eqb (gsp_ScaleDirection group) ScalingDirectionIn then
      count ← deref (tg_Count taskGroup);
      mret (Next (groups ++ [taskGroup <| tg_Count := Some (count -! 1) |>],
                  state <| st_ScaleInRequests ::= λ n, n +! 1 |>))
    else mret (Next (groups ++ [taskGroup], state)).

Definition JobGroupScale_impl (jobName : string) (group : GroupScalingPolicy)
    (state : ScalingState) : M W ScalingState :=
  r ← Jobs_Info jobName;
  match r with
  | inl _ => mret state
  | inr jobResp =>
      o ← for_range (scaleTaskGroup (job_ID jobResp) group) (job_TaskGroups jobResp) ([], state);
      match o with
      | Return state => mret state
      | Next (groups, state) =>
          r ← Jobs_Register (jobResp <| job_TaskGroups := groups |>);
          now ← time_Now;
          let state := state <| st_LastScalingEvent := now |> in
          match r with
          | inl _ => mret state
          | inr evalID =>
              success ← scaleConfirmation evalID;
              if negb success then mret (state <| st_FailureCount ::= λ n, n +! 1 |>)
              else mret state
          end
      end
  end.

Definition IsJobInDeployment_impl (jobName : string) : M W bool :=
  r ← Jobs_LatestDeployment jobName;
  match r with
  | inl _ => mret false
  | inr None => mret false
  | inr (Some resp) =>
      if String.eqb (dep_Status resp) DeploymentStatusRunning then mret true
      else if String.eqb (dep_Status resp) DeploymentStatusDescriptionPaused then mret true
      else mret false
  end.

(** ** Limits *)

(** A task group after a scaling step of the policy: only the count of the
    named group moves, by one in the direction of the policy. *)
Definition scaled_group (group : GroupScalingPolicy) (before after : TaskGroup) : Prop :=
  ∃ name, tg_Name before = Some name ∧
  if decide (name = gsp_GroupName group ∧ gsp_ScaleDirection group = ScalingDirectionOut) then
    ∃ c, tg_Count before = Some c ∧ c < gsp_Max group ∧
      after = before <| tg_Count := Some (c +! 1) |>
  else if decide (name = gsp_GroupName group ∧ gsp_ScaleDirection group = ScalingDirectionIn) then
    ∃ c, tg_Count before = Some c ∧ gsp_Min group < c ∧
      after = before <| tg_Count := Some (c -! 1) |>
  else after = before.

Lemma scale_task_group_inv jid group acc tg (w : W) acc' w' :
  scaleTaskGroup jid group acc tg w = (Ret (Next acc'), w') →
  w' = w ∧ ∃ tg', acc'.1 = acc.1 ++ [tg'] ∧ scaled_group group tg tg'.
Proof.
  unfold scaleTaskGroup, atLimit, scaled_group. destruct acc as [gs st]. intros H.
  go_bind H as limit w1 El. destruct limit; [by go_inv|].
  go_bind H as name w2 En. apply deref_inv in En as [Hn <-].
  destruct (String.eqb_spec (gsp_ScaleDirection group) ScalingDirectionOut) as [Ho|Ho];
  [|destruct (String.eqb_spec (gsp_ScaleDirection group) ScalingDirectionIn) as [Hi|Hi]].
  - go_bind El as c w3 Ec. apply deref_inv in Ec as [Hc <-]. apply mret_inv in El as [Hl <-].
    apply Z.leb_gt in Hl.
    destruct (String.eqb_spec name (gsp_GroupName group)) as [->|Hne]; simpl in H.
    + go_bind H as c' w3 Ec. apply deref_inv in Ec as [Hc' <-].
      apply mret_inv in H as [[= <-] <-]. split; [done|]. eexists. split; [done|].
      exists (gsp_GroupName group). split; [done|]. rewrite decide_True by done. exists c.
      replace c' with c by congruence. done.
    + apply mret_inv in H as [[= <-] <-]. split; [done|]. eexists. split; [done|].
      exists name. split; [done|]. rewrite !decide_False by naive_solver. done.
  - go_bind El as c w3 Ec. apply deref_inv in Ec as [Hc <-]. apply mret_inv in El as [Hl <-].
    apply Z.leb_gt in Hl.
    destruct (String.eqb_spec name (gsp_GroupName group)) as [->|Hne]; simpl in H.
    + go_bind H as c' w3 Ec. apply deref_inv in Ec as [Hc' <-].
      apply mret_inv in H as [[= <-] <-]. split; [done|]. eexists. split; [done|].
      exists (gsp_GroupName group). split; [done|]. rewrite decide_False, decide_True by naive_solver.
      exists c. replace c' with c by congruence. done.
    + apply mret_inv in H as [[= <-] <-]. split; [done|]. eexists. split; [done|].
      exists name. split; [done|]. rewrite !decide_False by naive_solver. done.
  - apply mret_inv in El as [_ <-]. rewrite !andb_false_r in H.
    apply mret_inv in H as [[= <-] <-]. split; [done|]. eexists. split; [done|].
    exists name. split; [done|]. rewrite !decide_False by naive_solver. done.
Qed.

Lemma scale_task_group_stop jid group acc tg (w : W) st w' :
  scaleTaskGroup jid group acc tg w = (Ret (Return st), w') → w' = w.
Proof.
  unfold scaleTaskGroup, atLimit. destruct acc as [gs st0]. intros H.
  go_bind H as limit w1 El. assert (w1 = w) as -> by (clear H; go_inv; done).
  clear El. by go_inv.
Qed.

Lemma scale_groups_inv jid group tgs acc (w : W) o w' :
  for_range (scaleTaskGroup jid group) tgs acc w = (Ret o, w') →
  w' = w ∧ match o with
  | Next acc' => ∃ tgs', acc'.1 = acc.1 ++ tgs' ∧ Forall2 (scaled_group group) tgs tgs'
  | Return _ => True
  end.
Proof.
  revert acc w. induction tgs as [|tg tgs IH]; intros acc w H; simpl in H.
  { apply mret_inv in H as [<- <-]. split; [done|]. exists []. by rewrite app_nil_r. }
  go_bind H as o1 w1 E. destruct o1 as [acc1|st].
  - apply scale_task_group_inv in E as (-> & tg' & Ha & Hs). apply IH in H as [-> H].
    split; [done|]. destruct o as [acc2|]; [|done]. destruct H as (tgs' & Hc & Hf).
    exists (tg' :: tgs'). split; [|by constructor]. by rewrite Hc, Ha, <-(assoc_L (++)).
  - apply scale_task_group_stop in E as ->. by apply mret_inv in H as [<- <-].
Qed.

(** C15. Scaling a job group changes the job by one step within the policy: a
    job is submitted only with the count of the named group moved by one in the
    policy's direction, from below its maximum or above its minimum, and every
    other group as Nomad reported it; otherwise nothing is submitted.  A job
    that has no group of that name is submitted as Nomad reported it. *)
Theorem job_group_scale_step jobName group st (w : W) st' w' :
  JobGroupScale_impl jobName group st w = (Ret st', w') →
  ∃ r w1, Jobs_Info jobName w = (Ret r, w1) ∧
    (w' = w1 ∨
     ∃ job groups resp w2, r = inr job ∧
       Forall2 (scaled_group group) (job_TaskGroups job) groups ∧
       Jobs_Register (job <| job_TaskGroups := groups |>) w1 = (Ret resp, w2)).
Proof.
  unfold JobGroupScale_impl. intros H. go_bind H as r w1 Ei. exists r, w1. split; [done|].
  destruct r as [|job]; [left; by apply mret_inv in H as [_ <-]|].
  go_bind H as o w2 Ef. apply scale_groups_inv in Ef as [-> Ho].
  destruct o as [[groups st1]|st1]; [|left; by apply mret_inv in H as [_ <-]].
  right. destruct Ho as (tgs' & Hg & Hf). simpl in Hg. subst tgs'.
  go_bind H as resp w2 Er. eauto 10.
Qed.

(** The limits of a policy are applied to every task group of the job: a
    sibling at the policy's maximum keeps the named group from scaling out,
    whatever its own count is, and the request is counted all the same. *)
Theorem sibling_group_blocks jobName group st job a b ca cb jid (w w1 : W) :
  Jobs_Info jobName w = (Ret (inr job), w1) →
  job_ID job = Some jid → job_TaskGroups job = [a; b] →
  gsp_ScaleDirection group = ScalingDirectionOut →
  tg_Name a = Some (gsp_GroupName group) → tg_Count a = Some ca → ca < gsp_Max group →
  tg_Count b = Some cb → gsp_Max group ≤ cb →
  JobGroupScale_impl jobName group st w =
    (Ret (st <| st_ScaleOutRequests ::= λ n, n +! 1 |>), w1).
Proof.
  intros Hi Hid Hg Hd Hna Hca Hla Hcb Hlb. unfold JobGroupScale_impl.
  rewrite (bind_run _ _ _ _ _ Hi), Hg, Hid. simpl.
  unfold scaleTaskGroup, atLimit. rewrite Hd, String.eqb_refl, Hca, Hcb, Hna. simpl.
  unfold mbind, M_bind, mret, M_ret. simpl.
  rewrite (proj2 (Z.leb_gt _ _)) by done. rewrite String.eqb_refl. simpl.
  rewrite (proj2 (Z.leb_le _ _)) by done. done.
Qed.

Lemma deployment_id_inv evalID (w : W) depID w' :
  getDeploymentID evalID w = (Ret (inr depID), w') → depID ≠ "".
Proof.
  unfold getDeploymentID. intros H. go_bind H as n w1 En.
  refine (poll_inv _ _ _ _ _ _ _ (λ _, True) (λ r, ∀ d, r = inr d → d ≠ "") H I _ _ _ eq_refl).
  - intros [] w2 o w3 _ Hb. go_bind Hb as r w4 Er.
    destruct r as [|d]; [by apply mret_inv in Hb as [<- _]|].
    destruct (String.eqb_spec d ""); apply mret_inv in Hb as [<- _]; [done|]. congruence.
  - intros [] ? ? ? _ [<- _]%mret_inv. done.
Qed.

(** A scaling action is confirmed only by Nomad: the confirmation is
    positive only if the evaluation named a deployment and a later answer for
    that deployment said it was successful. *)
Theorem scale_confirmation_sound evalID (w w' : W) :
  scaleConfirmation evalID w = (Ret true, w') →
  ∃ depID dep i j w1 w2, depID ≠ "" ∧
    Deployments_Info depID i w1 = (Ret (inr (dep, j)), w2) ∧ i < j ∧
    dep_Status dep = DeploymentStatusSuccessful.
Proof.
  unfold scaleConfirmation. intros H. go_bind H as r w1 Ed.
  destruct r as [|depID]; [by apply mret_inv in H as [[=] _]|]. apply deployment_id_inv in Ed.
  go_bind H as n w2 En.
  refine (poll_inv _ _ _ _ _ _ _ (λ _, True) (λ r, r = true → ∃ depID dep i j w1 w2, depID ≠ "" ∧
    Deployments_Info depID i w1 = (Ret (inr (dep, j)), w2) ∧ i < j ∧
    dep_Status dep = DeploymentStatusSuccessful) H I _ _ eq_refl).
  - intros i w3 o w4 _ Hb. go_bind Hb as r w5 Er.
    destruct r as [|[dep j]]; [by apply mret_inv in Hb as [<- _]|].
    destruct (Z.leb_spec j i); [by apply mret_inv in Hb as [<- _]|].
    destruct (String.eqb_spec (dep_Status dep) DeploymentStatusSuccessful);
      [apply mret_inv in Hb as [<- _]; intros _; by eauto 12|].
    destruct (String.eqb _ _); by apply mret_inv in Hb as [<- _].
  - by intros ? ? ? ? _ [<- _]%mret_inv.
Qed.

(** A paused deployment is not seen: its status is compared with the
    description of a paused deployment. *)
Lemma paused_deployment_ignored jobName dep (w w' : W) :
  Jobs_LatestDeployment jobName w = (Ret (inr (Some dep)), w') →
  dep_Status dep = DeploymentStatusPaused →
  IsJobInDeployment_impl jobName w = (Ret false, w').
Proof.
  intros H Hd. unfold IsJobInDeployment_impl. rewrite (bind_run _ _ _ _ _ H). by rewrite Hd.
Qed.
End job_scaling.

(** ** Witnesses *)

Definition demo_policy : GroupScalingPolicy :=
  NewGroupScalingPolicy <| gsp_GroupName := "web" |> <| gsp_Max := 5 |> <| gsp_Min := 1 |>
    <| gsp_ScaleDirection := ScalingDirectionOut |>.

Definition demo_group_of (name : string) (count : Z) : TaskGroup :=
  mkTaskGroup (Some name) (Some count) [] true ∅.

Definition demo_job (counts : Z * Z) : Job :=
  mkJob (Some "shop") (Some "service") (Some JobStatusRunning)
    [demo_group_of "web" counts.1; demo_group_of "cache" counts.2].

Definition job_world (counts : Z * Z) : world := sim0 <| sim_jobs := {[ "shop" := demo_job counts ]} |>.

Definition demo_scale (counts : Z * Z) : M world ScalingState :=
  JobGroupScale_impl "shop" demo_policy zero_ScalingState.

Lemma job_group_scale_step_witness :
  ∃ r w1, Jobs_Info "shop" (job_world (2, 2)) = (Ret r, w1) ∧
    (run_world (demo_scale (2, 2)) (job_world (2, 2)) = w1 ∨
     ∃ job groups resp w2, r = inr job ∧
       Forall2 (scaled_group demo_policy) (job_TaskGroups job) groups ∧
       Jobs_Register (job <| job_TaskGroups := groups |>) w1 = (Ret resp, w2)).
Proof.
  eapply (job_group_scale_step "shop" demo_policy zero_ScalingState (job_world (2, 2))).
  apply (run_eq zero_ScalingState). vm_compute. reflexivity.
Defined.

Lemma sibling_group_blocks_witness :
  JobGroupScale_impl "shop" demo_policy zero_ScalingState (job_world (2, 9)) =
    (Ret (zero_ScalingState <| st_ScaleOutRequests := 1 |>), job_world (2, 9)).
Proof.
  apply (sibling_group_blocks "shop" demo_policy zero_ScalingState (demo_job (2, 9))
    (demo_group_of "web" 2) (demo_group_of "cache" 9) 2 9 "shop"); done.
Defined.

Lemma scale_confirmation_sound_witness :
  ∃ depID dep i j w1 w2, depID ≠ "" ∧
    Deployments_Info depID i w1 = (Ret (inr (dep, j)), w2) ∧ i < j ∧
    dep_Status dep = DeploymentStatusSuccessful.
Proof.
  apply (scale_confirmation_sound (W:=world) "eval-1" sim0 sim0). vm_compute. reflexivity.
Defined.
