(* ===== verification/Client.v ===== *)
(** * Client: the Nomad client as the interface the server uses *)

From S2P Require Import Prelude GoNum Structs Interfaces Helper Nomad PoolEval JobScale.

(** [client.NewNomadClient] returns the methods of [client/nomad.go],
    [client/cluster_scaling.go] and [client/job_scaling.go]. *)
Definition nomadClient {W} {RT : Runtime W} {NA : NomadAPI W} : NomadClient W := {|
  EvaluatePoolScaling := EvaluatePoolScaling_impl;
  LeastAllocatedNode := LeastAllocatedNode_impl;
  DrainNode := DrainNode_impl;
  NodeReverseLookup := NodeReverseLookup_impl;
  EvaluateJobScaling := EvaluateJobScaling_impl;
  JobGroupScale := JobGroupScale_impl;
  IsJobInDeployment := IsJobInDeployment_impl;
|}.
