(* ===== verification/ClusterScaling.v ===== *)
(** * ClusterScaling: the scaling loop of a worker pool

    [replicator/cluster_scaling.go], against the interfaces of the clients and
    of the provider: the gates an evaluation has to pass before a pool is
    scaled, the scaling action, the cooldown and the threshold of consecutive
    requests.

    A worker works on the pool it read from the registry; the state object is
    its own until it is written back at the end. *)

From S2P Require Import Prelude GoNum Structs Interfaces Helper NodeDiscovery Failsafe.

Section scaling.
Context {W : Type} {RT : Runtime W} {CC : ConsulClient W} {NC : NomadClient W}
  {SP : ScalingProvider W} {NT : NotifierAPI W} {RS : RegistryStore W}.

Definition checkCooldownThreshold (workerPool : WorkerPool) : M W bool :=
  state ← deref (wp_State workerPool);
  if IsZero (st_LastScalingEvent state) then mret true
  else
    let cooldown := time_add (st_LastScalingEvent state) (wp_Cooldown workerPool *! Second) in
    now ← time_Now;
    if Before now cooldown then mret false else mret true.

(** The counters of consecutive requests after a request in the state's
    direction, and whether the threshold is met. *)
Definition countRequest (threshold : Z) (state : ScalingState) : ScalingState * bool :=
  if String.eqb (st_ScalingDirection state) ScalingDirectionIn then
    let state := state <| st_ScaleInRequests ::= λ n, n +! 1 |> <| st_ScaleOutRequests := 0 |> in
    if st_ScaleInRequests state =? threshold
    then (state <| st_ScaleInRequests := 0 |>, true) else (state, false)
  else if String.eqb (st_ScalingDirection state) ScalingDirectionOut then
    let state := state <| st_ScaleOutRequests ::= λ n, n +! 1 |> <| st_ScaleInRequests := 0 |> in
    if st_ScaleOutRequests state =? threshold
    then (state <| st_ScaleOutRequests := 0 |>, true) else (state, false)
  else (state <| st_ScaleInRequests := 0 |> <| st_ScaleOutRequests := 0 |>, false).

Definition checkPoolScalingThreshold (workerPool : WorkerPool) : M W (WorkerPool * bool) :=
  state ← deref (wp_State workerPool);
  let '(state, scale) := countRequest (wp_ScalingThreshold workerPool) state in
  '(state, err) ← PersistState state;
  let workerPool := workerPool <| wp_State := Some state |> in
  match err with
  | Some _ => mret (workerPool, false)
  | None => mret (workerPool, scale)
  end.

(** The state object of a pool before it is loaded. *)
Definition poolState (config : Config) (workerPool : WorkerPool) : ScalingState :=
  zero_ScalingState <| st_ResourceName := wp_Name workerPool |>
    <| st_ResourceType := ClusterType |>
    <| st_StatePath := cfg_ConsulKeyRoot config +:+ "/state/nodes/" +:+ wp_Name workerPool |>.

Definition poolMessage (workerPool : WorkerPool) : FailureMessage :=
  zero_FailureMessage <| fm_AlertUID := wp_NotificationUID workerPool |>
    <| fm_ResourceID := wp_Name workerPool |> <| fm_ResourceType := ClusterType |>.

(** Everything [workerPoolScaling] does for a pool before it acts: [None] is
    one of its early returns. *)
Definition scalingGates (config : Config) (jobs : list string) (poolName : string)
    : M W (option (WorkerPool * ClusterCapacity)) :=
  reg ← read_registry;
  workerPool ← deref (nr_WorkerPools reg !! poolName);
  state ← ReadState (poolState config workerPool) true;
  let msg := poolMessage workerPool in
  '(state, passing) ← FailsafeCheck state config (wp_RetryThreshold workerPool) msg;
  let workerPool := workerPool <| wp_State := Some state |> in
  if negb passing then mret None
  else
    '(poolCapacity, (scale, err)) ← EvaluatePoolScaling zero_ClusterCapacity workerPool jobs;
    if (match err with Some _ => true | None => false end) || negb scale then mret None
    else
      let state := state <| st_ScalingDirection := cc_ScalingDirection poolCapacity |> in
      '(state, _) ← PersistState state;
      let workerPool := workerPool <| wp_State := Some state |> in
      provider ← deref (wp_ScalingProvider workerPool);
      safe ← SafetyCheck provider workerPool;
      if negb safe then mret None
      else
        ok ← checkCooldownThreshold workerPool;
        if negb ok then mret None
        else
          '(workerPool, ok) ← checkPoolScalingThreshold workerPool;
          if negb ok then mret None
          else mret (Some (workerPool, poolCapacity)).

(** [nodeRegistry.WorkerPools[name].State = state], under the write lock. *)
Definition writeState (workerPool : WorkerPool) : M NodeRegistry unit :=
  _ ← Lock;
  reg ← get_reg;
  p ← deref (nr_WorkerPools reg !! wp_Name workerPool);
  _ ← modify_reg (set_pool (wp_Name workerPool) (p <| wp_State := wp_State workerPool |>));
  Unlock.

Definition callProvider (workerPool : WorkerPool) : M W unit :=
  provider ← deref (wp_ScalingProvider workerPool);
  '(workerPool, err) ← Scale provider workerPool;
  match err with
  | Some _ => mret tt
  | None => on_registry (writeState workerPool)
  end.

(** The scaling action. *)
Definition scalePool (workerPool : WorkerPool) (poolCapacity : ClusterCapacity) : M W unit :=
  if String.eqb (cc_ScalingDirection poolCapacity) ScalingDirectionOut then
    callProvider workerPool
  else if String.eqb (cc_ScalingDirection poolCapacity) ScalingDirectionIn then
    '(nodeID, nodeIP) ← LeastAllocatedNode poolCapacity (wp_ProtectedNode workerPool);
    if String.eqb nodeIP "" || String.eqb nodeID "" then mret tt
    else
      state ← deref (wp_State workerPool);
      let workerPool :=
        workerPool <| wp_State := Some (state <| st_EligibleNodes ::= λ l, l ++ [nodeIP] |>) |> in
      err ← DrainNode nodeID;
      match err with
      | Some _ => mret tt
      | None => callProvider workerPool
      end
  else mret tt.

(** The function [workerPoolScaling] runs for one pool of its channel. *)
Definition workerPoolScaling_pool (config : Config) (jobs : list string) (poolName : string)
    : M W unit :=
  o ← scalingGates config jobs poolName;
  match o with
  | None => mret tt
  | Some (workerPool, poolCapacity) => scalePool workerPool poolCapacity
  end.

(** A worker: the pools it receives, one after the other. *)
Definition workerPoolScaling (config : Config) (jobs : list string) (pools : list string)
    : M W unit :=
  _ ← for_range (λ (_ : unit) p, _ ← workerPoolScaling_pool config jobs p; mret (Next (R:=unit) tt))
        pools tt;
  mret tt.
End scaling.
