(* ===== verification/ClusterFacts.v ===== *)
(** * ClusterFacts: when a worker pool is scaled

    The gates of an evaluation, proved against the interfaces; the counting of
    consecutive requests; and the write of the state to the registry. *)

From S2P Require Import Prelude GoNum Structs Interfaces Sim Helper State Consul StateFacts NodeDiscovery Failsafe FailsafeFacts AwsProvider Client ClusterScaling.

(** ** Consecutive requests *)

Section requests.
Context (t : Z).

(** The evaluations of a pool, as the directions they ask for: the state after
    them and whether the last one meets the threshold. *)
Definition request (acc : ScalingState * bool) (d : string) : ScalingState * bool :=
  countRequest t (acc.1 <| st_ScalingDirection := d |>).
Definition requests (st : ScalingState) (ds : list string) : ScalingState * bool :=
  fold_left request ds (st, false).

Lemma requests_snoc st ds d : requests st (ds ++ [d]) = request (requests st ds) d.
Proof. unfold requests. by rewrite fold_left_app. Qed.

(** [ds] ends with [n] requests in direction [d]. *)
Definition ends_with (ds : list string) (n : Z) (d : string) : Prop :=
  ∃ pre, ds = pre ++ replicate (Z.to_nat n) d.

Lemma ends_with_0 ds d : ends_with ds 0 d.
Proof. exists ds. by rewrite app_nil_r. Qed.

Lemma ends_with_S ds n d : 0 ≤ n → ends_with ds n d → ends_with (ds ++ [d]) (n + 1) d.
Proof.
  intros Hn [pre ->]. exists pre. replace (Z.to_nat (n + 1)) with (S (Z.to_nat n)) by lia.
  by rewrite <-(assoc_L (++)), <-replicate_S_end.
Qed.

Hypothesis Ht : 0 < t ≤ max_int.

Lemma count_in st :
  st_ScalingDirection st = ScalingDirectionIn → 0 ≤ st_ScaleInRequests st < t →
  countRequest t st =
    (let n := st_ScaleInRequests st + 1 in
     if n =? t then (st <| st_ScaleInRequests := 0 |> <| st_ScaleOutRequests := 0 |>, true)
     else (st <| st_ScaleInRequests := n |> <| st_ScaleOutRequests := 0 |>, false)).
Proof.
  intros Hd Hn. unfold countRequest. rewrite Hd. simpl. unfold modify; simpl.
  rewrite iadd_id by (unfold is_int, min_int in *; lia). done.
Qed.

Lemma count_out st :
  st_ScalingDirection st = ScalingDirectionOut → 0 ≤ st_ScaleOutRequests st < t →
  countRequest t st =
    (let n := st_ScaleOutRequests st + 1 in
     if n =? t then (st <| st_ScaleInRequests := 0 |> <| st_ScaleOutRequests := 0 |>, true)
     else (st <| st_ScaleInRequests := 0 |> <| st_ScaleOutRequests := n |>, false)).
Proof.
  intros Hd Hn. unfold countRequest. rewrite Hd. simpl. unfold modify; simpl.
  rewrite iadd_id by (unfold is_int, min_int in *; lia). done.
Qed.

Lemma count_other st :
  st_ScalingDirection st ≠ ScalingDirectionIn → st_ScalingDirection st ≠ ScalingDirectionOut →
  countRequest t st = (st <| st_ScaleInRequests := 0 |> <| st_ScaleOutRequests := 0 |>, false).
Proof.
  intros H1 H2. unfold countRequest. apply String.eqb_neq in H1, H2. by rewrite H1, H2.
Qed.

(** The counters stay below the threshold and count the requests at the end. *)
Definition counted (ds : list string) (st : ScalingState) : Prop :=
  0 ≤ st_ScaleInRequests st < t ∧ ends_with ds (st_ScaleInRequests st) ScalingDirectionIn ∧
  0 ≤ st_ScaleOutRequests st < t ∧ ends_with ds (st_ScaleOutRequests st) ScalingDirectionOut.

Lemma request_counted ds acc d :
  counted ds acc.1 →
  counted (ds ++ [d]) (request acc d).1 ∧
  ((request acc d).2 = true → (d = ScalingDirectionIn ∨ d = ScalingDirectionOut) ∧ ends_with (ds ++ [d]) t d).
Proof.
  destruct acc as [st b]. unfold counted, request; simpl. intros (Hi & Ei & Ho & Eo).
  destruct (decide (d = ScalingDirectionIn)) as [->|Hni].
  { rewrite count_in by done. unfold modify; simpl.
    pose proof (ends_with_S ds _ _ (proj1 Hi) Ei) as E.
    destruct (Z.eqb_spec (st_ScaleInRequests st + 1) t) as [He|]; simpl.
    - rewrite He in E. split; [|by auto]. split_and!; try lia; apply ends_with_0.
    - split; [|done]. split_and!; try lia; [done|apply ends_with_0]. }
  destruct (decide (d = ScalingDirectionOut)) as [->|Hno].
  { rewrite count_out by done. unfold modify; simpl.
    pose proof (ends_with_S ds _ _ (proj1 Ho) Eo) as E.
    destruct (Z.eqb_spec (st_ScaleOutRequests st + 1) t) as [He|]; simpl.
    - rewrite He in E. split; [|by auto]. split_and!; try lia; apply ends_with_0.
    - split; [|done]. split_and!; try lia; [apply ends_with_0|done]. }
  rewrite count_other by done. unfold modify; simpl.
  split; [|done]. split_and!; try lia; apply ends_with_0.
Qed.

Lemma requests_counted st ds :
  st_ScaleInRequests st = 0 → st_ScaleOutRequests st = 0 → counted ds (requests st ds).1.
Proof.
  intros Hi Ho. induction ds as [|d ds IH] using rev_ind.
  { unfold counted; simpl. rewrite Hi, Ho. split_and!; try lia; apply ends_with_0. }
  rewrite requests_snoc. by apply request_counted.
Qed.

(** A run of requests in one direction counts up to the threshold. *)
Lemma requests_run st d (n : nat) :
  st_ScaleInRequests st = 0 → st_ScaleOutRequests st = 0 →
  d = ScalingDirectionIn ∨ d = ScalingDirectionOut → Z.of_nat n < t →
  let st' := (requests st (replicate n d)).1 in
  (if decide (d = ScalingDirectionIn) then st_ScaleInRequests st' else st_ScaleOutRequests st') = Z.of_nat n.
Proof.
  intros Hi Ho Hd. induction n as [|n IH]; intros Hn; [by simpl; case_decide|].
  rewrite replicate_S_end, requests_snoc. specialize (IH ltac:(lia)).
  unfold request. set (acc := requests st (replicate n d)) in *. clearbody acc.
  destruct Hd as [->| ->]; cbv zeta in *.
  - rewrite decide_True in IH |- * by done. rewrite count_in; unfold modify; simpl; [|done|lia].
    rewrite (proj2 (Z.eqb_neq _ _)) by lia. simpl. lia.
  - rewrite decide_False in IH |- * by done. rewrite count_out; unfold modify; simpl; [|done|lia].
    rewrite (proj2 (Z.eqb_neq _ _)) by lia. simpl. lia.
Qed.

(** C10. A pool is scaled after exactly as many consecutive requests as its
    threshold [t], a positive [int], asks for.  From fresh counters and for any sequence of
    evaluations, a request that meets the threshold is the last of [t]
    requests in the same direction, in or out; and [t] requests in one
    direction do meet it. *)
Theorem threshold_consecutive st :
  st_ScaleInRequests st = 0 → st_ScaleOutRequests st = 0 →
  (∀ ds, (requests st ds).2 = true →
     ∃ d pre, (d = ScalingDirectionIn ∨ d = ScalingDirectionOut) ∧
       ds = pre ++ replicate (Z.to_nat t) d) ∧
  (∀ d, d = ScalingDirectionIn ∨ d = ScalingDirectionOut →
     (requests st (replicate (Z.to_nat t) d)).2 = true).
Proof.
  intros Hi Ho. split.
  - intros ds. destruct ds as [|d ds _] using rev_ind; [done|].
    rewrite requests_snoc. intros H.
    destruct (request_counted ds (requests st ds) d) as [_ Hr]; [by apply requests_counted|].
    destruct (Hr H) as [Hd [pre Hp]]. eauto.
  - intros d Hd. replace (Z.to_nat t) with (S (Z.to_nat (t - 1))) by lia.
    rewrite replicate_S_end, requests_snoc.
    pose proof (requests_run st d (Z.to_nat (t - 1)) Hi Ho Hd ltac:(lia)) as Hc. cbv zeta in Hc.
    unfold request. set (acc := requests _ _) in *. clearbody acc.
    destruct Hd as [->| ->].
    + rewrite decide_True in Hc by done. rewrite count_in; unfold modify; simpl; [|done|lia].
      by rewrite (proj2 (Z.eqb_eq _ _)) by lia.
    + rewrite decide_False in Hc by done. rewrite count_out; unfold modify; simpl; [|done|lia].
      by rewrite (proj2 (Z.eqb_eq _ _)) by lia.
Qed.

(** The threshold is tested for equality: a pool whose counter has already
    reached a threshold that was lowered since is never scaled by further
    requests in that direction, however many there are. *)
Theorem lowered_threshold_never_met st (n : nat) :
  t ≤ st_ScaleOutRequests st → st_ScaleOutRequests st + Z.of_nat n ≤ max_int →
  (requests st (replicate n ScalingDirectionOut)).2 = false.
Proof.
  intros Hc Hm.
  enough ((requests st (replicate n ScalingDirectionOut)).2 = false ∧
    st_ScaleOutRequests (requests st (replicate n ScalingDirectionOut)).1 =
      st_ScaleOutRequests st + Z.of_nat n) by tauto.
  induction n as [|n IH]; [simpl; split; [done|lia]|].
  destruct (IH ltac:(lia)) as [_ Hn]. rewrite replicate_S_end, requests_snoc.
  unfold request. set (acc := requests _ _) in *. clearbody acc.
  unfold countRequest, modify; simpl. rewrite iadd_id by (unfold is_int, min_int; lia).
  rewrite (proj2 (Z.eqb_neq _ _)) by lia. simpl. split; [done|lia].
Qed.
End requests.

(** ** The gates *)

Section gates.
Context {W : Type} {RT : Runtime W} {CC : ConsulClient W} {NC : NomadClient W}
  {SP : ScalingProvider W} {NT : NotifierAPI W} {RS : RegistryStore W} {SL : StateStoreLaws W}.

Lemma cooldown_inv wp (w : W) w' :
  checkCooldownThreshold wp w = (Ret true, w') →
  ∃ st, wp_State wp = Some st ∧
    (st_LastScalingEvent st = 0 ∨
     ∃ now, time_Now w = (Ret now, w') ∧ st_LastScalingEvent st + wp_Cooldown wp *! Second ≤ now).
Proof.
  unfold checkCooldownThreshold. intros H. go_inv_step. apply deref_inv in E as [Hst <-].
  exists r. split; [done|]. unfold IsZero in H.
  destruct (Z.eqb_spec (st_LastScalingEvent r) 0); [by left|]. right.
  go_inv_step. unfold Before, time_add in H.
  destruct (Z.ltb_spec r0 (st_LastScalingEvent r + wp_Cooldown wp *! Second)); [by go_inv|].
  apply mret_inv in H as [_ <-]. eauto.
Qed.

Lemma pool_threshold_inv wp st (w : W) wp' w' :
  wp_State wp = Some st → checkPoolScalingThreshold wp w = (Ret (wp', true), w') →
  ∃ st', (countRequest (wp_ScalingThreshold wp) st).2 = true ∧
    wp' = wp <| wp_State := Some st' |> ∧
    PersistState (countRequest (wp_ScalingThreshold wp) st).1 w = (Ret (st', None), w').
Proof.
  intros Hst. unfold checkPoolScalingThreshold. intros H. go_inv_step.
  apply deref_inv in E as [Hst' <-]. rewrite Hst in Hst'. injection Hst' as <-.
  destruct (countRequest _ st) as [st1 b]. go_inv_step. destruct r as [st2 [e|]]; [by go_inv|].
  apply mret_inv in H as [[= <- ->] <-]. eauto.
Qed.

(** A pool whose failsafe check does not pass is left at once. *)
Lemma check_stops_pool cfg jobs name (w : W) reg w1 pool st w2 :
  read_registry w = (Ret reg, w1) → nr_WorkerPools reg !! name = Some pool →
  ReadState (poolState cfg pool) true w1 = (Ret st, w2) →
  match FailsafeCheck st cfg (wp_RetryThreshold pool) (poolMessage pool) w2 with
  | (Ret (_, false), w3) => workerPoolScaling_pool cfg jobs name w = (Ret tt, w3)
  | (Ret (_, true), _) => True
  | (Panic e, w3) => workerPoolScaling_pool cfg jobs name w = (Panic e, w3)
  end.
Proof.
  intros Hreg Hpool Hread. unfold workerPoolScaling_pool, scalingGates, mbind, M_bind.
  rewrite Hreg, Hpool. simpl. rewrite Hread.
  by destruct (FailsafeCheck _ _ _ _ _) as [[[st' []]|e] w3].
Qed.

(** The gates, one after the other. *)
Lemma gates_inv cfg jobs name (w : W) wp cap w' :
  scalingGates cfg jobs name w = (Ret (Some (wp, cap)), w') →
  ∃ reg pool st st1 provider w1 w2 w3 w4 w5 w6,
    read_registry w = (Ret reg, w1) ∧ nr_WorkerPools reg !! name = Some pool ∧
    ReadState (poolState cfg pool) true w1 = (Ret st, w2) ∧
    st_FailsafeMode st = false ∧ st_FailureCount st < wp_RetryThreshold pool ∧
    EvaluatePoolScaling zero_ClusterCapacity (pool <| wp_State := Some st |>) jobs w2 =
      (Ret (cap, (true, None)), w3) ∧
    (∃ now, st1 = st <| st_ScalingDirection := cc_ScalingDirection cap |> <| st_LastUpdated := now |>) ∧
    wp_ScalingProvider pool = Some provider ∧
    SafetyCheck provider (pool <| wp_State := Some st1 |>) w4 = (Ret true, w5) ∧
    (st_LastScalingEvent st = 0 ∨
     ∃ now, time_Now w5 = (Ret now, w6) ∧ st_LastScalingEvent st + wp_Cooldown pool *! Second ≤ now) ∧
    (countRequest (wp_ScalingThreshold pool) st1).2 = true ∧
    ∃ st', wp = pool <| wp_State := Some st' |> ∧
      PersistState (countRequest (wp_ScalingThreshold pool) st1).1 w6 = (Ret (st', None), w').
Proof.
  unfold scalingGates. intros H.
  go_bind H as reg wr Hreg.
  go_bind H as pool wd Ep. apply deref_inv in Ep as [Hpool <-].
  go_bind H as st w1 Eread. go_bind H as [st' passing] w2 Echeck. destruct passing; [|by go_inv].
  assert (st' = st ∧ w2 = w1 ∧ st_FailsafeMode st = false ∧ st_FailureCount st < wp_RetryThreshold pool)
    as (-> & -> & Hm & Hf).
  { clear -Echeck. revert Echeck. unfold FailsafeCheck.
    destruct (st_FailsafeMode st); [by intros ?%mret_inv; naive_solver|].
    destruct (Z.leb_spec (wp_RetryThreshold pool) (st_FailureCount st)); simpl; intros E0; [by go_inv|].
    apply mret_inv in E0 as [[= <-] <-]. done. }
  go_bind H as [cap' [scale err]] w3 Eeval.
  destruct err; [by go_inv|]. destruct scale; [|by go_inv]. cbn [orb negb] in H.
  go_bind H as [st1 perr] w4 Epers. pose proof Epers as [now ->]%persist_touches.
  go_bind H as provider wd Ep. apply deref_inv in Ep as [Hprov <-].
  go_bind H as safe w5 Esafe. destruct safe; [|by go_inv]. cbn [negb] in H.
  go_bind H as ok w6 Ecool. destruct ok; [|by go_inv]. cbn [negb] in H.
  apply cooldown_inv in Ecool as (st2 & [= <-] & Hcool).
  go_bind H as [wp' ok] w7 Eth. destruct ok; [|by go_inv].
  eapply pool_threshold_inv in Eth as (st' & Hc & -> & Hp); [|reflexivity].
  apply mret_inv in H as [[= <- <-] <-].
  exists reg, pool, st,
    (st <| st_ScalingDirection := cc_ScalingDirection cap' |> <| st_LastUpdated := now |>), provider.
  do 6 eexists.
  split_and!; [exact Hreg|exact Hpool|exact Eread|done|done|exact Eeval|by exists now|exact Hprov|exact Esafe|exact Hcool|done|].
  exists st'. split; [done|exact Hp].
Qed.

(** C2. A worker pool is acted upon only when every gate let it pass, in this
    order: its breaker is not tripped and its failures are below the retry
    threshold; the evaluation of the pool asked for scaling without an error;
    the provider found the step safe in that direction; the cooldown since the
    last scaling event is over; and the threshold of consecutive requests is
    met and recorded in the state store. *)
Theorem scaling_gates cfg jobs name (w : W) wp cap w' :
  scalingGates cfg jobs name w = (Ret (Some (wp, cap)), w') →
  ∃ reg pool st st1 provider w1 w2 w3 w4 w5 w6,
    read_registry w = (Ret reg, w1) ∧ nr_WorkerPools reg !! name = Some pool ∧
    ReadState (poolState cfg pool) true w1 = (Ret st, w2) ∧
    st_FailsafeMode st = false ∧ st_FailureCount st < wp_RetryThreshold pool ∧
    EvaluatePoolScaling zero_ClusterCapacity (pool <| wp_State := Some st |>) jobs w2 =
      (Ret (cap, (true, None)), w3) ∧
    st_ScalingDirection st1 = cc_ScalingDirection cap ∧
    SafetyCheck provider (pool <| wp_State := Some st1 |>) w4 = (Ret true, w5) ∧
    (st_LastScalingEvent st = 0 ∨
     ∃ now, time_Now w5 = (Ret now, w6) ∧ st_LastScalingEvent st + wp_Cooldown pool *! Second ≤ now) ∧
    (countRequest (wp_ScalingThreshold pool) st1).2 = true ∧
    ∃ st', wp = pool <| wp_State := Some st' |> ∧
      PersistState (countRequest (wp_ScalingThreshold pool) st1).1 w6 = (Ret (st', None), w').
Proof.
  intros (reg & pool & st & st1 & pr & w1 & w2 & w3 & w4 & w5 & w6 & H1 & H2 & H3 & H4 & H5 & H6 & [now H7] & _ & H8)%gates_inv.
  exists reg, pool, st, st1, pr, w1, w2, w3, w4, w5, w6. split_and!; try done; try apply H8. by rewrite H7.
Qed.

(** A pool that is deregistered while it is being scaled crashes the
    agent: when the provider succeeded, the write of the state to the registry
    dereferences the missing pool, with the registry lock held. *)
Theorem scaled_pool_deregistered_panics wp provider wp' (w w1 : W) w2 reg :
  wp_ScalingProvider wp = Some provider →
  Scale provider wp w = (Ret (wp', None), w1) →
  get_registry w1 = (Ret reg, w2) →
  nr_Locked reg = false → nr_WorkerPools reg !! wp_Name wp' = None →
  (∀ r (v : W), ∃ v', put_registry r v = (Ret tt, v')) →
  (callProvider wp w).1 = Panic "nil pointer dereference" ∧
  (writeState wp' reg).2 = reg <| nr_Locked := true |>.
Proof.
  intros Hp Hs Hg Hl Hn Hput.
  assert (writeState wp' reg = (Panic "nil pointer dereference", reg <| nr_Locked := true |>)) as Hw.
  { unfold writeState, mbind, M_bind, Lock. rewrite Hl. simpl. unfold modify at 1; simpl. by rewrite Hn. }
  split; [|by rewrite Hw].
  unfold callProvider, mbind, M_bind. rewrite Hp. simpl. rewrite Hs. unfold on_registry, mbind, M_bind.
  rewrite Hg, Hw. by destruct (Hput (reg <| nr_Locked := true |>) w2) as [v' ->].
Qed.
End gates.

(** ** Witnesses *)

#[local] Existing Instance consulClient.
#[local] Existing Instance nomadClient.
#[local] Existing Instance awsScalingProvider.

Definition demo_ds : list string :=
  [ScalingDirectionOut; ScalingDirectionIn; ScalingDirectionOut; ScalingDirectionOut; ScalingDirectionOut].

Lemma threshold_consecutive_witness :
  ∃ d pre, (d = ScalingDirectionIn ∨ d = ScalingDirectionOut) ∧ demo_ds = pre ++ replicate 3 d.
Proof.
  apply (proj1 (threshold_consecutive 3 ltac:(unfold max_int; lia) zero_ScalingState eq_refl eq_refl) demo_ds).
  vm_compute. reflexivity.
Defined.

Lemma lowered_threshold_never_met_witness :
  (requests 2 (zero_ScalingState <| st_ScaleOutRequests := 3 |>) (replicate 100 ScalingDirectionOut)).2 = false.
Proof. apply lowered_threshold_never_met; unfold max_int, modify; simpl; lia. Defined.

(** The simulated cluster is nearly idle; two scale-in requests were counted. *)
Definition scaling_cfg : Config := demo_cfg <| cfg_ConsulKeyRoot := "replicator/config" |>.
Definition scaling_state : ScalingState :=
  demo_state <| st_EligibleNodes := [] |> <| st_ScaleInRequests := 2 |> <| st_LastUpdated := 5 |>.
Definition scaling_world : world :=
  sim_cluster <| sim_kv := {[ st_StatePath demo_state :=
    mkKVPair (st_StatePath demo_state) (Some (JObj (marshal_fields scaling_state))) "" ]} |>.

Definition gates_run : option (WorkerPool * ClusterCapacity) :=
  run_value None (scalingGates scaling_cfg [] "pool") scaling_world.
Definition gates_pool : WorkerPool := default NewWorkerPool (fst <$> gates_run).
Definition gates_capacity : ClusterCapacity := default zero_ClusterCapacity (snd <$> gates_run).

Lemma gates_run_passes :
  scalingGates scaling_cfg [] "pool" scaling_world =
    (Ret (Some (gates_pool, gates_capacity)),
     run_world (scalingGates scaling_cfg [] "pool") scaling_world).
Proof. vm_compute. reflexivity. Qed.

Lemma scaling_gates_witness :
  ∃ pool st, st_FailsafeMode st = false ∧ st_FailureCount st < wp_RetryThreshold pool.
Proof.
  destruct (scaling_gates scaling_cfg [] "pool" scaling_world _ _ _ gates_run_passes)
    as (reg & pool & st & st1 & pr & w1 & w2 & w3 & w4 & w5 & w6 & _ & _ & _ & H1 & H2 & _).
  exists pool, st. exact (conj H1 H2).
Defined.

(** The whole evaluation: the least allocated node is drained, detached and
    terminated, and the state written to the registry has the time of the event. *)
Example scale_in_end_to_end :
  let w := run_world (workerPoolScaling scaling_cfg [] ["pool"]) scaling_world in
  sim_detached w = ["i-9"] ∧ sim_terminated w = ["i-9"] ∧
  node_Drain <$> sim_nodes w !! "node-3" = Some true ∧
  node_Drain <$> sim_nodes w !! "node-1" = Some false ∧
  (st_LastScalingEvent <$> (nr_WorkerPools (sim_registry w) !! "pool" ≫= wp_State)) = Some 1002000000000.
Proof. vm_compute. by split_and!. Qed.

(** A provider during whose operation the pool is deregistered. *)
Definition leaving_provider : ScalingProvider world := {|
  SafetyCheck := λ _ _, mret true;
  Scale := λ _ wp, _ ← tell (λ w, w <| sim_registry ::= λ r, r <| nr_WorkerPools ::= delete (wp_Name wp) |> |>);
    mret (wp, None);
|}.

Lemma scaled_pool_deregistered_panics_witness :
  (callProvider (SP:=leaving_provider) sim_pool sim_cluster).1 = Panic "nil pointer dereference".
Proof.
  refine (proj1 (scaled_pool_deregistered_panics (SP:=leaving_provider) sim_pool
    (AwsScalingProvider "us-east-1") sim_pool sim_cluster _ _ _ eq_refl eq_refl eq_refl eq_refl _ _)).
  - reflexivity.
  - intros r v. by eexists.
Defined.
