(* ===== verification/GoSlice.v ===== *)
(** * GoSlice: slices over shared arrays

    A Go slice is a view of a backing array: copies of a slice share its
    elements, [append] writes into the array when the capacity allows it and
    moves to a new array otherwise.  The slices of the policy table all start
    at the beginning of their array. *)

From S2P Require Import Prelude.

Record slice := mkslice {
  sl_arr : positive;
  sl_len : nat;
  sl_cap : nat;
}.

#[export] Instance slice_eq_dec : EqDecision slice.
Proof. solve_decision. Defined.

(** [append(a[:i], a[i+1:]...)] on a slice of length [m] over the array [a]:
    the elements after [i] move down and the rest of the array is left as it
    is; the slice expression [a[i+1:]] panics when [i+1] exceeds the length. *)
Definition delete_at {A} (m i : nat) (a : list A) : option (list A) :=
  if (S i <=? m)%nat then Some (take i a ++ take (m - S i) (drop (S i) a) ++ drop (m - 1) a)
  else None.

Definition bounds_panic : string := "slice bounds out of range".

Section heap.
Context {A : Type}.
Abbreviation heap := (gmap positive (list A)) (only parsing).

(** The elements of a slice. *)
Definition elems (h : heap) (s : slice) : list A := take (sl_len s) (default [] (h !! sl_arr s)).

(** The slice lies within its array. *)
Definition slice_ok (h : heap) (s : slice) : Prop :=
  ∃ a, h !! sl_arr s = Some a ∧ length a = sl_cap s ∧ (sl_len s ≤ sl_cap s)%nat.

(** Growth of the capacity, chosen by the runtime. *)
Context (newcap : nat → nat).

(** [append(s, x)]; a nil slice is the slice of capacity zero.  [zero] fills the
    new array beyond its elements. *)
Definition append1 (zero : A) (h : heap) (s : slice) (x : A) : heap * slice :=
  let a := default [] (h !! sl_arr s) in
  if (sl_len s <? sl_cap s)%nat
  then (<[sl_arr s := <[sl_len s := x]> a]> h, mkslice (sl_arr s) (S (sl_len s)) (sl_cap s))
  else
    let l := fresh (dom h) in
    let cap := newcap (S (sl_len s)) in
    (<[l := take (sl_len s) a ++ [x] ++ replicate (cap - S (sl_len s)) zero]> h,
     mkslice l (S (sl_len s)) cap).

Hypothesis newcap_enough : ∀ n, (n ≤ newcap n)%nat.

Lemma length_elems h s : slice_ok h s → length (elems h s) = sl_len s.
Proof. intros (a & Ha & Hl & Hc). unfold elems. rewrite Ha. simpl. rewrite length_take. lia. Qed.

(** Appending extends the slice by the element. *)
Lemma append1_elems z h s x :
  slice_ok h s ∨ (sl_len s = 0 ∧ sl_cap s = 0)%nat →
  elems (append1 z h s x).1 (append1 z h s x).2 = elems h s ++ [x] ∧
  slice_ok (append1 z h s x).1 (append1 z h s x).2.
Proof.
  intros Hok. unfold append1, elems, slice_ok.
  destruct (Nat.ltb_spec (sl_len s) (sl_cap s)) as [Hlt|Hge]; simpl.
  - destruct Hok as [(a & Ha & Hl & Hc)|[? ?]]; [|lia]. rewrite Ha, !lookup_insert_eq. simpl. split.
    + rewrite (take_S_r _ _ x); [by rewrite take_insert_ge|]. apply list_lookup_insert_eq. lia.
    + eexists. split; [done|]. rewrite length_insert. lia.
  - rewrite !lookup_insert_eq. simpl.
    assert (length (take (sl_len s) (default [] (h !! sl_arr s))) = sl_len s) as Hlen.
    { destruct Hok as [(a & Ha & Hl & Hc)|[-> _]]; [|done]. rewrite Ha, length_take. simpl. lia. }
    split.
    + rewrite (cons_middle x), (assoc_L (++)), take_app_le by (rewrite length_app, Hlen; simpl; lia).
      apply take_ge. rewrite length_app, Hlen. simpl. lia.
    + eexists. split; [done|]. rewrite length_app; simpl. rewrite length_replicate, Hlen.
      pose proof (newcap_enough (S (sl_len s))). lia.
Qed.

(** A slice of the same array that is no longer than the one appended to, and a
    slice of another array, keep their elements. *)
Lemma append1_frame z h s x t :
  slice_ok h t → (sl_arr t = sl_arr s → sl_len t ≤ sl_len s)%nat →
  elems (append1 z h s x).1 t = elems h t ∧ slice_ok (append1 z h s x).1 t.
Proof.
  intros (a & Ha & Hl & Hc) Hle. unfold append1, elems, slice_ok.
  destruct (Nat.ltb_spec (sl_len s) (sl_cap s)) as [Hlt|Hge]; simpl.
  - destruct (decide (sl_arr t = sl_arr s)) as [Heq|Hne].
    + rewrite <-Heq, Ha, lookup_insert_eq. simpl. split; [by rewrite take_insert_ge by auto|].
      eexists. split; [done|]. by rewrite length_insert.
    + rewrite lookup_insert_ne by done. rewrite Ha. eauto.
  - assert (sl_arr t ≠ fresh (dom h)) as Hf.
    { intros Heq. apply (is_fresh (dom h)). rewrite <-Heq. by apply elem_of_dom. }
    rewrite lookup_insert_ne by done. rewrite Ha. eauto.
Qed.
End heap.

(** ** Deleting the elements that match, while iterating

    [for i, x := range s { if p(x) { s = append(s[:i], s[i+1:]...) } }]: the loop
    runs over the indices of the original slice and reads the array as it is
    then. *)

Fixpoint delete_loop {A} (p : A → bool) (idx : list nat) (a : list A) (m : nat)
    : option (list A * nat) :=
  match idx with
  | [] => Some (a, m)
  | i :: idx =>
      match a !! i with
      | Some x =>
          if p x then
            match delete_at m i a with
            | Some a' => delete_loop p idx a' (m - 1)
            | None => None
            end
          else delete_loop p idx a m
      | None => None
      end
  end.

Section delete_loop.
Context {A : Type} (p : A → bool).

Lemma delete_loop_app idx1 idx2 a m :
  delete_loop p (idx1 ++ idx2) a m =
  match delete_loop p idx1 a m with
  | Some (a', m') => delete_loop p idx2 a' m'
  | None => None
  end.
Proof.
  revert a m. induction idx1 as [|i idx1 IH]; intros a m; simpl; [done|].
  destruct (a !! i); [|done]. destruct (p a0); [|apply IH]. destruct (delete_at m i a); [apply IH|done].
Qed.

Lemma delete_loop_none idx a m :
  (∀ i, i ∈ idx → ∃ x, a !! i = Some x ∧ p x = false) → delete_loop p idx a m = Some (a, m).
Proof.
  induction idx as [|i idx IH]; intros H; simpl; [done|].
  destruct (H i) as (x & -> & ->); [left|]. apply IH. intros j Hj. apply H. by right.
Qed.

(** Indices of a prefix without matches. *)
Lemma delete_loop_prefix pre b m :
  Forall (λ x, p x = false) pre → delete_loop p (seq 0 (length pre)) (pre ++ b) m = Some (pre ++ b, m).
Proof.
  intros Hp. apply delete_loop_none. intros i [_ Hi]%elem_of_seq. simpl in Hi.
  destruct (lookup_lt_is_Some_2 pre i Hi) as [x Hx]. exists x. split.
  - by apply lookup_app_l_Some.
  - by eapply (Forall_lookup_1 _ _ _ _ Hp).
Qed.

Lemma delete_at_middle pre (x : A) post rest :
  delete_at (length pre + S (length post)) (length pre) (pre ++ x :: post ++ rest) =
  Some (pre ++ post ++ drop (length post) (x :: post) ++ rest).
Proof.
  unfold delete_at. rewrite (proj2 (Nat.leb_le _ _)) by lia. f_equal.
  rewrite take_app_length. f_equal.
  replace (drop (S (length pre)) (pre ++ x :: post ++ rest)) with (post ++ rest).
  2:{ rewrite drop_app_ge by lia. by replace (S (length pre) - length pre)%nat with 1%nat by lia. }
  replace (length pre + S (length post) - S (length pre))%nat with (length post) by lia.
  rewrite take_app_length. f_equal.
  rewrite drop_app_ge by lia.
  replace (length pre + S (length post) - 1 - length pre)%nat with (length post) by lia.
  rewrite app_comm_cons, drop_app_le by (simpl; lia). done.
Qed.

Lemma delete_at_lookup m i (a a' : list A) j :
  delete_at m i a = Some a' → (m ≤ length a)%nat →
  a' !! j = a !! (if decide (i ≤ j < m - 1)%nat then S j else j).
Proof.
  unfold delete_at. destruct (Nat.leb_spec (S i) m) as [Hi|]; [|done]. intros [= <-] Hm.
  destruct (decide (j < i)%nat) as [Hj|Hj].
  { rewrite decide_False by lia. rewrite lookup_app_l by (rewrite length_take; lia).
    by rewrite lookup_take_lt. }
  rewrite lookup_app_r by (rewrite length_take; lia). rewrite length_take_le by lia.
  destruct (decide (j < m - 1)%nat) as [Hj'|Hj'].
  - rewrite decide_True by lia. rewrite lookup_app_l by (rewrite length_take, length_drop; lia).
    rewrite lookup_take_lt, lookup_drop by lia. f_equal. lia.
  - rewrite decide_False by lia. rewrite lookup_app_r by (rewrite length_take, length_drop; lia).
    rewrite length_take, length_drop, lookup_drop. f_equal. lia.
Qed.

Lemma delete_at_length m i (a a' : list A) :
  delete_at m i a = Some a' → (m ≤ length a)%nat → length a' = length a.
Proof.
  unfold delete_at. destruct (Nat.leb_spec (S i) m) as [Hi|]; [|done]. intros [= <-] Hm.
  rewrite !length_app, !length_take, !length_drop. lia.
Qed.

(** With one match the elements that do not match remain. *)
Lemma delete_loop_one pre x post rest :
  Forall (λ x, p x = false) pre → p x = true → Forall (λ x, p x = false) post →
  ∃ a', delete_loop p (seq 0 (length pre + S (length post))) (pre ++ x :: post ++ rest)
          (length pre + S (length post)) = Some (a', length pre + length post)%nat ∧
    take (length pre + length post) a' = pre ++ post ∧ length a' = length (pre ++ x :: post ++ rest).
Proof.
  intros Hpre Hx Hpost. rewrite seq_app, delete_loop_app, delete_loop_prefix by done. simpl.
  rewrite lookup_app_r by done. rewrite Nat.sub_diag. simpl. rewrite Hx, delete_at_middle.
  replace (length pre + S (length post) - 1)%nat with (length pre + length post)%nat by lia.
  eexists. split; [|split].
  - apply delete_loop_none. intros i Hi%elem_of_seq.
    assert (∃ y, (post ++ drop (length post) (x :: post) ++ rest) !! (i - length pre)%nat = Some y ∧ y ∈ post)
      as (y & Hy & Hin).
    2:{ exists y. split; [rewrite lookup_app_r by lia; done|].
        by eapply (proj1 (Forall_forall _ _) Hpost). }
    destruct (decide (i - length pre < length post)%nat) as [Hlt|Hge].
    + destruct (lookup_lt_is_Some_2 post _ Hlt) as [y Hy]. exists y.
      split; [by apply lookup_app_l_Some|by eapply list_elem_of_lookup_2].
    + destruct post as [|z post _] using rev_ind; [simpl in *; lia|].
      exists z. split; [|set_solver]. rewrite length_app in *. simpl in *.
      rewrite lookup_app_r by (rewrite length_app; simpl; lia).
      replace (i - length pre - length (post ++ [z]))%nat with 0%nat
        by (rewrite length_app; simpl; lia).
      replace (length post + 1)%nat with (S (length post)) by lia. simpl.
      by rewrite drop_app_length.
  - rewrite (assoc_L (++)). rewrite take_app_le by (rewrite length_app; lia).
    apply take_ge. rewrite length_app. lia.
  - rewrite !length_app; simpl. rewrite !length_app, length_drop. simpl. lia.
Qed.

(** With two matches at the end the loop panics. *)
Lemma delete_loop_two pre x y rest :
  Forall (λ x, p x = false) pre → p x = true → p y = true →
  delete_loop p (seq 0 (length pre + 2)) (pre ++ x :: y :: rest) (length pre + 2) = None.
Proof.
  intros Hpre Hx Hy. rewrite seq_app, delete_loop_app, delete_loop_prefix by done. simpl.
  rewrite lookup_app_r by done. rewrite Nat.sub_diag. simpl. rewrite Hx.
  pose proof (delete_at_middle pre x [y] rest) as Hd. simpl in Hd. rewrite Hd.
  rewrite lookup_app_r by lia. replace (S (length pre) - length pre)%nat with 1%nat by lia. simpl.
  rewrite Hy. unfold delete_at. by rewrite (proj2 (Nat.leb_gt _ _)) by lia.
Qed.
End delete_loop.
