(* ===== verification/JobPolicies.v ===== *)
(** * JobPolicies: the table of job scaling policies

    [client/job_scaling_policies.go].  The table maps a job to a slice of
    pointers to group policies; the slices are modelled with their backing
    arrays, because the code iterates over a slice while it appends to it or
    deletes from it.  The functions the source starts as goroutines are run as
    separate steps. *)

From S2P Require Import Prelude GoNum Structs Interfaces Helper GoSlice.

Record JobScalingPolicies := mkJobScalingPolicies {
  jsp_LastChangeIndex : Z;
  jsp_Locked : bool;                          (* whether the write lock is held *)
  jsp_Policies : gmap string slice;
  jsp_arrays : gmap positive (list (option positive));
  jsp_objects : gmap positive GroupScalingPolicy;
}.

#[export] Instance eta_JobScalingPolicies : Eta JobScalingPolicies := λ r,
  mkJobScalingPolicies (jsp_LastChangeIndex r) (jsp_Locked r) (jsp_Policies r)
    (jsp_arrays r) (jsp_objects r).

(** [newJobScalingPolicy] of [replicator/job_scaling.go]. *)
Definition newJobScalingPolicy : JobScalingPolicies := mkJobScalingPolicies 0 false ∅ ∅ ∅.

Definition requiredKeys : list string :=
  ["replicator_enabled"; "replicator_min"; "replicator_max"; "replicator_scalein_mem";
   "replicator_scalein_cpu"; "replicator_scaleout_mem"; "replicator_scaleout_cpu";
   "replicator_notification_uid"].

(** ** Access to the table *)

Abbreviation T := JobScalingPolicies (only parsing).

Definition get_table : M T T := λ s, (Ret s, s).
Definition modify_table (f : T → T) : M T unit := λ s, (Ret tt, f s).
Definition LockPolicies : M T unit := λ s,
  if jsp_Locked s then (Panic blocked, s) else (Ret tt, s <| jsp_Locked := true |>).
Definition UnlockPolicies : M T unit := modify_table (λ s, s <| jsp_Locked := false |>).
Definition RLockPolicies : M T unit := λ s,
  if jsp_Locked s then (Panic blocked, s) else (Ret tt, s).

(** The element [val[i]] of a slice, and the object a pointer points to. *)
Definition element (val : slice) (i : nat) : M T (option positive) :=
  s ← get_table;
  match elems (jsp_arrays s) val !! i with
  | Some p => mret p
  | None => go_panic "index out of range"
  end.

Definition load (p : option positive) : M T GroupScalingPolicy :=
  p ← deref p;
  s ← get_table;
  deref (jsp_objects s !! p).

(** [val[i] = p], in the array the slice [val] has. *)
Definition store (val : slice) (i : nat) (p : positive) : M T unit :=
  modify_table (λ s, s <| jsp_arrays ::= alter (λ a, <[i := Some p]> a) (sl_arr val) |>).

Definition alloc (g : GroupScalingPolicy) : M T positive := λ s,
  let p := fresh (dom (jsp_objects s)) in
  (Ret p, s <| jsp_objects ::= <[p := g]> |>).

(** The slice of a job; a missing entry reads as the nil slice. *)
Definition policies (s : T) (jobName : string) : slice :=
  default (mkslice 1 0 0) (jsp_Policies s !! jobName).

Section policy_table.
(** [mapstructure.Decoder.Decode] over a policy, [hashstructure.Hash] of a
    policy, and the growth of slices. *)
Context (DecodeGroup : gmap string string → GroupScalingPolicy → error + GroupScalingPolicy).
Context (HashGroup : GroupScalingPolicy → error + Z).
Context (newcap : nat → nat).

(** [s.Policies[jobName] = append(s.Policies[jobName], result)] *)
Definition appendPolicy (jobName : string) (result : positive) : M T unit :=
  modify_table (λ s,
    let '(arrays, sl) := append1 newcap None (jsp_arrays s) (policies s jobName) (Some result) in
    s <| jsp_arrays := arrays |> <| jsp_Policies ::= <[jobName := sl]> |>).

(** The body of the loop of [updateScalingPolicy] over the policies of the job;
    its local variable is [found]. *)
Definition updateGroup (jobName groupName : string) (result : positive) (val : slice)
    (found : bool) (i : nat) : M T (loop bool unit) :=
  p ← element val i;
  group ← load p;
  if String.eqb (gsp_GroupName group) groupName then
    r ← load (Some result);
    let '(changed, _) := HasObjectChanged HashGroup r group in
    if negb changed then mret (Next true)
    else _ ← store val i result; mret (Next true)
  else
    _ ← appendPolicy jobName result;
    mret (Next true).

Definition updateScalingPolicy (jobName groupName : string) (groupMeta : gmap string string)
    : M T (option error) :=
  match DecodeGroup groupMeta NewGroupScalingPolicy with
  | inl err => mret (Some err)
  | inr decoded =>
      result ← alloc (decoded <| gsp_GroupName := groupName |>);
      _ ← LockPolicies;
      s ← get_table;
      o ← (match jsp_Policies s !! jobName with
           | Some val => for_range (updateGroup jobName groupName result val) (seq 0 (sl_len val)) false
           | None => mret (Next false)
           end);
      match o with
      | Return _ => mret None
      | Next found =>
          _ ← (if negb found then appendPolicy jobName result else mret tt);
          _ ← UnlockPolicies;
          mret None
      end
  end.

(** The body of the loop of [removeGroupScalingPolicy]; the deletion is made
    under the lock on the slice the table has then. *)
Definition removeGroup (jobName groupName : string) (val : slice) (_ : unit) (i : nat)
    : M T (loop unit unit) :=
  p ← element val i;
  group ← load p;
  if String.eqb (gsp_GroupName group) groupName then
    _ ← LockPolicies;
    s ← get_table;
    let sl := policies s jobName in
    match delete_at (sl_len sl) i (default [] (jsp_arrays s !! sl_arr sl)) with
    | None => go_panic bounds_panic
    | Some a =>
        _ ← modify_table (λ s, s <| jsp_arrays ::= <[sl_arr sl := a]> |>
              <| jsp_Policies ::= <[jobName := mkslice (sl_arr sl) (sl_len sl - 1) (sl_cap sl)]> |>);
        _ ← UnlockPolicies;
        mret (Next tt)
    end
  else mret (Next tt).

Definition RemoveJobScalingPolicy (jobName : string) : M T unit :=
  s ← get_table;
  match jsp_Policies s !! jobName with
  | Some _ =>
      _ ← LockPolicies;
      _ ← modify_table (λ s, s <| jsp_Policies ::= delete jobName |>);
      UnlockPolicies
  | None => mret tt
  end.

Definition removeGroupScalingPolicy (jobName groupName : string) : M T unit :=
  s ← get_table;
  match jsp_Policies s !! jobName with
  | None => mret tt
  | Some val =>
      _ ← for_range (removeGroup jobName groupName val) (seq 0 (sl_len val)) tt;
      s ← get_table;
      if (sl_len (policies s jobName) =? 0)%nat then
        _ ← LockPolicies;
        _ ← modify_table (λ s, s <| jsp_Policies ::= delete jobName |>);
        UnlockPolicies
      else mret tt
  end.

(** The names of a list of task groups, [*g.Name] of each. *)
Fixpoint groupNames {W} (groups : list TaskGroup) : M W (list string) :=
  match groups with
  | [] => mret []
  | g :: groups =>
      n ← deref (tg_Name g);
      ns ← groupNames groups;
      mret (n :: ns)
  end.

(** [taskGroupPolicyNames] with the names of the job's groups deleted, as its
    array and its length. *)
Fixpoint orphaned {W} (names : list string) (a : list string) (m : nat) : M W (list string * nat) :=
  match names with
  | [] => mret (a, m)
  | g :: names =>
      match delete_loop (String.eqb g) (seq 0 m) a m with
      | Some (a, m) => orphaned names a m
      | None => go_panic bounds_panic
      end
  end.

Definition checkOrphanedGroup (jobName : string) (groups : list TaskGroup) : M T unit :=
  _ ← RLockPolicies;
  s ← get_table;
  gs ← (match jsp_Policies s !! jobName with
        | Some val =>
            for_range (λ (acc : list string) p, g ← load p; mret (Next (R:=unit) (acc ++ [gsp_GroupName g])))
              (elems (jsp_arrays s) val) []
        | None => mret (Next [])
        end);
  taskGroupNames ← groupNames groups;
  match gs with
  | Return _ => mret tt
  | Next taskGroupPolicyNames =>
      '(a, m) ← orphaned taskGroupNames taskGroupPolicyNames (length taskGroupPolicyNames);
      _ ← for_range (λ (_ : unit) g, _ ← removeGroupScalingPolicy jobName g; mret (Next (R:=unit) tt))
            (take m a) tt;
      mret tt
  end.
End policy_table.

(** ** The watcher *)

(** The goroutines the watcher starts.  The closure that updates a policy reads
    the loop variable [group] when it runs: [CaptureGroup i] was started in the
    iteration of the i-th group and may see that group or a later one. *)
Inductive policy_task :=
| ProcessJob (jobID : string)
| RemoveJob (jobID : string)
| CheckOrphaned (jobID : string) (groups : list TaskGroup)
| RemoveGroup (jobID groupName : string)
| CaptureGroup (jobID : string) (groups : list TaskGroup) (i : nat).

Section watcher.
Context {W : Type} {NA : NomadAPI W}.

(** The body of the loop over the task groups, with the tasks started so far. *)
Definition processGroup (jobID : string) (groups : list TaskGroup) (tasks : list policy_task)
    (ig : nat * TaskGroup) : M W (loop (list policy_task) unit) :=
  let '(i, group) := ig in
  if negb (tg_Update group) then _ ← deref (tg_Name group); mret (Next tasks)
  else
    let missedKeys := ParseMetaConfig (tg_Meta group) requiredKeys in
    if (length missedKeys =? length requiredKeys)%nat then
      name ← deref (tg_Name group);
      mret (Next (tasks ++ [RemoveGroup jobID name]))
    else if (0 <? length missedKeys)%nat && (length missedKeys <? length requiredKeys)%nat then
      _ ← deref (tg_Name group);
      mret (Next tasks)
    else if (length missedKeys =? 0)%nat then
      _ ← deref (tg_Name group);
      mret (Next (tasks ++ [CaptureGroup jobID groups i]))
    else mret (Next tasks).

(** The error of the lookup is only logged: the job is then nil. *)
Definition jobScalingPolicyProcessor (jobID : string) : M W (list policy_task) :=
  r ← Jobs_Info jobID;
  jobInfo ← deref (match r with inl _ => None | inr j => Some j end);
  type ← deref (job_Type jobInfo);
  if String.eqb type JobTypeSystem then mret []
  else
    status ← deref (job_Status jobInfo);
    if negb (String.eqb status JobStatusRunning) then mret []
    else
      let groups := job_TaskGroups jobInfo in
      o ← for_range (processGroup jobID groups) (imap (λ i g, (i, g)) groups)
            [CheckOrphaned jobID groups];
      match o with
      | Next tasks => mret tasks
      | Return _ => mret []
      end.

(** One iteration of the loop of [JobWatcher]: the tasks it starts, the last
    change index it stores and the wait index of the next query. *)
Definition JobWatcher_iteration (LastChangeIndex waitIndex : Z)
    : M W (list policy_task * (Z * Z)) :=
  r ← Jobs_List waitIndex;
  match r with
  | inl _ => mret ([], (LastChangeIndex, waitIndex))
  | inr (jobs, lastIndex) =>
      if lastIndex <=? LastChangeIndex then mret ([], (LastChangeIndex, waitIndex))
      else
        let tasks := omap (λ job,
          if jls_ModifyIndex job <=? LastChangeIndex then None
          else if String.eqb (jls_Status job) JobStatusRunning then Some (ProcessJob (jls_ID job))
          else if String.eqb (jls_Status job) JobStatusDead then Some (RemoveJob (jls_ID job))
          else None) jobs in
        mret (tasks, (lastIndex, lastIndex))
  end.
End watcher.
