(* ===== verification/JobPoliciesFacts.v ===== *)
(** * JobPoliciesFacts: what updates and removals do to the policy table

    The group names a job's slice holds after an update, exactly; the removal
    of a group whose policy occurs once; and the crash that repeated updates
    prepare. *)

From S2P Require Import Prelude GoNum Structs Interfaces Helper GoSlice JobPolicies.

(** The names of the groups of a slice, in order. *)
Definition name_of (s : JobScalingPolicies) (p : option positive) : option string :=
  q ← p; gsp_GroupName <$> jsp_objects s !! q.
Definition names (s : JobScalingPolicies) (sl : slice) : list (option string) :=
  name_of s <$> elems (jsp_arrays s) sl.

(** The slice of a job is within its array and its pointers are not nil. *)
Definition entry_ok (s : JobScalingPolicies) (sl : slice) : Prop :=
  slice_ok (jsp_arrays s) sl ∧ Forall is_Some (names s sl).

Lemma element_run s val i p : elems (jsp_arrays s) val !! i = Some p → element val i s = (Ret p, s).
Proof. intros H. unfold element, mbind, M_bind. simpl. by rewrite H. Qed.

Lemma load_run s p n : name_of s p = Some n → ∃ g, load p s = (Ret g, s) ∧ gsp_GroupName g = n.
Proof.
  destruct p as [q|]; [|done]. simpl. destruct (jsp_objects s !! q) as [g|] eqn:E; [|done].
  intros [= <-]. exists g. split; [|done]. unfold load, mbind, M_bind. simpl. by rewrite E.
Qed.

(** Reading the i-th policy of a slice. *)
Lemma read_group s val i n :
  names s val !! i = Some (Some n) →
  ∃ p g, element val i s = (Ret p, s) ∧ load p s = (Ret g, s) ∧ gsp_GroupName g = n.
Proof.
  unfold names. rewrite list_lookup_fmap, fmap_Some. intros (p & Hp & Hn).
  destruct (load_run s p n (eq_sym Hn)) as (g & Hg & Hname).
  exists p, g. split; [by apply element_run|done].
Qed.

Lemma names_objects s s' sl :
  jsp_objects s' = jsp_objects s → elems (jsp_arrays s') sl = elems (jsp_arrays s) sl →
  names s' sl = names s sl.
Proof. intros Ho He. unfold names. rewrite He. apply list_fmap_ext. intros ? p _. unfold name_of. by rewrite Ho. Qed.

Section facts.
Context (DecodeGroup : gmap string string → GroupScalingPolicy → error + GroupScalingPolicy).
Context (HashGroup : GroupScalingPolicy → error + Z).
Context (newcap : nat → nat) (newcap_enough : ∀ n, (n ≤ newcap n)%nat).

(** ** Updates *)

Section update.
Context (jobName groupName : string) (result : positive) (val : slice) (n0 : list (option string)).

(** While the loop runs: the iterated slice keeps its names, and the slice of
    the table has [c] copies of the group more. *)
Definition updating (c : nat) (s : JobScalingPolicies) : Prop :=
  slice_ok (jsp_arrays s) val ∧ names s val = n0 ∧ jsp_Locked s = true ∧
  name_of s (Some result) = Some groupName ∧
  ∃ cur, jsp_Policies s !! jobName = Some cur ∧ slice_ok (jsp_arrays s) cur ∧
    names s cur = n0 ++ replicate c (Some groupName) ∧
    (sl_arr val = sl_arr cur → sl_len val ≤ sl_len cur)%nat.

Lemma append_updating c s :
  updating c s → ∃ s', appendPolicy newcap jobName result s = (Ret tt, s') ∧ updating (S c) s'.
Proof.
  intros (Hv & Hn & Hl & Hr & cur & Hp & Hc & Hnc & Hle).
  eexists. split; [reflexivity|]. unfold policies. rewrite Hp. simpl.
  pose proof (append1_elems newcap newcap_enough None (jsp_arrays s) cur (Some result) (or_introl Hc))
    as [He Hok].
  pose proof (append1_frame newcap None (jsp_arrays s) cur (Some result) val Hv Hle) as [Hev Hokv].
  assert (sl_arr val = sl_arr (append1 newcap None (jsp_arrays s) cur (Some result)).2 →
    sl_len val ≤ sl_len (append1 newcap None (jsp_arrays s) cur (Some result)).2)%nat as Hle'.
  { intros Heq. unfold append1 in Heq |- *. destruct (sl_len cur <? sl_cap cur)%nat; simpl in *; [lia|].
    exfalso. destruct Hv as (a & Ha & _). apply (is_fresh (dom (jsp_arrays s))).
    rewrite <-Heq. by apply elem_of_dom. }
  destruct (append1 newcap None (jsp_arrays s) cur (Some result)) as [arrays sl]; simpl in *.
  unfold updating, modify; simpl. split_and!; [done|by rewrite <-Hn; apply names_objects|done|done|].
  exists sl. rewrite lookup_insert_eq. split_and!; [done|done| |done].
  unfold names; simpl. rewrite He, fmap_app, <-replicate_S, replicate_S_end, (assoc_L (++)).
  f_equal; [by rewrite <-Hnc|]. simpl. by rewrite <-Hr.
Qed.

(** Overwriting an element with a policy of the same name keeps the names. *)
Lemma store_elems s i t :
  slice_ok (jsp_arrays s) t →
  names (store val i result s).2 t =
    if decide (sl_arr t = sl_arr val ∧ i < sl_len t)%nat
    then <[i := name_of s (Some result)]> (names s t) else names s t.
Proof.
  intros (a & Ha & Hl & Hc). unfold store, modify_table, modify, names, elems; simpl.
  unfold name_of at 1; simpl. fold (name_of s).
  destruct (decide (sl_arr t = sl_arr val)) as [He|He].
  - rewrite He in Ha |- *. rewrite lookup_alter_eq, Ha. simpl.
    destruct (decide (i < sl_len t)%nat) as [Hi|Hi].
    + rewrite decide_True by done. rewrite take_insert_lt, list_fmap_insert by done. done.
    + rewrite decide_False by naive_solver. by rewrite take_insert_ge by lia.
  - rewrite decide_False by naive_solver. by rewrite lookup_alter_ne by done.
Qed.

Lemma store_ok s i t : slice_ok (jsp_arrays s) t → slice_ok (jsp_arrays (store val i result s).2) t.
Proof.
  intros (a & Ha & Hl & Hc). unfold store, modify_table, modify, slice_ok; simpl.
  destruct (decide (sl_arr t = sl_arr val)) as [He|He].
  - rewrite He in Ha |- *. rewrite lookup_alter_eq, Ha. simpl. eexists. split; [done|]. by rewrite length_insert.
  - rewrite lookup_alter_ne by done. eauto.
Qed.

Lemma store_updating c s i :
  updating c s → n0 !! i = Some (Some groupName) → updating c (store val i result s).2.
Proof.
  intros (Hv & Hn & Hl & Hr & cur & Hp & Hc & Hnc & Hle) Hi.
  split_and!; [by apply store_ok| |done|done|].
  - rewrite store_elems by done. case_decide; [|done]. rewrite Hr, Hn. by apply list_insert_id.
  - exists cur. split_and!; [done|by apply store_ok| |done].
    rewrite store_elems by done. case_decide; [|done]. rewrite Hr, Hnc.
    apply list_insert_id. by apply lookup_app_l_Some.
Qed.

(** How many of the entries are of another group. *)
Definition others (ns : list (option string)) : nat :=
  length (filter (λ n, n ≠ Some groupName) ns).

Lemma others_cons x l : others (x :: l) = (others [x] + others l)%nat.
Proof. unfold others. change (x :: l) with ([x] ++ l). by rewrite filter_app, length_app. Qed.

Lemma update_loop idx c s found :
  (∀ i, i ∈ idx → is_Some (n0 !! i ≫= id)) → updating c s →
  ∃ s', for_range (updateGroup HashGroup newcap jobName groupName result val) idx found s =
    (Ret (Next (found || (0 <? length idx)%nat)), s') ∧
    updating (c + others (omap (λ i, n0 !! i) idx)) s'.
Proof.
  revert c s found. induction idx as [|i idx IH]; intros c s found Hi Hu; simpl.
  { exists s. rewrite orb_false_r, Nat.add_0_r. done. }
  destruct (Hi i) as [n Hin]; [left|]. destruct (n0 !! i) as [o|] eqn:E; [|done]. simpl in Hin; subst o.
  pose proof Hu as (_ & Hn & _ & Hr & _).
  destruct (read_group s val i n) as (p & g & Ep & Eg & Hg); [by rewrite Hn|].
  assert (∃ s1 c', updateGroup HashGroup newcap jobName groupName result val found i s = (Ret (Next true), s1) ∧
    updating c' s1 ∧ c' = (c + others [Some n])%nat) as (s1 & c' & E1 & Hu1 & Hc').
  { unfold updateGroup. rewrite (bind_run _ _ _ _ _ Ep), (bind_run _ _ _ _ _ Eg), Hg. unfold others.
    rewrite filter_cons, filter_nil.
    destruct (String.eqb_spec n groupName) as [->|Hne].
    - destruct (load_run s (Some result) groupName Hr) as (r & Er & _).
      rewrite (bind_run _ _ _ _ _ Er). destruct (HasObjectChanged HashGroup r g) as [[] ?]; simpl.
      + eexists _, c. split; [reflexivity|]. split; [by apply store_updating|].
        rewrite decide_False by naive_solver. simpl. lia.
      + eexists _, c. split; [reflexivity|]. split; [done|]. rewrite decide_False by naive_solver. simpl. lia.
    - destruct (append_updating c s Hu) as (s1 & Ea & Hu1). exists s1, (S c).
      rewrite (bind_run _ _ _ _ _ Ea). split; [done|]. split; [done|].
      rewrite decide_True by congruence. simpl. lia. }
  destruct (IH c' s1 true) as (s' & E2 & Hu2); [intros; apply Hi; by right|done|].
  exists s'. rewrite (bind_run _ _ _ _ _ E1), E2. simpl. rewrite orb_true_r. split; [done|].
  subst c'. rewrite others_cons, Nat.add_assoc. exact Hu2.
Qed.
End update.

Lemma omap_seq_lookup {A} (l : list A) : omap (λ i, l !! i) (seq 0 (length l)) = l.
Proof.
  induction l as [|x l IH]; csimpl; [done|]. f_equal. rewrite <-fmap_S_seq. 
  rewrite <-IH at 2. clear. induction (seq 0 (length l)); csimpl; [done|]. by rewrite IHl0.
Qed.

Lemma names_alloc g s sl :
  Forall is_Some (names s sl) →
  names (s <| jsp_objects ::= <[fresh (dom (jsp_objects s)) := g]> |>) sl = names s sl.
Proof.
  intros Hf. unfold names in *. simpl. apply list_fmap_ext. intros i p Hp.
  assert (is_Some (name_of s p)) as [n Hn].
  { rewrite Forall_fmap, Forall_lookup in Hf. by eapply Hf. }
  rewrite Hn. revert Hn. unfold name_of; simpl. destruct p as [q|]; [|done]. simpl.
  destruct (decide (q = fresh (dom (jsp_objects s)))) as [->|Hne]; [|by rewrite lookup_insert_ne].
  destruct (jsp_objects s !! fresh (dom (jsp_objects s))) eqn:E; [|done].
  exfalso. by apply (is_fresh (dom (jsp_objects s))), elem_of_dom.
Qed.

(** The table after the allocation of the policy, under the lock. *)
Definition prepared (g : GroupScalingPolicy) (s : JobScalingPolicies) : JobScalingPolicies :=
  s <| jsp_objects ::= <[fresh (dom (jsp_objects s)) := g]> |> <| jsp_Locked := true |>.

Lemma prepare_run {B} g (f : positive → M JobScalingPolicies B) s :
  jsp_Locked s = false →
  (result ← alloc g; _ ← LockPolicies; f result) s = f (fresh (dom (jsp_objects s))) (prepared g s).
Proof.
  intros Hl. unfold mbind, M_bind, alloc, LockPolicies. simpl. unfold modify at 1; simpl. by rewrite Hl.
Qed.

Lemma prepared_updating jobName g s sl :
  jsp_Policies s !! jobName = Some sl → entry_ok s sl →
  updating jobName (gsp_GroupName g) (fresh (dom (jsp_objects s))) sl (names s sl) 0 (prepared g s).
Proof.
  intros Hp [Hok Hn]. pose proof (names_alloc g s sl Hn) as Hna.
  assert (names (prepared g s) sl = names s sl) as Hns by (by rewrite <-Hna).
  split_and!; [done|done|done| |].
  - unfold name_of, prepared, modify; simpl. by rewrite lookup_insert_eq.
  - exists sl. split_and!; [done|done| |done]. by rewrite app_nil_r.
Qed.

Lemma entry_ok_names s sl ns n c :
  slice_ok (jsp_arrays s) sl → Forall is_Some ns → names s sl = ns ++ replicate c (Some n) →
  entry_ok s sl.
Proof.
  intros Hok Hns Heq. split; [done|]. rewrite Heq. apply Forall_app. split; [done|].
  by apply Forall_replicate.
Qed.

(** The end of an update: the lock is released. *)
Lemma unlocked_entry jobName groupName result val n0 c s :
  Forall is_Some n0 → updating jobName groupName result val n0 c s →
  ∃ sl', jsp_Policies (s <| jsp_Locked := false |>) !! jobName = Some sl' ∧
    entry_ok (s <| jsp_Locked := false |>) sl' ∧
    names (s <| jsp_Locked := false |>) sl' = n0 ++ replicate c (Some groupName).
Proof.
  intros Hf (_ & _ & _ & _ & cur & Hp & Hok & Hn & _). exists cur.
  assert (names (s <| jsp_Locked := false |>) cur = n0 ++ replicate c (Some groupName)) as Hn' by done.
  split; [done|]. split; [by eapply entry_ok_names|done].
Qed.

Lemma update_names_run jobName groupName meta decoded s ns :
  jsp_Locked s = false →
  DecodeGroup meta NewGroupScalingPolicy = inr decoded →
  match jsp_Policies s !! jobName with
  | Some sl => entry_ok s sl ∧ names s sl = ns
  | None => ns = []
  end →
  ∃ s' sl', updateScalingPolicy DecodeGroup HashGroup newcap jobName groupName meta s = (Ret None, s') ∧
    jsp_Policies s' !! jobName = Some sl' ∧ entry_ok s' sl' ∧ jsp_Locked s' = false ∧
    names s' sl' = ns ++ replicate (if decide (ns = []) then 1 else others groupName ns) (Some groupName).
Proof.
  intros Hl Hd Hns. unfold updateScalingPolicy. rewrite Hd.
  set (g := decoded <| gsp_GroupName := groupName |>). set (res := fresh (dom (jsp_objects s))).
  rewrite prepare_run by done. fold res.
  assert (jsp_Policies (prepared g s) = jsp_Policies s) as Hps by done.
  rewrite (bind_run get_table _ _ _ _ eq_refl). cbn beta. rewrite Hps.
  destruct (jsp_Policies s !! jobName) as [sl|] eqn:Ep.
  - destruct Hns as [Hok <-]. pose proof (prepared_updating jobName g s sl Ep Hok) as Hu.
    destruct Hok as [Hsl Hf]. assert (length (names s sl) = sl_len sl) as Hlen.
    { unfold names. by rewrite length_fmap, length_elems. }
    destruct (update_loop jobName groupName res sl (names s sl) (seq 0 (sl_len sl)) 0 (prepared g s) false)
      as (s3 & E3 & Hu3); [|done|].
    { intros i [_ Hi]%elem_of_seq. simpl in Hi. rewrite <-Hlen in Hi.
      destruct (lookup_lt_is_Some_2 _ _ Hi) as [o Ho]. rewrite Ho. simpl.
      by apply (Forall_lookup_1 _ _ _ _ Hf Ho). }
    rewrite (bind_run _ _ _ _ _ E3), length_seq. cbn beta iota.
    rewrite <-Hlen, omap_seq_lookup in Hu3.
    destruct (decide (names s sl = [])) as [Hnil|Hnil].
    + assert (sl_len sl = 0%nat) as -> by (rewrite <-Hlen, Hnil; done). simpl.
      rewrite Hnil in Hu3. destruct (append_updating jobName groupName res sl [] 0 s3) as (s4 & E4 & Hu4).
      { exact Hu3. }
      rewrite (bind_run _ _ _ _ _ E4). eapply unlocked_entry in Hu4 as (sl' & ? & ? & ?); [|done].
      rewrite Hnil. by do 2 eexists.
    + assert (0 < sl_len sl)%nat as Hpos.
      { rewrite <-Hlen. destruct (names s sl); [done|simpl; lia]. }
      rewrite (proj2 (Nat.ltb_lt _ _) Hpos). simpl.
      eapply unlocked_entry in Hu3 as (sl' & ? & ? & ?); [|done]. by do 2 eexists.
  - subst ns. unfold appendPolicy, policies, modify_table, UnlockPolicies, modify_table, mbind, M_bind.
    cbn beta iota zeta delta [mret M_ret negb]. rewrite Hps, Ep.
    pose proof (append1_elems newcap newcap_enough None (jsp_arrays s) (mkslice 1 0 0) (Some res)
      (or_intror (conj eq_refl eq_refl))) as [He Hok].
    change (jsp_arrays (prepared g s)) with (jsp_arrays s).
    change (default (mkslice 1 0 0) None) with (mkslice 1 0 0).
    destruct (append1 newcap None (jsp_arrays s) (mkslice 1 0 0) (Some res)) as [arrays sl']; simpl in He, Hok.
    do 2 eexists. split; [reflexivity|]. unfold modify; simpl. rewrite lookup_insert_eq.
    assert (∀ s', jsp_arrays s' = arrays → jsp_objects s' = <[res := g]> (jsp_objects s) →
      names s' sl' = [Some groupName]) as Hn.
    { intros s' Ha Ho. unfold names, name_of. rewrite Ha, He, Ho. simpl. by rewrite lookup_insert_eq. }
    split; [done|]. split; [|split; [done|by apply Hn]].
    apply (entry_ok_names _ _ [] groupName 1); [done|done|by apply Hn].
Qed.

(** What an update of a group's policy does to the policies of the job,
    exactly: a job without policies gets one for the group; otherwise a copy of
    the policy is appended for every policy of another group, even if the group
    already has one. *)
Theorem update_policy_names jobName groupName meta decoded s ns :
  jsp_Locked s = false →
  DecodeGroup meta NewGroupScalingPolicy = inr decoded →
  match jsp_Policies s !! jobName with
  | Some sl => entry_ok s sl ∧ names s sl = ns
  | None => ns = []
  end →
  ∃ s' sl', updateScalingPolicy DecodeGroup HashGroup newcap jobName groupName meta s = (Ret None, s') ∧
    jsp_Policies s' !! jobName = Some sl' ∧ entry_ok s' sl' ∧ jsp_Locked s' = false ∧
    names s' sl' = ns ++ replicate (if decide (ns = []) then 1 else others groupName ns) (Some groupName).
Proof. apply update_names_run. Qed.
End facts.

(** ** Removals *)

Section remove.
Context (jobName groupName : string) (s : JobScalingPolicies) (arr : positive) (n cap : nat).
Context (Hl : jsp_Locked s = false) (Hcap : (n ≤ cap)%nat).

(** The table during the removal: the array [a] of the job and the length [m]
    its slice has. *)
Definition during (a : list (option positive)) (m : nat) : JobScalingPolicies :=
  s <| jsp_arrays ::= <[arr := a]> |> <| jsp_Policies ::= <[jobName := mkslice arr m cap]> |>.

Definition matches (p : option positive) : bool :=
  match name_of s p with Some g => String.eqb g groupName | None => false end.

(** The iterated slice reads only pointers to policies. *)
Definition readable (a : list (option positive)) : Prop :=
  length a = cap ∧ ∀ j, (j < n)%nat → ∃ p g, a !! j = Some p ∧ name_of s p = Some g.

Lemma delete_readable m i a a' :
  (m ≤ n)%nat → delete_at m i a = Some a' → readable a → readable a'.
Proof.
  intros Hm Hd [Hlen Hr]. split; [by erewrite delete_at_length by (done || lia)|].
  intros j Hj. erewrite (delete_at_lookup m i a a') by (done || lia).
  case_decide; apply Hr; lia.
Qed.

Lemma remove_step a m i :
  readable a → (m ≤ n)%nat → (i < n)%nat →
  ∃ p, a !! i = Some p ∧
    if matches p then
      match delete_at m i a with
      | Some a' => removeGroup jobName groupName (mkslice arr n cap) tt i (during a m) =
          (Ret (Next tt), during a' (m - 1))
      | None => removeGroup jobName groupName (mkslice arr n cap) tt i (during a m) =
          (Panic bounds_panic, (during a m) <| jsp_Locked := true |>)
      end
    else removeGroup jobName groupName (mkslice arr n cap) tt i (during a m) = (Ret (Next tt), during a m).
Proof.
  intros [Hlen Hr] Hm Hi. destruct (Hr i Hi) as (p & g & Hp & Hg). exists p. split; [done|].
  assert (names (during a m) (mkslice arr n cap) !! i = Some (Some g)) as Hn.
  { unfold names, elems, during, modify; simpl. rewrite lookup_insert_eq, list_lookup_fmap, lookup_take_lt by done.
    simpl. rewrite Hp. simpl. by rewrite <-Hg. }
  destruct (read_group _ _ _ _ Hn) as (p' & g' & Ep & Eg & Hname).
  unfold matches. rewrite Hg. unfold removeGroup.
  rewrite (bind_run _ _ _ _ _ Ep), (bind_run _ _ _ _ _ Eg), Hname.
  destruct (String.eqb g groupName); [|done].
  unfold mbind, M_bind, LockPolicies, policies, during, modify; simpl. rewrite Hl. simpl.
  rewrite !lookup_insert_eq. simpl. destruct (delete_at m i a) as [a'|]; [|done].
  unfold modify_table; simpl. unfold mret, M_ret. by rewrite !insert_insert_eq.
Qed.

Lemma remove_loop idx a m :
  readable a → (m ≤ n)%nat → (∀ i, i ∈ idx → i < n)%nat →
  match delete_loop matches idx a m with
  | Some (a', m') => for_range (removeGroup jobName groupName (mkslice arr n cap)) idx tt (during a m) =
      (Ret (Next tt), during a' m')
  | None => ∃ s', for_range (removeGroup jobName groupName (mkslice arr n cap)) idx tt (during a m) =
      (Panic bounds_panic, s') ∧ jsp_Locked s' = true
  end.
Proof.
  revert a m. induction idx as [|i idx IH]; intros a m Hr Hm Hi; [done|].
  destruct (remove_step a m i Hr Hm) as (p & Hp & Hstep); [apply Hi; left|].
  cbn [delete_loop for_range]. rewrite Hp.
  destruct (matches p).
  - destruct (delete_at m i a) as [a'|] eqn:Ed.
    + rewrite (bind_run _ _ _ _ _ Hstep). apply IH; [by eapply delete_readable|lia|].
      intros j Hj. apply Hi. by right.
    + rewrite (bind_panic _ _ _ _ _ Hstep). by eexists.
  - rewrite (bind_run _ _ _ _ _ Hstep). apply IH; [done..|]. intros j Hj. apply Hi. by right.
Qed.
End remove.

Lemma during_start jobName s sl a :
  jsp_Policies s !! jobName = Some sl → jsp_arrays s !! sl_arr sl = Some a →
  during jobName s (sl_arr sl) (sl_cap sl) a (sl_len sl) = s.
Proof.
  intros Hp Ha. unfold during, modify; simpl. rewrite !insert_id; [by destruct s|done|]. by destruct sl.
Qed.

Lemma entry_readable s sl a :
  jsp_arrays s !! sl_arr sl = Some a → entry_ok s sl → readable s (sl_len sl) (sl_cap sl) a.
Proof.
  intros Ha [(a' & Ha' & Hlen & Hc) Hn]. simplify_eq. split; [done|]. intros j Hj.
  assert (is_Some (a !! j)) as [p Hp] by (apply lookup_lt_is_Some; lia). exists p.
  assert (names s sl !! j = Some (name_of s p)) as Hnj.
  { unfold names, elems. rewrite Ha. simpl. rewrite list_lookup_fmap, lookup_take_lt by done. by rewrite Hp. }
  destruct (Forall_lookup_1 _ _ _ _ Hn Hnj) as [g Hg]. eauto.
Qed.

Lemma names_split s sl a ns1 ns2 :
  jsp_arrays s !! sl_arr sl = Some a → names s sl = ns1 ++ ns2 →
  ∃ l1 l2, a = l1 ++ l2 ++ drop (sl_len sl) a ∧ name_of s <$> l1 = ns1 ∧ name_of s <$> l2 = ns2.
Proof.
  intros Ha Hn. unfold names, elems in Hn. rewrite Ha in Hn. simpl in Hn.
  apply fmap_app_inv in Hn as (l1 & l2 & -> & -> & Ht). exists l1, l2. split; [|done].
  rewrite (assoc_L (++)), <-Ht. by rewrite take_drop.
Qed.

Lemma no_matches groupName s l :
  Some groupName ∉ name_of s <$> l → Forall (λ p, matches groupName s p = false) l.
Proof.
  intros H. apply Forall_forall. intros p Hp. unfold matches.
  destruct (name_of s p) as [g|] eqn:E; [|done]. apply String.eqb_neq. intros ->.
  apply H. rewrite <-E. by apply list_elem_of_fmap_2.
Qed.

Lemma one_match groupName s p : name_of s p = Some groupName → matches groupName s p = true.
Proof. intros H. unfold matches. by rewrite H, String.eqb_refl. Qed.

(** The removal of a policy that is listed once. *)
Lemma remove_once_run jobName groupName s sl pre post :
  jsp_Locked s = false → jsp_Policies s !! jobName = Some sl → entry_ok s sl →
  names s sl = pre ++ Some groupName :: post →
  Some groupName ∉ pre → Some groupName ∉ post →
  ∃ s', removeGroupScalingPolicy jobName groupName s = (Ret tt, s') ∧ jsp_Locked s' = false ∧
    match pre ++ post with
    | [] => jsp_Policies s' !! jobName = None
    | _ => ∃ sl', jsp_Policies s' !! jobName = Some sl' ∧ names s' sl' = pre ++ post ∧ entry_ok s' sl'
    end.
Proof.
  intros Hl Hp Hok Hn Hpre Hpost. pose proof Hok as [(a & Ha & Hlen & Hc) _].
  pose proof (length_elems _ _ (proj1 Hok)) as Hle.
  destruct (names_split s sl a _ _ Ha Hn) as (l1 & l2 & Hal & <- & Hl2).
  apply fmap_cons_inv in Hl2 as (x & l2' & Hx & -> & ->).
  assert (sl_len sl = length l1 + S (length l2'))%nat as Hsl.
  { rewrite <-Hle. apply (f_equal length) in Hn. unfold names in Hn. rewrite length_fmap in Hn.
    rewrite Hn, length_app. simpl. by rewrite !length_fmap. }
  destruct (delete_loop_one (matches groupName s) l1 x l2' (drop (sl_len sl) a)) as (a' & Hd & Ht & Hlen');
    [by apply no_matches|by apply one_match|by apply no_matches|].
  pose proof (remove_loop jobName groupName s (sl_arr sl) (sl_len sl) (sl_cap sl) Hl Hc
    (seq 0 (sl_len sl)) a (sl_len sl) (entry_readable _ _ _ Ha Hok) (le_n _)) as Hrun.
  rewrite <-app_comm_cons in Hal. rewrite <-Hal, <-Hsl in Hd. rewrite Hd in Hrun.
  rewrite (during_start jobName s sl a Hp Ha) in Hrun.
  specialize (Hrun ltac:(intros i Hi%elem_of_seq; lia)).
  unfold removeGroupScalingPolicy. rewrite (bind_run get_table _ _ _ _ eq_refl). cbn beta. rewrite Hp.
  replace (mkslice (sl_arr sl) (sl_len sl) (sl_cap sl)) with sl in Hrun by (by destruct sl).
  rewrite (bind_run _ _ _ _ _ Hrun), (bind_run get_table _ _ _ _ eq_refl). cbn beta.
  set (s1 := during _ _ _ _ _ _).
  assert (jsp_Policies s1 !! jobName = Some (mkslice (sl_arr sl) (length l1 + length l2') (sl_cap sl))) as Hp1
    by (unfold s1, during, modify; simpl; by rewrite lookup_insert_eq).
  assert (names s1 (mkslice (sl_arr sl) (length l1 + length l2') (sl_cap sl)) =
    (name_of s <$> l1) ++ (name_of s <$> l2')) as Hn1.
  { unfold s1, names, elems, during, modify; simpl. rewrite lookup_insert_eq. simpl. by rewrite Ht, fmap_app. }
  assert (entry_ok s1 (mkslice (sl_arr sl) (length l1 + length l2') (sl_cap sl))) as Hok1.
  { split.
    - exists a'. unfold s1, during, modify; simpl. rewrite lookup_insert_eq. split; [done|].
      split; [rewrite Hlen', <-Hlen; by rewrite Hal at 2|simpl; lia].
    - rewrite Hn1. pose proof (proj2 Hok) as Hall. rewrite Hn in Hall. apply Forall_app in Hall as [? [? ?]%Forall_cons].
      by apply Forall_app. }
  assert (jsp_Locked s1 = false) as Hl1 by done. clearbody s1.
  unfold policies. rewrite Hp1. simpl.
  destruct (Nat.eqb_spec (length l1 + length l2') 0) as [H0|H0].
  - destruct l1, l2'; [|simpl in H0; lia..]. simpl.
    eexists. split; [unfold mbind, M_bind, LockPolicies; rewrite Hl1; reflexivity|].
    unfold modify; simpl. by rewrite lookup_delete_eq.
  - exists s1. split; [done|]. split; [done|].
    destruct ((name_of s <$> l1) ++ (name_of s <$> l2')) eqn:E; [|eauto].
    apply (f_equal length) in E. rewrite length_app, !length_fmap in E. simpl in E. lia.
Qed.

(** C33. Removing a group that has one policy removes that policy and keeps
    the others in their order; the job leaves the table with its last policy. *)
Theorem remove_group_once jobName groupName s sl pre post :
  jsp_Locked s = false → jsp_Policies s !! jobName = Some sl → entry_ok s sl →
  names s sl = pre ++ Some groupName :: post →
  Some groupName ∉ pre → Some groupName ∉ post →
  ∃ s', removeGroupScalingPolicy jobName groupName s = (Ret tt, s') ∧ jsp_Locked s' = false ∧
    match pre ++ post with
    | [] => jsp_Policies s' !! jobName = None
    | _ => ∃ sl', jsp_Policies s' !! jobName = Some sl' ∧ names s' sl' = pre ++ post
    end.
Proof.
  intros Hl Hp Hok Hn Hpre Hpost.
  destruct (remove_once_run jobName groupName s sl pre post Hl Hp Hok Hn Hpre Hpost) as (s' & Hr & Hl' & H).
  exists s'. split; [done|]. split; [done|]. destruct (pre ++ post); [done|].
  destruct H as (sl' & ? & ? & _). eauto.
Qed.

Lemma remove_two_panics jobName groupName s sl pre :
  jsp_Locked s = false → jsp_Policies s !! jobName = Some sl → entry_ok s sl →
  names s sl = pre ++ [Some groupName; Some groupName] → Some groupName ∉ pre →
  ∃ s', removeGroupScalingPolicy jobName groupName s = (Panic bounds_panic, s') ∧ jsp_Locked s' = true.
Proof.
  intros Hl Hp Hok Hn Hpre. pose proof Hok as [(a & Ha & Hlen & Hc) _].
  pose proof (length_elems _ _ (proj1 Hok)) as Hle.
  destruct (names_split s sl a _ _ Ha Hn) as (l1 & l2 & Hal & <- & Hl2).
  apply fmap_cons_inv in Hl2 as (x & l2' & Hx & Hl2 & ->).
  symmetry in Hl2. apply fmap_cons_inv in Hl2 as (y & l3 & Hy & Hl3 & ->).
  destruct l3; [|done].
  assert (sl_len sl = length l1 + 2)%nat as Hsl.
  { rewrite <-Hle. apply (f_equal length) in Hn. unfold names in Hn. rewrite length_fmap in Hn.
    rewrite Hn, length_app, length_fmap. done. }
  pose proof (delete_loop_two (matches groupName s) l1 x y (drop (sl_len sl) a)
    (no_matches _ _ _ Hpre) (one_match _ _ _ (eq_sym Hx)) (one_match _ _ _ (eq_sym Hy))) as Hd.
  pose proof (remove_loop jobName groupName s (sl_arr sl) (sl_len sl) (sl_cap sl) Hl Hc
    (seq 0 (sl_len sl)) a (sl_len sl) (entry_readable _ _ _ Ha Hok) (le_n _)) as Hrun.
  rewrite <-!app_comm_cons in Hal. simpl in Hal. rewrite <-Hal, <-Hsl in Hd. rewrite Hd in Hrun.
  rewrite (during_start jobName s sl a Hp Ha) in Hrun.
  destruct (Hrun ltac:(intros i Hi%elem_of_seq; lia)) as (s' & Hpanic & Hl').
  exists s'. split; [|done].
  unfold removeGroupScalingPolicy. rewrite (bind_run get_table _ _ _ _ eq_refl). cbn beta. rewrite Hp.
  replace (mkslice (sl_arr sl) (sl_len sl) (sl_cap sl)) with sl in Hpanic by (by destruct sl).
  by rewrite (bind_panic _ _ _ _ _ Hpanic).
Qed.

(** Repeated updates prepare a crash: for every decoder, hash and growth
    of slices, once a job with two scaled groups was updated twice for the
    second one, removing that group's policy panics on a slice bound, and
    leaves the lock of the table held. *)
Theorem repeated_update_crashes DecodeGroup HashGroup newcap job ga gb meta decoded :
  (∀ n, n ≤ newcap n)%nat →
  DecodeGroup meta NewGroupScalingPolicy = inr decoded → ga ≠ gb →
  let update g := updateScalingPolicy DecodeGroup HashGroup newcap job g meta in
  ∃ s', (_ ← update ga; _ ← update gb; _ ← update gb; removeGroupScalingPolicy job gb)
          newJobScalingPolicy = (Panic bounds_panic, s') ∧ jsp_Locked s' = true.
Proof.
  intros Hcap Hd Hne update.
  destruct (update_names_run DecodeGroup HashGroup newcap Hcap job ga meta decoded newJobScalingPolicy [])
    as (s1 & sl1 & E1 & Hp1 & Hok1 & Hl1 & Hn1); [done..|].
  destruct (update_names_run DecodeGroup HashGroup newcap Hcap job gb meta decoded s1 [Some ga])
    as (s2 & sl2 & E2 & Hp2 & Hok2 & Hl2 & Hn2); [done|done|by rewrite Hp1|].
  assert (others gb [Some ga] = 1%nat ∧ others gb [Some ga; Some gb] = 1%nat) as [Ho1 Ho2].
  { unfold others. rewrite !filter_cons, filter_nil, decide_True by congruence.
    rewrite (decide_False (P:=Some gb ≠ Some gb)) by (intros H; by apply H).
    by rewrite decide_True by congruence. }
  rewrite decide_False in Hn2 by done. rewrite Ho1 in Hn2.
  destruct (update_names_run DecodeGroup HashGroup newcap Hcap job gb meta decoded s2 [Some ga; Some gb])
    as (s3 & sl3 & E3 & Hp3 & Hok3 & Hl3 & Hn3); [done|done|by rewrite Hp2|].
  rewrite decide_False in Hn3 by done. rewrite Ho2 in Hn3.
  destruct (remove_two_panics job gb s3 sl3 [Some ga]) as (s' & E & Hl'); [done..|set_solver|].
  exists s'. split; [|done]. unfold update.
  by rewrite (bind_run _ _ _ _ _ E1), (bind_run _ _ _ _ _ E2), (bind_run _ _ _ _ _ E3).
Qed.

(** ** Witnesses *)

Definition double (n : nat) : nat := n + n.
Lemma double_enough n : (n ≤ double n)%nat.
Proof. unfold double. lia. Qed.

Definition demo_decode (m : gmap string string) (g : GroupScalingPolicy) : error + GroupScalingPolicy :=
  inr (g <| gsp_Enabled := true |>).
Definition demo_hash (g : GroupScalingPolicy) : error + Z := inr (gsp_Max g).

Definition demo_update (g : string) : M JobScalingPolicies (option error) :=
  updateScalingPolicy demo_decode demo_hash double "shop" g ∅.
Definition demo_table : JobScalingPolicies :=
  ((_ ← demo_update "web"; demo_update "cache") newJobScalingPolicy).2.
Definition demo_slice : slice := policies demo_table "shop".

Lemma demo_entry : entry_ok demo_table demo_slice.
Proof.
  split.
  2:{ change (names demo_table demo_slice) with [Some "web"; Some "cache"]. by repeat constructor. }
  eexists. split; [vm_compute; reflexivity|]. split; [reflexivity|]. vm_compute. lia.
Qed.

Lemma update_policy_names_witness :
  ∃ s' sl', demo_update "cache" demo_table = (Ret None, s') ∧
    jsp_Policies s' !! "shop" = Some sl' ∧ entry_ok s' sl' ∧ jsp_Locked s' = false ∧
    names s' sl' = [Some "web"; Some "cache"; Some "cache"].
Proof.
  apply (update_policy_names demo_decode demo_hash double double_enough "shop" "cache" ∅
    (NewGroupScalingPolicy <| gsp_Enabled := true |>) demo_table [Some "web"; Some "cache"]); [done|done|].
  exact (conj demo_entry eq_refl).
Defined.

Lemma remove_group_once_witness :
  ∃ s', removeGroupScalingPolicy "shop" "web" demo_table = (Ret tt, s') ∧ jsp_Locked s' = false ∧
    ∃ sl', jsp_Policies s' !! "shop" = Some sl' ∧ names s' sl' = [Some "cache"].
Proof.
  apply (remove_group_once "shop" "web" demo_table demo_slice [] [Some "cache"]);
    [done|done|apply demo_entry|done|set_solver|set_solver].
Defined.

Lemma repeated_update_crashes_witness :
  ∃ s', (_ ← demo_update "web"; _ ← demo_update "cache"; _ ← demo_update "cache";
         removeGroupScalingPolicy "shop" "cache") newJobScalingPolicy = (Panic bounds_panic, s') ∧
    jsp_Locked s' = true.
Proof.
  apply (repeated_update_crashes demo_decode demo_hash double "shop" "web" "cache" ∅
    (NewGroupScalingPolicy <| gsp_Enabled := true |>)); [apply double_enough|done|done].
Defined.
