(* ===== verification/Orphans.v ===== *)
(** * Orphans: policies of groups that a job no longer has

    [checkOrphanedGroup] of [client/job_scaling_policies.go]: two nested loops
    that delete from the slice they visit, and the removal of the groups that
    are left, against a filter of the list of policies. *)

From S2P Require Import Prelude GoNum Structs Interfaces Helper GoSlice JobPolicies JobPoliciesFacts.

Lemma filter_keep {A} (P : A → Prop) `{∀ x, Decision (P x)} (l : list A) : (∀ x, x ∈ l → P x) → filter P l = l.
Proof.
  induction l as [|x l IH]; intros Hl; [done|]. rewrite filter_cons_True by (apply Hl; left).
  f_equal. apply IH. intros y Hy. apply Hl. by right.
Qed.

Lemma filter_agree {A} (P Q : A → Prop) `{∀ x, Decision (P x), ∀ x, Decision (Q x)} (l : list A) :
  (∀ x, x ∈ l → P x ↔ Q x) → filter P l = filter Q l.
Proof.
  induction l as [|x l IH]; intros Hl; [done|]. rewrite !filter_cons.
  rewrite IH by (intros y Hy; apply Hl; by right). pose proof (Hl x ltac:(left)).
  repeat case_decide; tauto.
Qed.

Lemma group_names_run {W} groups gs (w : W) :
  tg_Name <$> groups = Some <$> gs → groupNames groups w = (Ret gs, w).
Proof.
  revert gs. induction groups as [|g groups IH]; intros [|n gs] H; try done; simpl.
  simplify_eq/=. unfold mbind, M_bind. rewrite H. simpl. by rewrite (IH gs).
Qed.

(** ** The nested loops *)

Lemma orphaned_filter {W} (names a : list string) m (w : W) :
  (m ≤ length a)%nat → NoDup (take m a) →
  ∃ a' m', orphaned names a m w = (Ret (a', m'), w) ∧ (m' ≤ length a')%nat ∧
    take m' a' = filter (λ n, n ∉ names) (take m a).
Proof.
  revert a m. induction names as [|g names IH]; intros a m Hm Hnd; cbn [orphaned].
  { exists a, m. split; [done|]. split; [done|]. symmetry. apply filter_keep. set_solver. }
  assert (∃ a1 m1, delete_loop (String.eqb g) (seq 0 m) a m = Some (a1, m1) ∧ (m1 ≤ length a1)%nat ∧
    take m1 a1 = filter (λ n, n ≠ g) (take m a)) as (a1 & m1 & -> & Hm1 & Ht).
  { destruct (decide (g ∈ take m a)) as [Hin|Hnin].
    - apply list_elem_of_split in Hin as (pre & post & Hsplit).
      assert (length pre + S (length post) = m)%nat as Hlen.
      { apply (f_equal length) in Hsplit. rewrite length_take_le, length_app in Hsplit by done. simpl in Hsplit. lia. }
      rewrite Hsplit in Hnd |- *. apply NoDup_app in Hnd as (Hpre & Hdis & [Hg Hpost]%NoDup_cons).
      assert (g ∉ pre) as Hgp by (intros ?; eapply Hdis; [done|left]).
      destruct (delete_loop_one (String.eqb g) pre g post (drop m a)) as (a1 & Hd & Ht & Hl).
      { apply Forall_forall. intros x Hx. apply String.eqb_neq. by intros ->. }
      { apply String.eqb_refl. }
      { apply Forall_forall. intros x Hx. apply String.eqb_neq. by intros ->. }
      rewrite Hlen in Hd. replace (pre ++ g :: post ++ drop m a) with a in Hd, Hl
        by (rewrite app_comm_cons, (assoc_L (++)), <-Hsplit; by rewrite take_drop).
      exists a1, (length pre + length post)%nat. split; [done|]. split; [lia|].
      rewrite Ht, filter_app, filter_cons_False by (by intros []).
      by rewrite !filter_keep by (intros x Hx ->; done).
    - exists a, m. split; [|split; [done|]].
      + apply delete_loop_none. intros i [_ Hi]%elem_of_seq. simpl in Hi.
        destruct (lookup_lt_is_Some_2 a i ltac:(lia)) as [x Hx]. exists x. split; [done|].
        apply String.eqb_neq. intros ->. apply Hnin. apply list_elem_of_lookup. exists i.
        by rewrite lookup_take_lt.
      + symmetry. apply filter_keep. intros x Hx ->. done. }
  destruct (IH a1 m1 Hm1) as (a' & m' & E & Hm' & Ht'); [rewrite Ht; by apply NoDup_filter|].
  exists a', m'. split; [done|]. split; [done|]. rewrite Ht', Ht, list_filter_filter.
  apply list_filter_iff. set_solver.
Qed.

(** ** The removals *)

(** The policies of a job: none, or a slice that lists the groups [ns]. *)
Definition listed (s : JobScalingPolicies) (jobName : string) (ns : list string) : Prop :=
  match ns with
  | [] => jsp_Policies s !! jobName = None
  | _ => ∃ sl, jsp_Policies s !! jobName = Some sl ∧ entry_ok s sl ∧ names s sl = Some <$> ns
  end.

Abbreviation remove_all jobName os :=
  (for_range (λ (_ : unit) g, _ ← removeGroupScalingPolicy jobName g; mret (Next (R:=unit) tt)) os tt).

Lemma remove_listed jobName g s ns :
  jsp_Locked s = false → listed s jobName ns → NoDup ns → g ∈ ns →
  ∃ s', removeGroupScalingPolicy jobName g s = (Ret tt, s') ∧ jsp_Locked s' = false ∧
    listed s' jobName (filter (λ n, n ≠ g) ns).
Proof.
  intros Hl Hs Hnd Hg. apply list_elem_of_split in Hg as (pre & post & ->).
  apply NoDup_app in Hnd as (Hpre & Hdis & [Hgp Hpost]%NoDup_cons).
  assert (g ∉ pre) as Hgq by (intros ?; eapply Hdis; [done|left]).
  assert (filter (λ n, n ≠ g) (pre ++ g :: post) = pre ++ post) as ->.
  { rewrite filter_app, filter_cons_False by (by intros []).
    by rewrite !filter_keep by (intros x Hx ->; done). }
  assert (∃ sl, jsp_Policies s !! jobName = Some sl ∧ entry_ok s sl ∧
    names s sl = Some <$> (pre ++ g :: post)) as (sl & Hp & Hok & Hn) by (destruct pre; exact Hs).
  rewrite fmap_app, fmap_cons in Hn.
  destruct (remove_once_run jobName g s sl (Some <$> pre) (Some <$> post) Hl Hp Hok Hn)
    as (s' & Hr & Hl' & H); [by intros (? & [= <-] & ?)%list_elem_of_fmap..|].
  exists s'. split; [done|]. split; [done|]. rewrite <-fmap_app in H.
  destruct (pre ++ post); simpl in *; [done|]. destruct H as (sl' & ? & ? & ?). eauto.
Qed.

Lemma remove_all_listed jobName os s ns :
  jsp_Locked s = false → listed s jobName ns → NoDup ns → NoDup os → (∀ g, g ∈ os → g ∈ ns) →
  ∃ s', remove_all jobName os s = (Ret (Next tt), s') ∧ jsp_Locked s' = false ∧
    listed s' jobName (filter (λ n, n ∉ os) ns).
Proof.
  revert s ns. induction os as [|g os IH]; intros s ns Hl Hs Hnd Hos Hsub.
  { exists s. split; [done|]. split; [done|]. rewrite filter_keep; [done|set_solver]. }
  apply NoDup_cons in Hos as [Hg Hos].
  destruct (remove_listed jobName g s ns Hl Hs Hnd) as (s1 & E1 & Hl1 & Hs1); [apply Hsub; left|].
  destruct (IH s1 (filter (λ n, n ≠ g) ns) Hl1 Hs1) as (s2 & E2 & Hl2 & Hs2); [by apply NoDup_filter|done| |].
  { intros x Hx. apply list_elem_of_filter. split; [by intros ->|]. apply Hsub. by right. }
  exists s2. cbn [for_range].
  rewrite (bind_run (removeGroupScalingPolicy jobName g ≫= λ _, mret (Next tt)) _ s (Next tt) s1)
    by (by rewrite (bind_run _ _ _ _ _ E1)).
  split; [done|]. split; [done|]. rewrite list_filter_filter in Hs2.
  erewrite list_filter_iff; [exact Hs2|]. set_solver.
Qed.

Lemma load_names s ps ns :
  name_of s <$> ps = Some <$> ns → ∀ acc,
  for_range (λ (acc : list string) p, g ← load p; mret (Next (R:=unit) (acc ++ [gsp_GroupName g]))) ps acc s =
    (Ret (Next (acc ++ ns)), s).
Proof.
  revert ns. induction ps as [|p ps IH]; intros [|n ns] H acc; try done; simpl; [by rewrite app_nil_r|].
  simplify_eq/=. destruct (load_run s p n) as (g & Eg & Hg); [done|].
  unfold mbind, M_bind. rewrite Eg. simpl. rewrite (IH ns) by done. by rewrite Hg, <-(assoc_L (++)).
Qed.

(** C23. The check for orphaned groups is a filter: when every group of a job
    has one policy, it ends with exactly the policies whose group the job still
    has, in their order, and without the job when none is left; the deletions
    from the slices that are being visited skip nothing. *)
Theorem orphans_removed jobName groups gs s ns :
  jsp_Locked s = false → listed s jobName ns → NoDup ns → tg_Name <$> groups = Some <$> gs →
  ∃ s', checkOrphanedGroup jobName groups s = (Ret tt, s') ∧ jsp_Locked s' = false ∧
    listed s' jobName (filter (λ n, n ∈ gs) ns).
Proof.
  intros Hl Hs Hnd Hg. unfold checkOrphanedGroup.
  rewrite (bind_run RLockPolicies _ s tt s) by (unfold RLockPolicies; by rewrite Hl).
  rewrite (bind_run get_table _ s s s) by done.
  assert ((match jsp_Policies s !! jobName with
     | Some val => for_range (λ (acc : list string) p, g ← load p; mret (Next (R:=unit) (acc ++ [gsp_GroupName g])))
         (elems (jsp_arrays s) val) []
     | None => mret (Next [])
     end) s = (Ret (Next ns), s)) as E.
  { destruct ns as [|n ns]; simpl in Hs; [by rewrite Hs|]. destruct Hs as (sl & -> & _ & Hn).
    by rewrite (load_names s _ (n :: ns)). }
  rewrite (bind_run _ _ _ _ _ E), (bind_run _ _ _ _ _ (group_names_run groups gs s Hg)).
  destruct (orphaned_filter gs ns (length ns) s) as (a & m & Eo & _ & Ht); [done|by rewrite firstn_all|].
  rewrite firstn_all in Ht. rewrite (bind_run _ _ _ _ _ Eo), Ht. cbn beta iota.
  destruct (remove_all_listed jobName (filter (λ n, n ∉ gs) ns) s ns) as (s' & E' & Hl' & Hs');
    [done|done|done|by apply NoDup_filter|by intros g [_ ?]%list_elem_of_filter|].
  rewrite (bind_run _ _ _ _ _ E'). exists s'. split; [done|]. split; [done|].
  replace (filter (λ n, n ∈ gs) ns) with (filter (λ n, n ∉ filter (λ n, n ∉ gs) ns) ns); [done|].
  apply filter_agree. intros x Hx. rewrite list_elem_of_filter. destruct (decide (x ∈ gs)); tauto.
Qed.

(** ** Witness *)

Lemma orphans_removed_witness :
  ∃ s', checkOrphanedGroup "shop" [mkTaskGroup (Some "cache") None [] true ∅] demo_table = (Ret tt, s') ∧
    listed s' "shop" ["cache"].
Proof.
  destruct (orphans_removed "shop" [mkTaskGroup (Some "cache") None [] true ∅] ["cache"] demo_table ["web"; "cache"])
    as (s' & E & _ & H).
  - done.
  - exists demo_slice. split; [done|]. split; [apply demo_entry|]. vm_compute. reflexivity.
  - apply (bool_decide_unpack _). vm_compute. done.
  - done.
  - exists s'. exact (conj E H).
Defined.
