(* ===== verification/JobScaling.v ===== *)
(** * JobScaling: the scaling loop of a job

    [replicator/job_scaling.go], against the interfaces of the clients: the
    evaluation of a job under the lock of the policy table, the removal of the
    policies of a purged job, and for each group the gates in front of a scaling
    action. *)

From S2P Require Import Prelude GoNum Structs Interfaces Sim State Consul StateFacts GoSlice JobPolicies JobScale Nomad Client Failsafe FailsafeFacts.

(** The policy table shared by the watcher and the scaling threads. *)
Class PolicyStore (W : Type) := {
  get_policies : M W JobScalingPolicies;
  put_policies : JobScalingPolicies → M W unit;
}.

(** [strings.Contains] *)
Definition Contains (s substr : string) : bool :=
  match String.index 0 substr s with Some _ => true | None => false end.

Section scaling.
Context {W : Type} {RT : Runtime W} {CC : ConsulClient W} {NC : NomadClient W}
  {NT : NotifierAPI W} {PS : PolicyStore W}.

Definition on_policies {A} (m : M JobScalingPolicies A) : M W A :=
  s ← get_policies;
  let '(o, s') := m s in
  _ ← put_policies s';
  match o with
  | Ret a => mret a
  | Panic e => go_panic e
  end.

(** The policies of a job behind their pointers, and what a callee made of
    them written back through the pointers. *)
Fixpoint loadAll (ps : list (option positive)) : M JobScalingPolicies (list GroupScalingPolicy) :=
  match ps with
  | [] => mret []
  | p :: ps => g ← load p; gs ← loadAll ps; mret (g :: gs)
  end.

Definition storeAll (ps : list (option positive)) (gs : list GroupScalingPolicy)
    : M JobScalingPolicies unit :=
  modify_table (λ s, s <| jsp_objects ::= λ o,
    fold_left (λ o pg, match pg with (Some p, g) => <[p := g]> o | (None, _) => o end) (zip ps gs) o |>).

Definition groupMessage (jobName : string) (group : GroupScalingPolicy) : FailureMessage :=
  zero_FailureMessage <| fm_AlertUID := gsp_UID group |>
    <| fm_ResourceID := jobName +:+ "/" +:+ gsp_GroupName group |>
    <| fm_ResourceType := JobType |>.

Definition groupState (config : Config) (jobName : string) (group : GroupScalingPolicy) : ScalingState :=
  zero_ScalingState <| st_ResourceName := gsp_GroupName group |>
    <| st_ResourceType := JobType |>
    <| st_StatePath := cfg_ConsulKeyRoot config +:+ "/state/jobs/" +:+ jobName +:+ "/"
                         +:+ gsp_GroupName group |>.

(** The checks of a group: [None] is one of the two [continue]s. *)
Definition groupGates (config : Config) (jobName : string) (group : GroupScalingPolicy)
    : M W (option ScalingState) :=
  state ← ReadState (groupState config jobName group) true;
  '(state, passing) ← FailsafeCheck state config (gsp_RetryThreshold group) (groupMessage jobName group);
  if negb passing then mret None
  else
    let cd := gsp_Cooldown group *! Second in
    now ← time_Now;
    if negb (Before (st_LastScalingEvent state) (time_add now (0 -! cd))) then mret None
    else mret (Some state).

(** The body of the loop over the groups of the job. *)
Definition scaleGroup (config : Config) (jobName : string) (group : GroupScalingPolicy) : M W unit :=
  o ← groupGates config jobName group;
  match o with
  | None => mret tt
  | Some state =>
      state ←
        (if String.eqb (gsp_ScaleDirection group) ScalingDirectionOut
            || String.eqb (gsp_ScaleDirection group) ScalingDirectionIn then
           if gsp_Enabled group then JobGroupScale jobName group state else mret state
         else mret state);
      '(_, _) ← PersistState state;
      mret tt
  end.

(** The function [jobScaling] runs for one job of its channel.  The slice [g] is
    read before the lock is taken; its elements are read again for the loop,
    after another thread may have changed the backing array.  Taking the read
    lock waits for a writer; readers do not exclude one another, so its release
    changes nothing. *)
Definition jobScaling_job (config : Config) (jobName : string) : M W unit :=
  s ← get_policies;
  let g := policies s jobName in
  _ ← on_policies LockPolicies;
  s ← get_policies;
  let ps := elems (jsp_arrays s) g in
  gs ← on_policies (loadAll ps);
  '(gs, err) ← EvaluateJobScaling jobName gs;
  _ ← on_policies (storeAll ps gs);
  _ ← on_policies UnlockPolicies;
  match err with
  | Some e =>
      if Contains e "404" then on_policies (RemoveJobScalingPolicy jobName) else mret tt
  | None =>
      _ ← on_policies RLockPolicies;
      s ← get_policies;
      _ ← for_range (λ (_ : unit) p,
            group ← on_policies (load p);
            _ ← scaleGroup config jobName group;
            mret (Next (R:=unit) tt)) (elems (jsp_arrays s) g) tt;
      mret tt
  end.

(** A worker: the jobs it receives, one after the other. *)
Definition jobScaling (config : Config) (jobs : list string) : M W unit :=
  _ ← for_range (λ (_ : unit) j, _ ← jobScaling_job config j; mret (Next (R:=unit) tt)) jobs tt;
  mret tt.

(** ** Properties *)

Context {SL : StateStoreLaws W}.

Lemma failsafe_pass st cfg threshold msg (w : W) st' w' :
  FailsafeCheck st cfg threshold msg w = (Ret (st', true), w') →
  st' = st ∧ w' = w ∧ st_FailsafeMode st = false ∧ st_FailureCount st < threshold.
Proof.
  unfold FailsafeCheck. destruct (st_FailsafeMode st); [by intros [[=] _]%mret_inv|].
  destruct (Z.leb_spec threshold (st_FailureCount st)) as [Hle|Hlt]; simpl; intros H.
  - go_bind H as [[m s1] e] w1 E. by apply mret_inv in H as [[=] _].
  - by apply mret_inv in H as [[= <-] <-].
Qed.

(** A job group is submitted for scaling only when the state read for it
    has an untripped breaker and fewer failures than its retry threshold, and
    its last scaling event lies further back than its cooldown. *)
Theorem group_gates cfg job group (w : W) st w' :
  groupGates cfg job group w = (Ret (Some st), w') →
  is_int (gsp_Cooldown group * Second) → is_int (- (gsp_Cooldown group * Second)) →
  ∃ w1 now, ReadState (groupState cfg job group) true w = (Ret st, w1) ∧
    st_FailsafeMode st = false ∧ st_FailureCount st < gsp_RetryThreshold group ∧
    time_Now w1 = (Ret now, w') ∧
    st_LastScalingEvent st + gsp_Cooldown group * Second < now.
Proof.
  unfold groupGates. intros H Hi Hi'. go_bind H as st0 w1 Er. go_bind H as [st1 p] w2 Ef.
  destruct p; [|by apply mret_inv in H as [[=] _]].
  apply failsafe_pass in Ef as (-> & -> & Hm & Hf). cbn [negb] in H.
  go_bind H as now w3 En. unfold Before, time_add in H.
  rewrite imul_id in H by done. rewrite isub_id in H by (by rewrite Z.sub_0_l).
  destruct (Z.ltb_spec (st_LastScalingEvent st0) (now + (0 - gsp_Cooldown group * Second))); simpl in H;
    [|by apply mret_inv in H as [[=] _]].
  apply mret_inv in H as [[= <-] <-]. exists w1, now. split_and!; [done..|lia].
Qed.

End scaling.

(** ** Witness *)

#[local] Existing Instance consulClient.
#[local] Existing Instance nomadClient.

Lemma group_gates_witness :
  ∃ st w1 now, ReadState (groupState demo_cfg "shop" demo_policy) true sim0 = (Ret st, w1) ∧
    time_Now w1 = (Ret now, run_world (groupGates demo_cfg "shop" demo_policy) sim0) ∧
    st_LastScalingEvent st + 60 * Second < now.
Proof.
  assert (∃ st, groupGates demo_cfg "shop" demo_policy sim0 =
    (Ret (Some st), run_world (groupGates demo_cfg "shop" demo_policy) sim0)) as [st H]
    by (eexists; vm_compute; reflexivity).
  destruct (group_gates demo_cfg "shop" demo_policy sim0 st _ H) as (w1 & now & H1 & _ & _ & H2 & H3);
    [unfold is_int; vm_compute; split; discriminate..|].
  exists st, w1, now. split; [exact H1|]. split; [exact H2|exact H3].
Defined.
