(* ===== verification/FanOut.v ===== *)
(** * FanOut: the worker threads of a scaling round

    [asyncClusterScaling] and [asyncJobScaling]: the main thread counts the
    resources, starts the workers, sends the resources over a buffered channel
    and, for worker pools, waits on a wait group; each worker receives a
    resource, handles it and marks it done.  The threads interleave freely, as a
    step relation.

    The table of resources is counted and later ranged over without its lock, so
    the number that was counted and the resources that are sent are separate
    arguments, and not every evaluation need return. *)

From S2P Require Import Prelude GoNum Structs.

(** The number of worker threads. *)
Definition maxConcurrency (config : Config) (count : nat) : Z :=
  if Z.of_nat count <? cfg_ScalingConcurrency config then Z.of_nat count
  else cfg_ScalingConcurrency config.

Record round := mkround {
  rd_todo : list string;             (* not sent yet *)
  rd_chan : list string;             (* in the channel *)
  rd_cap : nat;                      (* its capacity *)
  rd_workers : list (option string); (* idle, or handling a resource *)
  rd_wg : Z;                         (* the wait group *)
  rd_done : list string;             (* handled *)
}.

(** The state when the main thread starts to send: [count] pools were counted,
    and [resources] are those it meets when it ranges over them. *)
Definition asyncClusterScaling (config : Config) (count : nat) (resources : list string) : round :=
  mkround resources [] count (replicate (Z.to_nat (maxConcurrency config count)) None) (Z.of_nat count) [].

(** A job in deployment is not sent; the wait group is never waited for. *)
Definition asyncJobScaling (config : Config) (inDeployment : string → bool) (count : nat)
    (jobs : list string) : round :=
  mkround (filter (λ j, inDeployment j = false) jobs) [] count
    (replicate (Z.to_nat (maxConcurrency config count)) None) (Z.of_nat count) [].

(** Which evaluations return. *)
Section round.
Context (returns : string → Prop).

(** A wait group below zero is a panic that ends the agent. *)
Definition crashed (r : round) : Prop := rd_wg r < 0.

Inductive round_step : round → round → Prop :=
| step_send x todo chan cap ws wg done :
    (length chan < cap)%nat → 0 ≤ wg →
    round_step (mkround (x :: todo) chan cap ws wg done)
               (mkround todo (chan ++ [x]) cap ws wg done)
| step_receive x todo chan cap ws wg done i :
    ws !! i = Some None → 0 ≤ wg →
    round_step (mkround todo (x :: chan) cap ws wg done)
               (mkround todo chan cap (<[i := Some x]> ws) wg done)
| step_finish x todo chan cap ws wg done i :
    ws !! i = Some (Some x) → 0 ≤ wg → returns x →
    round_step (mkround todo chan cap ws wg done)
               (mkround todo chan cap (<[i := None]> ws) (wg - 1) (done ++ [x])).

(** [wg.Wait()] returns after everything was sent. *)
Definition returned (r : round) : Prop := rd_todo r = [] ∧ rd_wg r = 0.

(** The resources the workers are handling. *)
Definition busy (r : round) : list string := omap id (rd_workers r).
Definition unfinished (r : round) : list string := rd_todo r ++ rd_chan r ++ busy r.

Lemma busy_insert ws i (o o' : option string) :
  ws !! i = Some o →
  omap id (<[i := o']> ws) ++ (default [] ((λ x, [x]) <$> o)) ≡ₚ
  omap id ws ++ (default [] ((λ x, [x]) <$> o')).
Proof.
  revert i. induction ws as [|w ws IH]; intros [|i] H; simpl in *; try done.
  - injection H as ->. destruct o, o'; simpl; rewrite ?app_nil_r; solve_Permutation || done.
  - specialize (IH i H). destruct w; simpl; [by rewrite IH|done].
Qed.

(** Every resource is somewhere, the wait group is what was counted less what
    was handled, and the channel keeps its capacity. *)
Definition accounted (resources : list string) (count : nat) (r : round) : Prop :=
  unfinished r ++ rd_done r ≡ₚ resources ∧
  rd_wg r = Z.of_nat count - Z.of_nat (length (rd_done r)) ∧ rd_cap r = count.

Ltac lens := repeat (rewrite length_app in * || simpl in *); lia.

Lemma accounted_step resources k r r' :
  accounted resources k r → round_step r r' → accounted resources k r'.
Proof.
  intros (Hp & Hw & Hc) Hs. destruct Hs as [x todo chan cap ws wg done Hl
    |x todo chan cap ws wg done i Hi|x todo chan cap ws wg done i Hi];
    unfold accounted, unfinished, busy in *; simpl in *.
  - split_and!; [|done|done]. rewrite <-Hp. rewrite <-(assoc_L (++) chan). simpl. solve_Permutation.
  - split_and!; [|done|done]. pose proof (busy_insert ws i None (Some x) Hi) as Hb.
    simpl in Hb. rewrite app_nil_r in Hb. rewrite <-Hp, Hb. simpl. solve_Permutation.
  - split_and!; [|lens|done]. pose proof (busy_insert ws i (Some x) None Hi) as Hb.
    simpl in Hb. rewrite app_nil_r in Hb. rewrite <-Hp, <-Hb. solve_Permutation.
Qed.

Lemma accounted_reachable resources k r r' :
  accounted resources k r → rtc round_step r r' → accounted resources k r'.
Proof. intros H Hr. revert H. induction Hr; eauto using accounted_step. Qed.

Lemma cluster_accounted cfg count resources :
  accounted resources count (asyncClusterScaling cfg count resources).
Proof.
  unfold accounted, unfinished, busy, asyncClusterScaling; simpl.
  replace (omap id (replicate _ None)) with (@nil string)
    by (induction (Z.to_nat (maxConcurrency cfg count)); simpl; done).
  rewrite !app_nil_r. split_and!; [done|lia|done].
Qed.

(** ** Termination and progress *)

Definition work (r : round) : nat :=
  3 * length (rd_todo r) + 2 * length (rd_chan r) + length (busy r).

Lemma work_decreases r r' : round_step r r' → (work r' < work r)%nat.
Proof.
  intros Hs. destruct Hs as [x todo chan cap ws wg done Hl
    |x todo chan cap ws wg done i Hi|x todo chan cap ws wg done i Hi]; unfold work, busy; simpl.
  - lens.
  - pose proof (Permutation_length (busy_insert ws i None (Some x) Hi)) as Hb. lens.
  - pose proof (Permutation_length (busy_insert ws i (Some x) None Hi)) as Hb. lens.
Qed.

Lemma work_bound n r r' : nsteps round_step n r r' → (n + work r' ≤ work r)%nat.
Proof. induction 1 as [|n x y z Hs _ IH]; [lia|]. apply work_decreases in Hs. lia. Qed.

Lemma cluster_work cfg count resources : work (asyncClusterScaling cfg count resources) = (3 * length resources)%nat.
Proof.
  unfold work, busy, asyncClusterScaling; simpl. replace (omap id (replicate _ None)) with (@nil string)
    by (induction (Z.to_nat (maxConcurrency cfg count)); simpl; done). simpl. lia.
Qed.

Lemma workers_kept r r' : rtc round_step r r' → length (rd_workers r') = length (rd_workers r).
Proof. induction 1 as [|x y z Hs _ IH]; [done|]. rewrite IH. by destruct Hs; simpl; rewrite ?length_insert. Qed.

Lemma cluster_workers cfg count resources r :
  0 < cfg_ScalingConcurrency cfg → (0 < count)%nat →
  rtc round_step (asyncClusterScaling cfg count resources) r → rd_workers r ≠ [].
Proof.
  intros Hcfg Hc Hr%workers_kept. simpl in Hr. rewrite length_replicate in Hr.
  unfold maxConcurrency in Hr. destruct (rd_workers r); [|done]. simpl in Hr. case_match; lia.
Qed.

(** With a worker, an unfinished resource and nothing that does not return, some
    thread moves. *)
Lemma round_progress resources k r :
  accounted resources k r → (0 < k)%nat → rd_workers r ≠ [] → unfinished r ≠ [] → ¬ crashed r →
  Forall returns (busy r) → ∃ r', round_step r r'.
Proof.
  destruct r as [todo chan cap ws wg done]. unfold accounted, unfinished, busy, crashed; simpl.
  intros (_ & _ & Hc) Hk Hws Hun Hwg Hret. assert (0 ≤ wg) as Hwg' by lia.
  destruct (omap id ws) as [|y ys] eqn:Eb.
  - destruct chan as [|x chan].
    + destruct todo as [|x todo]; [done|]. eexists. apply step_send; [simpl; lia|done].
    + destruct ws as [|[z|] ws]; [done|done|]. eexists. by apply (step_receive _ _ _ _ _ _ _ 0).
  - assert (y ∈ omap id ws) as (o & Ho & Hy)%list_elem_of_omap by (rewrite Eb; left).
    simpl in Hy; subst o. apply list_elem_of_lookup in Ho as [i Hi]. apply Forall_cons in Hret as [Hy _].
    eexists. by apply (step_finish y _ _ _ _ _ _ i).
Qed.

(** What was handled has returned. *)
Lemma done_return r r' : rtc round_step r r' → Forall returns (rd_done r) → Forall returns (rd_done r').
Proof.
  induction 1 as [|x y z Hs _ IH]; [done|]. intros H. apply IH.
  destruct Hs; simpl in *; [done|done|]. apply Forall_app. split; [done|by apply Forall_singleton].
Qed.

(** A round that is at rest has handled every resource, or crashed. *)
Lemma round_rests cfg count resources r :
  0 < cfg_ScalingConcurrency cfg → (0 < count)%nat → Forall returns resources →
  rtc round_step (asyncClusterScaling cfg count resources) r → (∀ r', ¬ round_step r r') →
  crashed r ∨ rd_todo r = [] ∧ rd_done r ≡ₚ resources ∧ rd_wg r = Z.of_nat count - Z.of_nat (length resources).
Proof.
  intros Hcfg Hcount Hret Hr Hnf. destruct (decide (rd_wg r < 0)) as [?|Hwg]; [by left|right].
  pose proof (accounted_reachable _ _ _ _ (cluster_accounted cfg count resources) Hr) as Ha.
  pose proof Ha as (Hp & Hw & _). destruct (decide (unfinished r = [])) as [Hu|Hu].
  - rewrite Hu in Hp. split; [by apply app_nil in Hu as [? _]|]. split; [exact Hp|].
    rewrite Hw. by rewrite <-(Permutation_length Hp).
  - exfalso. destruct (round_progress resources count r) as [r' Hs]; try done.
    + by eapply cluster_workers.
    + rewrite <-Hp in Hret. unfold unfinished in Hret. rewrite !Forall_app in Hret. naive_solver.
    + by eapply Hnf.
Qed.

(** C28. A round of cluster scaling, in which [count] pools were counted and
    [resources] are sent, with a positive concurrency and a pool counted.  No
    interleaving of the threads is longer than three steps per pool, and at any
    time the wait group is what was counted less what was handled.  When every
    evaluation returns and the registry was not changed in between, every
    interleaving ends with the main thread returned and every pool handled
    exactly once, never earlier.  A pool that was counted and is gone when the
    pools are sent, or an evaluation that never returns, keeps the main thread
    waiting for good; a pool that came in between makes every interleaving, when
    the evaluations return, end with a wait group below zero, which crashes the
    agent. *)
Theorem cluster_round_completes cfg count resources :
  0 < cfg_ScalingConcurrency cfg → (0 < count)%nat →
  let start := asyncClusterScaling cfg count resources in
  (∀ n r, nsteps round_step n start r → n ≤ 3 * length resources)%nat ∧
  ∀ r, rtc round_step start r →
    rd_wg r = Z.of_nat count - Z.of_nat (length (rd_done r)) ∧
    (count = length resources → ¬ crashed r ∧ (returned r → rd_done r ≡ₚ resources)) ∧
    (Forall returns resources → (∀ r', ¬ round_step r r') →
       (count = length resources → returned r ∧ rd_done r ≡ₚ resources) ∧
       ((count < length resources)%nat → crashed r)) ∧
    ((length resources < count)%nat → ¬ returned r) ∧
    (count = length resources → ¬ Forall returns resources → ¬ returned r).
Proof.
  intros Hcfg Hcount start. split.
  { intros n r Hn%work_bound. unfold start in Hn. rewrite cluster_work in Hn. lia. }
  intros r Hr. pose proof (accounted_reachable _ _ _ _ (cluster_accounted cfg count resources) Hr) as (Hp & Hw & _).
  pose proof (Permutation_length Hp) as Hlen. rewrite length_app in Hlen.
  assert (count = length resources → rd_wg r = 0 → rd_done r ≡ₚ resources) as Hall.
  { intros Hc H0. destruct (unfinished r) as [|x l]; [exact Hp|]. simpl in Hlen. lia. }
  split_and!; [done|..].
  - intros Hc. split; [unfold crashed; lia|]. intros [_ H0]. auto.
  - intros Hret Hnf. destruct (round_rests cfg count resources r) as [Hcr|(Ht & Hd & Hwg)]; try done.
    + unfold crashed in Hcr. split; [lia|done].
    + split; [intros Hc|unfold crashed; lia]. split; [split; [done|lia]|done].
  - intros Hlt [_ H0]. lia.
  - intros Hc Hnret [_ H0]. apply Hnret. rewrite <-(Hall Hc H0). by eapply done_return.
Qed.

(** The channel is never closed: when the main thread has returned, every worker
    it started still waits for a resource. *)
Lemma workers_leak cfg resources r :
  rtc round_step (asyncClusterScaling cfg (length resources) resources) r → returned r →
  rd_workers r = replicate (Z.to_nat (maxConcurrency cfg (length resources))) None.
Proof.
  intros Hr [_ H0].
  pose proof (accounted_reachable _ _ _ _ (cluster_accounted cfg (length resources) resources) Hr) as (Hp & Hw & _).
  apply Permutation_length in Hp. rewrite length_app in Hp.
  apply workers_kept in Hr. simpl in Hr. rewrite length_replicate in Hr. rewrite <-Hr.
  assert (busy r = []) as Hb.
  { unfold unfinished in Hp. rewrite !length_app in Hp. destruct (busy r); [done|simpl in Hp; lia]. }
  clear -Hb. unfold busy in Hb. induction (rd_workers r) as [|[w|] ws IH]; simpl in *; [done|done|].
  by rewrite <-IH.
Qed.
End round.

(** ** Witness *)

Definition demo_round : round :=
  asyncClusterScaling (zero_Config <| cfg_ScalingConcurrency := 2 |>) 3 ["a"; "b"; "c"].

(** Three pools, of which the second may never return. *)
Lemma cluster_round_completes_witness :
  (∀ r, rtc (round_step (λ _, True)) demo_round r → (∀ r', ¬ round_step (λ _, True) r r') →
     returned r ∧ rd_done r ≡ₚ ["a"; "b"; "c"]) ∧
  (∀ r, rtc (round_step (λ x, x ≠ "b")) demo_round r → ¬ returned r).
Proof.
  split; intros r Hr.
  - intros Hnf. refine (proj1 (proj1 (proj2 (proj2 (proj2 (cluster_round_completes (λ _, True)
      (zero_Config <| cfg_ScalingConcurrency := 2 |>) 3 ["a"; "b"; "c"] _ _) r Hr))) _ Hnf) eq_refl).
    + done.
    + lia.
    + by apply Forall_true.
  - refine (proj2 (proj2 (proj2 (proj2 (proj2 (cluster_round_completes (λ x, x ≠ "b")
      (zero_Config <| cfg_ScalingConcurrency := 2 |>) 3 ["a"; "b"; "c"] _ _) r Hr)))) eq_refl _).
    + done.
    + lia.
    + intros H. rewrite !Forall_cons in H. naive_solver.
Defined.
