(* ===== verification/Config.v ===== *)
(** * Config: defaults, merging and loading of the configuration

    [replicator/structs/config.go], [command/base/config.go] and
    [command/base/config_parse.go], with the construction of the API clients.
    The HCL parser and the decoding into structs are third-party code and
    parameters; a parsed document is the list of its items. *)

From S2P Require Import Prelude GoNum Structs Interfaces State.

(** ** Merging *)

(** [if b != "" { a = b }] and [if b > 0 { a = b }] *)
Definition set_string (a b : string) : string := if String.eqb b "" then a else b.
Definition set_pos (a b : Z) : Z := if 0 <? b then b else a.
Definition set_true (a b : bool) : bool := if b then b else a.

Definition Telemetry_Merge (t b : Telemetry) : Telemetry :=
  t <| tel_StatsdAddress := set_string (tel_StatsdAddress t) (tel_StatsdAddress b) |>.

(** The initialised backends are not merged. *)
Definition Notification_Merge (n b : Notification) : Notification :=
  n <| not_ClusterIdentifier := set_string (not_ClusterIdentifier n) (not_ClusterIdentifier b) |>
    <| not_PagerDutyServiceKey := set_string (not_PagerDutyServiceKey n) (not_PagerDutyServiceKey b) |>
    <| not_OpsGenieAPIKey := set_string (not_OpsGenieAPIKey n) (not_OpsGenieAPIKey b) |>.

Definition merge_ptr {A} (merge : A → A → A) (a b : option A) : option A :=
  match a, b with
  | None, Some b => Some b
  | Some a, Some b => Some (merge a b)
  | _, None => a
  end.

(** The clients and the addresses of the receiver are kept. *)
Definition Merge (c b : Config) : Config :=
  {|
     cfg_BindAddress := set_string (cfg_BindAddress c) (cfg_BindAddress b);
     cfg_ClusterScalingDisable := set_true (cfg_ClusterScalingDisable c) (cfg_ClusterScalingDisable b);
     cfg_ClusterScalingInterval := set_pos (cfg_ClusterScalingInterval c) (cfg_ClusterScalingInterval b);
     cfg_Consul := set_string (cfg_Consul c) (cfg_Consul b);
     cfg_ConsulClient := cfg_ConsulClient c;
     cfg_ConsulKeyRoot := set_string (cfg_ConsulKeyRoot c) (cfg_ConsulKeyRoot b);
     cfg_ConsulToken := set_string (cfg_ConsulToken c) (cfg_ConsulToken b);
     cfg_HTTPPort := set_string (cfg_HTTPPort c) (cfg_HTTPPort b);
     cfg_JobScalingDisable := set_true (cfg_JobScalingDisable c) (cfg_JobScalingDisable b);
     cfg_JobScalingInterval := set_pos (cfg_JobScalingInterval c) (cfg_JobScalingInterval b);
     cfg_LogLevel := set_string (cfg_LogLevel c) (cfg_LogLevel b);
     cfg_Nomad := set_string (cfg_Nomad c) (cfg_Nomad b);
     cfg_NomadToken := set_string (cfg_NomadToken c) (cfg_NomadToken b);
     cfg_NomadTLSServerName := set_string (cfg_NomadTLSServerName c) (cfg_NomadTLSServerName b);
     cfg_NomadClient := cfg_NomadClient c;
     cfg_Notification := merge_ptr Notification_Merge (cfg_Notification c) (cfg_Notification b);
     cfg_RPCAddr := cfg_RPCAddr c;
     cfg_RPCAdvertise := cfg_RPCAdvertise c;
     cfg_RPCPort := set_pos (cfg_RPCPort c) (cfg_RPCPort b);
     cfg_ScalingConcurrency := set_pos (cfg_ScalingConcurrency c) (cfg_ScalingConcurrency b);
     cfg_Telemetry := merge_ptr Telemetry_Merge (cfg_Telemetry c) (cfg_Telemetry b)
  |}.

(** ** Defaults *)

Definition DefaultBindAddr : string := "127.0.0.1".
Definition DefaultRPCPort : Z := 1314.
Definition DefaultHTTPPort : string := "1313".
Definition LocalConsulAddress : string := "localhost:8500".
Definition LocalNomadAddress : string := "http://localhost:4646".
Definition DefaultRPCAddr : TCPAddr := mkTCPAddr "127.0.0.1" 1314.

Definition DefaultConfig : Config :=
  zero_Config <| cfg_BindAddress := DefaultBindAddr |> <| cfg_Consul := LocalConsulAddress |>
    <| cfg_ConsulKeyRoot := "replicator/config" |> <| cfg_Nomad := LocalNomadAddress |>
    <| cfg_LogLevel := "INFO" |> <| cfg_ClusterScalingInterval := 10 |>
    <| cfg_JobScalingInterval := 10 |> <| cfg_HTTPPort := DefaultHTTPPort |>
    <| cfg_RPCPort := DefaultRPCPort |> <| cfg_RPCAddr := Some DefaultRPCAddr |>
    <| cfg_ScalingConcurrency := 10 |> <| cfg_Telemetry := Some (mkTelemetry "") |>
    <| cfg_Notification := Some (mkNotification "" "" "" []) |>.

Definition DevConfig : Config :=
  zero_Config <| cfg_BindAddress := DefaultBindAddr |> <| cfg_Consul := LocalConsulAddress |>
    <| cfg_ConsulKeyRoot := "replicator/config" |> <| cfg_Nomad := LocalNomadAddress |>
    <| cfg_LogLevel := "DEBUG" |> <| cfg_ClusterScalingInterval := 10 |>
    <| cfg_JobScalingInterval := 10 |> <| cfg_HTTPPort := DefaultHTTPPort |>
    <| cfg_RPCPort := DefaultRPCPort |> <| cfg_RPCAddr := Some DefaultRPCAddr |>
    <| cfg_ScalingConcurrency := 10 |> <| cfg_Telemetry := Some (mkTelemetry "") |>
    <| cfg_Notification := Some (mkNotification "" "" "" []) |>.

(** ** API clients *)

(** [strings.Split(s, sep)] for a non-empty [sep]; the fuel is the length of
    the text, which every piece shortens. *)
Fixpoint split_fuel (fuel : nat) (s sep : string) : list string :=
  match fuel with
  | O => [s]
  | S fuel =>
      match String.index 0 sep s with
      | None => [s]
      | Some i =>
          String.substring 0 i s ::
          split_fuel fuel (String.substring (i + String.length sep)
                             (String.length s - (i + String.length sep)) s) sep
      end
  end.
Definition Split (s sep : string) : list string := split_fuel (String.length s) s sep.

Section clients.
(** The default settings of the API packages, which read the environment, and
    the constructors of their clients, which may reject the settings. *)
Context (consul_DefaultConfig : ConsulHandle) (consul_NewClient : ConsulHandle → option error).
Context (nomad_NewClient : NomadHandle → option error).

Definition NewConsulClient (addr token : string) : error + ConsulHandle :=
  let config := consul_DefaultConfig in
  let config :=
    match Split addr "://" with
    | scheme :: address :: _ => config <| ch_Scheme := scheme |> <| ch_Address := address |>
    | address :: _ => config <| ch_Address := address |>
    | [] => config
    end in
  let config := if String.eqb token "" then config else config <| ch_Token := token |> in
  match consul_NewClient config with
  | Some err => inl err
  | None => inr config
  end.

Definition NewNomadClient (addr token tls_server_name : string) : error + NomadHandle :=
  let config := mkNomadHandle addr token tls_server_name in
  match nomad_NewClient config with
  | Some err => inl err
  | None => inr config
  end.

Definition InitializeClients (config : Config) : Config * option error :=
  match NewNomadClient (cfg_Nomad config) (cfg_NomadToken config) (cfg_NomadTLSServerName config) with
  | inl err => (config, Some err)
  | inr nClient =>
      match NewConsulClient (cfg_Consul config) (cfg_ConsulToken config) with
      | inl err => (config, Some err)
      | inr cClient =>
          (config <| cfg_ConsulClient := Some cClient |> <| cfg_NomadClient := Some nClient |>, None)
      end
  end.
End clients.

(** ** Parsing *)

(** An item of an HCL object: its keys and its value; only objects and lists of
    items can be looked into. *)
#[local] Set Warnings "-register-all".
Inductive hcl_node :=
| HObject (items : list (list string * hcl_node))
| HValue.

Abbreviation hcl_items := (list (list string * hcl_node)) (only parsing).

Definition configKeys : list string :=
  ["bind_address"; "http_port"; "rpc_port"; "nomad"; "nomad_token"; "nomad_tls_server_name";
   "consul"; "consul_key_root"; "consul_token"; "log_level"; "job_scaling_interval";
   "cluster_scaling_interval"; "telemetry"; "notification"; "cluster_scaling_disable";
   "job_scaling_disable"; "scaling_concurrency"].
Definition telemetryKeys : list string := ["statsd_address"].
Definition notificationKeys : list string :=
  ["cluster_identifier"; "pagerduty_service_key"; "opsgenie_service_key"].

(** [item.Keys[0]] of an item without keys is an index out of range. *)
Fixpoint invalidKeys {W} (items : hcl_items) (valid : list string) : M W (list string) :=
  match items with
  | [] => mret []
  | (keys, _) :: items =>
      match keys with
      | [] => go_panic "index out of range"
      | key :: _ =>
          rest ← invalidKeys items valid;
          mret (if bool_decide (key ∈ valid) then rest else key :: rest)
      end
  end.

Definition checkHCLKeys {W} (node : hcl_node) (valid : list string) : M W (option error) :=
  match node with
  | HObject items =>
      bad ← invalidKeys items valid;
      mret (match bad with [] => None | k :: _ => Some ("invalid key: " +:+ k) end)
  | HValue => mret (Some "cannot check HCL keys of type")
  end.

(** [list.Filter(key)] strips the key, which is compared without regard to
    case; [Elem] keeps the items without further keys. *)
Definition Filter_items (key : string) (items : hcl_items) : hcl_items :=
  omap (λ '(keys, v), match keys with
    | k :: keys => if String.eqb (ToLower k) key then Some (keys, v) else None
    | [] => None end) items.
Definition Elem (items : hcl_items) : hcl_items :=
  filter (λ kv, kv.1 = []) items.

Section parsing.
Context {W V : Type}.
(** [hcl.DecodeObject] into a map and [mapstructure.WeakDecode] of it; for the
    blocks, both in one. *)
Context (DecodeObject : hcl_items → error + gmap string V).
Context (WeakDecode : gmap string V → Config → error + Config).
Context (DecodeTelemetry : hcl_node → error + Telemetry).
Context (DecodeNotification : hcl_node → error + Notification).

Definition parseTelemetry (items : hcl_items) : M W (error + Telemetry) :=
  let items := Elem items in
  if (1 <? length items)%nat then mret (inl "only one 'Telemetry' block allowed")
  else
    match items with
    | [] => go_panic "index out of range"
    | (_, listVal) :: _ =>
        err ← checkHCLKeys listVal telemetryKeys;
        match err with
        | Some e => mret (inl e)
        | None => mret (DecodeTelemetry listVal)
        end
    end.

Definition parseNotification (items : hcl_items) : M W (error + Notification) :=
  let items := Elem items in
  if (1 <? length items)%nat then mret (inl "only one 'Notification' block allowed")
  else
    match items with
    | [] => go_panic "index out of range"
    | (_, listVal) :: _ =>
        err ← checkHCLKeys listVal notificationKeys;
        match err with
        | Some e => mret (inl e)
        | None => mret (DecodeNotification listVal)
        end
    end.

Definition parseConfig (items : hcl_items) : M W (error + Config) :=
  err ← checkHCLKeys (HObject items) configKeys;
  match err with
  | Some e => mret (inl e)
  | None =>
      match (match DecodeObject items with
             | inl e => inl e
             | inr m => WeakDecode (delete "notification" (delete "telemetry" m)) zero_Config
             end) with
      | inl e => mret (inl e)
      | inr result =>
          t ← (match Filter_items "telemetry" items with
               | [] => mret (inr (cfg_Telemetry result))
               | o => r ← parseTelemetry o;
                      mret (match r with inl e => inl e | inr t => inr (Some t) end)
               end);
          match t with
          | inl e => mret (inl e)
          | inr t =>
              let result := result <| cfg_Telemetry := t |> in
              n ← (match Filter_items "notification" items with
                   | [] => mret (inr (cfg_Notification result))
                   | o => r ← parseNotification o;
                          mret (match r with inl e => inl e | inr n => inr (Some n) end)
                   end);
              match n with
              | inl e => mret (inl e)
              | inr n => mret (inr (result <| cfg_Notification := n |>))
              end
          end
      end
  end.

(** [filepath.Abs], an open file and the copy of what is left in it, and
    [hcl.Parse], whose root is an object list or another node. *)
Context {File : Type}.
Context (Abs : string → M W (error + string)).
Context (os_Open : string → M W (error + File)).
Context (io_Copy : File → M W (error + string)).
Context (file_Close : File → M W unit).
Context (hcl_Parse : string → error + hcl_node).

Definition ParseConfig (r : File) : M W (error + Config) :=
  buf ← io_Copy r;
  match buf with
  | inl err => mret (inl err)
  | inr buf =>
      match hcl_Parse buf with
      | inl err => mret (inl ("error parsing: " +:+ err))
      | inr HValue => mret (inl "error parsing: root should be an object")
      | inr (HObject list) =>
          config ← parseConfig list;
          mret (match config with
                | inl err => inl ("error parsing 'config': " +:+ err)
                | inr config => inr config
                end)
      end
  end.

(** The deferred [Close] runs on the way out, of a panic as well. *)
Definition ParseConfigFile (path : string) : M W (error + Config) :=
  path ← Abs path;
  match path with
  | inl err => mret (inl err)
  | inr path =>
      f ← os_Open path;
      match f with
      | inl err => mret (inl err)
      | inr f => defer (file_Close f) (ParseConfig f)
      end
  end.
End parsing.

(** ** Loading *)

Definition HasSuffix (s suffix : string) : bool :=
  let n := String.length s in let k := String.length suffix in
  (k <=? n)%nat && String.eqb (String.substring (n - k) k s) suffix.

(** The files of a directory that are read. *)
Definition configFile (entry : string * bool) : bool :=
  let '(name, isDir) := entry in
  negb isDir && (HasSuffix name ".hcl" || HasSuffix name ".json").

Section loading.
Context {W : Type}.
(** [filepath.Clean] and the file system: whether a path is a directory, the entries of a directory
    in the order they are read, and the parsed content of a file. *)
Context (Clean : string → string).
Context (os_Stat : string → M W (error + bool)).
Context (Readdir : string → M W (error + list (string * bool))).
Context (ParseConfigFile : string → M W (error + Config)).

Fixpoint loadFiles (files : list string) (result : option Config) : M W (error + option Config) :=
  match files with
  | [] => mret (inr result)
  | f :: files =>
      r ← ParseConfigFile f;
      match r with
      | inl err => mret (inl ("Error loading " +:+ f +:+ ": " +:+ err))
      | inr config =>
          loadFiles files (Some (match result with None => config | Some c => Merge c config end))
      end
  end.

Definition configFiles (dir : string) (entries : list (string * bool)) : list string :=
  merge_sort String.le ((λ e, Clean (dir +:+ "/" +:+ e.1)) <$> filter (λ e, configFile e = true) entries).

(** Of the directory itself; it is opened and checked to be one. *)
Definition LoadConfigDir (dir : string) : M W (error + Config) :=
  r ← os_Stat dir;
  match r with
  | inl err => mret (inl err)
  | inr isDir =>
      if negb isDir then mret (inl "configuration path must be a directory")
      else
        r ← Readdir dir;
        match r with
        | inl err => mret (inl err)
        | inr entries =>
            match configFiles dir entries with
            | [] => mret (inr zero_Config)
            | files =>
                r ← loadFiles files None;
                match r with
                | inl err => mret (inl err)
                | inr result => c ← deref result; mret (inr c)
                end
            end
        end
  end.

Definition LoadConfig (path : string) : M W (error + Config) :=
  r ← os_Stat path;
  match r with
  | inl err => mret (inl err)
  | inr isDir =>
      if isDir : bool then LoadConfigDir path
      else
        let cleaned := Clean path in
        r ← ParseConfigFile cleaned;
        match r with
        | inl err => mret (inl ("Error loading " +:+ cleaned +:+ ": " +:+ err))
        | inr config => mret (inr config)
        end
  end.
End loading.

(** ** Properties *)

Lemma set_string_assoc a b c : set_string (set_string a b) c = set_string a (set_string b c).
Proof. unfold set_string. destruct (String.eqb c "") eqn:E; [done|]. by rewrite E. Qed.
Lemma set_pos_assoc a b c : set_pos (set_pos a b) c = set_pos a (set_pos b c).
Proof. unfold set_pos. destruct (0 <? c) eqn:E; [by rewrite E|done]. Qed.
Lemma set_true_assoc a b c : set_true (set_true a b) c = set_true a (set_true b c).
Proof. by destruct a, b, c. Qed.
Lemma set_string_idem a : set_string a a = a.
Proof. unfold set_string. by case_match. Qed.
Lemma set_pos_idem a : set_pos a a = a.
Proof. unfold set_pos. by case_match. Qed.
Lemma set_true_idem a : set_true a a = a.
Proof. by destruct a. Qed.

Lemma merge_ptr_assoc {A} (m : A → A → A) a b c :
  (∀ x y z, m (m x y) z = m x (m y z)) →
  merge_ptr m (merge_ptr m a b) c = merge_ptr m a (merge_ptr m b c).
Proof. intros Hm. destruct a, b, c; simpl; by rewrite ?Hm. Qed.
Lemma merge_ptr_idem {A} (m : A → A → A) a : (∀ x, m x x = x) → merge_ptr m a a = a.
Proof. intros Hm. destruct a; simpl; by rewrite ?Hm. Qed.

Lemma telemetry_assoc x y z : Telemetry_Merge (Telemetry_Merge x y) z = Telemetry_Merge x (Telemetry_Merge y z).
Proof. unfold Telemetry_Merge, modify; simpl. by rewrite set_string_assoc. Qed.
Lemma notification_assoc x y z :
  Notification_Merge (Notification_Merge x y) z = Notification_Merge x (Notification_Merge y z).
Proof. unfold Notification_Merge, modify; simpl. by rewrite !set_string_assoc. Qed.

(** Merging configurations is a monoid with the empty configuration as
    right identity and is idempotent, so that defaults, files and flags may be
    merged in any grouping; and whatever is merged into the defaults, the
    intervals, the port and the concurrency stay positive. *)
Theorem merge_laws a b c :
  Merge (Merge a b) c = Merge a (Merge b c) ∧ Merge a zero_Config = a ∧ Merge a a = a ∧
  let m := Merge DefaultConfig a in
  0 < cfg_ScalingConcurrency m ∧ 0 < cfg_ClusterScalingInterval m ∧
  0 < cfg_JobScalingInterval m ∧ 0 < cfg_RPCPort m.
Proof.
  split_and!.
  - unfold Merge; simpl. rewrite !set_string_assoc, !set_pos_assoc, !set_true_assoc.
    rewrite (merge_ptr_assoc _ _ _ _ telemetry_assoc), (merge_ptr_assoc _ _ _ _ notification_assoc). done.
  - destruct a as [??????????????? n ???? t]; unfold Merge; simpl. unfold set_string, set_pos, set_true. simpl.
    by destruct n, t.
  - destruct a; unfold Merge; simpl.
    rewrite !set_string_idem, !set_pos_idem, !set_true_idem.
    by rewrite !merge_ptr_idem by (intros []; unfold Notification_Merge, Telemetry_Merge, modify;
      simpl; by rewrite !set_string_idem).
  - cbn zeta. unfold Merge; simpl. unfold set_pos.
    split_and!; destruct (Z.ltb_spec 0 (cfg_ScalingConcurrency a)),
      (Z.ltb_spec 0 (cfg_ClusterScalingInterval a)), (Z.ltb_spec 0 (cfg_JobScalingInterval a)),
      (Z.ltb_spec 0 (cfg_RPCPort a)); done.
Qed.

Lemma config_files_perm Clean dir entries entries' :
  entries ≡ₚ entries' → configFiles Clean dir entries = configFiles Clean dir entries'.
Proof.
  intros Hp. unfold configFiles. eapply (StronglySorted_unique String.le).
  - apply (StronglySorted_merge_sort _).
  - apply (StronglySorted_merge_sort _).
  - rewrite !merge_sort_Permutation. by rewrite Hp.
Qed.

(** Loading a directory does not depend on the order in which the file
    system lists it: the files with a configuration suffix are read in
    lexicographic order and merged left to right. *)
Theorem load_dir_deterministic {W} Clean os_Stat (R R' : string → M W (error + list (string * bool)))
    ParseConfigFile dir (w : W) entries entries' w1 w2 :
  os_Stat dir w = (Ret (inr true), w1) →
  R dir w1 = (Ret (inr entries), w2) → R' dir w1 = (Ret (inr entries'), w2) → entries ≡ₚ entries' →
  LoadConfigDir Clean os_Stat R ParseConfigFile dir w = LoadConfigDir Clean os_Stat R' ParseConfigFile dir w ∧
  StronglySorted String.le (configFiles Clean dir entries) ∧
  configFiles Clean dir entries ≡ₚ
    ((λ e, Clean (dir +:+ "/" +:+ e.1)) <$> filter (λ e, configFile e = true) entries).
Proof.
  intros Hs HR HR' Hp. split_and!.
  - unfold LoadConfigDir. rewrite !(bind_run _ _ _ _ _ Hs). cbn [negb].
    rewrite (bind_run _ _ _ _ _ HR), (bind_run _ _ _ _ _ HR').
    by rewrite (config_files_perm Clean dir entries entries' Hp).
  - apply (StronglySorted_merge_sort _).
  - apply merge_sort_Permutation.
Qed.

(** A telemetry block with a label crashes the parser: after the block's key is
    stripped no item without keys is left. *)
Lemma labelled_block_panics {W} (dec : hcl_node → error + Telemetry) label v (w : W) :
  parseTelemetry dec (Filter_items "telemetry" [(["telemetry"; label], v)]) w =
    (Panic "index out of range", w).
Proof. done. Qed.

(** ** Witness *)

Definition demo_dir (l : list (string * bool)) : string → M unit (error + list (string * bool)) :=
  λ _, mret (inr l).

Lemma load_dir_deterministic_witness :
  LoadConfigDir id (λ _, mret (inr true)) (demo_dir [("b.hcl", false); ("a.json", false)])
    (λ f, mret (inr (zero_Config <| cfg_LogLevel := f |>))) "etc" tt =
  LoadConfigDir id (λ _, mret (inr true)) (demo_dir [("a.json", false); ("b.hcl", false)])
    (λ f, mret (inr (zero_Config <| cfg_LogLevel := f |>))) "etc" tt.
Proof.
  refine (proj1 (load_dir_deterministic id _ (demo_dir [("b.hcl", false); ("a.json", false)])
    (demo_dir [("a.json", false); ("b.hcl", false)]) _ "etc" tt _ _ tt tt eq_refl eq_refl eq_refl _)).
  apply Permutation_swap.
Defined.
