(* ===== verification/Flags.v ===== *)
(** * Flags: command-line flags

    What the commands use of Go's [flag] package (Go 1.9): a flag is [-name] or
    [--name], with its value after an equals sign or, for a flag that is not
    boolean, as the next argument; the first other argument ends the flags.
    Integers are read by [strconv.ParseInt(s, 0, 64)]. *)

From Stdlib Require Import Ascii.
From S2P Require Import Prelude GoNum Structs.

Inductive flag_kind := FString | FBool | FInt.
Inductive flag_value := VString (s : string) | VBool (b : bool) | VInt (z : Z).

(** ** Values *)

Definition ParseBool (s : string) : option bool :=
  if bool_decide (s ∈ ["1"; "t"; "T"; "true"; "TRUE"; "True"]) then Some true
  else if bool_decide (s ∈ ["0"; "f"; "F"; "false"; "FALSE"; "False"]) then Some false
  else None.

(** The value of a digit or letter. *)
Definition digit (c : ascii) : option Z :=
  let n := Z.of_N (Ascii.N_of_ascii c) in
  if (48 <=? n) && (n <=? 57) then Some (n - 48)
  else if (97 <=? n) && (n <=? 122) then Some (n - 97 + 10)
  else if (65 <=? n) && (n <=? 90) then Some (n - 65 + 10)
  else None.

Fixpoint digits (base acc : Z) (s : string) : option Z :=
  match s with
  | EmptyString => Some acc
  | String c s' =>
      d ← digit c;
      if base <=? d then None else digits base (acc * base + d) s'
  end.

(** [ParseUint] in base 0: a prefix selects hexadecimal or octal. *)
Definition parse_magnitude (s : string) : option Z :=
  match s with
  | EmptyString => None
  | String "0"%char (String c s') =>
      if bool_decide (c = "x"%char) || bool_decide (c = "X"%char)
      then match s' with EmptyString => None | _ => digits 16 0 s' end
      else digits 8 0 (String c s')
  | _ => digits 10 0 s
  end.

Definition ParseInt (s : string) : option Z :=
  let signed (neg : bool) (s : string) :=
    n ← parse_magnitude s;
    let z := if neg : bool then - n else n in
    if (min_int <=? z) && (z <=? max_int) then Some z else None in
  match s with
  | String "+"%char s' => signed false s'
  | String "-"%char s' => signed true s'
  | _ => signed false s
  end.

Definition parse_value (k : flag_kind) (v : string) : option flag_value :=
  match k with
  | FString => Some (VString v)
  | FBool => VBool <$> ParseBool v
  | FInt => VInt <$> ParseInt v
  end.

(** ** Arguments *)

(** The name of a flag argument, without its dashes: [None] if the argument is
    not a flag. *)
Definition flagName (s : string) : option string :=
  match s with
  | String "-"%char (String "-"%char EmptyString) => None
  | String "-"%char (String "-"%char name) => Some name
  | String "-"%char (String c rest) => Some (String c rest)
  | _ => None
  end.

(** The name and the value after the first equals sign. *)
Fixpoint splitValue (name : string) : string * option string :=
  match name with
  | EmptyString => (EmptyString, None)
  | String c rest =>
      if bool_decide (c = "="%char) then (EmptyString, Some rest)
      else let '(n, v) := splitValue rest in (String c n, v)
  end.

Definition badName (name : string) : bool :=
  match name with
  | EmptyString => true
  | String c _ => bool_decide (c = "-"%char) || bool_decide (c = "="%char)
  end.

Fixpoint flags_Parse (spec : gmap string flag_kind) (args : list string)
    (set : gmap string flag_value) : error + gmap string flag_value :=
  match args with
  | [] => inr set
  | s :: rest =>
      match flagName s with
      | None => inr set
      | Some name =>
          if badName name then inl "bad flag syntax"
          else
            let '(name, value) := splitValue name in
            match spec !! name, value, rest with
            | None, _, _ => inl "flag provided but not defined"
            | Some FBool, None, _ => flags_Parse spec rest (<[name := VBool true]> set)
            | Some k, Some v, _ =>
                match parse_value k v with
                | Some x => flags_Parse spec rest (<[name := x]> set)
                | None => inl "invalid value"
                end
            | Some k, None, v :: rest =>
                match parse_value k v with
                | Some x => flags_Parse spec rest (<[name := x]> set)
                | None => inl "invalid value"
                end
            | Some _, None, [] => inl "flag needs an argument"
            end
      end
  end.

(** The variable of a flag, with the zero value as its default. *)
Definition string_flag (set : gmap string flag_value) (name : string) : string :=
  match set !! name with Some (VString s) => s | _ => "" end.
Definition bool_flag (set : gmap string flag_value) (name : string) : bool :=
  match set !! name with Some (VBool b) => b | _ => false end.
Definition int_flag (set : gmap string flag_value) (name : string) : Z :=
  match set !! name with Some (VInt z) => z | _ => 0 end.

(** ** What is written is what is read *)

Definition render_value (v : flag_value) : string :=
  match v with
  | VString s => s
  | VBool b => if b then "true" else "false"
  | VInt z => pretty z
  end.

(** The argument [-name=value]. *)
Definition render (f : string * flag_value) : string :=
  String "-" (f.1 +:+ String "=" (render_value f.2)).

Definition value_kind (v : flag_value) : flag_kind :=
  match v with VString _ => FString | VBool _ => FBool | VInt _ => FInt end.
Definition value_ok (v : flag_value) : Prop :=
  match v with VInt z => is_int z | _ => True end.

Lemma digit_pretty (n : N) : (n < 10)%N → digit (pretty_N_char n) = Some (Z.of_N n).
Proof.
  intros Hn. assert (n = 0 ∨ n = 1 ∨ n = 2 ∨ n = 3 ∨ n = 4 ∨ n = 5 ∨ n = 6 ∨ n = 7 ∨ n = 8 ∨ n = 9)%N by lia.
  naive_solver.
Qed.

Lemma digits_pretty (n : N) s : digits 10 0 (pretty_N_go n s) = digits 10 (Z.of_N n) s.
Proof.
  revert s. induction (N.lt_wf_0 n) as [n _ IH]; intros s.
  destruct (decide (n = 0)%N) as [->|Hn]; [by rewrite pretty_N_go_0|].
  rewrite pretty_N_go_step by lia. rewrite IH by (apply N.div_lt; lia). simpl.
  pose proof (N.mod_upper_bound n 10 ltac:(done)) as Hm.
  rewrite digit_pretty by done. simpl.
  rewrite (proj2 (Z.leb_gt _ _)) by lia. f_equal.
  rewrite (N.div_mod n 10) at 3 by done. lia.
Qed.

(** The text of a positive number starts with a digit other than zero. *)
Lemma pretty_head (n : N) s : (0 < n)%N → ∃ d s', (0 < d < 10)%N ∧ pretty_N_go n s = String (pretty_N_char d) s'.
Proof.
  revert s. induction (N.lt_wf_0 n) as [n _ IH]; intros s Hn. rewrite pretty_N_go_step by done.
  destruct (decide (n < 10)%N) as [Hs|Hs].
  - rewrite N.div_small by done. rewrite pretty_N_go_0, N.mod_small by done. eauto.
  - apply IH; [by apply N.div_lt|]. apply N.div_str_pos. lia.
Qed.

Lemma parse_magnitude_pretty (n : N) : parse_magnitude (pretty n) = Some (Z.of_N n).
Proof.
  unfold pretty, pretty_N. case_decide as Hn; [by subst|].
  destruct (pretty_head n "" ltac:(lia)) as (d & s' & Hd & E).
  assert (parse_magnitude (pretty_N_go n "") = digits 10 0 (pretty_N_go n "")) as ->; [|by rewrite digits_pretty].
  rewrite E. clear -Hd.
  assert (d = 1 ∨ d = 2 ∨ d = 3 ∨ d = 4 ∨ d = 5 ∨ d = 6 ∨ d = 7 ∨ d = 8 ∨ d = 9)%N by lia.
  naive_solver.
Qed.

Lemma ParseInt_pretty (z : Z) : is_int z → ParseInt (pretty z) = Some z.
Proof.
  intros Hz. unfold is_int in Hz.
  assert (∀ p, ParseInt (pretty (N.pos p)) = if (Zpos p <=? max_int) then Some (Zpos p) else None) as Hpos.
  { intros p. pose proof (parse_magnitude_pretty (N.pos p)) as Hm.
    unfold pretty, pretty_N in *. rewrite decide_False in * by done.
    destruct (pretty_head (N.pos p) "" ltac:(done)) as (d & s' & Hd & E). rewrite E in *.
    assert (ParseInt (String (pretty_N_char d) s') =
      n ← parse_magnitude (String (pretty_N_char d) s');
      if (min_int <=? n) && (n <=? max_int) then Some n else None) as ->.
    { clear -Hd. assert (d = 1 ∨ d = 2 ∨ d = 3 ∨ d = 4 ∨ d = 5 ∨ d = 6 ∨ d = 7 ∨ d = 8 ∨ d = 9)%N by lia.
      naive_solver. }
    rewrite Hm. simpl. by destruct (Z.leb_spec min_int (Zpos p)); [|unfold min_int in *; lia]. }
  destruct z as [|p|p]; [done|..].
  - change (pretty (Z.pos p)) with (pretty (N.pos p)). rewrite Hpos.
    by rewrite (proj2 (Z.leb_le _ _)) by lia.
  - change (pretty (Z.neg p)) with (String "-" (pretty (N.pos p))).
    cbn -[parse_magnitude pretty]. rewrite parse_magnitude_pretty. simpl.
    rewrite !(proj2 (Z.leb_le _ _)) by lia. done.
Qed.

Lemma parse_render v : value_ok v → parse_value (value_kind v) (render_value v) = Some v.
Proof.
  destruct v as [s|b|z]; simpl; intros H; [done|by destruct b|].
  by rewrite ParseInt_pretty.
Qed.

(** A name the package accepts: it has no equals sign and does not begin with a
    dash. *)
Definition name_ok (n : string) : Prop :=
  badName n = false ∧ splitValue n = (n, None).

Lemma split_render n v : splitValue n = (n, None) → splitValue (n +:+ String "=" v) = (n, Some v).
Proof.
  induction n as [|c n IH]; simpl; [done|].
  case_bool_decide; [done|]. destruct (splitValue n) as [n' o] eqn:E. intros [= -> ->].
  by rewrite IH.
Qed.

Lemma flag_of_render n v :
  badName n = false → flagName (render (n, v)) = Some (n +:+ String "=" (render_value v)).
Proof.
  unfold render; simpl. destruct n as [|c n]; simpl; [done|]. intros H. apply orb_false_iff in H as [H _].
  apply bool_decide_eq_false in H. destruct c as [[] [] [] [] [] [] [] []]; try done.
Qed.

(** Flags survive the command line: every list of flags with declared
    names and values of the declared kinds, written as [-name=value], is read
    back as exactly these settings, a later one overriding an earlier one;
    integers are written in decimal. *)
Theorem flags_roundtrip spec fs set :
  Forall (λ f, name_ok f.1 ∧ value_ok f.2 ∧ spec !! f.1 = Some (value_kind f.2)) fs →
  flags_Parse spec (render <$> fs) set = inr (foldl (λ m f, <[f.1 := f.2]> m) set fs).
Proof.
  intros H. revert set. induction H as [|[n v] fs [[Hb Hs] [Hv Hk]] _ IH]; intros set; [done|].
  cbn [fmap list_fmap foldl flags_Parse fst snd] in *. rewrite flag_of_render by done.
  assert (badName (n +:+ String "=" (render_value v)) = false) as -> by (destruct n; done).
  rewrite split_render by done. rewrite Hk. pose proof (parse_render v Hv) as E.
  destruct (value_kind v); rewrite E; apply IH.
Qed.

Lemma flags_roundtrip_witness :
  flags_Parse {[ "config" := FString; "rpc-port" := FInt; "dev" := FBool ]}
    ["-config=a=b"; "-rpc-port=-1314"; "-dev=false"; "-config=/etc"] ∅ =
  inr {[ "config" := VString "/etc"; "rpc-port" := VInt (-1314); "dev" := VBool false ]}.
Proof.
  refine (flags_roundtrip {[ "config" := FString; "rpc-port" := FInt; "dev" := FBool ]}
    [("config", VString "a=b"); ("rpc-port", VInt (-1314)); ("dev", VBool false); ("config", VString "/etc")] ∅ _).
  repeat constructor; simpl; unfold is_int, min_int, max_int; lia.
Defined.
