(* ===== verification/Meta.v ===== *)
(** * Meta: the output of the flag sets

    [command/meta.go]: a flag set reports an error by writing it to a pipe,
    from which a goroutine forwards the lines to the terminal.  The writer and
    the goroutine are a step relation; a write returns when the goroutine has
    taken its last byte. *)

From Stdlib Require Import Ascii.
From stdpp Require Import relations well_founded.
From S2P Require Import Prelude GoNum Structs Flags.

(** ** The scanner of [bufio] *)

(** [bufio.MaxScanTokenSize], the most the scanner's buffer grows to. *)
Definition MaxScanTokenSize : nat := 64 * 1024.

Definition lf : ascii := ascii_of_nat 10.
Definition cr : ascii := ascii_of_nat 13.

(** [bufio.ScanLines] before the end of the input: the first line of the buffer
    and what follows it, if the line is complete. *)
Fixpoint ScanLines (buffer : list ascii) : option (list ascii * list ascii) :=
  match buffer with
  | [] => None
  | c :: rest =>
      if bool_decide (c = lf) then Some ([], rest)
      else '(line, rest) ← ScanLines rest; Some (c :: line, rest)
  end.

(** The carriage return in front of the line feed is dropped. *)
Definition dropCR (line : list ascii) : list ascii :=
  match reverse line with
  | c :: l => if bool_decide (c = cr) then reverse l else line
  | [] => line
  end.

(** ** [Meta.FlagSet] *)

(** The default flags a command may ask for; [FlagSet] does not look at them. *)
Definition FlagSetNone : Z := 0.
Definition FlagSetClient : Z := 2.
Definition FlagSetDefault : Z := FlagSetClient.

(** What the writer has not handed over yet, the scanner's buffer, the errors
    shown on the terminal, and whether the goroutine has ended. *)
Record FlagSet := mkFlagSet {
  fs_pending : list ascii;
  fs_buffer : list ascii;
  fs_errors : list (list ascii);
  fs_ended : bool;
}.

(** [errScanner.Scan]: a complete line of the buffer is shown; otherwise the
    scanner reads some of what is being written, as far as the buffer has room;
    a full buffer without a line is an error that ends the loop. *)
Inductive forward (limit : nat) : FlagSet → FlagSet → Prop :=
| forward_line p b l b' shown :
    ScanLines b = Some (l, b') →
    forward limit (mkFlagSet p b shown false) (mkFlagSet p b' (shown ++ [dropCR l]) false)
| forward_read p q b shown :
    ScanLines b = None → p ≠ [] → (length b + length p ≤ limit)%nat →
    forward limit (mkFlagSet (p ++ q) b shown false) (mkFlagSet q (b ++ p) shown false)
| forward_too_long p b shown :
    ScanLines b = None → (limit ≤ length b)%nat →
    forward limit (mkFlagSet p b shown false) (mkFlagSet p b shown true).

(** A write of the flag package: the error and a line feed, in one call. *)
Definition report (text : list ascii) : FlagSet := mkFlagSet text [] [] false.

(** The write has returned. *)
Definition written (s : FlagSet) : Prop := fs_pending s = [].

(** ** What is shown *)

(** The text of the lines. *)
Definition unlines (ls : list (list ascii)) : list ascii := ls ≫= λ l, l ++ [lf].

(** The lines in front of the first one that does not fit the buffer. *)
Fixpoint fitting (limit : nat) (ls : list (list ascii)) : list (list ascii) :=
  match ls with
  | l :: ls => if (length l <? limit)%nat then l :: fitting limit ls else []
  | [] => []
  end.

Lemma scan_lines_some b l b' : ScanLines b = Some (l, b') → b = l ++ lf :: b' ∧ lf ∉ l.
Proof.
  revert l b'. induction b as [|c b IH]; simpl; [done|]. intros l b'. case_bool_decide as Hc.
  - intros [= <- <-]. subst. split; [done|]. by apply not_elem_of_nil.
  - destruct (ScanLines b) as [[l0 b0]|]; [|done]. intros [= <- <-].
    destruct (IH _ _ eq_refl) as [-> Hl]. split; [done|]. rewrite elem_of_cons. naive_solver.
Qed.

Lemma scan_lines_none b : ScanLines b = None → lf ∉ b.
Proof.
  induction b as [|c b IH]; simpl; [intros _; apply not_elem_of_nil|]. case_bool_decide; [done|].
  destruct (ScanLines b) as [[]|]; [done|]. intros _. rewrite elem_of_cons. naive_solver.
Qed.

(** A line has one end only. *)
Lemma line_inj (l l' x x' : list ascii) :
  lf ∉ l → lf ∉ l' → l ++ lf :: x = l' ++ lf :: x' → l = l' ∧ x = x'.
Proof.
  revert l'. induction l as [|c l IH]; intros [|c' l'] Hl Hl'; simpl.
  - by intros [= ->].
  - intros [= <- _]. by destruct Hl'; left.
  - intros [= -> _]. by destruct Hl; left.
  - intros [= -> E]. rewrite elem_of_cons in Hl, Hl'. destruct (IH l') as [-> ->]; naive_solver.
Qed.

(** What lies in front of the end of a line. *)
Lemma line_prefix (l x b p : list ascii) :
  lf ∉ b → l ++ lf :: x = b ++ p → (length b ≤ length l)%nat ∧ p ≠ [].
Proof.
  revert l. induction b as [|c b IH]; intros l Hb E; simpl in *.
  - split; [lia|]. intros ->. by destruct l.
  - rewrite not_elem_of_cons in Hb. destruct l as [|c' l]; simplify_eq/=; [naive_solver|].
    destruct (IH l) as [??]; [naive_solver|done|]. split; [lia|done].
Qed.

(** Along a run, what was shown are fitting lines and what is buffered or
    pending is the text of the other ones. *)
Definition forwarded (limit : nat) (ls : list (list ascii)) (s : FlagSet) : Prop :=
  ∃ shown rest, ls = shown ++ rest ∧ fs_errors s = dropCR <$> shown ∧
    Forall (λ l, length l < limit)%nat shown ∧ unlines rest = fs_buffer s ++ fs_pending s ∧
    (length (fs_buffer s) ≤ limit)%nat ∧
    (fs_ended s = true → fs_pending s ≠ [] ∧ ∃ l, head rest = Some l ∧ (limit ≤ length l)%nat).

Section runs.
Context (limit : nat) (ls : list (list ascii)).
Context (Hlimit : (0 < limit)%nat) (Hls : Forall (λ l, lf ∉ l) ls).

Lemma report_forwarded : forwarded limit ls (report (unlines ls)).
Proof. exists [], ls. split_and!; [done..|simpl; lia|done]. Qed.

(** A buffer that is full without a line holds the start of a line that does
    not fit. *)
Lemma full_buffer b p rest :
  ScanLines b = None → (limit ≤ length b)%nat → unlines rest = b ++ p →
  p ≠ [] ∧ ∃ l, head rest = Some l ∧ (limit ≤ length l)%nat.
Proof.
  intros Hb Hl Hu. destruct rest as [|l rest].
  { destruct b; simpl in *; [lia|done]. }
  cbn in Hu. rewrite <-app_assoc in Hu.
  destruct (line_prefix _ _ _ _ (scan_lines_none _ Hb) Hu). split; [done|]. exists l. split; [done|lia].
Qed.

Lemma forward_forwarded s s' : forward limit s s' → forwarded limit ls s → forwarded limit ls s'.
Proof.
  intros Hs (shown & rest & -> & He & Hf & Hu & Hroom & _). apply Forall_app in Hls as [_ Hrest].
  revert He Hu Hroom. destruct Hs as [p b l b' es Hb|p q b es Hb Hp Hl|p b es Hb Hl]; simpl; intros -> Hu Hroom.
  - destruct (scan_lines_some _ _ _ Hb) as [-> Hnl]. destruct rest as [|l0 rest]; [by destruct l|].
    apply Forall_cons in Hrest as [Hl0 _]. cbn in Hu. rewrite <-!app_assoc in Hu.
    apply line_inj in Hu as [-> Hu]; [|done..]. rewrite length_app in Hroom. simpl in Hroom.
    exists (shown ++ [l]), rest. rewrite fmap_app, <-app_assoc, Forall_app, Forall_singleton.
    split_and!; simpl; try done; lia.
  - exists shown, rest. rewrite Hu, app_assoc. split_and!; simpl; try done. rewrite length_app. lia.
  - exists shown, rest. split_and!; try done. intros _. by eapply full_buffer.
Qed.

(** The bytes that are still to be read, then those still to be shown. *)
Definition remaining (s : FlagSet) : nat :=
  2 * length (fs_pending s) + length (fs_buffer s) + (if fs_ended s then 0 else 1).

Lemma forward_remaining s s' : forward limit s s' → (remaining s' < remaining s)%nat.
Proof.
  clear Hlimit. intros [p b l b' es Hb|p q b es Hb Hp Hl|p b es Hb Hl]; unfold remaining; simpl; [| |lia].
  - destruct (scan_lines_some _ _ _ Hb) as [-> _]. rewrite length_app. simpl. lia.
  - rewrite !length_app. destruct p; [done|]. simpl. lia.
Qed.

(** Where the goroutine waits, nothing is left to be read. *)
Lemma forward_waits s : (∀ s', ¬ forward limit s s') → fs_ended s = false → (length (fs_buffer s) ≤ limit)%nat →
  ScanLines (fs_buffer s) = None ∧ fs_pending s = [].
Proof.
  clear Hlimit. destruct s as [p b es e]; simpl. intros Hnf -> Hroom.
  destruct (ScanLines b) as [[l b']|] eqn:Hb; [by destruct (Hnf _ (forward_line _ _ _ _ _ _ Hb))|].
  split; [done|]. destruct p as [|c p]; [done|]. destruct (decide (limit ≤ length b)%nat) as [Hl|Hl].
  - by destruct (Hnf _ (forward_too_long _ _ _ _ Hb Hl)).
  - destruct (Hnf (mkFlagSet p (b ++ [c]) es false)).
    apply (forward_read limit [c] p); [done..|simpl; lia].
Qed.
End runs.

Lemma fitting_all limit shown rest :
  Forall (λ l, length l < limit)%nat shown → fitting limit (shown ++ rest) = shown ++ fitting limit rest.
Proof.
  induction 1 as [|l shown Hl _ IH]; simpl; [done|]. by rewrite (proj2 (Nat.ltb_lt _ _) Hl), IH.
Qed.

Lemma max_positive : (0 < MaxScanTokenSize)%nat.
Proof. apply Nat.ltb_lt. vm_compute. reflexivity. Qed.

#[local] Opaque MaxScanTokenSize.

(** C39. The errors of a flag set: however the write is split into reads, the
    goroutine comes to rest after finitely many steps; then it has shown the
    lines in front of the first one that does not fit the scanner's buffer.
    The write has returned exactly if every line fits; otherwise the goroutine
    has ended and the command is blocked in the write for good. *)
Theorem flag_errors_forwarded ls (s : FlagSet) :
  Forall (λ l, lf ∉ l) ls →
  rtc (forward MaxScanTokenSize) (report (unlines ls)) s →
  sn (forward MaxScanTokenSize) s ∧
  (nf (forward MaxScanTokenSize) s →
   fs_errors s = dropCR <$> fitting MaxScanTokenSize ls ∧
   (written s ↔ fitting MaxScanTokenSize ls = ls) ∧ (written s ↔ fs_ended s = false)).
Proof.
  intros Hls Hrun. split.
  { refine (wf_projected lt remaining _ lt_wf s). intros s1 s2 Hs. exact (forward_remaining _ _ _ Hs). }
  assert (forwarded MaxScanTokenSize ls s) as (shown & rest & -> & He & Hf & Hu & Hroom & Hend).
  { revert Hrun. generalize (report_forwarded MaxScanTokenSize ls max_positive).
    generalize (report (unlines ls)). intros s0 H0 Hrun. revert H0.
    induction Hrun as [x|x y z Hxy Hyz IH]; [done|]. intros Hx.
    exact (IH (forward_forwarded _ _ max_positive Hls _ _ Hxy Hx)). }
  intros Hnf. rewrite (fitting_all _ _ _ Hf). unfold written. destruct (fs_ended s) eqn:Es.
  - destruct (Hend eq_refl) as (Hp & l & Hhd & Hl). destruct rest as [|l' rest]; simplify_eq/=.
    rewrite (proj2 (Nat.ltb_ge _ _) Hl), !app_nil_r. split_and!; [done| |naive_solver].
    split; [naive_solver|]. intros E. apply (f_equal length) in E. rewrite length_app in E. simpl in E. lia.
  - destruct (forward_waits MaxScanTokenSize s) as [Hb Hp]; [|done..|].
    { intros s' Hs. apply Hnf. by exists s'. }
    rewrite Hp, app_nil_r in Hu. destruct rest as [|l rest].
    + rewrite !app_nil_r. naive_solver.
    + exfalso. apply (scan_lines_none _ Hb). rewrite <-Hu. cbn. set_solver.
Qed.

(** With nothing written and nothing buffered, the goroutine waits. *)
Lemma idle_rests limit es s' : (0 < limit)%nat → ¬ forward limit (mkFlagSet [] [] es false) s'.
Proof.
  intros Hl Hs. remember (mkFlagSet [] [] es false) as s eqn:E. revert E.
  destruct Hs as [p b l b' ? Hb|p q b ? Hb Hp|p b ? Hb Hb']; intros [= E1 E2 E3]; subst.
  - done.
  - by destruct p.
  - simpl in *. lia.
Qed.

(** A report of one line, taken in two reads. *)
Lemma flag_errors_forwarded_witness :
  ∃ s, rtc (forward MaxScanTokenSize) (report (unlines [["n"; "o"]%char])) s ∧
    fs_errors s = [["n"; "o"]%char].
Proof.
  assert (rtc (forward MaxScanTokenSize) (report (unlines [["n"; "o"]%char]))
    (mkFlagSet [] [] [["n"; "o"]%char] false)) as Hrun.
  { eapply rtc_l. { apply (forward_read _ ["n"%char] ["o"%char; lf]); [done..|apply Nat.leb_le; vm_compute; reflexivity]. }
    eapply rtc_l. { apply (forward_read _ ["o"%char; lf] []); [done..|apply Nat.leb_le; vm_compute; reflexivity]. }
    apply rtc_once. by apply (forward_line _ [] _ ["n"; "o"]%char []). }
  eexists. split; [exact Hrun|].
  refine (proj1 (proj2 (flag_errors_forwarded _ _ _ Hrun) _)).
  - apply Forall_singleton. apply (bool_decide_unpack _). reflexivity.
  - intros [s' Hs]. exact (idle_rests _ _ _ max_positive Hs).
Defined.
