(* ===== verification/FailsafeCmd.v ===== *)
(** * FailsafeCmd: the failsafe command

    [command/failsafe.go] and [replicator/structs/failsafe.go]: flags, the
    checks and the confirmation in front of an administrative change of the
    circuit breaker, and the change itself. *)

From Stdlib Require Import Ascii.
From S2P Require Import Prelude GoNum Structs Interfaces Sim State Consul StateFacts Failsafe FailsafeFacts Config Flags.

(** ** The command *)

Record FailsafeMode := mkFailsafeMode {
  fsm_Config : Config;
  fsm_Disable : bool;
  fsm_Enable : bool;
  fsm_Force : bool;
  fsm_Verb : string;
}.

#[export] Instance eta_FailsafeMode : Eta FailsafeMode := λ r,
  mkFailsafeMode (fsm_Config r) (fsm_Disable r) (fsm_Enable r) (fsm_Force r) (fsm_Verb r).

Definition failsafeFlags : gmap string flag_kind :=
  {[ "config" := FString; "consul" := FString; "consul-token" := FString; "state-path" := FString;
     "enable" := FBool; "disable" := FBool; "force" := FBool ]}.

Section command.
Context {W : Type} {RT : Runtime W} {CC : ConsulClient W} {NT : NotifierAPI W}.
Context (LoadConfig : string → M W (error + Config)).
Context (InitializeClients : Config → Config * option error).
(** The answer of the operator. *)
Context (UI_Ask : string → M W (error + string)).

(** The configuration and the path of the state, or nil. *)
Definition parseFlags (args : list string) : M W (option (FailsafeMode * string)) :=
  match flags_Parse failsafeFlags args ∅ with
  | inl _ => mret None
  | inr set =>
      let cliConfig := zero_Config <| cfg_Consul := string_flag set "consul" |>
                                   <| cfg_ConsulToken := string_flag set "consul-token" |> in
      let mode (config : Config) :=
        mkFailsafeMode (Merge config cliConfig) (bool_flag set "disable") (bool_flag set "enable")
          (bool_flag set "force") (if bool_flag set "disable" then "disable" else "enable") in
      let configPath := string_flag set "config" in
      if String.eqb configPath "" then
        mret (Some (mode DefaultConfig, string_flag set "state-path"))
      else
        r ← LoadConfig configPath;
        match r with
        | inl _ => mret None
        | inr current => mret (Some (mode (Merge DefaultConfig current), string_flag set "state-path"))
        end
  end.

(** The confirmation: [None] lets the change proceed, otherwise the exit code. *)
Definition confirm (conf : FailsafeMode) : M W (option Z) :=
  if fsm_Force conf then mret None
  else
    r ← UI_Ask (fsm_Verb conf);
    match r with
    | inl _ => mret (Some 1)
    | inr answer =>
        match ToLower answer with
        | EmptyString => mret (Some 0)
        | String c _ =>
            if bool_decide (c = "n"%char) then mret (Some 0)
            else if bool_decide (c = "y"%char) && (1 <? String.length answer)%nat then mret (Some 0)
            else if negb (String.eqb answer "y") then mret (Some 1)
            else mret None
        end
    end.

(** Everything before the change: the exit code of an early return, or the
    state to change. *)
Definition checkRequest (conf : FailsafeMode) (statePath : string) : M W (Z + ScalingState) :=
  if (fsm_Enable conf && fsm_Disable conf) || (negb (fsm_Enable conf) && negb (fsm_Disable conf))
  then mret (inl 1)
  else
    state ← ReadState (zero_ScalingState <| st_StatePath := statePath |>) false;
    if IsZero (st_LastUpdated state) then mret (inl 1)
    else if (st_FailsafeMode state && fsm_Enable conf) || (negb (st_FailsafeMode state) && fsm_Disable conf)
    then mret (inl 0)
    else
      c ← confirm conf;
      match c with
      | Some code => mret (inl code)
      | None => mret (inr state)
      end.

Definition Run (args : list string) : M W Z :=
  if (length args =? 0)%nat then mret 1
  else
    o ← parseFlags args;
    match o with
    | None => mret 1
    | Some (conf, statePath) =>
        let '(config, err) := InitializeClients (fsm_Config conf) in
        match err with
        | Some _ => mret 1
        | None =>
            r ← checkRequest conf statePath;
            match r with
            | inl code => mret code
            | inr state =>
                let state := state <| st_FailsafeAdmin := true |> in
                let message := zero_FailureMessage <| fm_AlertUID := "replicator-failsafe-admin-cli" |>
                  <| fm_ResourceID := st_ResourceName state |>
                  <| fm_ResourceType := st_ResourceType state |> in
                '(_, state, err) ← SetFailsafeMode state config (fsm_Enable conf) message;
                match err with
                | Some _ => mret 1
                | None => '(_, _) ← PersistState state; mret 0
                end
            end
        end
    end.

(** ** Properties *)

Lemma confirm_proceeds conf (w w' : W) :
  confirm conf w = (Ret None, w') →
  fsm_Force conf = true ∨ UI_Ask (fsm_Verb conf) w = (Ret (inr "y"), w').
Proof.
  unfold confirm. destruct (fsm_Force conf); [by left|]. intros H. right.
  go_bind H as r w1 E. destruct r as [|answer]; [by apply mret_inv in H as [[=] _]|].
  destruct (ToLower answer); [by apply mret_inv in H as [[=] _]|].
  destruct (bool_decide _); [by apply mret_inv in H as [[=] _]|].
  destruct (_ && _); [by apply mret_inv in H as [[=] _]|].
  destruct (String.eqb_spec answer "y") as [->|]; [|by apply mret_inv in H as [[=] _]].
  by apply mret_inv in H as [_ <-].
Qed.

(** C34. The command changes the breaker only on a clear request: exactly one
    of enable and disable was given, a state exists at the path, it is not yet
    in the requested mode, and the operator forced the change or answered
    exactly y. *)
Theorem request_confirmed conf path (w : W) st w' :
  checkRequest conf path w = (Ret (inr st), w') →
  fsm_Disable conf = negb (fsm_Enable conf) ∧ st_LastUpdated st ≠ 0 ∧
  st_FailsafeMode st = negb (fsm_Enable conf) ∧
  ∃ w1, ReadState (zero_ScalingState <| st_StatePath := path |>) false w = (Ret st, w1) ∧
    (fsm_Force conf = true ∨ UI_Ask (fsm_Verb conf) w1 = (Ret (inr "y"), w')).
Proof.
  unfold checkRequest. intros H.
  destruct (fsm_Enable conf) eqn:Ee, (fsm_Disable conf) eqn:Ed; simpl in H;
    try (by apply mret_inv in H as [[=] _]).
  all: go_bind H as st0 w1 Er; unfold IsZero in H;
    destruct (Z.eqb_spec (st_LastUpdated st0) 0); [by apply mret_inv in H as [[=] _]|];
    destruct (st_FailsafeMode st0) eqn:Em; simpl in H; try (by apply mret_inv in H as [[=] _]).
  all: go_bind H as c w2 Ec; destruct c; [by apply mret_inv in H as [[=] _]|];
    apply mret_inv in H as [[= <-] <-]; apply confirm_proceeds in Ec;
    split_and!; [done|done|done|]; eauto.
Qed.

End command.

(** ** Examples and witness *)

#[local] Existing Instance consulClient.

Example parse_failsafe_flags :
  flags_Parse failsafeFlags ["-enable"; "--state-path=a/b"; "-consul"; "c:8500"; "-force=false"; "x"] ∅ =
  inr {[ "enable" := VBool true; "state-path" := VString "a/b"; "consul" := VString "c:8500";
         "force" := VBool false ]}.
Proof. vm_compute. reflexivity. Qed.

Definition demo_request : FailsafeMode := mkFailsafeMode demo_cfg false true false "enable".
Definition ask_y : string → M world (error + string) := λ _, mret (inr "y").

Lemma request_confirmed_witness :
  ∃ w1, ReadState (zero_ScalingState <| st_StatePath := st_StatePath demo_state |>) false demo_world =
      (Ret demo_persisted, w1) ∧
    (false = true ∨ ask_y "enable" w1 = (Ret (inr "y"), demo_world)).
Proof.
  refine (proj2 (proj2 (proj2 (request_confirmed ask_y demo_request (st_StatePath demo_state) demo_world
    demo_persisted demo_world _)))).
  vm_compute. reflexivity.
Defined.

(** The whole command: the breaker of the stored state is tripped. *)
Example run_failsafe_enable :
  let m := Run (λ _, mret (inl "no file")) (λ c, (c, None)) ask_y
             ["-enable"; "-state-path"; st_StatePath demo_state] in
  run_value 7 m demo_world = 0 ∧
  st_FailsafeMode (run_value demo_state (ReadState demo_state false) (run_world m demo_world)) = true.
Proof. vm_compute. done. Qed.
