(* ===== verification/Server.v ===== *)
(** * Server: start-up, tickers and shutdown

    [replicator/server.go] and [replicator/rpc.go]: which goroutines a
    configuration starts, what a tick of each ticker does, and the shutdown.
    A tick is run with one worker at a time, one of the schedules of a positive
    [ScalingConcurrency]; [FanOut.v] has the interleavings of the threads
    themselves and the case of no worker. *)

From S2P Require Import Prelude GoNum Structs Interfaces Sim Helper State Consul StateFacts Leader NodeDiscovery Failsafe FailsafeFacts AwsProvider GoSlice JobPolicies JobScale Client ClusterScaling JobScaling.

(** [rpcListener] and [shutdownChan] are open or closed; nothing ever sets the
    [shutdown] flag. *)
Record Server := mkServer {
  srv_candidate : LeaderCandidate;
  srv_config : Config;
  srv_rpcListener : chan_state;
  srv_shutdown : bool;
  srv_shutdownChan : chan_state;
}.

#[export] Instance eta_Server : Eta Server := λ r,
  mkServer (srv_candidate r) (srv_config r) (srv_rpcListener r) (srv_shutdown r) (srv_shutdownChan r).

(** The goroutines of a server. *)
Inductive server_task := LeaderTicker | JobWatcherTask | NodeWatcherTask | ClusterTicker | JobTicker | Listener.

#[export] Instance server_task_eq_dec : EqDecision server_task.
Proof. solve_decision. Defined.

Section server.
Context {W : Type} {RT : Runtime W} {CC : ConsulClient W} {NC : NomadClient W}
  {SP : ScalingProvider W} {NT : NotifierAPI W} {RS : RegistryStore W} {PS : PolicyStore W}.
(** [net.ListenTCP] on the address of the configuration. *)
Context (ListenTCP : option TCPAddr → M W (error + TCPAddr)).

Definition Shutdown (s : Server) : M W Server :=
  c ← endCampaign (srv_candidate s);
  let s := s <| srv_candidate := c |> in
  let s := match srv_rpcListener s with ChanNil => s | _ => s <| srv_rpcListener := ChanClosed |> end in
  match srv_shutdownChan s with
  | ChanOpen => mret (s <| srv_shutdownChan := ChanClosed |>)
  | ChanClosed => go_panic "close of closed channel"
  | ChanNil => go_panic "close of nil channel"
  end.

(** An unspecified address ([0.0.0.0] or [::]) cannot be advertised. *)
Definition setupRPC (s : Server) : M W (Server * option error) :=
  r ← ListenTCP (cfg_RPCAddr (srv_config s));
  match r with
  | inl err => mret (s, Some err)
  | inr addr =>
      let s := s <| srv_rpcListener := ChanOpen |> in
      if String.eqb (tcp_IP addr) "0.0.0.0" || String.eqb (tcp_IP addr) "::"
      then mret (s <| srv_rpcListener := ChanClosed |>, Some "RPC advertise address is not advertisable")
      else mret (s, None)
  end.

(** The goroutines started before the RPC layer. *)
Definition startTasks (config : Config) : list server_task :=
  [LeaderTicker]
  ++ (if negb (cfg_ClusterScalingDisable config) || negb (cfg_JobScalingDisable config)
      then [JobWatcherTask] else [])
  ++ (if negb (cfg_ClusterScalingDisable config) then [NodeWatcherTask; ClusterTicker] else [])
  ++ (if negb (cfg_JobScalingDisable config) then [JobTicker] else []).

(** The server, if it started, and its goroutines. *)
Definition NewServer (config : Config) : M W (error + Server * list server_task) :=
  let candidate := newLeaderCandidate (cfg_ConsulKeyRoot config +:+ "/" +:+ "leader") leaderLockTimeout in
  let s := mkServer candidate config ChanNil false ChanOpen in
  let tasks := startTasks config in
  '(s, err) ← setupRPC s;
  match err with
  | Some _ => _ ← Shutdown s; mret (inl "failed to start RPC layer")
  | None => mret (inr (s, tasks ++ [Listener]))
  end.

(** [listen]: whether the loop of the listener goes on after [Accept] failed. *)
Definition listen_continues (s : Server) : bool := negb (srv_shutdown s).

(** A connection: requests are served until one fails or the server is shut
    down, which is seen after [n] of them; the errors are not told apart.
    [serve] is [ServeRequest] with the codec of the connection. *)
Definition handleConn (conn_Close : M W unit) (serve : M W (option error)) (n : nat) : M W unit :=
  defer conn_Close
    (poll n (λ _ : unit,
       err ← serve;
       mret (match err with Some _ => Return tt | None => Next tt end))
      (λ _, mret tt) tt).

Definition leaderTick (s : Server) : M W Server :=
  '(c, _) ← leaderElection (srv_candidate s);
  mret (s <| srv_candidate := c |>).

(** The jobs in the order the map is visited; jobs in deployment are skipped. *)
Definition jobScalingTick (s : Server) : M W unit :=
  t ← get_policies;
  if isLeader (srv_candidate s) && (0 <? size (jsp_Policies t))%nat then
    jobs ← range_keys ((map_to_list (jsp_Policies t)).*1);
    _ ← for_range (λ (_ : unit) job,
          d ← IsJobInDeployment job;
          if d : bool then mret (Next (R:=unit) tt)
          else _ ← jobScaling_job (srv_config s) job; mret (Next tt)) jobs tt;
    mret tt
  else mret tt.

Definition clusterScalingTick (s : Server) (jobs : list string) : M W unit :=
  reg ← get_registry;
  if isLeader (srv_candidate s) && (0 <? size (nr_WorkerPools reg))%nat then
    _ ← nodeProtectionCheck;
    reg ← get_registry;
    pools ← range_keys ((map_to_list (nr_WorkerPools reg)).*1);
    workerPoolScaling (srv_config s) jobs pools
  else mret tt.

(** ** Properties *)

(** An agent that does not lead does not act. *)
Lemma follower_idle s jobs (w : W) reg t w1 w2 :
  isLeader (srv_candidate s) = false →
  get_registry w = (Ret reg, w1) → get_policies w = (Ret t, w2) →
  clusterScalingTick s jobs w = (Ret tt, w1) ∧ jobScalingTick s w = (Ret tt, w2).
Proof.
  intros Hl Hr Hp. unfold clusterScalingTick, jobScalingTick.
  rewrite (bind_run _ _ _ _ _ Hr), (bind_run _ _ _ _ _ Hp), Hl. done.
Qed.

(** A server that was shut down keeps its configuration, and a second shutdown
    crashes. *)
Lemma shutdown_closes s (w : W) s' w' :
  Shutdown s w = (Ret s', w') → srv_shutdownChan s' = ChanClosed ∧ srv_config s' = srv_config s.
Proof.
  intros H. unfold Shutdown in H. go_bind H as c w1 E.
  destruct s as [cd cfg l sd ch]. unfold modify in H; simpl in H.
  destruct l, ch; simpl in H; try discriminate H; by apply mret_inv in H as [<- _].
Qed.

Lemma shutdown_closed_crashes s (w : W) s' w' :
  srv_shutdownChan s = ChanClosed → Shutdown s w ≠ (Ret s', w').
Proof.
  intros Hc H. unfold Shutdown in H. go_bind H as c w1 E.
  destruct s as [cd cfg l sd ch]; simpl in Hc; subst ch. destruct l; discriminate H.
Qed.

(** The registry is what was put last, and the other calls leave it alone. *)
Section deadlock.
Context (get_put : ∀ r (w : W), ∃ w', put_registry r w = (Ret tt, w') ∧ get_registry w' = (Ret r, w')).
Context (keys_run : ∀ ks (w : W), ∃ l, range_keys ks w = (Ret l, w) ∧ l ≡ₚ ks).

Lemma blocked_pool cfg jobs name (w : W) reg :
  get_registry w = (Ret reg, w) → nr_Locked reg = true →
  workerPoolScaling_pool cfg jobs name w = (Panic blocked, w).
Proof.
  intros Hg Hl. unfold workerPoolScaling_pool, scalingGates, read_registry, mbind, M_bind.
  rewrite Hg. simpl. by rewrite Hl.
Qed.

(** C36. A leader that runs as a Nomad job on a node that is not registered
    stops scaling for good: its tick leaks the registry lock in the protection
    check and then never returns, as every worker waits for the lock. *)
Theorem unregistered_leader_deadlocks s jobs (w : W) reg allocID host :
  isLeader (srv_candidate s) = true →
  get_registry w = (Ret reg, w) → nr_Locked reg = false → nr_WorkerPools reg ≠ ∅ →
  os_Getenv "NOMAD_ALLOC_ID" w = (Ret allocID, w) → allocID ≠ "" →
  NodeReverseLookup allocID w = (Ret (host, None), w) → host ≠ "" →
  nr_RegisteredNodes reg !! host = None →
  ∃ w', clusterScalingTick s jobs w = (Panic blocked, w') ∧
    ∃ reg', get_registry w' = (Ret reg', w') ∧ nr_Locked reg' = true.
Proof.
  intros Hlead Hreg Hl Hne Henv Ha Hlook Hh Hn.
  destruct (get_put (reg <| nr_Locked := true |>) w) as (w1 & Hput & Hget).
  exists w1. split; [|eauto].
  assert (nodeProtectionCheck w = (Ret (Some "running as a Nomad job but unable to determine the worker pool for our host node"), w1)) as Hchk.
  { unfold nodeProtectionCheck. rewrite (bind_run _ _ _ _ _ Henv).
    destruct allocID as [|c a]; [done|]. simpl. rewrite (bind_run _ _ _ _ _ Hlook).
    destruct host as [|c' h]; [done|]. simpl. unfold on_registry. rewrite (bind_run _ _ _ _ _ Hreg).
    unfold protectHost, mbind, M_bind, Lock. rewrite Hl. simpl. unfold modify at 1; simpl. rewrite Hn.
    unfold mret at 1, M_ret at 1. simpl. by rewrite Hput. }
  unfold clusterScalingTick. rewrite (bind_run _ _ _ _ _ Hreg), Hlead.
  assert ((0 <? size (nr_WorkerPools reg))%nat = true) as ->.
  { apply Nat.ltb_lt. destruct (decide (size (nr_WorkerPools reg) = 0%nat)) as [Hs|]; [|lia].
    by apply map_size_empty_iff in Hs. }
  simpl. rewrite (bind_run _ _ _ _ _ Hchk), (bind_run _ _ _ _ _ Hget).
  destruct (keys_run ((map_to_list (nr_WorkerPools (reg <| nr_Locked := true |>))).*1) w1) as (l & Hk & Hp).
  rewrite (bind_run _ _ _ _ _ Hk). destruct l as [|p l].
  { apply Permutation_nil_l in Hp. symmetry in Hp. apply fmap_nil_inv in Hp. simpl in Hp.
    exfalso. apply Hne. by apply map_to_list_empty_iff. }
  unfold workerPoolScaling. simpl. unfold mbind, M_bind.
  by rewrite (blocked_pool _ _ p w1 (reg <| nr_Locked := true |>)).
Qed.
End deadlock.
End server.

#[local] Existing Instance consulClient.
#[local] Existing Instance nomadClient.
#[local] Existing Instance awsScalingProvider.

(** A leader that runs as allocation [a1] of node [n1], which is not one of the
    nodes of the only pool. *)
Definition demo_leader : Server :=
  mkServer (mkLeaderCandidate true "replicator/config/leader" "session-1" 15 ChanOpen) zero_Config ChanOpen false ChanOpen.

Definition demo_leader_world : world :=
  sim0 <| sim_env := {[ "NOMAD_ALLOC_ID" := "a1" ]} |>
       <| sim_node_allocs := {[ "n1" := [sim_alloc "a1" "n1" 100 100 100] ]} |>
       <| sim_registry := NewNodeRegistry <| nr_WorkerPools := {[ "web" := NewWorkerPool ]} |> |>.

Lemma unregistered_leader_deadlocks_witness :
  ∃ w', clusterScalingTick demo_leader [] demo_leader_world = (Panic blocked, w') ∧
    ∃ reg', get_registry w' = (Ret reg', w') ∧ nr_Locked reg' = true.
Proof.
  apply (unregistered_leader_deadlocks (W:=world)) with (reg := sim_registry demo_leader_world)
    (allocID := "a1") (host := "n1"); try (vm_compute; reflexivity); try discriminate.
  - intros r w. eexists. split; reflexivity.
  - intros ks w. by eexists.
Defined.
