(* ===== verification/Fleet.v ===== *)
(** * Fleet: nothing is scaled without passing the gates

    The frame conditions of the scaling loops, for the code as it is composed:
    the Consul client, the Nomad client and the AWS provider over their APIs.
    A relation [R] between worlds says that what the agent may scale is
    unchanged.  The calls that only look or keep records respect it
    ([QuietCalls] and, for the update of the registry, [QuietServices]); the calls that scale ([UpdateAutoScalingGroup],
    [DetachInstances], [TerminateInstances], [Nodes_UpdateDrain],
    [Jobs_Register]) are not restricted at all.  A tick of the server then
    leaves the fleet and the jobs alone unless the gates of a pool or of a job
    group let it act. *)

From S2P Require Import Prelude GoNum Structs Interfaces Frame Sim Helper State Consul StateFacts Leader NodeDiscovery Failsafe FailsafeFacts Nomad PoolEval AwsProvider GoSlice JobPolicies JobPoliciesFacts JobScale Client ClusterScaling ClusterFacts JobScaling Server.

(** The calls that answer a question or keep a record. *)
Class QuietCalls (W : Type) {RT : Runtime W} {CA : ConsulAPI W} {NA : NomadAPI W} {AA : AwsAPI W}
    {NT : NotifierAPI W} {RS : RegistryStore W} {PS : PolicyStore W} (R : W → W → Prop) : Prop := {
  quiet_preorder : PreOrder R;
  quiet_now : keeps R time_Now;
  quiet_range : ∀ ks, keeps R (range_keys ks);
  quiet_ticks : ∀ a b, keeps R (poll_ticks a b);
  quiet_getenv : ∀ k, keeps R (os_Getenv k);
  quiet_get : ∀ k, keeps R (KV_Get k);
  quiet_put : ∀ p, keeps R (KV_Put p);
  quiet_node : ∀ n, keeps R (Nodes_Info n);
  quiet_node_allocs : ∀ n, keeps R (Nodes_Allocations n);
  quiet_job : ∀ n, keeps R (Jobs_Info n);
  quiet_job_allocs : ∀ n, keeps R (Jobs_Allocations n);
  quiet_job_deployment : ∀ n, keeps R (Jobs_LatestDeployment n);
  quiet_alloc : ∀ n, keeps R (Allocations_Info n);
  quiet_stats : ∀ a, keeps R (Allocations_Stats a);
  quiet_groups : ∀ a b, keeps R (DescribeAutoScalingGroups a b);
  quiet_instances : ∀ r f, keeps R (DescribeInstances r f);
  quiet_activities : ∀ s a, keeps R (DescribeScalingActivities s a);
  quiet_status : ∀ r i, keeps R (DescribeInstanceStatus r i);
  quiet_notify : ∀ n m, keeps R (SendNotification n m);
  quiet_registry : keeps R get_registry;
  quiet_policies : keeps R get_policies;
  quiet_set_policies : ∀ t, keeps R (put_policies t);
}.

(** The update of the registry, whatever it writes. *)
Class QuietServices (W : Type) {RT : Runtime W} {CA : ConsulAPI W} {NA : NomadAPI W} {AA : AwsAPI W}
    {NT : NotifierAPI W} {RS : RegistryStore W} {PS : PolicyStore W} (R : W → W → Prop)
    {QC : QuietCalls W R} : Prop := {
  quiet_set_registry : ∀ r, keeps R (put_registry r);
}.

#[export] Hint Resolve quiet_now quiet_range quiet_ticks quiet_getenv quiet_get quiet_put quiet_node
  quiet_node_allocs quiet_job quiet_job_allocs quiet_job_deployment quiet_alloc quiet_stats quiet_groups
  quiet_instances quiet_activities quiet_status quiet_notify quiet_registry quiet_set_registry quiet_policies quiet_set_policies : frame.

Section fleet.
Context {W : Type} {RT : Runtime W} {CA : ConsulAPI W} {NA : NomadAPI W} {AA : AwsAPI W}
  {NT : NotifierAPI W} {RS : RegistryStore W} {PS : PolicyStore W}.
Context (R : W → W → Prop) {QC : QuietCalls W R}.

#[local] Existing Instance consulClient.
#[local] Existing Instance nomadClient.
#[local] Existing Instance awsScalingProvider.
#[local] Instance quiet_R : PreOrder R := quiet_preorder.

(** ** The routines that change nothing *)

Lemma keeps_on_policies {A} (m : M JobScalingPolicies A) : keeps R (on_policies m).
Proof. unfold on_policies. frame. Qed.

Lemma keeps_read_registry : keeps R read_registry.
Proof. unfold read_registry. frame. Qed.

Lemma keeps_persist st : keeps R (PersistState st).
Proof. simpl. unfold PersistState_impl. frame. Qed.

Lemma keeps_read st b : keeps R (ReadState st b).
Proof. simpl. unfold ReadState_impl. frame. apply keeps_persist. Qed.
Hint Resolve keeps_on_policies keeps_read_registry keeps_persist keeps_read : frame.

Lemma keeps_failsafe st cfg t msg : keeps R (FailsafeCheck st cfg t msg).
Proof. unfold FailsafeCheck, SetFailsafeMode, sendFailsafeNotification. frame. Qed.

Lemma keeps_resource f r : keeps R (resource f r).
Proof. unfold resource. frame. Qed.
Hint Resolve keeps_failsafe keeps_resource : frame.

Lemma keeps_amounts r : keeps R (amounts r).
Proof. unfold amounts. frame. Qed.
Hint Resolve keeps_amounts : frame.

Lemma keeps_iquot a b : keeps R (iquot a b).
Proof. unfold iquot. frame. Qed.
Hint Resolve keeps_iquot : frame.

Lemma keeps_consumed cap pool : keeps R (calculatePoolConsumed cap pool).
Proof. unfold calculatePoolConsumed, consumeNode, consumeStep. frame. Qed.

Lemma keeps_reserve cap jobs pool : keeps R (calculateScalingReserve cap jobs pool).
Proof. unfold calculateScalingReserve, reserveJob, checkJobPlacement. frame. Qed.

Lemma keeps_max cap n b : keeps R (MaxAllowedClusterUtilization cap n b).
Proof. unfold MaxAllowedClusterUtilization. frame. Qed.
Hint Resolve keeps_consumed keeps_reserve keeps_max : frame.

Lemma keeps_evaluate cap pool jobs : keeps R (EvaluatePoolScaling cap pool jobs).
Proof.
  simpl. unfold EvaluatePoolScaling_impl, calculatePoolCapacity, ClusterScalingSafe. frame.
Qed.

Lemma keeps_describe a b : keeps R (describeScalingGroup a b).
Proof. unfold describeScalingGroup. frame. Qed.

Lemma keeps_index0 {A} (l : list A) : keeps R (index0 l).
Proof. unfold index0. frame. Qed.
Hint Resolve keeps_evaluate keeps_describe keeps_index0 : frame.

Lemma keeps_safety sp pool : keeps R (SafetyCheck sp pool).
Proof. simpl. unfold SafetyCheck_impl. frame. Qed.
Hint Resolve keeps_safety : frame.

(** The polling helpers of the provider and the choice of a node only look. *)
Lemma keeps_translate ip region : keeps R (translateIptoID ip region).
Proof. unfold translateIptoID. frame. Qed.

Lemma keeps_activity a svc : keeps R (checkClusterScalingResult a svc).
Proof. unfold checkClusterScalingResult. frame. Qed.

Lemma keeps_verify_update n c svc : keeps R (verifyAsgUpdate n c svc).
Proof. unfold verifyAsgUpdate. frame. Qed.

Lemma keeps_recent asg region : keeps R (getMostRecentInstance asg region).
Proof. unfold getMostRecentInstance. frame. Qed.

Lemma keeps_find n a : keeps R (FindNodeByAddress n a).
Proof. unfold FindNodeByAddress. frame. Qed.

Lemma keeps_record wp st : keeps R (recordFailure wp st).
Proof. unfold recordFailure. frame. Qed.

Lemma keeps_least cap prot : keeps R (LeastAllocatedNode cap prot).
Proof. simpl. unfold LeastAllocatedNode_impl. frame. Qed.

Lemma keeps_gates cfg jobs name : keeps R (scalingGates cfg jobs name).
Proof. unfold scalingGates, checkCooldownThreshold, checkPoolScalingThreshold. frame. Qed.

Lemma keeps_on_registry {Q : QuietServices W R} {A} (m : M NodeRegistry A) : keeps R (on_registry m).
Proof. unfold on_registry. frame. Qed.
Hint Resolve keeps_on_registry : frame.

Lemma keeps_protection {Q : QuietServices W R} : keeps R nodeProtectionCheck.
Proof. unfold nodeProtectionCheck. simpl. unfold NodeReverseLookup_impl. frame. Qed.

(** ** Worker pools *)

(** What let a pool act in world [w]: its breaker was not tripped, its failures
    were below the retry threshold, and the evaluation asked for scaling. *)
Definition pool_passed (cfg : Config) (jobs : list string) (name : string) (w : W) : Prop :=
  ∃ wp cap w', scalingGates cfg jobs name w = (Ret (Some (wp, cap)), w') ∧ R w w' ∧
  ∃ pool st w1 w2 w3,
    ReadState (poolState cfg pool) true w1 = (Ret st, w2) ∧
    st_FailsafeMode st = false ∧ st_FailureCount st < wp_RetryThreshold pool ∧
    EvaluatePoolScaling zero_ClusterCapacity (pool <| wp_State := Some st |>) jobs w2 =
      (Ret (cap, (true, None)), w3).

Lemma pool_gated `{!ConsulKVLaws W} cfg jobs name :
  gated R (λ w, ∃ name, pool_passed cfg jobs name w) (workerPoolScaling_pool cfg jobs name).
Proof.
  intros w. unfold workerPoolScaling_pool. destruct (scalingGates cfg jobs name w) as [o w'] eqn:E.
  pose proof (keeps_run R _ _ _ _ (keeps_gates cfg jobs name) E) as HR.
  destruct o as [[[wp cap]|]|e].
  - right. exists w. split; [reflexivity|]. exists name, wp, cap, w'. split; [done|]. split; [done|].
    apply gates_inv in E as (reg & pool & st & st1 & pr & w1 & w2 & w3 & w4 & w5 & w6 & _ & _ & Hr & Hm & Hf & He & _).
    by exists pool, st, w1, w2, w3.
  - left. by rewrite (bind_run _ _ _ _ _ E).
  - left. by rewrite (bind_panic _ _ _ _ _ E).
Qed.
Hint Resolve keeps_protection pool_gated : frame.

(** C3. The fleet is scaled only by a leader and only through the gates: a
    tick of the cluster ticker, with the clients and the provider it is
    composed of, either leaves the fleet alone, whatever its answers and
    however it ends, or the agent leads and comes, with the fleet still
    untouched, to a pool whose breaker is not tripped, whose failures are below
    its retry threshold and whose evaluation asked for scaling. *)
Theorem fleet_changes_gated {Q : QuietServices W R} `{!ConsulKVLaws W} s jobs w :
  R w (clusterScalingTick s jobs w).2 ∨
  isLeader (srv_candidate s) = true ∧
  ∃ w1, R w w1 ∧ ∃ name, pool_passed (srv_config s) jobs name w1.
Proof.
  destruct (isLeader (srv_candidate s)) eqn:Hl.
  - assert (gated R (λ w, ∃ name, pool_passed (srv_config s) jobs name w) (clusterScalingTick s jobs)) as H.
    { unfold clusterScalingTick, workerPoolScaling. rewrite Hl. gated. }
    destruct (H w); auto.
  - left. assert (keeps R (clusterScalingTick s jobs)) as H; [|apply H].
    unfold clusterScalingTick. rewrite Hl. cbn [andb]. frame.
Qed.

(** ** Job groups *)

Lemma keeps_for_groups cfg job group : keeps R (groupGates cfg job group).
Proof. unfold groupGates. frame. Qed.

Lemma keeps_evaluate_jobs job gs : keeps R (EvaluateJobScaling job gs).
Proof.
  simpl. induction gs as [|g gs IH]; simpl; [frame|].
  unfold evaluateGroup, GetTaskGroupResources, GetJobAllocations, jobAllocationStep, GetAllocationStats. frame.
Qed.

Lemma keeps_in_deployment job : keeps R (IsJobInDeployment job).
Proof. simpl. unfold IsJobInDeployment_impl. frame. Qed.
Hint Resolve keeps_for_groups keeps_evaluate_jobs keeps_in_deployment : frame.

(** The group got through its gates in world [w] and asks to be scaled: the
    breaker of its state is not tripped and its failures are below its retry
    threshold, its last scaling event lies further back than its cooldown, it
    is enabled and its direction is out or in. *)
Definition group_asks (cfg : Config) (job : string) (group : GroupScalingPolicy) (w : W) : Prop :=
  ∃ st w1 now w2,
    ReadState (groupState cfg job group) true w = (Ret st, w1) ∧
    st_FailsafeMode st = false ∧ st_FailureCount st < gsp_RetryThreshold group ∧
    time_Now w1 = (Ret now, w2) ∧
    Before (st_LastScalingEvent st) (time_add now (0 -! (gsp_Cooldown group *! Second))) = true ∧
    gsp_Enabled group = true ∧
    (gsp_ScaleDirection group = ScalingDirectionOut ∨ gsp_ScaleDirection group = ScalingDirectionIn).

(** The policies [g] of the job were loaded from the table and evaluated without
    an error, between [w] and [w']. *)
Definition job_evaluated (job : string) (g : slice) (w w' : W) : Prop :=
  ∃ w1 t w2 gs w3 gs',
    on_policies LockPolicies w = (Ret tt, w1) ∧ get_policies w1 = (Ret t, w2) ∧
    on_policies (loadAll (elems (jsp_arrays t) g)) w2 = (Ret gs, w3) ∧
    EvaluateJobScaling job gs w3 = (Ret (gs', None), w').

(** What let a job act in world [w], along a run in which nothing that may be
    scaled changed: the job was not in deployment, its policies were evaluated,
    and [w] is the world in which the loop loads one of the policies that the
    table holds for the job, and that group asks. *)
Definition job_passed (cfg : Config) (w : W) : Prop :=
  ∃ job v0 v1 t v2 v3 v4 t' v5 p group w',
    IsJobInDeployment job v0 = (Ret false, v1) ∧ get_policies v1 = (Ret t, v2) ∧
    job_evaluated job (policies t job) v2 v3 ∧
    R v3 v4 ∧ get_policies v4 = (Ret t', v5) ∧ R v5 w ∧
    p ∈ elems (jsp_arrays t') (policies t job) ∧
    on_policies (load p) w = (Ret group, w') ∧ group_asks cfg job group w'.

Lemma groups_ask cfg job group w st w' :
  groupGates cfg job group w = (Ret (Some st), w') → gsp_Enabled group = true →
  String.eqb (gsp_ScaleDirection group) ScalingDirectionOut ||
    String.eqb (gsp_ScaleDirection group) ScalingDirectionIn = true →
  group_asks cfg job group w.
Proof.
  unfold groupGates. intros H He Hd. go_bind H as st0 w1 Er. go_bind H as [st1 b] w2 Ef.
  destruct b; [|by apply mret_inv in H as [[=] _]].
  apply failsafe_pass in Ef as (-> & -> & Hm & Hf). cbn [negb] in H. go_bind H as now w3 En.
  destruct (Before _ _) eqn:Hb; [|by apply mret_inv in H as [[=] _]].
  exists st0, w1, now, w3. split_and!; [done..|].
  apply orb_true_iff in Hd as [Hd|Hd]; apply String.eqb_eq in Hd; auto.
Qed.

Lemma scale_group_asks cfg job group w :
  R w (scaleGroup cfg job group w).2 ∨ group_asks cfg job group w.
Proof.
  unfold scaleGroup. destruct (groupGates cfg job group w) as [[o|e] w'] eqn:E;
    pose proof (keeps_run R _ _ _ _ (keeps_for_groups cfg job group) E) as HR;
    [|left; by rewrite (bind_panic _ _ _ _ _ E)].
  rewrite (bind_run _ _ _ _ _ E). destruct o as [st|]; [|by left].
  destruct (_ || _) eqn:Hd; [destruct (gsp_Enabled group) eqn:He|].
  1: right; by eapply groups_ask.
  all: left; etrans; [exact HR|].
  all: match goal with |- R _ (?m _).2 => assert (keeps R m) as H; [|apply H] end; frame.
Qed.

(** The body of the loop over the groups, from the load of the policy. *)
Lemma load_group_gated (P : W → Prop) cfg job p w :
  (∀ group w', on_policies (load p) w = (Ret group, w') → group_asks cfg job group w' → P w) →
  gated_from R P (group ← on_policies (load p); _ ← scaleGroup cfg job group;
                  mret (Next (R:=unit) tt)) w.
Proof.
  intros HP. destruct (on_policies (load p) w) as [[group|e] w1] eqn:El;
    pose proof (keeps_run R _ _ _ _ (keeps_on_policies _) El) as HR;
    [|left; by rewrite (bind_panic _ _ _ _ _ El)].
  unfold gated_from. rewrite (bind_run _ _ _ _ _ El).
  destruct (scale_group_asks cfg job group w1) as [Hk|Ha]; [left|right; exists w; split; [done|eauto]].
  etrans; [exact HR|]. unfold mbind, M_bind. by destruct (scaleGroup cfg job group w1) as [[]].
Qed.

Lemma job_gated cfg job v0 w :
  IsJobInDeployment job v0 = (Ret false, w) → gated_from R (job_passed cfg) (jobScaling_job cfg job) w.
Proof.
  intros Hdep. unfold jobScaling_job. cbv zeta.
  refine (gated_from_step R _ _ _ _ _ _); [frame|intros t w1 Ht _].
  refine (gated_from_step R _ _ _ _ _ _); [frame|intros [] w2 Hl _].
  refine (gated_from_step R _ _ _ _ _ _); [frame|intros t2 w3 Ht2 _].
  refine (gated_from_step R _ _ _ _ _ _); [frame|intros gs w4 Hgs _].
  refine (gated_from_step R _ _ _ _ _ _); [frame|intros [gs' err] w5 Hev _].
  refine (gated_from_step R _ _ _ _ _ _); [frame|intros _ w6 _ H6].
  refine (gated_from_step R _ _ _ _ _ _); [frame|intros _ w7 _ H7].
  destruct err as [e|]; [apply gated_from_keeps; frame|].
  refine (gated_from_step R _ _ _ _ _ _); [frame|intros _ w8 _ H8].
  refine (gated_from_step R _ _ _ _ _ _); [frame|intros t' w9 Ht' _].
  refine (gated_from_bind R _ _ _ _ _ _); [|intros; apply gated_from_keeps; frame].
  refine (gated_from_for_range R _ _ _ _ _ _). intros [] p w10 Hp H10.
  apply load_group_gated. intros group w' Hload Hasks.
  exists job, v0, w, t, w1, w5, w8, t', w9, p, group, w'. split_and!; try done.
  - exists w2, t2, w3, gs, w4, gs'. by split_and!.
  - etrans; [exact H6|]. by etrans.
Qed.

(** C16. Jobs are resubmitted only by a leader and only through the gates of a
    job group: a tick of the job ticker either leaves everything it may scale
    alone, whatever its answers and however it ends, or the agent leads and,
    with nothing changed yet, the loop comes to a policy that the table holds
    for a job that is not in deployment and whose evaluation gave no error;
    that policy is enabled, its direction is out or in, its breaker is not
    tripped, its failures are below its retry threshold and its cooldown is
    over. *)
Theorem job_changes_gated s w :
  R w (jobScalingTick s w).2 ∨
  isLeader (srv_candidate s) = true ∧
  ∃ w1, R w w1 ∧ job_passed (srv_config s) w1.
Proof.
  destruct (isLeader (srv_candidate s)) eqn:Hl; unfold jobScalingTick; rewrite Hl; cbn [andb].
  - assert (gated_from R (job_passed (srv_config s)) (jobScalingTick s) w) as H; [|unfold jobScalingTick in H; rewrite Hl in H; destruct H; auto].
    unfold jobScalingTick. rewrite Hl. cbn [andb].
    refine (gated_from_step R _ _ _ _ _ _); [frame|intros t w1 _ _].
    destruct (0 <? _)%nat; [|apply gated_from_keeps; frame].
    refine (gated_from_step R _ _ _ _ _ _); [frame|intros jobs w2 _ _].
    refine (gated_from_bind R _ _ _ _ _ _); [|intros; apply gated_from_keeps; frame].
    refine (gated_from_for_range R _ _ _ _ _ _). intros [] job w3 _ _.
    refine (gated_from_step R _ _ _ _ _ _); [frame|intros d w4 Hd _].
    destruct d; [apply gated_from_keeps; frame|].
    refine (gated_from_bind R _ _ _ _ _ _); [by eapply job_gated|intros; apply gated_from_keeps; frame].
  - left. match goal with |- R _ (?m _).2 => assert (keeps R m) as H; [|apply H] end. frame.
Qed.
End fleet.

(** ** Witnesses *)

#[local] Existing Instance consulClient.
#[local] Existing Instance nomadClient.
#[local] Existing Instance awsScalingProvider.

(** A policy table that does not change. *)
#[local] Instance fixed_policies : PolicyStore world := {
  get_policies := mret demo_table;
  put_policies := λ _, mret tt;
}.

(** What can be scaled in the simulated world. *)
Definition fleet (w : world) :=
  (sim_nodes w, sim_asgs w, sim_instances w, sim_detached w, sim_terminated w, sim_registered w).
Definition same_fleet (w w' : world) : Prop := fleet w = fleet w'.

#[local] Instance same_fleet_preorder : PreOrder same_fleet.
Proof. split; [intros ?; reflexivity|intros ???; unfold same_fleet; congruence]. Qed.

Lemma same_registered w w' : same_fleet w w' → sim_registered w = sim_registered w'.
Proof. unfold same_fleet, fleet. congruence. Qed.

#[local] Instance sim_calls : QuietCalls world same_fleet.
Proof. split; [apply _|..]; intros; intros w; reflexivity. Qed.

#[local] Instance sim_quiet : QuietServices world same_fleet.
Proof. split. intros; intros w; reflexivity. Qed.

Definition fleet_leader : Server :=
  mkServer (mkLeaderCandidate true "replicator/config/leader" "session-1" 15 ChanOpen) scaling_cfg ChanOpen false ChanOpen.

(** The pool that is nearly idle loses a node, so its gates let it pass. *)
Lemma fleet_changes_gated_witness :
  ∃ w1, same_fleet scaling_world w1 ∧ ∃ name, pool_passed same_fleet scaling_cfg [] name w1.
Proof.
  destruct (fleet_changes_gated same_fleet fleet_leader [] scaling_world) as [H|[_ H]]; [|exact H].
  exfalso. assert (sim_detached scaling_world = ["i-9"]) as E; [|vm_compute in E; discriminate E].
  transitivity (sim_detached (clusterScalingTick fleet_leader [] scaling_world).2);
    [|vm_compute; reflexivity].
  unfold same_fleet, fleet in H. congruence.
Defined.

(** A job with one group that has a policy: nothing runs of it, and its policy,
    which the table keeps as it is, is enabled and points out. *)
Definition shop_table : JobScalingPolicies :=
  newJobScalingPolicy <| jsp_Policies := {[ "shop" := mkslice 1 1 1 ]} |>
    <| jsp_arrays := {[ 1%positive := [Some 1%positive] ]} |>
    <| jsp_objects := {[ 1%positive := demo_policy <| gsp_Enabled := true |> ]} |>.

Definition shop_world : world := (job_world (2, 2)) <| sim_job_allocs := {[ "shop" := [] ]} |>.

#[local] Instance shop_policies : PolicyStore world := {
  get_policies := mret shop_table;
  put_policies := λ _, mret tt;
}.

#[local] Instance shop_calls : QuietCalls world same_fleet.
Proof. split; [apply _|..]; intros; intros w; reflexivity. Qed.

(** The job is submitted with one more allocation of the group, so a policy of
    its passed. *)
Lemma job_changes_gated_witness :
  length (sim_registered (jobScalingTick fleet_leader shop_world).2) = 1%nat ∧
  ∃ w1, same_fleet shop_world w1 ∧ job_passed same_fleet scaling_cfg w1.
Proof.
  assert (length (sim_registered (jobScalingTick fleet_leader shop_world).2) = 1%nat) as E
    by (vm_compute; reflexivity).
  split; [exact E|].
  destruct (job_changes_gated same_fleet fleet_leader shop_world) as [H|[_ H]]; [exfalso|exact H].
  apply same_registered in H. assert (sim_registered shop_world = []) as H0 by reflexivity.
  assert (length (@nil Job) = 0%nat) as H1 by reflexivity. congruence.
Defined.
