(* ===== verification/Actions.v ===== *)
(** * Actions: what a scaling run does to the cluster, in order

    The calls that drain a node, resize an autoscaling group and detach or
    terminate an instance are recorded in a log; every other call leaves the
    log alone ([ActionLog], on top of [QuietServices]).  The assertion [acts] is a
    weakest precondition that also sees what a computation appended, so that the
    theorems speak of the sequence of actions of a run, panics included. *)

From S2P Require Import Prelude GoNum Structs Interfaces Frame Sim Helper State Consul StateFacts NodeDiscovery Failsafe FailsafeFacts Nomad NodeSelect PoolEval AwsProvider AwsFacts GoSlice JobPolicies JobPoliciesFacts JobScale Client ClusterScaling ClusterFacts JobScaling Fleet.

Inductive action :=
| Drain (node : string) (enable : bool)
| Resize (svc group : string) (desired : Z)
| Detach (svc group instance : string)
| Terminate (region instance : string).

#[export] Instance action_eq_dec : EqDecision action.
Proof. solve_decision. Defined.

Definition same_log {W} (log : W → list action) (w w' : W) : Prop := log w' = log w.

(** The log [log] records the actions of the thread that runs. *)
Class ActionLog (W : Type) {RT : Runtime W} {CA : ConsulAPI W} {NA : NomadAPI W} {AA : AwsAPI W}
    {NT : NotifierAPI W} {RS : RegistryStore W} {PS : PolicyStore W} (log : W → list action)
    {QC : QuietCalls W (same_log log)} {QS : QuietServices W (same_log log)} : Prop := {
  log_drain : ∀ n b w, log (Nodes_UpdateDrain n b w).2 = log w ++ [Drain n b];
  log_resize : ∀ s g d zones policies w,
    log (UpdateAutoScalingGroup s g d zones policies w).2 = log w ++ [Resize s g d];
  log_detach : ∀ s g i w, log (DetachInstances s g i w).2 = log w ++ [Detach s g i];
  log_terminate : ∀ r i w, log (TerminateInstances r i w).2 = log w ++ [Terminate r i];
}.

Section actions.
Context {W : Type} {RT : Runtime W} {CA : ConsulAPI W} {NA : NomadAPI W} {AA : AwsAPI W}
  {NT : NotifierAPI W} {RS : RegistryStore W} {PS : PolicyStore W}.
Context (log : W → list action) {QC : QuietCalls W (same_log log)} {QS : QuietServices W (same_log log)}
  {AL : ActionLog W log}.

#[local] Existing Instance consulClient.
#[local] Existing Instance nomadClient.
#[local] Existing Instance awsScalingProvider.

Local Abbreviation quietly := (same_log log).
#[local] Instance quietly_preorder : PreOrder quietly := quiet_preorder.

(** ** The program logic *)

Definition acts {A} (m : M W A) (w : W) (Φ : outcome A → W → list action → Prop) : Prop :=
  ∃ l, log (m w).2 = log w ++ l ∧ Φ (m w).1 (m w).2 l.

Lemma acts_ret {A} (a : A) w (Φ : outcome A → W → list action → Prop) :
  Φ (Ret a) w [] → acts (mret a) w Φ.
Proof. intros H. exists []. by rewrite app_nil_r. Qed.

Lemma acts_panic {A} e w (Φ : outcome A → W → list action → Prop) :
  Φ (Panic e) w [] → acts (go_panic e) w Φ.
Proof. intros H. exists []. by rewrite app_nil_r. Qed.

(** A call that leaves the log alone. *)
Lemma acts_quiet {A} (m : M W A) w (Φ : outcome A → W → list action → Prop) :
  keeps quietly m → (∀ o w', m w = (o, w') → Φ o w' []) → acts m w Φ.
Proof.
  intros Hk HΦ. exists []. rewrite app_nil_r. split; [apply Hk|]. apply HΦ. by destruct (m w).
Qed.

(** A call that is recorded. *)
Lemma acts_record {A} (m : M W A) e w (Φ : outcome A → W → list action → Prop) :
  log (m w).2 = log w ++ [e] → (∀ o w', m w = (o, w') → Φ o w' [e]) → acts m w Φ.
Proof. intros Hl HΦ. exists [e]. split; [done|]. apply HΦ. by destruct (m w). Qed.

Lemma acts_bind {A B} (m : M W A) (f : A → M W B) w (Φ : outcome B → W → list action → Prop) :
  acts m w (λ o w1 l1, match o with
    | Ret a => acts (f a) w1 (λ o w2 l2, Φ o w2 (l1 ++ l2))
    | Panic e => Φ (Panic e) w1 l1
    end) →
  acts (m ≫= f) w Φ.
Proof.
  intros (l1 & Hl1 & H). unfold acts, mbind, M_bind. destruct (m w) as [[a|e] w1]; simpl in *; [|eauto].
  destruct H as (l2 & Hl2 & H). exists (l1 ++ l2). by rewrite Hl2, Hl1, (assoc_L (++)).
Qed.

Lemma acts_mono {A} (m : M W A) w (Φ Ψ : outcome A → W → list action → Prop) :
  acts m w Φ → (∀ o w' l, Φ o w' l → Ψ o w' l) → acts m w Ψ.
Proof. intros (l & Hl & HΦ) HΨ. exists l. auto. Qed.

(** Binding a call that leaves the log alone: a panic of it ends the run. *)
Lemma acts_bind_quiet {A B} (m : M W A) (f : A → M W B) w (Φ : outcome B → W → list action → Prop) :
  keeps quietly m → (∀ e w', Φ (Panic e) w' []) →
  (∀ a w1, m w = (Ret a, w1) → acts (f a) w1 Φ) → acts (m ≫= f) w Φ.
Proof.
  intros Hk He Hf. apply acts_bind. apply acts_quiet; [done|]. intros [a|e] w1 E; [|apply He]. by apply Hf.
Qed.

(** ** Scale-in *)

(** The polling helpers only look. *)
Lemma quiet_describe a b : keeps quietly (describeScalingGroup a b).
Proof. apply (keeps_describe quietly). Qed.

Lemma quiet_index0 {A} (l : list A) : keeps quietly (index0 l).
Proof. apply (keeps_index0 quietly). Qed.
#[local] Hint Resolve quiet_describe quiet_index0 : frame.

Lemma quiet_translate ip region : keeps quietly (translateIptoID ip region).
Proof. apply (keeps_translate quietly). Qed.

Lemma quiet_activity a svc : keeps quietly (checkClusterScalingResult a svc).
Proof. apply (keeps_activity quietly). Qed.

Lemma quiet_verify_update n c svc : keeps quietly (verifyAsgUpdate n c svc).
Proof. apply (keeps_verify_update quietly). Qed.

Lemma quiet_persist st : keeps quietly (PersistState st).
Proof. exact (keeps_persist quietly st). Qed.
#[local] Hint Resolve quiet_translate quiet_activity quiet_verify_update quiet_persist : frame.

(** Terminating an instance is the first thing [terminateInstance] does. *)
Lemma acts_terminate i r w (Φ : outcome (option error) → W → list action → Prop) :
  (∀ o w', Φ o w' [Terminate r i]) → acts (terminateInstance i r) w Φ.
Proof.
  intros HΦ. unfold terminateInstance. apply acts_bind, (acts_record _ (Terminate r i)); [apply log_terminate|].
  intros [[e|]|e] w1 _; [by apply acts_ret| |done]. apply acts_quiet; [frame|]. intros; apply HΦ.
Qed.

Lemma acts_drain n w (Φ : outcome (option error) → W → list action → Prop) :
  (∀ o w', Φ o w' [Drain n true]) → acts (DrainNode_impl n) w Φ.
Proof.
  intros HΦ. unfold DrainNode_impl. apply acts_bind, (acts_record _ (Drain n true)); [apply log_drain|].
  intros [[e|]|e] w1 _; [by apply acts_ret| |done]. apply acts_quiet; [frame|]. intros; apply HΦ.
Qed.

(** What [scaleIn] may do: detach and then terminate the instance that EC2
    names for the first eligible node. *)
Definition removes (svc : string) (wp : WorkerPool) (ip : string) (l : list action) : Prop :=
  ∃ inst w1 w2, translateIptoID ip (wp_Region wp) w1 = (Ret inst, w2) ∧
    l `prefix_of` [Detach svc (wp_Name wp) inst; Terminate (wp_Region wp) inst].

Lemma acts_scale_in svc wp st w :
  wp_State wp = Some st →
  acts (scaleIn svc wp) w (λ _ _ l, l = [] ∨ ∃ ip, head (st_EligibleNodes st) = Some ip ∧ removes svc wp ip l).
Proof.
  intros Hst. unfold scaleIn. rewrite Hst. apply acts_bind_quiet; [frame|auto|].
  intros a w1 [= <- <-]. destruct (st_EligibleNodes st) as [|ip rest] eqn:El; cbn [length Nat.eqb].
  { apply acts_ret. auto. }
  apply acts_bind_quiet; [frame|auto|]. intros a w1 [= <- <-].
  apply acts_bind_quiet; [frame|auto|]. intros inst w1 Ht.
  assert (∀ l, l `prefix_of` [Detach svc (wp_Name wp) inst; Terminate (wp_Region wp) inst] →
    l = [] ∨ ∃ ip0, head (ip :: rest) = Some ip0 ∧ removes svc wp ip0 l) as Hdone.
  { intros l Hl. right. exists ip. split; [done|]. exists inst, w, w1. done. }
  apply acts_bind, (acts_record _ (Detach svc (wp_Name wp) inst)); [apply log_detach|].
  intros [r|e] w2 _; [|apply Hdone; by exists [Terminate (wp_Region wp) inst]].
  apply acts_bind_quiet; [frame|intros; apply Hdone; by exists [Terminate (wp_Region wp) inst]|].
  intros [e|] w3 _; [apply acts_ret, Hdone; by exists [Terminate (wp_Region wp) inst]|].
  apply acts_bind, acts_terminate. intros o w4. destruct o as [err|e]; [|by apply Hdone].
  apply acts_quiet; [frame|]. intros. by apply Hdone.
Qed.

(** The least allocated node is a node of the pool other than the protected one. *)
Lemma least_allocated_node cap prot w id ip w' :
  LeastAllocatedNode_impl cap prot w = (Ret (id, ip), w') → id ≠ "" →
  id ≠ prot ∧ ∃ a, a ∈ cc_NodeAllocations cap ∧ na_NodeID a = id.
Proof.
  unfold LeastAllocatedNode_impl. intros Hl Hid. go_bind Hl as r w1 E.
  assert (id = (leastAllocated cap prot).2) as ->.
  { destruct r; apply mret_inv in Hl as [[= <- _] _]; done. }
  unfold leastAllocated in *.
  destruct (least_fold_candidate (sm_Type (cc_ScalingMetric cap)) prot (cc_NodeAllocations cap) (F64.zero, ""))
    as [E0|(a & Ha & Hn & E0)]; [by rewrite E0 in Hid|]. rewrite E0. eauto.
Qed.

Lemma quiet_least cap prot : keeps quietly (LeastAllocatedNode_impl cap prot).
Proof. apply (keeps_least quietly). Qed.

Lemma quiet_on_registry {A} (m : M NodeRegistry A) : keeps quietly (on_registry m).
Proof. exact (keeps_on_registry quietly m). Qed.
#[local] Hint Resolve quiet_least quiet_on_registry : frame.

(** ** Scale-out *)

Lemma quiet_recent asg region : keeps quietly (getMostRecentInstance asg region).
Proof. apply (keeps_recent quietly). Qed.

Lemma quiet_read_registry : keeps quietly read_registry.
Proof. exact (keeps_read_registry quietly). Qed.
#[local] Hint Resolve quiet_recent quiet_read_registry : frame.

Lemma quiet_find n a : keeps quietly (FindNodeByAddress n a).
Proof. apply (keeps_find quietly). Qed.

Lemma quiet_record wp st : keeps quietly (recordFailure wp st).
Proof. apply (keeps_record quietly). Qed.
#[local] Hint Resolve quiet_find quiet_record : frame.

(** The removal of the instance EC2 names for an address. *)
Definition removal (svc group region ip : string) (e : action) : Prop :=
  ∃ inst w1 w2, translateIptoID ip region w1 = (Ret inst, w2) ∧
    (e = Detach svc group inst ∨ e = Terminate region inst).

(** The removal of the most recently launched instance of the group, which was
    looked up just before and is not a node of the pool. *)
Definition cleanup (svc group region : string) (e : action) : Prop :=
  ∃ ip w1 w2 w3, getMostRecentInstance group region w1 = (Ret (inr ip), w2) ∧
    FindNodeByAddress group ip w2 = (Ret false, w3) ∧ removal svc group region ip e.

Definition cleanups (svc group region : string) (n : nat) (l : list action) : Prop :=
  (length l ≤ n)%nat ∧ Forall (cleanup svc group region) l.

Lemma cleanups_nil svc group region n : cleanups svc group region n [].
Proof. split; [simpl; lia|by constructor]. Qed.

Lemma cleanups_app svc group region n m l l' :
  cleanups svc group region n l → cleanups svc group region m l' →
  cleanups svc group region (n + m) (l ++ l').
Proof. intros [??] [??]. split; [rewrite length_app; lia|by apply Forall_app]. Qed.
#[local] Hint Resolve cleanups_nil : core.

Lemma acts_cleanup svc ip wp w :
  acts (failedEventCleanup svc ip wp) w (λ _ _ l,
    (length l ≤ 1)%nat ∧ Forall (removal svc (wp_Name wp) (wp_Region wp) ip) l).
Proof.
  unfold failedEventCleanup. apply acts_bind_quiet; [frame|intros; split; [simpl; lia|constructor]|]. intros inst w1 Hi.
  assert (∀ e, e = Detach svc (wp_Name wp) inst ∨ e = Terminate (wp_Region wp) inst →
    (length [e] ≤ 1)%nat ∧ Forall (removal svc (wp_Name wp) (wp_Region wp) ip) [e]) as Hone.
  { intros e He. split; [done|]. apply Forall_singleton. by exists inst, w, w1. }
  apply acts_bind_quiet; [frame|intros; split; [simpl; lia|constructor]|]. intros st w2 _. destruct (_ =? _).
  - specialize (Hone _ (or_introl eq_refl)).
    unfold detachInstance. apply acts_bind, acts_bind, (acts_record _ (Detach svc (wp_Name wp) inst)); [apply log_detach|].
    intros [r|e] w3 _; [|done]. apply acts_quiet; [frame|]. intros [err|e] w4 _; [|done].
    apply acts_quiet; [frame|]. done.
  - specialize (Hone _ (or_intror eq_refl)).
    apply acts_bind, acts_terminate. intros [err|e] w3; [by apply acts_ret|done].
Qed.

(** An attempt of the verification removes at most one node. *)
Lemma acts_attempt svc wp w :
  acts (verifyAttempt svc wp) w (λ o _ l, cleanups svc (wp_Name wp) (wp_Region wp) 1 l ∧
    match o with
    | Ret (Next wp') => wp_Name wp' = wp_Name wp ∧ wp_Region wp' = wp_Region wp
    | _ => True
    end).
Proof.
  unfold verifyAttempt. apply acts_bind_quiet; [frame|auto|]. intros st w1 _.
  apply acts_bind_quiet; [frame|auto|]. intros r w2 Hrecent.
  assert (∀ w0 wp' w0', recordFailure wp st w0 = (Ret wp', w0') → wp_Name wp' = wp_Name wp ∧ wp_Region wp' = wp_Region wp) as Hrec.
  { unfold recordFailure. intros w0 wp' w0' Hr. go_bind Hr as [st' e] w4 E. by apply mret_inv in Hr as [<- _]. }
  destruct r as [e|ip].
  - apply acts_bind_quiet; [frame|auto|]. intros wp' w3 [Hn Hr]%Hrec. by apply acts_ret.
  - apply acts_bind_quiet; [frame|auto|]. intros [] w3 Hfind.
    + apply acts_quiet; [frame|]. intros o w4 E. split; [done|]. destruct o as [[wp'|]|]; [|done..].
      go_bind E as now w5 E5. go_bind E as [st' e] w6 E6. by apply mret_inv in E as [? _].
    + apply acts_bind_quiet; [frame|auto|]. intros wp' w4 [Hn Hr]%Hrec.
      apply acts_bind. eapply acts_mono; [apply acts_cleanup|]. rewrite Hn, Hr. intros o w5 l [Hlen Hrem].
      assert (cleanups svc (wp_Name wp) (wp_Region wp) 1 l) as Hl.
      { split; [done|]. eapply Forall_impl; [exact Hrem|]. intros e He. by exists ip, w1, w2, w3. }
      destruct o as [a|e]; [|done]. apply acts_ret. by rewrite app_nil_r.
Qed.

Lemma acts_verify fuel svc wp w :
  acts (verifyLoop fuel svc wp) w (λ _ _ l, cleanups svc (wp_Name wp) (wp_Region wp) fuel l).
Proof.
  revert wp w. induction fuel as [|fuel IH]; intros wp w; simpl; (apply acts_bind_quiet; [frame|auto|]);
    intros st w1 _; destruct (_ <=? _); try by apply acts_ret.
  apply acts_bind. eapply acts_mono; [apply acts_attempt|]. intros [[wp'|wp']|e] w2 l [Hl Ho].
  - destruct Ho as [Hn Hr]. eapply acts_mono; [apply IH|]. rewrite Hn, Hr. intros o w3 l' Hl'.
    by apply (cleanups_app _ _ _ 1).
  - apply acts_ret. rewrite app_nil_r. destruct Hl. split; [lia|done].
  - destruct Hl. split; [lia|done].
Qed.

(** The resize request asks for one instance more than the group has. *)
Definition resizes (svc : string) (wp : WorkerPool) (e : action) : Prop :=
  ∃ g err d w1 w2, DescribeAutoScalingGroups svc (wp_Name wp) w1 = (Ret ([g], err), w2) ∧
    asg_DesiredCapacity g = Some d ∧ e = Resize svc (wp_Name wp) (d +! 1).

Lemma acts_scale_out svc wp w :
  acts (scaleOut svc wp) w (λ o _ l, (∃ e, resizes svc wp e ∧ l = [e]) ∨ l = [] ∧ o ≠ Ret None).
Proof.
  unfold scaleOut. apply acts_bind_quiet; [frame|auto|]. intros [asg err] w1 Hd.
  destruct err; [by apply acts_ret; right|]. apply describe_inv in Hd as (g & -> & Hd).
  apply acts_bind_quiet; [frame|auto|]. intros g' w2 [= <- <-].
  apply acts_bind_quiet; [frame|auto|]. intros d w2 [Hg <-]%deref_inv.
  assert (∃ e, resizes svc wp e ∧ [Resize svc (wp_Name wp) (d +! 1)] = [e]) as Hdone.
  { eexists. split; [|done]. by exists g, None, d, w, w1. }
  apply acts_bind, (acts_record _ (Resize svc (wp_Name wp) (d +! 1))); [apply log_resize|].
  intros [[e|]|e] w3 _; [apply acts_ret; by left| |by left]. apply acts_quiet; [frame|]. by left.
Qed.

(** What a scale-out may do: ask for one instance more, and then remove new
    instances that do not join, at most one for each attempt that is left. *)
Definition grows (svc : string) (wp : WorkerPool) (l : list action) : Prop :=
  ∃ e l', resizes svc wp e ∧ l = e :: l' ∧ cleanups svc (wp_Name wp) (wp_Region wp) (verifyFuel wp) l'.

Lemma acts_scale svc wp st w :
  wp_State wp = Some st →
  acts (Scale_impl (AwsScalingProvider svc) wp) w (λ _ _ l, l = [] ∨
    st_ScalingDirection st = ScalingDirectionOut ∧ grows svc wp l ∨
    st_ScalingDirection st = ScalingDirectionIn ∧ ∃ ip, head (st_EligibleNodes st) = Some ip ∧ removes svc wp ip l).
Proof.
  intros Hst. unfold Scale_impl. rewrite Hst. apply acts_bind_quiet; [frame|auto|]. intros a w1 [= <- <-].
  destruct (String.eqb_spec (st_ScalingDirection st) ScalingDirectionOut) as [Ho|Ho];
    [|destruct (String.eqb_spec (st_ScalingDirection st) ScalingDirectionIn); [|by apply acts_ret; left]].
  - apply acts_bind. eapply acts_mono; [apply acts_scale_out|].
    intros o w1 l [(e & He & ->)|[-> Hne]]; [|destruct o as [[e|]|]; [apply acts_ret; auto|done|auto]].
    assert (∀ l', cleanups svc (wp_Name wp) (wp_Region wp) (verifyFuel wp) l' → grows svc wp ([e] ++ l')) as Hdone
      by (intros l' Hl'; by exists e, l').
    destruct o as [[err|]|err]; [apply acts_ret; eauto| |rewrite <-(app_nil_r [e]); eauto].
    apply acts_bind. unfold verifyScaledNode. apply acts_bind. eapply acts_mono; [apply acts_verify|].
    intros o w2 l Hl. assert (grows svc wp ([e] ++ l ++ [] ++ [])) as Hg by (rewrite !app_nil_r; auto).
    destruct o as [[[wp' ok]|]|err]; [apply acts_ret|apply acts_panic|]; rewrite ?app_nil_r in *; eauto.
    destruct ok; apply acts_ret; rewrite app_nil_r; eauto.
  - eapply acts_mono; [by apply acts_scale_in|]. intros o w2 l [->|Hr]; eauto.
Qed.

Lemma acts_provider svc wp st w :
  wp_State wp = Some st → wp_ScalingProvider wp = Some (AwsScalingProvider svc) →
  acts (callProvider wp) w (λ _ _ l, l = [] ∨
    st_ScalingDirection st = ScalingDirectionOut ∧ grows svc wp l ∨
    st_ScalingDirection st = ScalingDirectionIn ∧ ∃ ip, head (st_EligibleNodes st) = Some ip ∧ removes svc wp ip l).
Proof.
  intros Hst Hp. unfold callProvider. rewrite Hp. apply acts_bind_quiet; [frame|auto|]. intros a w1 [= <- <-].
  apply acts_bind. eapply acts_mono; [by apply acts_scale|]. intros [[wp' [e|]]|e] w2 l Hl; [| |done].
  - apply acts_ret. by rewrite app_nil_r.
  - apply acts_quiet; [frame|]. intros. by rewrite app_nil_r.
Qed.

(** The actions of a scale-in of the pool: the least allocated node [id] is
    drained, and then the instance at [target ip] is removed. *)
Definition shrinks (svc : string) (cap : ClusterCapacity) (wp : WorkerPool) (target : string → string)
    (w : W) (l : list action) : Prop :=
  ∃ id ip w1 l', LeastAllocatedNode cap (wp_ProtectedNode wp) w = (Ret (id, ip), w1) ∧
    id ≠ wp_ProtectedNode wp ∧ (∃ a, a ∈ cc_NodeAllocations cap ∧ na_NodeID a = id) ∧
    l = Drain id true :: l' ∧ (l' = [] ∨ removes svc wp (target ip) l').

(** The node at the head of the list once the address of the drained node has
    been appended. *)
Definition popped (nodes : list string) (ip : string) : string := default ip (head nodes).

Lemma acts_scale_pool svc cap wp st w :
  wp_State wp = Some st → st_ScalingDirection st = cc_ScalingDirection cap →
  wp_ScalingProvider wp = Some (AwsScalingProvider svc) →
  acts (scalePool wp cap) w (λ _ _ l, l = [] ∨
    cc_ScalingDirection cap = ScalingDirectionOut ∧ grows svc wp l ∨
    cc_ScalingDirection cap = ScalingDirectionIn ∧ shrinks svc cap wp (popped (st_EligibleNodes st)) w l).
Proof.
  intros Hst Hd Hp. unfold scalePool.
  destruct (String.eqb_spec (cc_ScalingDirection cap) ScalingDirectionOut) as [Ho|Ho];
    [|destruct (String.eqb_spec (cc_ScalingDirection cap) ScalingDirectionIn) as [Hi|]; [|by apply acts_ret; left]].
  - eapply acts_mono; [by apply acts_provider|]. intros o w1 l [->|[[_ Hg]|[Hi _]]]; [auto|auto|].
    by rewrite Hd, Ho in Hi.
  - apply acts_bind_quiet; [apply quiet_least|auto|]. intros [id ip] w1 Hl.
    destruct (String.eqb_spec ip ""); [by apply acts_ret; left|].
    destruct (String.eqb_spec id ""); [by apply acts_ret; left|]. cbn [orb].
    pose proof (least_allocated_node _ _ _ _ _ _ Hl) as [Hn Ha]; [done|].
    rewrite Hst. apply acts_bind_quiet; [frame|auto|]. intros a w2 [= <- <-].
    assert (∀ l', l' = [] ∨ removes svc wp (popped (st_EligibleNodes st) ip) l' →
      shrinks svc cap wp (popped (st_EligibleNodes st)) w (Drain id true :: l')) as Hdone.
    { intros l' Hl'. by exists id, ip, w1, l'. }
    assert (shrinks svc cap wp (popped (st_EligibleNodes st)) w [Drain id true]) as Hdrain by auto.
    apply acts_bind. apply acts_drain. intros [[e|]|e] w3; [apply acts_ret; cbn [app]; auto| |auto].
    eapply acts_mono; [eapply (acts_provider svc); [reflexivity|done]|]. unfold modify; simpl.
    intros o w4 l [->|[[He _]|(_ & ip' & Hip & Hr)]]; [eauto|by rewrite Hd, Hi in He|].
    do 2 right. split; [done|]. apply Hdone. right.
    assert (ip' = popped (st_EligibleNodes st) ip) as ->; [|exact Hr].
    unfold popped. by destruct (st_EligibleNodes st); simplify_eq/=.
Qed.

Context {KL : ConsulKVLaws W}.

Lemma count_keeps t st :
  st_ScalingDirection (countRequest t st).1 = st_ScalingDirection st ∧
  st_FailureCount (countRequest t st).1 = st_FailureCount st ∧
  st_EligibleNodes (countRequest t st).1 = st_EligibleNodes st.
Proof. unfold countRequest. repeat case_match; done. Qed.

(** A pool that passes the gates carries the direction of its evaluation and
    the eligible nodes and failures it was stored with. *)
Lemma gates_state cfg jobs name w wp cap w' :
  scalingGates cfg jobs name w = (Ret (Some (wp, cap)), w') →
  ∃ reg pool st0 st w1 w2, read_registry w = (Ret reg, w1) ∧ nr_WorkerPools reg !! name = Some pool ∧
    ReadState (poolState cfg pool) true w1 = (Ret st0, w2) ∧
    wp = pool <| wp_State := Some st |> ∧ st_ScalingDirection st = cc_ScalingDirection cap ∧
    st_FailureCount st = st_FailureCount st0 ∧ st_EligibleNodes st = st_EligibleNodes st0 ∧
    is_Some (wp_ScalingProvider pool).
Proof.
  intros (reg & pool & st & st1 & pr & w1 & w2 & w3 & w4 & w5 & w6 & H1 & H2 & H3 & _ & _ & _ & [now ->] & Hprov & _ & _ & _
    & st' & -> & [now' ->]%persist_touches)%gates_inv.
  set (st1 := _ <| st_LastUpdated := now |>).
  destruct (count_keeps (wp_ScalingThreshold pool) st1) as (Hd & Hf & He).
  exists reg, pool, st, ((countRequest (wp_ScalingThreshold pool) st1).1 <| st_LastUpdated := now' |>), w1, w2.
  unfold modify; simpl. rewrite Hd, Hf, He. by split_and!.
Qed.

(** C4. The blast radius of an evaluation: for whatever Nomad, Consul and AWS
    answer, and even when the run ends in a panic, the actions of one evaluation
    of a pool are none at all, or one request for one instance more, followed by
    at most one removal for each attempt its retry threshold leaves, each of the
    instance that was just found to be the most recently launched one of the
    group and not to have joined the pool, or the drain of one node that is not
    the protected one, followed by the detachment and then the termination of one
    instance.  Acting at all needs a pool that passed the gates, in the direction
    of the action. *)
Theorem pool_blast_radius cfg jobs name w :
  ∃ l, log (workerPoolScaling_pool cfg jobs name w).2 = log w ++ l ∧
  (l = [] ∨ ∃ wp cap w1 svc st, scalingGates cfg jobs name w = (Ret (Some (wp, cap)), w1) ∧
     wp_State wp = Some st ∧ wp_ScalingProvider wp = Some (AwsScalingProvider svc) ∧
     (cc_ScalingDirection cap = ScalingDirectionOut ∧ grows svc wp l ∨
      cc_ScalingDirection cap = ScalingDirectionIn ∧
        shrinks svc cap wp (popped (st_EligibleNodes st)) w1 l)).
Proof.
  enough (acts (workerPoolScaling_pool cfg jobs name) w (λ _ _ l, l = [] ∨ ∃ wp cap w1 svc st,
    scalingGates cfg jobs name w = (Ret (Some (wp, cap)), w1) ∧
    wp_State wp = Some st ∧ wp_ScalingProvider wp = Some (AwsScalingProvider svc) ∧
    (cc_ScalingDirection cap = ScalingDirectionOut ∧ grows svc wp l ∨
     cc_ScalingDirection cap = ScalingDirectionIn ∧
       shrinks svc cap wp (popped (st_EligibleNodes st)) w1 l))) as (l & ? & ?) by eauto.
  unfold workerPoolScaling_pool. apply acts_bind_quiet; [exact (keeps_gates quietly cfg jobs name)|auto|].
  intros [[wp cap]|] w1 Hg; [|by apply acts_ret; left].
  pose proof Hg as (reg & pool & st0 & st & w2 & w3 & _ & _ & _ & -> & Hd & _ & _ & [[svc] Hp])%gates_state.
  eapply acts_mono; [by eapply (acts_scale_pool svc)|]. intros o w4 l [->|Hl]; [by left|].
  right. by exists (pool <| wp_State := Some st |>), cap, w1, svc, st.
Qed.

(** C5. A scale-in removes the node it drained: for a pool stored without
    eligible nodes, the instance that is detached and terminated is the one EC2
    names for the address of the node that was drained just before, the least
    allocated node of the pool and never the protected one; nothing is detached
    or terminated without that drain. *)
Theorem scale_in_removes_drained cfg jobs name w wp cap w1 st0 reg pool w2 w3 :
  read_registry w = (Ret reg, w2) → nr_WorkerPools reg !! name = Some pool →
  ReadState (poolState cfg pool) true w2 = (Ret st0, w3) → st_EligibleNodes st0 = [] →
  scalingGates cfg jobs name w = (Ret (Some (wp, cap)), w1) →
  cc_ScalingDirection cap = ScalingDirectionIn →
  ∃ l, log (workerPoolScaling_pool cfg jobs name w).2 = log w ++ l ∧
  (l = [] ∨ ∃ svc id ip w4 l', LeastAllocatedNode cap (wp_ProtectedNode wp) w1 = (Ret (id, ip), w4) ∧
     id ≠ wp_ProtectedNode wp ∧ (∃ a, a ∈ cc_NodeAllocations cap ∧ na_NodeID a = id) ∧
     l = Drain id true :: l' ∧ (l' = [] ∨ removes svc wp ip l')).
Proof.
  intros Hreg Hpool Hread He Hg Hi.
  pose proof Hg as (reg' & pool' & st0' & st & w2' & w3' & Hreg' & Hpool' & Hread' & -> & Hd & _ & He' & [[svc] Hp])%gates_state.
  assert (st_EligibleNodes st = []) as Hst by (rewrite He'; congruence).
  assert (log w1 = log w) as Hw1.
  { pose proof (keeps_gates quietly cfg jobs name w) as Hk. by rewrite Hg in Hk. }
  destruct (acts_scale_pool svc cap (pool' <| wp_State := Some st |>) st w1) as (l & Hl & Ho); [done..|].
  exists l. unfold workerPoolScaling_pool. rewrite (bind_run _ _ _ _ _ Hg), Hl, Hw1. split; [done|].
  destruct Ho as [->|[[Ho _]|(_ & id & ip & w4 & l' & H1 & H2 & H3 & -> & H4)]]; [by left|by rewrite Hi in Ho|].
  right. rewrite Hst in H4. by exists svc, id, ip, w4, l'.
Qed.
End actions.

(** ** Witness: the simulated world with a log *)

Definition logged : Type := world * list action.

Definition lift {A} (m : M world A) : M logged A := λ w, let '(o, w') := m w.1 in (o, (w', w.2)).
Definition record {A} (e : action) (m : M world A) : M logged A :=
  λ w, let '(o, w') := m w.1 in (o, (w', w.2 ++ [e])).

#[local] Instance logged_runtime : Runtime logged := {
  time_Now := lift time_Now; range_keys ks := lift (range_keys ks); poll_ticks a b := lift (poll_ticks a b);
  os_Getenv k := lift (os_Getenv k); int_of_float_undefined := @int_of_float_undefined world _;
  time_text := @time_text world _;
}.
#[local] Instance logged_consul : ConsulAPI logged := {
  KV_Get k := lift (KV_Get k); KV_Put p := lift (KV_Put p); KV_Acquire p := lift (KV_Acquire p);
  KV_Release p := lift (KV_Release p); Session_Create t n := lift (Session_Create t n);
  Session_Info s := lift (Session_Info s); Session_Renew s := lift (Session_Renew s);
  Session_Destroy s := lift (Session_Destroy s);
}.
#[local] Instance logged_nomad : NomadAPI logged := {
  Jobs_List i := lift (Jobs_List i); Jobs_Info j := lift (Jobs_Info j);
  Jobs_Allocations j := lift (Jobs_Allocations j); Jobs_Register j := lift (Jobs_Register j);
  Jobs_LatestDeployment j := lift (Jobs_LatestDeployment j); Nodes_List i := lift (Nodes_List i);
  Nodes_Info n := lift (Nodes_Info n); Nodes_Allocations n := lift (Nodes_Allocations n);
  Nodes_UpdateDrain n b := record (Drain n b) (Nodes_UpdateDrain n b);
  Allocations_Info a := lift (Allocations_Info a); Allocations_Stats a := lift (Allocations_Stats a);
  Deployments_Info d i := lift (Deployments_Info d i); Evaluations_Info e := lift (Evaluations_Info e);
}.
#[local] Instance logged_aws : AwsAPI logged := {
  DescribeAutoScalingGroups s n := lift (DescribeAutoScalingGroups s n);
  UpdateAutoScalingGroup s n d z p := record (Resize s n d) (UpdateAutoScalingGroup s n d z p);
  DetachInstances s n i := record (Detach s n i) (DetachInstances s n i);
  DescribeScalingActivities s a := lift (DescribeScalingActivities s a);
  DescribeInstances r f := lift (DescribeInstances r f);
  TerminateInstances r i := record (Terminate r i) (TerminateInstances r i);
  DescribeInstanceStatus r i := lift (DescribeInstanceStatus r i);
}.
#[local] Instance logged_notifier : NotifierAPI logged := { SendNotification n m := lift (SendNotification n m) }.
#[local] Instance logged_registry : RegistryStore logged := {
  get_registry := lift get_registry; put_registry r := lift (put_registry r) }.
#[local] Instance logged_policies : PolicyStore logged := {
  get_policies := mret demo_table; put_policies _ := mret tt }.

Lemma log_lift {A} (m : M world A) : keeps (same_log snd) (lift m).
Proof. intros [w l]. unfold lift, same_log. simpl. by destruct (m w). Qed.

Lemma log_record {A} e (m : M world A) w : snd (record e m w).2 = snd w ++ [e].
Proof. unfold record. by destruct (m w.1). Qed.

#[local] Instance logged_calls : QuietCalls logged (same_log snd).
Proof. split; [split; [by intros ?|intros ???; unfold same_log; congruence]|..]; intros; simpl; try apply log_lift; by intros. Qed.

#[local] Instance logged_quiet : QuietServices logged (same_log snd).
Proof. split. intros. apply log_lift. Qed.

#[local] Instance logged_log : ActionLog logged snd.
Proof. split; intros; first [exact (log_lift _)|exact (log_record _ _ _)]. Qed.

#[local] Instance logged_kv : ConsulKVLaws logged.
Proof.
  split. intros p [w l] w' Hp. change (lift (KV_Put p) (w, l) = (Ret None, w')) in Hp.
  unfold lift in Hp. cbn [fst snd] in Hp. destruct (KV_Put p w) as [o w1] eqn:E.
  injection Hp as -> <-. apply kv_get_put in E as (q & w2 & Hq & Hv).
  exists q, (w2, l). split; [|done]. change (lift (KV_Get (kv_Key p)) (w1, l) = (Ret (inr (Some q)), (w2, l))).
  unfold lift. cbn [fst snd]. by rewrite Hq.
Qed.

#[local] Existing Instance consulClient.
#[local] Existing Instance nomadClient.
#[local] Existing Instance awsScalingProvider.

(** The pool that is nearly idle: its run drains a node and removes it. *)
Definition logged_world : logged := (scaling_world, []).
Definition logged_run : M logged unit := workerPoolScaling_pool scaling_cfg [] "pool".
Definition logged_gates : option (WorkerPool * ClusterCapacity) :=
  run_value None (scalingGates scaling_cfg [] "pool") logged_world.

Example logged_run_actions : (logged_run logged_world).2.2 =
  [Drain "node-3" true; Detach "us-east-1" "pool" "i-9"; Terminate "us-east-1" "i-9"].
Proof. vm_compute. reflexivity. Qed.

Lemma pool_blast_radius_witness :
  ∃ wp cap w1 st, scalingGates scaling_cfg [] "pool" logged_world = (Ret (Some (wp, cap)), w1) ∧
    wp_State wp = Some st ∧ (logged_run logged_world).2.2 ≠ [].
Proof.
  destruct (pool_blast_radius snd scaling_cfg [] "pool" logged_world)
    as (l & Hl & [->|(wp & cap & w1 & svc & st & Hg & Hst & _)]).
  - exfalso. vm_compute in Hl. discriminate Hl.
  - exists wp, cap, w1, st. split; [done|]. split; [done|]. vm_compute. discriminate.
Defined.

Definition logged_pool : WorkerPool := default NewWorkerPool (fst <$> logged_gates).
Definition logged_capacity : ClusterCapacity := default zero_ClusterCapacity (snd <$> logged_gates).
Definition logged_after : logged := run_world (scalingGates scaling_cfg [] "pool") logged_world.
Definition logged_read : M logged ScalingState := ReadState (poolState scaling_cfg sim_pool) true.

Lemma scale_in_removes_drained_witness :
  ∃ l, (logged_run logged_world).2.2 = [] ++ l ∧ (l = [] ∨ ∃ svc id ip w4 l',
    LeastAllocatedNode logged_capacity (wp_ProtectedNode logged_pool) logged_after = (Ret (id, ip), w4) ∧
    id ≠ wp_ProtectedNode logged_pool ∧ (∃ a, a ∈ cc_NodeAllocations logged_capacity ∧ na_NodeID a = id) ∧
    l = Drain id true :: l' ∧ (l' = [] ∨ removes svc logged_pool ip l')).
Proof.
  apply (scale_in_removes_drained snd scaling_cfg [] "pool" logged_world logged_pool logged_capacity logged_after
    (run_value zero_ScalingState logged_read logged_world) (sim_registry scaling_world) sim_pool logged_world
    (run_world logged_read logged_world)); vm_compute; reflexivity.
Defined.
