(* ===== verification/Watcher.v ===== *)
(** * Watcher: the node watcher keeps the registry well-formed

    An iteration of [NodeWatcher] ([client/node_discovery.go]) as a whole,
    beside the other threads that use the registry. *)

From S2P Require Import Prelude GoNum Structs Interfaces Frame Sim Helper State Consul NodeDiscovery NodeDiscoveryFacts.

Section watcher.
Context {W : Type} {RT : Runtime W} {NA : NomadAPI W} {CC : ConsulClient W} {RS : RegistryStore W}.
Context (HashPool : WorkerPool → error + Z) (HashNodes : gmap string string → error + Z).
Context (DecodePool : gmap string string → WorkerPool → error + WorkerPool).

(** The registry in the world. *)
Context (reg_of : W → NodeRegistry).
Context (get_reg_of : ∀ w, get_registry w = (Ret (reg_of w), w)).
Context (put_reg_of : ∀ r w, ∃ w', put_registry r w = (Ret tt, w') ∧ reg_of w' = r).
Definition wf (w : W) : Prop := reg_wf (reg_of w).

(** The calls the watcher waits for return; meanwhile other threads may have
    changed the registry, to one that is well-formed. *)
Context (list_returns : ∀ i, does wf (Nodes_List i) (λ _, True)).
Context (info_returns : ∀ n, does wf (Nodes_Info n) (λ _, True)).
Context (load_returns : ∀ k, does wf (LoadPoolConfig k) (λ _, True)).
Context (now_returns : does wf time_Now (λ _, True)).
(** Decoding the parameters of a pool does not invent nodes. *)
Context (decode_fresh : ∀ m pool, DecodePool m NewWorkerPool = inr pool → fresh_pool pool).

Lemma does_get : does wf get_registry (λ _, True).
Proof. intros w Hw. by exists (reg_of w), w. Qed.

Lemma does_on_registry {A} (m : M NodeRegistry A) :
  (∀ reg, reg_wf reg → ∃ a reg', m reg = (Ret a, reg') ∧ reg_wf reg') → does wf (on_registry m) (λ _, True).
Proof.
  intros H w Hw. destruct (H _ Hw) as (a & reg' & E & Hwf). destruct (put_reg_of reg' w) as (w' & Hp & Hr).
  exists a, w'. unfold on_registry, mbind, M_bind. rewrite get_reg_of, E, Hp. split; [done|].
  split; [|done]. unfold wf. by rewrite Hr.
Qed.

Lemma does_deregister n : does wf (on_registry (Deregister n)) (λ _, True).
Proof.
  apply does_on_registry. intros reg Hwf. destruct (deregister_wf n reg Hwf) as (e & reg' & ? & ? & _). eauto.
Qed.

Lemma does_register now node pool : fresh_pool pool → does wf (on_registry (Register HashPool now node pool)) (λ _, True).
Proof. intros Hf. apply does_on_registry. intros reg Hwf. by apply register_wf. Qed.

Lemma does_updated : does wf (on_registry (NodeRegistryUpdated HashNodes)) (λ _, True).
Proof.
  apply does_on_registry. intros reg Hwf.
  destruct (updated_wf HashNodes reg Hwf) as (b & reg' & ? & ? & _). eauto.
Qed.

Lemma does_process root node :
  does wf (ProcessNodeConfig DecodePool root node)
    (λ r, match r with inr pool => fresh_pool pool | inl _ => True end).
Proof.
  assert (∀ m, match DecodePool m NewWorkerPool with inr pool => fresh_pool pool | inl _ => True end) as Hd
    by (intros m; destruct (DecodePool m NewWorkerPool) eqn:E; eauto).
  unfold ProcessNodeConfig. destruct (_ =? _)%nat; [by apply does_ret|]. destruct (_ && _).
  - eapply does_bind; [apply load_returns|]. intros [e|m] _; [by apply does_ret|].
    destruct (_ <? _)%nat; [by apply does_ret|]. apply does_ret, Hd.
  - destruct (_ <? _)%nat; [by apply does_ret|]. apply does_ret, Hd.
Qed.

Ltac does_step :=
  match goal with
  | |- does _ (mret _) _ => apply does_ret; done
  | |- does _ (_ ≫= _) _ => eapply does_bind; [solve [eauto using does_get, does_deregister, does_register, does_process]|intros]
  | |- does _ (match ?x with _ => _ end) _ => destruct x
  end.

Lemma does_watch root node : does wf (watchNode HashPool DecodePool root node) (λ _, True).
Proof. unfold watchNode. repeat (does_step; cbn beta iota). Qed.

Lemma does_set_index i : does wf (on_registry (_ ← Lock;
    _ ← modify_reg (λ reg, reg <| nr_LastChangeIndex := i |>); Unlock)) (λ _, True).
Proof.
  apply does_on_registry. intros reg [Hl Hp Hr]. unfold mbind, M_bind, Lock. rewrite Hl.
  do 2 eexists. split; [reflexivity|]. by split.
Qed.

(** C24. An iteration of the node watcher always ends and never loses the
    registry: whatever nodes are listed, whatever their configuration and their
    fallback in Consul, it neither dereferences a missing pool nor waits for a
    lock that is not released, and it leaves a well-formed registry, while the
    other threads change the registry only to well-formed ones. *)
Theorem watcher_iteration_safe root waitIndex :
  does wf (NodeWatcher_iteration HashPool HashNodes DecodePool root waitIndex) (λ _, True).
Proof.
  unfold NodeWatcher_iteration. eapply does_bind; [apply list_returns|].
  intros [e|[nodes lastIndex]] _; [by apply does_ret|]. eapply does_bind; [apply does_get|].
  intros reg _. destruct (_ <=? _); [by apply does_ret|].
  eapply does_bind.
  { apply does_for_range. intros s x. eapply does_bind; [apply does_watch|]. intros; by apply does_ret. }
  intros _ _. eapply does_bind; [apply does_updated|]. intros _ _.
  eapply does_bind; [apply does_set_index|]. intros; by apply does_ret.
Qed.
End watcher.

(** ** Witness *)

#[local] Existing Instance consulClient.

Lemma sim_does {A} (m : M world A) : (∀ w, ∃ a w', m w = (Ret a, w') ∧ sim_registry w' = sim_registry w) →
  does (wf sim_registry) m (λ _, True).
Proof. intros H w Hw. destruct (H w) as (a & w' & E & Hr). exists a, w'. unfold wf. by rewrite Hr. Qed.

Lemma watcher_iteration_safe_witness :
  ∃ i w', NodeWatcher_iteration sim_hash sim_hash_nodes sim_decode "replicator/config" 0 fallback_world = (Ret i, w') ∧
    reg_wf (sim_registry w').
Proof.
  destruct (watcher_iteration_safe sim_hash sim_hash_nodes sim_decode sim_registry) with
    (root := "replicator/config") (waitIndex := 0) (w := fallback_world) as (i & w' & E & Hw & _).
  - intros w. reflexivity.
  - intros r w. eexists. split; reflexivity.
  - intros i. apply sim_does. intros w. by do 2 eexists.
  - intros n. apply sim_does. intros w. simpl. by do 2 eexists.
  - intros k. apply sim_does. intros w. simpl. unfold LoadPoolConfig_impl, mbind, M_bind; simpl.
    repeat case_match; by do 2 eexists.
  - apply sim_does. intros w. by do 2 eexists.
  - intros m pool. unfold sim_decode. intros H. repeat case_match; simplify_eq; done.
  - apply new_registry_wf.
  - exists i, w'. exact (conj E Hw).
Defined.
