(* ===== verification/System.v ===== *)
(** * System: the goroutines of an agent over one registry

    Everything an agent runs at the same time: the tickers of
    [replicator/server.go] with the workers they feed, the watchers of
    [client/node_discovery.go] and [client/job_scaling_policies.go], the tasks
    the latter starts, the renewal of the session and the shutdown.  A call of
    a service takes time, in which the other goroutines run; all that is assumed
    of a call is that the registry meanwhile changes by [atomic] steps, in any
    number and order: whole operations under the lock, and the writes that a
    scaling thread makes without it through the pointer to its pool, which reach
    the state of the pool and nothing else.  Every goroutine is shown to change
    the registry in no other way, so what holds along all sequences of these
    steps holds of every interleaving.

    The definitions of the scaling threads work on a copy of the pool.  Here
    their unlocked writes are steps of their own, of any value at any time, and
    a thread may also go on with any pool in its hands ([ScaleTask]), so the
    copy excludes no behaviour of the registry. *)

From stdpp Require Import relations.
From S2P Require Import Prelude GoNum Structs Interfaces Frame Sim Helper State Consul StateFacts Leader NodeDiscovery NodeDiscoveryFacts Failsafe FailsafeFacts Nomad PoolEval AwsProvider GoSlice JobPolicies JobPoliciesFacts JobScale Client ClusterScaling ClusterFacts JobScaling Server Fleet Watcher.

(** ** The operations under the lock *)

Section operations.
Context (HashPool : WorkerPool → error + Z) (HashNodes : gmap string string → error + Z).

Definition SetIndex (i : Z) : M NodeRegistry unit :=
  _ ← Lock; _ ← modify_reg (λ reg, reg <| nr_LastChangeIndex := i |>); Unlock.

(** [workerPool.State] and the fields behind it, written through the pointer to
    a pool; a pool that has left the registry is not reached any more. *)
Definition set_state (name : string) (st : option ScalingState) (reg : NodeRegistry) : NodeRegistry :=
  reg <| nr_WorkerPools ::= alter (λ wp, wp <| wp_State := st |>) name |>.

(** What happens to the registry between two calls of a service: an operation
    under the lock, however it ends, or a write of a state without the lock. *)
Inductive atomic : NodeRegistry → NodeRegistry → Prop :=
| atomic_register now node pool reg :
    fresh_pool pool → atomic reg (Register HashPool now node pool reg).2
| atomic_deregister n reg : atomic reg (Deregister n reg).2
| atomic_updated reg : atomic reg (NodeRegistryUpdated HashNodes reg).2
| atomic_index i reg : atomic reg (SetIndex i reg).2
| atomic_protect host reg : atomic reg (protectHost host reg).2
| atomic_write wp reg : atomic reg (writeState wp reg).2
| atomic_state name st reg : atomic reg (set_state name st reg).

(** The registry without the states of its pools. *)
Definition stateless (reg : NodeRegistry) : NodeRegistry :=
  reg <| nr_WorkerPools ::= fmap (λ wp, wp <| wp_State := None |>) |>.

Lemma stateless_set_state name st reg : stateless (set_state name st reg) = stateless reg.
Proof.
  destruct reg. unfold stateless, set_state, modify; simpl. f_equal. apply map_eq. intros i.
  rewrite !lookup_fmap. destruct (decide (i = name)) as [->|Hne].
  - rewrite lookup_alter_eq. by destruct (_ !! name).
  - by rewrite lookup_alter_ne.
Qed.

Lemma set_state_wf name st reg : reg_wf reg → reg_wf (set_state name st reg).
Proof.
  intros [Hl Hp Hr]. assert (∀ p, nr_WorkerPools (set_state name st reg) !! p =
    (λ wp, if decide (p = name) then wp <| wp_State := st |> else wp) <$> nr_WorkerPools reg !! p) as Hlook.
  { intros p. unfold set_state; simpl. case_decide as Hn; [subst; apply lookup_alter_eq|].
    rewrite lookup_alter_ne by done. by destruct (_ !! p). }
  split; [done|..].
  - intros p wp. rewrite Hlook. intros (wp0 & []%Hp & ->)%fmap_Some. case_decide; by split.
  - intros n p (wp & Hw & Hn)%Hr. exists (if decide (p = name) then wp <| wp_State := st |> else wp).
    rewrite Hlook, Hw. split; [done|]. by case_decide.
Qed.

(** With the lock held no operation proceeds, and only states are written. *)
Lemma atomic_locked reg reg' : atomic reg reg' → nr_Locked reg = true → stateless reg' = stateless reg.
Proof.
  intros [now node pool r Hf|n r|r|i r|host r|wp r|name st r] Hl; [..|apply stateless_set_state]; f_equal.
  - unfold Register. repeat (case_match; [done|]). unfold mbind, M_bind, Lock. by rewrite Hl.
  - unfold Deregister, mbind, M_bind, Lock. by rewrite Hl.
  - unfold NodeRegistryUpdated, mbind, M_bind, Lock. by rewrite Hl.
  - unfold SetIndex, mbind, M_bind, Lock. by rewrite Hl.
  - unfold protectHost, mbind, M_bind, Lock. by rewrite Hl.
  - unfold writeState, mbind, M_bind, Lock. by rewrite Hl.
Qed.

Lemma stateless_locked reg reg' : stateless reg' = stateless reg → nr_Locked reg' = nr_Locked reg.
Proof. intros E. apply (f_equal nr_Locked) in E. exact E. Qed.

Lemma atomics_locked reg reg' : rtc atomic reg reg' → nr_Locked reg = true → stateless reg' = stateless reg.
Proof.
  induction 1 as [x|x y z Hxy Hyz IH]; [done|]. intros Hl. pose proof (atomic_locked _ _ Hxy Hl) as E.
  rewrite <-E. apply IH. by rewrite (stateless_locked _ _ E).
Qed.

(** The lock is lost by the protection of a host that is not registered, which
    returns without releasing it ... *)
Definition leaked (reg reg' : NodeRegistry) : Prop :=
  ∃ host, nr_RegisteredNodes reg !! host = None ∧ protectHost host reg = (Ret (Some unregistered), reg').
(** ... and held by the write of the state of a pool that is gone, whose nil
    pointer ends the agent. *)
Definition crashed (reg reg' : NodeRegistry) : Prop :=
  ∃ wp, nr_WorkerPools reg !! wp_Name wp = None ∧ writeState wp reg = (Panic "nil pointer dereference", reg').

(** Either way the registry is as it was, with the lock held. *)
Definition stops (reg reg' : NodeRegistry) : Prop :=
  reg_wf reg ∧ reg' = reg <| nr_Locked := true |> ∧ (leaked reg reg' ∨ crashed reg reg').

Lemma protect_or_leak host reg : reg_wf reg → reg_wf (protectHost host reg).2 ∨ stops reg (protectHost host reg).2.
Proof.
  intros Hr. destruct (nr_RegisteredNodes reg !! host) as [p|] eqn:Eh.
  - left. by destruct (protect_wf host reg p Hr Eh) as (reg' & -> & Hwf & _).
  - right. pose proof (protect_unregistered host reg (wf_unlocked _ Hr) Eh) as E.
    rewrite E. split; [done|]. split; [done|]. left. by exists host.
Qed.

Lemma write_or_crash wp reg : reg_wf reg → reg_wf (writeState wp reg).2 ∨ stops reg (writeState wp reg).2.
Proof.
  intros Hr. destruct (nr_WorkerPools reg !! wp_Name wp) as [p|] eqn:Ep.
  - left. unfold writeState, mbind, M_bind, Lock. rewrite (wf_unlocked _ Hr). unfold get_reg. simpl.
    rewrite Ep. simpl. apply shape_wf. split; [done|]. apply shape_locked.
    apply (shape_set_pool _ (wp_Name wp) p); [done|done| |apply shape_locked; by apply shape_wf].
    pose proof (wf_pools _ Hr _ _ Ep) as []. by split.
  - right. assert (writeState wp reg = (Panic "nil pointer dereference", reg <| nr_Locked := true |>)) as E.
    { unfold writeState, mbind, M_bind, Lock. rewrite (wf_unlocked _ Hr). unfold get_reg. simpl. by rewrite Ep. }
    rewrite E. split; [done|]. split; [done|]. right. by exists wp.
Qed.

Lemma atomic_wf reg reg' : atomic reg reg' → reg_wf reg → reg_wf reg' ∨ stops reg reg'.
Proof.
  intros [now node pool r Hf|n r|r|i r|host r|wp r|name st r] Hr.
  - left. by destruct (register_wf HashPool now node pool r Hr Hf) as (e & reg1 & -> & Hwf).
  - left. by destruct (deregister_wf n r Hr) as (e & reg1 & -> & Hwf & _).
  - left. by destruct (updated_wf HashNodes r Hr) as (b & reg1 & -> & Hwf & _).
  - left. destruct Hr as [Hl Hp Hn]. unfold SetIndex, mbind, M_bind, Lock. rewrite Hl. by split.
  - by apply protect_or_leak.
  - by apply write_or_crash.
  - left. by apply set_state_wf.
Qed.

(** Any number of steps: the registry stays well-formed, or it stops changing on
    the way. *)
Lemma atomics_wf reg reg' : rtc atomic reg reg' → reg_wf reg →
  reg_wf reg' ∨ ∃ reg1 reg2, rtc atomic reg reg1 ∧ stops reg1 reg2 ∧ stateless reg' = stateless reg2.
Proof.
  intros H Hr. induction H as [reg|reg reg1 reg2 H1 H2 IH]; [by left|].
  destruct (atomic_wf _ _ H1 Hr) as [Hw|Hw].
  - destruct (IH Hw) as [?|(r & r' & ? & ?)]; [by left|right]. exists r, r'. split; [by eapply rtc_l|done].
  - right. exists reg, reg1. split; [done|]. split; [done|]. apply atomics_locked; [done|].
    by destruct Hw as (_ & -> & _).
Qed.
End operations.

(** ** The calls that act *)

(** The calls that are not among [QuietCalls]; with them every call of a
    service keeps [R]. *)
Class ActingCalls (W : Type) {CA : ConsulAPI W} {NA : NomadAPI W} {AA : AwsAPI W} (R : W → W → Prop) : Prop := {
  acting_jobs : ∀ i, keeps R (Jobs_List i);
  acting_register : ∀ j, keeps R (Jobs_Register j);
  acting_nodes : ∀ i, keeps R (Nodes_List i);
  acting_drain : ∀ n b, keeps R (Nodes_UpdateDrain n b);
  acting_deployment : ∀ d i, keeps R (Deployments_Info d i);
  acting_evaluation : ∀ e, keeps R (Evaluations_Info e);
  acting_acquire : ∀ p, keeps R (KV_Acquire p);
  acting_release : ∀ p, keeps R (KV_Release p);
  acting_create : ∀ t n, keeps R (Session_Create t n);
  acting_info : ∀ s, keeps R (Session_Info s);
  acting_renew : ∀ s, keeps R (Session_Renew s);
  acting_destroy : ∀ s, keeps R (Session_Destroy s);
  acting_resize : ∀ s g d zs ps, keeps R (UpdateAutoScalingGroup s g d zs ps);
  acting_detach : ∀ s g i, keeps R (DetachInstances s g i);
  acting_terminate : ∀ r i, keeps R (TerminateInstances r i);
}.
#[export] Hint Resolve acting_jobs acting_register acting_nodes acting_drain acting_deployment acting_evaluation
  acting_acquire acting_release acting_create acting_info acting_renew acting_destroy acting_resize acting_detach
  acting_terminate : frame.

(** ** What the goroutines keep *)

Section goroutines.
Context {W : Type} {RT : Runtime W} {CA : ConsulAPI W} {NA : NomadAPI W} {AA : AwsAPI W}
  {NT : NotifierAPI W} {RS : RegistryStore W} {PS : PolicyStore W}.
Context (R : W → W → Prop) {QC : QuietCalls W R} {AC : ActingCalls W R}.
(** The two writes of the scaling threads to the registry. *)
Context (keeps_write_state : ∀ wp, keeps R (on_registry (writeState wp))).
Context (keeps_protect : ∀ host, keeps R (on_registry (protectHost host))).

#[local] Existing Instance consulClient.
#[local] Existing Instance nomadClient.
#[local] Existing Instance awsScalingProvider.
#[local] Instance system_R : PreOrder R := quiet_preorder.
Hint Resolve keeps_read_registry keeps_on_policies keeps_persist keeps_read keeps_gates keeps_describe keeps_index0
  keeps_translate keeps_activity keeps_verify_update keeps_recent keeps_find keeps_record keeps_least
  keeps_for_groups keeps_evaluate_jobs keeps_in_deployment keeps_write_state keeps_protect : frame.

Lemma keeps_detach a i svc : keeps R (detachInstance a i svc).
Proof. unfold detachInstance. frame. Qed.

Lemma keeps_terminate i r : keeps R (terminateInstance i r).
Proof. unfold terminateInstance. frame. Qed.
Hint Resolve keeps_detach keeps_terminate : frame.

Lemma keeps_attempt svc wp : keeps R (verifyAttempt svc wp).
Proof. unfold verifyAttempt, failedEventCleanup. frame. Qed.
Hint Resolve keeps_attempt : frame.

Lemma keeps_verify_loop n svc wp : keeps R (verifyLoop n svc wp).
Proof. revert wp. induction n as [|n IH]; intros wp; simpl; frame. Qed.
Hint Resolve keeps_verify_loop : frame.

Lemma keeps_scale sp wp : keeps R (Scale_impl sp wp).
Proof. unfold Scale_impl, scaleOut, scaleIn, verifyScaledNode. frame. Qed.

Lemma keeps_drain_node n : keeps R (DrainNode_impl n).
Proof. unfold DrainNode_impl. frame. Qed.
Hint Resolve keeps_scale keeps_drain_node : frame.

Lemma keeps_least_node cap prot : keeps R (LeastAllocatedNode_impl cap prot).
Proof. exact (keeps_least R cap prot). Qed.
Hint Resolve keeps_least_node : frame.

Lemma keeps_scale_pool wp cap : keeps R (scalePool wp cap).
Proof. unfold scalePool, callProvider. simpl. frame. Qed.
Hint Resolve keeps_scale_pool : frame.

Lemma keeps_cluster_tick s jobs : keeps R (clusterScalingTick s jobs).
Proof.
  unfold clusterScalingTick, nodeProtectionCheck, workerPoolScaling, workerPoolScaling_pool.
  simpl. unfold NodeReverseLookup_impl. frame.
Qed.

Lemma keeps_job_scale j g st : keeps R (JobGroupScale_impl j g st).
Proof. unfold JobGroupScale_impl, scaleConfirmation, getDeploymentID, scaleTaskGroup, atLimit. frame. Qed.
Hint Resolve keeps_job_scale : frame.

Lemma keeps_job_tick s : keeps R (jobScalingTick s).
Proof. unfold jobScalingTick, jobScaling_job, scaleGroup. frame. Qed.

Lemma keeps_election s : keeps R (leaderTick s).
Proof.
  unfold leaderTick, leaderElection. simpl. unfold CreateSession_impl, AcquireLeadership_impl. frame.
Qed.

Lemma keeps_renewal session n evs : keeps R (renewSession session n evs).
Proof. revert n. induction evs as [|e evs IH]; intros n; simpl; unfold renew_step; frame. Qed.

Lemma keeps_shutdown s : keeps R (Shutdown s).
Proof. unfold Shutdown, endCampaign, releaseSession. simpl. unfold ResignLeadership_impl. frame. Qed.

Lemma keeps_job_watch l i : keeps R (JobWatcher_iteration l i).
Proof. unfold JobWatcher_iteration. frame. Qed.

Lemma keeps_process_job j : keeps R (jobScalingPolicyProcessor j).
Proof. unfold jobScalingPolicyProcessor, processGroup. frame. Qed.
End goroutines.

(** ** The agent *)

(** The work of a goroutine between two waits: a tick of the server, an
    iteration of a watcher, a task of the policy watcher, the renewal of a
    session, the shutdown, and the action of a scaling thread on whatever its
    pool and its evaluation have become. *)
Inductive goroutine :=
| LeaderTick (s : Server)
| JobTick (s : Server)
| ClusterTick (s : Server) (jobs : list string)
| ScaleTask (wp : WorkerPool) (cap : ClusterCapacity)
| NodeWatch (root : string) (waitIndex : Z)
| JobWatch (LastChangeIndex waitIndex : Z)
| ProcessTask (jobID : string)
| PolicyTask (update : M JobScalingPolicies unit)
| Renewal (session : string) (attempts : Z) (evs : list renew_event)
| ShutdownTask (s : Server).

Section agent.
Context {W : Type} {RT : Runtime W} {CA : ConsulAPI W} {NA : NomadAPI W} {AA : AwsAPI W}
  {NT : NotifierAPI W} {RS : RegistryStore W} {PS : PolicyStore W}.
Context (HashPool : WorkerPool → error + Z) (HashNodes : gmap string string → error + Z).
Context (DecodePool : gmap string string → WorkerPool → error + WorkerPool).
(** The registry in the world. *)
Context (reg_of : W → NodeRegistry).

#[local] Existing Instance consulClient.
#[local] Existing Instance nomadClient.
#[local] Existing Instance awsScalingProvider.

Definition run (g : goroutine) : M W unit :=
  match g with
  | LeaderTick s => _ ← leaderTick s; mret tt
  | JobTick s => jobScalingTick s
  | ClusterTick s jobs => clusterScalingTick s jobs
  | ScaleTask wp cap => scalePool wp cap
  | NodeWatch root i => _ ← NodeWatcher_iteration HashPool HashNodes DecodePool root i; mret tt
  | JobWatch l i => _ ← JobWatcher_iteration l i; mret tt
  | ProcessTask j => _ ← jobScalingPolicyProcessor j; mret tt
  | PolicyTask m => on_policies m
  | Renewal session n evs => _ ← renewSession session n evs; mret tt
  | ShutdownTask s => _ ← Shutdown s; mret tt
  end.

(** A goroutine runs, however its run ends, or a scaling thread writes the
    state of a pool without the lock. *)
Inductive agent_step : W → W → Prop :=
| step_run g w : agent_step w (run g w).2
| step_state name st w : agent_step w (put_registry (set_state name st (reg_of w)) w).2.

(** The registry changes by atomic steps. *)
Definition interleaved (w w' : W) : Prop := rtc (atomic HashPool HashNodes) (reg_of w) (reg_of w').

(** The registry of the world is read and written as a whole; decoding the
    parameters of a pool does not invent nodes. *)
Context (get_reg_of : ∀ w, get_registry w = (Ret (reg_of w), w)).
Context (put_reg_of : ∀ r w, ∃ w', put_registry r w = (Ret tt, w') ∧ reg_of w' = r).
Context (decode_fresh : ∀ m pool, DecodePool m NewWorkerPool = inr pool → fresh_pool pool).
(** While a call is under way the other goroutines run. *)
Context {QC : QuietCalls W interleaved} {AC : ActingCalls W interleaved}.

#[local] Instance interleaved_preorder : PreOrder interleaved := quiet_preorder.

Lemma interleaved_on_registry {A} (m : M NodeRegistry A) :
  (∀ reg, atomic HashPool HashNodes reg (m reg).2) → keeps interleaved (on_registry m).
Proof.
  intros H w. unfold on_registry, interleaved, mbind, M_bind. rewrite get_reg_of. specialize (H (reg_of w)).
  destruct (m (reg_of w)) as [o reg']; simpl in H. destruct (put_reg_of reg' w) as (w' & -> & Hr).
  destruct o; simpl; rewrite Hr; by apply rtc_once.
Qed.

Lemma interleaved_index i : keeps interleaved (on_registry (SetIndex i)).
Proof. apply interleaved_on_registry. constructor. Qed.
Lemma interleaved_deregister n : keeps interleaved (on_registry (Deregister n)).
Proof. apply interleaved_on_registry. constructor. Qed.
Lemma interleaved_updated : keeps interleaved (on_registry (NodeRegistryUpdated HashNodes)).
Proof. apply interleaved_on_registry. constructor. Qed.
Hint Resolve interleaved_index interleaved_deregister interleaved_updated : frame.

Lemma process_fresh root node :
  yields (ProcessNodeConfig (W:=W) DecodePool root node)
    (λ r, match r with inr pool => fresh_pool pool | inl _ => True end).
Proof.
  assert (∀ m, match DecodePool m NewWorkerPool with inr pool => fresh_pool pool | inl _ => True end) as Hd
    by (intros m; destruct (DecodePool m NewWorkerPool) eqn:E; eauto).
  unfold ProcessNodeConfig. destruct (_ =? _)%nat; [by apply yields_ret|]. destruct (_ && _).
  - eapply yields_bind; [apply yields_any|]. intros [e|m] _; [by apply yields_ret|].
    destruct (_ <? _)%nat; apply yields_ret; [done|apply Hd].
  - destruct (_ <? _)%nat; apply yields_ret; [done|apply Hd].
Qed.

Lemma interleaved_process root node : keeps interleaved (ProcessNodeConfig DecodePool root node).
Proof. unfold ProcessNodeConfig. simpl. unfold LoadPoolConfig_impl. frame. Qed.
Hint Resolve interleaved_process : frame.

(** Only pools without nodes are registered, so the continuation of the
    configuration is looked at for those. *)
Lemma interleaved_watch root node : keeps interleaved (watchNode HashPool DecodePool root node).
Proof.
  unfold watchNode. refine (keeps_bind _ _ _ _ _); [frame|]. intros reg.
  destruct (_ <=? _); [frame|]. destruct (_ && _); [frame|].
  destruct (String.eqb _ _); [|destruct (String.eqb _ _); frame].
  refine (keeps_bind _ _ _ _ _); [frame|]. intros [e|n]; [frame|].
  refine (keeps_bind_yields _ _ _ _ _ (process_fresh root n) _); [frame|]. intros [e|pool] Hf; [frame|].
  refine (keeps_bind _ _ _ _ _); [frame|]. intros now.
  refine (keeps_bind _ _ _ _ _); [|frame]. apply interleaved_on_registry. intros r. by constructor.
Qed.
Hint Resolve interleaved_watch : frame.

Lemma interleaved_nodes root i : keeps interleaved (NodeWatcher_iteration HashPool HashNodes DecodePool root i).
Proof.
  unfold NodeWatcher_iteration. fold (SetIndex i). frame.
Qed.

Lemma interleaved_run g : keeps interleaved (run g).
Proof.
  assert (∀ wp, keeps interleaved (on_registry (writeState wp))) as Hw
    by (intros; apply interleaved_on_registry; constructor).
  assert (∀ host, keeps interleaved (on_registry (protectHost host))) as Hp
    by (intros; apply interleaved_on_registry; constructor).
  destruct g; simpl.
  - refine (keeps_bind _ _ _ _ _); [apply (keeps_election interleaved)|frame].
  - apply (keeps_job_tick interleaved).
  - by apply (keeps_cluster_tick interleaved).
  - by apply (keeps_scale_pool interleaved).
  - refine (keeps_bind _ _ _ _ _); [apply interleaved_nodes|frame].
  - refine (keeps_bind _ _ _ _ _); [apply (keeps_job_watch interleaved)|frame].
  - refine (keeps_bind _ _ _ _ _); [apply (keeps_process_job interleaved)|frame].
  - apply (keeps_on_policies interleaved).
  - refine (keeps_bind _ _ _ _ _); [apply (keeps_renewal interleaved)|frame].
  - refine (keeps_bind _ _ _ _ _); [apply (keeps_shutdown interleaved)|frame].
Qed.

Lemma agent_interleaved w w' : rtc agent_step w w' → interleaved w w'.
Proof.
  induction 1 as [x|x y z [g w0|name st w0] Hyz IH]; [reflexivity|..]; (etrans; [|exact IH]).
  - apply interleaved_run.
  - unfold interleaved. destruct (put_reg_of (set_state name st (reg_of w0)) w0) as (w1 & -> & E).
    simpl. rewrite E. apply rtc_once. constructor.
Qed.

(** C7. The registry under all goroutines of an agent: whatever runs, in
    whatever order and interleaved in whatever way, with the unlocked writes of
    the scaling threads to the states of their pools, a well-formed registry
    stays well-formed, or it has stopped: a host that is not registered was
    protected and the lock was lost, or the state of a pool that was
    deregistered while it was scaled was written and the agent crashed.  Once it
    has stopped nothing but the states of its pools changes any more. *)
Theorem agent_keeps_registry w w' :
  reg_wf (reg_of w) → rtc agent_step w w' →
  reg_wf (reg_of w') ∨
  (∃ reg1 reg2, rtc (atomic HashPool HashNodes) (reg_of w) reg1 ∧ stops reg1 reg2 ∧
     stateless (reg_of w') = stateless reg2) ∧
  ∀ w2, rtc agent_step w' w2 → stateless (reg_of w2) = stateless (reg_of w').
Proof.
  intros Hwf H.
  destruct (atomics_wf _ _ _ _ (agent_interleaved _ _ H) Hwf) as [?|(reg1 & reg2 & Hr & Hl & E)]; [by left|right].
  split; [by exists reg1, reg2|]. intros w2 H2. eapply atomics_locked; [by apply agent_interleaved|].
  rewrite (stateless_locked _ _ E). by destruct Hl as (_ & -> & _).
Qed.
End agent.

(** ** Witness: the watcher overtakes a scaling thread *)

#[local] Existing Instance consulClient.
#[local] Existing Instance nomadClient.
#[local] Existing Instance awsScalingProvider.

(** While a node of the pool is detached, the node watcher sees all its nodes
    leave the cluster. *)
Definition nodes_leave (reg : NodeRegistry) : NodeRegistry :=
  foldl (λ r n, (Deregister n r).2) reg ["node-1"; "node-2"; "node-3"].

Definition overtaken {A} (m : M world A) : M world A :=
  a ← m; _ ← tell (λ w, w <| sim_registry ::= nodes_leave |>); mret a.

#[local] Instance racing_aws : AwsAPI world := {
  DescribeAutoScalingGroups := @DescribeAutoScalingGroups world sim_aws;
  UpdateAutoScalingGroup := @UpdateAutoScalingGroup world sim_aws;
  DetachInstances s g i := overtaken (@DetachInstances world sim_aws s g i);
  DescribeScalingActivities := @DescribeScalingActivities world sim_aws;
  DescribeInstances := @DescribeInstances world sim_aws;
  TerminateInstances := @TerminateInstances world sim_aws;
  DescribeInstanceStatus := @DescribeInstanceStatus world sim_aws;
}.

#[local] Instance racing_policies : PolicyStore world := {
  get_policies := mret newJobScalingPolicy;
  put_policies _ := mret tt;
}.

Local Abbreviation racing := (interleaved sim_hash sim_hash_nodes sim_registry).

#[local] Instance racing_preorder : PreOrder racing.
Proof. split; unfold interleaved; [by intros ?|intros ???; by etrans]. Qed.

#[local] Instance racing_calls : QuietCalls world racing.
Proof. split; [apply _|..]; intros; intros w; unfold interleaved; reflexivity. Qed.

#[local] Instance racing_acting : ActingCalls world racing.
Proof.
  split; intros; try (intros w; unfold interleaved; simpl; repeat case_match; reflexivity).
  intros w. unfold interleaved. simpl. unfold nodes_leave. simpl.
  do 3 (eapply rtc_l; [apply atomic_deregister|]). reflexivity.
Qed.

Lemma sim_registry_wf : reg_wf (sim_registry scaling_world).
Proof.
  split; [done|..].
  - apply map_Forall_singleton. split; [done|by vm_compute|done|by eexists|..];
      apply (bool_decide_unpack _); vm_compute; exact I.
  - intros n p H. exists sim_pool.
    assert (map_Forall (λ n p, p = "pool" ∧ is_Some (wp_Nodes sim_pool !! n))
      (nr_RegisteredNodes (sim_registry scaling_world))) as Hall.
    { apply (bool_decide_unpack _). vm_compute. exact I. }
    destruct (Hall _ _ H) as [-> ?]. done.
Qed.

(** The run of the leader's tick in which the pool is deregistered while its
    node is detached crashes, with the lock held. *)
Definition race : goroutine := ClusterTick fleet_leader [].
Definition race_run : M world unit := run sim_hash sim_hash_nodes sim_decode race.
Definition raced : world := run_world race_run scaling_world.

Example race_crashes : (race_run scaling_world).1 = Panic "nil pointer dereference".
Proof. vm_compute. reflexivity. Qed.

Lemma agent_keeps_registry_witness :
  (∃ reg1 reg2, stops reg1 reg2 ∧ stateless (sim_registry raced) = stateless reg2) ∧
  stateless (sim_registry (run_world (run sim_hash sim_hash_nodes sim_decode (NodeWatch "replicator/config" 0)) raced)) =
    stateless (sim_registry raced).
Proof.
  destruct (agent_keeps_registry sim_hash sim_hash_nodes sim_decode sim_registry) with
    (w := scaling_world) (w' := raced) as [Hwf|[(reg1 & reg2 & _ & Hl) Hfrozen]].
  - intros w. reflexivity.
  - intros r w. eexists. split; reflexivity.
  - intros m pool. unfold sim_decode. intros H. repeat case_match; simplify_eq; done.
  - apply _.
  - apply _.
  - apply sim_registry_wf.
  - apply rtc_once. exact (step_run _ _ _ _ race scaling_world).
  - exfalso. pose proof (wf_unlocked _ Hwf) as H. vm_compute in H. discriminate H.
  - split; [by exists reg1, reg2|]. apply Hfrozen, rtc_once.
    exact (step_run _ _ _ _ (NodeWatch "replicator/config" 0) raced).
Defined.
