(* ===== verification/Notifier.v ===== *)
(** * Notifier: the notification backends

    [notifier/notifier.go], [notifier/pagerduty.go] and [notifier/opsgenie.go]:
    the factory, what each backend sends for a failure message, and the
    instance of [NotifierAPI] they give.  The client libraries of the two
    services are parameters. *)

From S2P Require Import Prelude GoNum Structs Interfaces Sim State Consul StateFacts Failsafe FailsafeFacts.

(** [pagerduty.Event] *)
Record Event := mkEvent {
  ev_ServiceKey : string;
  ev_Type : string;
  ev_Description : string;
  ev_Details : FailureMessage;
}.

(** [alertsv2.CreateAlertRequest] *)
Record CreateAlertRequest := mkCreateAlertRequest {
  ca_Message : string;
  ca_Alias : string;
  ca_Description : string;
  ca_Details : gmap string string;
  ca_Entity : string;
  ca_Source : string;
}.

(** The calls of the two libraries; [AlertV2] gives a client for an API key or
    nil, and both calls answer with an identifier. *)
Class AlertServices (W : Type) := {
  pagerduty_CreateEvent : Event → M W (error + string);
  opsgenie_AlertV2 : string → M W (option string);
  opsgenie_Create : string → CreateAlertRequest → M W (error + string);
}.

Definition NewPagerDutyProvider (c : gmap string string) : error + NotifierValue :=
  inr (PagerDutyProvider c).
Definition NewOpsGenieProvider (c : gmap string string) : error + NotifierValue :=
  inr (OpsGenieProvider c).

Definition NewProvider (t : string) (c : gmap string string) : error + NotifierValue :=
  if String.eqb t "pagerduty" then NewPagerDutyProvider c
  else if String.eqb t "opsgenie" then NewOpsGenieProvider c
  else inl ("the notifications provider " +:+ t +:+ " is not supported").

Definition Notifier_Name (n : NotifierValue) : string :=
  match n with PagerDutyProvider _ => "pagerduty" | OpsGenieProvider _ => "opsgenie" end.

(** [fmt.Sprintf("%s %s_%s_%s", ...)] *)
Definition description (message : FailureMessage) : string :=
  fm_AlertUID message +:+ " " +:+ fm_ClusterIdentifier message +:+ "_" +:+
  fm_Reason message +:+ "_" +:+ fm_ResourceID message.

(** A missing key of a map reads as the empty string. *)
Definition pagerduty_event (config : gmap string string) (message : FailureMessage) : Event :=
  mkEvent (default "" (config !! "PagerDutyServiceKey")) "trigger" (description message) message.

Definition opsgenie_request (message : FailureMessage) : CreateAlertRequest :=
  mkCreateAlertRequest "replicator notification" (fm_AlertUID message) (description message)
    {[ "alert_uid" := fm_AlertUID message; "cluster_identifier" := fm_ClusterIdentifier message;
       "reason" := fm_Reason message; "resource_id" := fm_ResourceID message ]}
    (fm_ResourceID message) "replicator".

Section backends.
Context {W : Type} {AS : AlertServices W}.

Definition PagerDuty_SendNotification (config : gmap string string) (message : FailureMessage) : M W unit :=
  _ ← pagerduty_CreateEvent (pagerduty_event config message);
  mret tt.

(** The error of [AlertV2] is dropped: without a client the call crashes. *)
Definition OpsGenie_SendNotification (config : gmap string string) (message : FailureMessage) : M W unit :=
  alertCli ← opsgenie_AlertV2 (default "" (config !! "OpsGenieAPIKey"));
  alertCli ← deref alertCli;
  _ ← opsgenie_Create alertCli (opsgenie_request message);
  mret tt.

(** The method of the dynamic value. *)
Definition notifiers : NotifierAPI W := {|
  SendNotification := λ n message,
    match n with
    | PagerDutyProvider config => PagerDuty_SendNotification config message
    | OpsGenieProvider config => OpsGenie_SendNotification config message
    end;
|}.
End backends.
