(* ===== verification/Logging.v ===== *)
(** * Logging: the lines of the log

    [logging/logging.go]: the format of a line.  The functions of a severity
    hand their formatted message to the logging library; [SetLevel] is part of
    [Agent.v], where it decides whether the agent starts. *)

From Stdlib Require Import Ascii.
From S2P Require Import Prelude GoNum Structs.

(** [strings.ToUpper], on the names of the levels. *)
Fixpoint ToUpper (s : string) : string :=
  match s with
  | EmptyString => EmptyString
  | String c s' =>
      let n := nat_of_ascii c in
      String (if (97 <=? n)%nat && (n <=? 122)%nat then ascii_of_nat (n - 32) else c) (ToUpper s')
  end.

(** What the formatter reads of an entry: the time in the layout
    [2006/01/02 15:04:05 MST], the name of the level and the message. *)
Record Entry := mkEntry {
  entry_Time : string;
  entry_Level : string;
  entry_Message : string;
}.

Definition Format (entry : Entry) : string :=
  entry_Time entry +:+ " [" +:+ ToUpper (entry_Level entry) +:+ "] " +:+ entry_Message entry
    +:+ String (ascii_of_nat 10) "".

(** ** Reading a line *)

(** The text in front of the first occurrence of a character and what follows
    it. *)
Fixpoint cut (c : ascii) (s : string) : option (string * string) :=
  match s with
  | EmptyString => None
  | String c' s' =>
      if bool_decide (c' = c) then Some (EmptyString, s')
      else '(l, r) ← cut c s'; Some (String c' l, r)
  end.

(** The time up to the bracket, the level up to the closing one, the message. *)
Definition read_line (line : string) : option Entry :=
  '(time, rest) ← cut "[" line;
  '(level, message) ← cut "]" rest;
  Some (mkEntry time level message).

Definition mentions (c : ascii) (s : string) : Prop := c ∈ String.list_ascii_of_string s.

Lemma cut_app c l r : ¬ mentions c l → cut c (l +:+ String c r) = Some (l, r).
Proof.
  induction l as [|c' l IH]; simpl; intros H.
  - by rewrite bool_decide_eq_true_2.
  - unfold mentions in H. simpl in H. rewrite not_elem_of_cons in H.
    rewrite bool_decide_eq_false_2 by naive_solver. change (String.append l ?x) with (l +:+ x).
    rewrite IH by (unfold mentions; naive_solver). done.
Qed.

(** A line of the log shows its entry: reading it up to the two brackets gives
    the time, the level and the message back. *)
Lemma format_read (e : Entry) :
  ¬ mentions "[" (entry_Time e) → ¬ mentions "]" (ToUpper (entry_Level e)) →
  read_line (Format e) = Some (mkEntry (entry_Time e +:+ " ") (ToUpper (entry_Level e))
    (" " +:+ entry_Message e +:+ String (ascii_of_nat 10) "")).
Proof.
  intros Ht Hl. unfold Format, read_line.
  assert (¬ mentions "[" (entry_Time e +:+ " ")) as Ht'.
  { clear -Ht. destruct e as [t l m]. simpl in *. unfold mentions in *. revert Ht.
    induction t as [|c t IH]; simpl; rewrite ?not_elem_of_cons; [set_solver|naive_solver]. }
  assert (∀ m, entry_Time e +:+ " [" +:+ m = (entry_Time e +:+ " ") +:+ String "[" m) as ->.
  { intros m. destruct e as [t l msg]. simpl. clear. induction t as [|c t IH]; [done|].
    exact (f_equal (String c) IH). }
  rewrite cut_app by done. simpl.
  assert (∀ m, "] " +:+ m = String "]" (" " +:+ m)) as -> by done. by rewrite cut_app.
Qed.
