(* ===== verification/InitCmd.v ===== *)
(** * InitCmd: the init command

    [command/init.go]: example scaling documents are written to the working
    directory, never over an existing file.  The documents are kept as their
    keys and values, from which the text is laid out. *)

From Stdlib Require Import Ascii.
From S2P Require Import Prelude GoNum Structs Interfaces Helper NodeDiscovery JobPolicies Flags.

Definition defaultJobScalingName : string := "job_scaling.hcl".
Definition defaultClusterScalingName : string := "cluster_scaling.hcl".

(** A line is the key in quotes, padded to the width of the longest, and the
    value as it is written. *)
Definition quote : string := String (ascii_of_nat 34) "".
Definition newline : string := String (ascii_of_nat 10) "".
Definition spaces (n : nat) : string := String.concat "" (replicate n " ").

Definition line (width : nat) (kv : string * string) : string :=
  "  " +:+ quote +:+ kv.1 +:+ quote +:+ spaces (width - String.length kv.1) +:+ " = " +:+ kv.2 +:+ newline.
Definition document (width : nat) (kvs : list (string * string)) : string :=
  "meta {" +:+ newline +:+ String.concat "" (line width <$> kvs) +:+ "}".

Definition quoted (s : string) : string := quote +:+ s +:+ quote.

Definition jobScalingKeys : list (string * string) :=
  [("replicator_cooldown", "50"); ("replicator_enabled", "true"); ("replicator_max", "10");
   ("replicator_min", "1"); ("replicator_notification_uid", quoted "REP1");
   ("replicator_scalein_mem", "30"); ("replicator_scalein_cpu", "30");
   ("replicator_scaleout_mem", "80"); ("replicator_scaleout_cpu", "80")].
Definition clusterScalingKeys : list (string * string) :=
  [("replicator_cool_down", "400"); ("replicator_enabled", "true");
   ("replicator_node_fault_tolerance", "1"); ("replicator_notification_uid", quoted "REP2");
   ("replicator_provider", quoted "aws"); ("replicator_region", quoted "us-east-1");
   ("replicator_retry_threshold", "3"); ("replicator_scaling_threshold", "3");
   ("replicator_worker_pool", quoted "container-node-public-prod")].

Definition defaultJobScalingDocument : string := document 27 jobScalingKeys.
Definition defaultClusterScalingDocument : string := document 31 clusterScalingKeys.

(** The answer of [os.Stat]: the file exists, it does not, or another error. *)
Inductive stat := Exists | IsNotExist | StatError (e : error).

Class FileSystem (W : Type) := {
  fs_Stat : string → M W stat;
  fs_WriteFile : string → string → M W (option error);
}.

Section command.
Context {W : Type} {FS : FileSystem W}.

Definition writeFile (file content : string) : M W (option error) :=
  r ← fs_Stat file;
  match r with
  | StatError err => mret (Some err)
  | Exists => mret (Some "scaling document already exists")
  | IsNotExist => fs_WriteFile file content
  end.

Definition initFlags : gmap string flag_kind :=
  {[ "job-scaling" := FBool; "cluster-scaling" := FBool ]}.

(** One of the two documents, if it is asked for; an error ends the command. *)
Definition initDocument (wanted : bool) (file content : string) : M W bool :=
  if wanted then
    err ← writeFile file content;
    match err with Some _ => mret false | None => mret true end
  else mret true.

Definition Init_Run (args : list string) : M W Z :=
  match flags_Parse initFlags args ∅ with
  | inl _ => mret 1
  | inr set =>
      let none := (length args =? 0)%nat in
      ok ← initDocument (bool_flag set "job-scaling" || none) defaultJobScalingName defaultJobScalingDocument;
      if negb ok then mret 1
      else
        ok ← initDocument (bool_flag set "cluster-scaling" || none)
               defaultClusterScalingName defaultClusterScalingDocument;
        if negb ok then mret 1 else mret 0
  end.
End command.

(** ** Properties *)

#[local] Opaque document.

Section facts.
Context {W : Type} {FS : FileSystem W}.
(** The files, as a map; looking does not change them and writing sets one. *)
Context (files : W → gmap string string).
Context (stat_files : ∀ f (w : W), ∃ r w', fs_Stat f w = (Ret r, w') ∧ files w' = files w ∧
  (r = Exists → is_Some (files w !! f)) ∧ (r = IsNotExist → files w !! f = None)).
Context (write_files : ∀ f c (w : W), ∃ e w', fs_WriteFile f c w = (Ret e, w') ∧
  files w' = match e with None => <[f := c]> (files w) | Some _ => files w end).

Lemma write_file_spec f c (w : W) :
  ∃ e w', writeFile f c w = (Ret e, w') ∧
    match e with
    | None => files w !! f = None ∧ files w' = <[f := c]> (files w)
    | Some _ => files w' = files w
    end.
Proof.
  destruct (stat_files f w) as (r & w1 & Hs & Hf & _ & Hn).
  unfold writeFile. rewrite (bind_run _ _ _ _ _ Hs).
  destruct r as [| |e]; [by do 2 eexists| |by do 2 eexists].
  destruct (write_files f c w1) as (e & w2 & Hw & Hf2). rewrite Hw. exists e, w2. split; [done|].
  rewrite Hf2, Hf. destruct e; [done|]. auto.
Qed.

Lemma init_document_spec b f c (w : W) :
  ∃ ok w', initDocument b f c w = (Ret ok, w') ∧
    files w ⊆ files w' ∧ dom (files w') ⊆ dom (files w) ∪ {[f]} ∧
    (ok = true → b = true → files w' !! f = Some c).
Proof.
  unfold initDocument. destruct b; [|exists true, w; split_and!; [done|done|set_solver|done]].
  destruct (write_file_spec f c w) as (e & w' & Hr & He). rewrite (bind_run _ _ _ _ _ Hr).
  destruct e as [e|]; do 2 eexists; (split; [done|]).
  - rewrite He. split_and!; [done|set_solver|done].
  - destruct He as [Hn ->]. split_and!; [by apply insert_subseteq|set_solver|intros _ _; by simplify_map_eq].
Qed.

(** The init command ends, never changes a file that exists and creates no
    other files than the two documents; when it succeeds every document asked
    for, both without arguments, has the example text. *)
Theorem init_preserves_files args (w : W) :
  ∃ code w', Init_Run args w = (Ret code, w') ∧ files w ⊆ files w' ∧
    dom (files w') ⊆ dom (files w) ∪ {[defaultJobScalingName; defaultClusterScalingName]} ∧
    (code = 0 → args = [] →
     files w' !! defaultJobScalingName = Some defaultJobScalingDocument ∧
     files w' !! defaultClusterScalingName = Some defaultClusterScalingDocument).
Proof.
  unfold Init_Run. destruct (flags_Parse initFlags args ∅) as [e|set];
    [exists 1, w; split_and!; [done|done|set_solver|done]|].
  destruct (init_document_spec (bool_flag set "job-scaling" || (length args =? 0)%nat)
    defaultJobScalingName defaultJobScalingDocument w) as (ok & w1 & H1 & Hs1 & Hd1 & Hj).
  rewrite (bind_run _ _ _ _ _ H1). destruct ok; [|exists 1, w1; split_and!; [done|done|set_solver|done]].
  cbn [negb].
  destruct (init_document_spec (bool_flag set "cluster-scaling" || (length args =? 0)%nat)
    defaultClusterScalingName defaultClusterScalingDocument w1) as (ok & w2 & H2 & Hs2 & Hd2 & Hc).
  rewrite (bind_run _ _ _ _ _ H2).
  assert (files w ⊆ files w2) by (by etrans).
  assert (dom (files w2) ⊆ dom (files w) ∪ {[defaultJobScalingName; defaultClusterScalingName]}).
  { clear -Hd1 Hd2. set_solver. }
  destruct ok; [exists 0, w2|exists 1, w2]; (split_and!; [done..|]); [|done].
  intros _ ->. rewrite !orb_true_r in *. split; [|by apply Hc].
  eapply lookup_weaken; [by apply Hj|done].
Qed.
End facts.

(** ** The documents *)

#[local] Transparent document.

(** The documents a scaling policy is read from. *)
Definition meta_of (kvs : list (string * string)) : gmap string string := list_to_map kvs.

(** The examples have every key that discovery asks for; the cooldown of the
    cluster example is written under a name that nothing reads. *)
Example examples_complete :
  ParseMetaConfig (meta_of jobScalingKeys) requiredKeys = [] ∧
  ParseMetaConfig (meta_of clusterScalingKeys) nodeRequiredKeys = [] ∧
  meta_of clusterScalingKeys !! "replicator_cooldown" = None.
Proof. vm_compute. done. Qed.

(** The layout of the text. *)
Example document_layout :
  document 3 [("a", "1"); ("abc", quoted "x")] =
  "meta {" +:+ newline +:+ "  " +:+ quote +:+ "a" +:+ quote +:+ "   = 1" +:+ newline +:+
  "  " +:+ quote +:+ "abc" +:+ quote +:+ " = " +:+ quote +:+ "x" +:+ quote +:+ newline +:+ "}".
Proof. vm_compute. reflexivity. Qed.

(** ** Witness *)

#[local] Instance mem_files : FileSystem (gmap string string) := {
  fs_Stat := λ f w, (Ret (match w !! f with Some _ => Exists | None => IsNotExist end), w);
  fs_WriteFile := λ f c w, (Ret None, <[f := c]> w);
}.

Lemma init_preserves_files_witness :
  ∃ code w', Init_Run [] {[ "job_scaling.hcl" := "mine" ]} = (Ret code, w') ∧
    {[ "job_scaling.hcl" := "mine" ]} ⊆ w'.
Proof.
  destruct (init_preserves_files (W:=gmap string string) id) with (args := @nil string)
    (w := {[ "job_scaling.hcl" := "mine" ]} : gmap string string) as (code & w' & H1 & H2 & _).
  - intros f w. do 2 eexists. split; [reflexivity|]. split; [done|].
    simpl. destruct (w !! f); split; intros; done.
  - intros f c w. by exists None, (<[f := c]> w).
  - exists code, w'. exact (conj H1 H2).
Defined.
