(* ===== verification/Cli.v ===== *)
(** * Cli: the entry point and the version

    [main.go], [commands.go], [command/version.go] and [version/version.go].
    The dispatcher of the command-line library is a parameter. *)

From S2P Require Import Prelude GoNum Structs.

(** ** [version/version.go] *)

Definition Version : string := "1.1.0".
Definition VersionPrerelease : string := "beta1".

(** [version.Get] *)
Definition version_Get : string :=
  if negb (String.eqb VersionPrerelease "") then Version +:+ "-" +:+ VersionPrerelease else Version.

(** ** [command/version.go] *)

Record VersionCommand := mkVersionCommand {
  vc_Revision : string;
  vc_Version : string;
  vc_VersionPrerelease : string;
}.

(** The line that is printed; the exit code is zero. *)
Definition versionString (c : VersionCommand) : string :=
  "Replicator v" +:+ vc_Version c +:+
  (if negb (String.eqb (vc_VersionPrerelease c) "")
   then "-" +:+ vc_VersionPrerelease c +:+
     (if negb (String.eqb (vc_Revision c) "") then " (" +:+ vc_Revision c +:+ ")" else "")
   else "").

(** ** [commands.go] *)

Inductive command_kind := AgentCommand | InitCommand | FailsafeCommand | Version_Command (c : VersionCommand).

(** The revision is never set. *)
Definition Commands : gmap string command_kind :=
  let ver := Version in
  let rel := VersionPrerelease in
  let rel := if String.eqb rel "" && negb (String.eqb VersionPrerelease "") then "dev" else rel in
  {[ "agent" := AgentCommand; "init" := InitCommand; "failsafe" := FailsafeCommand;
     "version" := Version_Command (mkVersionCommand "" ver rel) ]}.

(** ** [main.go] *)

(** [--version] and its short forms anywhere put the version command first. *)
Definition isVersionFlag (arg : string) : bool :=
  String.eqb arg "-v" || String.eqb arg "-version" || String.eqb arg "--version".

Definition versionArgs (args : list string) : list string :=
  if existsb isVersionFlag args then "version" :: args else args.

Section main.
Context {W : Type}.
(** [cli.CLI.Run] on the arguments and the commands: an exit code and an error. *)
Context (cli_Run : list string → gmap string command_kind → M W (Z * option error)).

Definition RunCustom (args : list string) (commands : gmap string command_kind) : M W Z :=
  '(exitCode, err) ← cli_Run (versionArgs args) commands;
  match err with
  | Some _ => mret 1
  | None => mret exitCode
  end.

Definition Main_Run (args : list string) : M W Z := RunCustom args Commands.
End main.

(** The printed version is the one of the package. *)
Example version_printed :
  versionString (mkVersionCommand "" Version VersionPrerelease) = "Replicator v" +:+ version_Get ∧
  versionArgs ["agent"; "-v"] = ["version"; "agent"; "-v"].
Proof. vm_compute. done. Qed.
