(* ===== verification/Http.v ===== *)
(** * Http: the status endpoint

    [command/agent/http.go], [command/agent/status_endpoint.go] and the
    in-memory RPC of [replicator/server.go]: an HTTP request is routed to its
    handler, which calls the server over RPC, and the answer or the error is
    written to the response.  The JSON codec is third-party code and a
    parameter, as are name resolution and sockets. *)

From S2P Require Import Prelude GoNum Structs Interfaces Leader Server.

Definition ErrInvalidMethod : string := "Invalid method".

(** An error of a handler: a plain one, or one with an HTTP code
    ([HTTPCodedError]). *)
Inductive handler_error :=
| PlainError (s : string)
| CodedError (c : Z) (s : string).

Definition Error (e : handler_error) : string :=
  match e with PlainError s => s | CodedError _ s => s end.
Definition Code (e : handler_error) : option Z :=
  match e with PlainError _ => None | CodedError c _ => Some c end.

Record Request := mkRequest { rq_Method : string; rq_Path : string }.

(** What was written to the [http.ResponseWriter]: the status of the first
    write, the content type and the body. *)
Record Response := mkResponse {
  rs_Status : option Z;
  rs_ContentType : string;
  rs_Body : string;
}.
#[export] Instance eta_Response : Eta Response := λ r,
  mkResponse (rs_Status r) (rs_ContentType r) (rs_Body r).

Definition fresh_response : Response := mkResponse None "" "".
Definition WriteHeader (code : Z) (r : Response) : Response :=
  r <| rs_Status ::= λ s, Some (default code s) |>.
Definition Write (bytes : string) (r : Response) : Response :=
  WriteHeader 200 r <| rs_Body ::= λ b, b +:+ bytes |>.

(** ** In-memory RPC *)

Record inmemCodec := mkinmemCodec {
  ic_method : string;
  ic_reply : LeaderResponse;
  ic_err : option error;
}.
#[export] Instance eta_inmemCodec : Eta inmemCodec := λ r,
  mkinmemCodec (ic_method r) (ic_reply r) (ic_err r).

(** [ReadRequestHeader] *)
Definition ReadRequestHeader (i : inmemCodec) : string := ic_method i.

(** [WriteResponse]: the text of an error, empty for none, and the reply. *)
Definition WriteResponse (i : inmemCodec) (err : string) (reply : LeaderResponse) : inmemCodec :=
  if String.eqb err "" then i <| ic_reply := reply |> else i <| ic_err := Some err |>.

Section rpc.
Context {W : Type} {CC : ConsulClient W}.

(** [net/rpc.ServeRequest] for the one registered method: the reply is a new
    value; an unknown method is answered and returned as an error. *)
Definition ServeRequest (s : Server) (codec : inmemCodec) : M W (inmemCodec * option error) :=
  if String.eqb (ReadRequestHeader codec) "Status.Leader" then
    '(reply, err) ← Status_Leader (srv_candidate s) (mkLeaderResponse "" "");
    mret (WriteResponse codec (default "" err) reply, None)
  else
    let err := "rpc: can't find method " +:+ ReadRequestHeader codec in
    mret (WriteResponse codec err (mkLeaderResponse "" ""), Some err).

Definition Server_RPC (s : Server) (method : string) (reply : LeaderResponse)
    : M W (LeaderResponse * option error) :=
  '(codec, err) ← ServeRequest s (mkinmemCodec method reply None);
  match err with
  | Some e => mret (ic_reply codec, Some e)
  | None => mret (ic_reply codec, ic_err codec)
  end.

(** ** The handlers *)

(** [codec.NewEncoder(&buf, JSONHandle).Encode] *)
Context (Encode : LeaderResponse → error + string).

Definition StatusLeaderRequest (s : Server) (req : Request)
    : M W (option LeaderResponse * option handler_error) :=
  if negb (String.eqb (rq_Method req) "GET")
  then mret (None, Some (CodedError 405 ErrInvalidMethod))
  else
    '(leader, err) ← Server_RPC s "Status.Leader" (mkLeaderResponse "" "");
    match err with
    | Some e => mret (None, Some (PlainError e))
    | None => mret (Some leader, None)
    end.

(** The label [HAS_ERR]. *)
Definition writeError (err : handler_error) (resp : Response) : Response :=
  Write (Error err) (WriteHeader (default 500 (Code err)) resp).

Definition wrap (handler : Request → M W (option LeaderResponse * option handler_error))
    (resp : Response) (req : Request) : M W Response :=
  '(obj, err) ← handler req;
  match err with
  | Some err => mret (writeError err resp)
  | None =>
      match obj with
      | None => mret resp
      | Some obj =>
          match Encode obj with
          | inl err => mret (writeError (PlainError err) resp)
          | inr buf => mret (Write buf (resp <| rs_ContentType := "application/json" |>))
          end
      end
  end.

(** The mux of [registerHandlers]; a path without a handler is not found, and a
    response to which nothing was written has status 200. *)
Definition serveHTTP (s : Server) (req : Request) : M W Response :=
  resp ← (if String.eqb (rq_Path req) "/v1/status/leader"
          then wrap (StatusLeaderRequest s) fresh_response req
          else mret (Write "404 page not found" (WriteHeader 404 fresh_response)));
  mret (WriteHeader 200 resp).
End rpc.

(** ** The server *)

Record HTTPServer := mkHTTPServer { hs_listener : chan_state; hs_Addr : string }.
#[export] Instance eta_HTTPServer : Eta HTTPServer := λ r,
  mkHTTPServer (hs_listener r) (hs_Addr r).

Section listener.
Context {W : Type}.
Context (ResolveTCPAddr : string → M W (error + TCPAddr)).
(** [net.Listen] on a host and a port: the address it is bound to. *)
Context (net_Listen : string → Z → M W (error + string)).

Definition Listener_open (addr : string) (port : Z) : M W (error + string) :=
  if (0 >? port) || (port >? 65535) then mret (inl "listen: invalid port")
  else net_Listen addr port.

Definition NewHTTPServer (config : Config) : M W (error + HTTPServer) :=
  r ← ResolveTCPAddr (cfg_BindAddress config +:+ ":" +:+ cfg_HTTPPort config);
  match r with
  | inl err => mret (inl err)
  | inr lnAddr =>
      r ← Listener_open (tcp_IP lnAddr) (tcp_Port lnAddr);
      match r with
      | inl err => mret (inl ("failed to start HTTP listener: " +:+ err))
      | inr addr => mret (inr (mkHTTPServer ChanOpen addr))
      end
  end.

(** Of a possibly nil server; closing a closed listener is an error that is
    dropped. *)
Definition HTTP_Shutdown (s : option HTTPServer) : option HTTPServer :=
  match s with
  | None => None
  | Some s => Some (s <| hs_listener := ChanClosed |>)
  end.
End listener.
