(* ===== verification/ApiClient.v ===== *)
(** * ApiClient: the client of the HTTP API

    [api/api.go] and [api/status.go].  URLs, the HTTP transport, gzip and JSON
    decoding are parameters: a request is sent as a method and a URL, a
    response is its status, content encoding and body. *)

From Stdlib Require Import Ascii.
From S2P Require Import Prelude GoNum Structs Interfaces Sim State Consul Leader Server Http.

(** The part of [url.URL] the client copies, and the query. *)
Record URL := mkURL {
  u_Scheme : string;
  u_User : string;
  u_Host : string;
  u_Path : string;
  u_Query : list (string * list string);
}.

(** [request]; no call sets a body or an object to encode. *)
Record request := mkrequest {
  req_method : string;
  req_url : URL;
  req_params : list (string * list string);
}.

Record http_response := mkhttp_response {
  hr_StatusCode : Z;
  hr_ContentEncoding : string;
  hr_Body : string;
}.
#[export] Instance eta_http_response : Eta http_response := λ r,
  mkhttp_response (hr_StatusCode r) (hr_ContentEncoding r) (hr_Body r).

(** [url.Values.Add] *)
Fixpoint Values_Add (key value : string) (params : list (string * list string))
    : list (string * list string) :=
  match params with
  | [] => [(key, [value])]
  | (k, vs) :: params =>
      if String.eqb k key then (k, vs ++ [value]) :: params
      else (k, vs) :: Values_Add key value params
  end.

(** [multiCloser.Close]: in order, up to the first error. *)
Fixpoint multiCloser_Close {W} (inorderClose : list (M W (option error))) : M W (option error) :=
  match inorderClose with
  | [] => mret None
  | c :: cs =>
      err ← c;
      match err with
      | Some e => mret (Some e)
      | None => multiCloser_Close cs
      end
  end.

Section client.
Context {W : Type}.
Context (url_Parse : string → error + URL).
(** [http.NewRequest] on the request URI, which may reject it. *)
Context (NewRequest : string → URL → list (string * list string) → error + Request).
(** [http.Client.Do]: a response and an error, one of which may be missing. *)
Context (Do : URL → Request → M W (option http_response * option error)).
Context (gzip_NewReader : string → error + string).
Context (Decode : string → error + LeaderResponse).

(** The error of the address is dropped, so a bad address is a nil pointer. *)
Definition newRequest (address method path : string) : M W (error + request) :=
  let base := match url_Parse address with inl _ => None | inr u => Some u end in
  match url_Parse path with
  | inl err => mret (inl err)
  | inr u =>
      base ← deref base;
      mret (inr (mkrequest method (mkURL (u_Scheme base) (u_User base) (u_Host base) (u_Path u) [])
        (fold_left (λ ps '(key, values), fold_left (λ ps v, Values_Add key v ps) values ps)
           (u_Query u) [])))
  end.

Definition toHTTP (r : request) : error + Request :=
  NewRequest (req_method r) (req_url r) (req_params r).

Definition doRequest (r : request) : M W (option http_response * option error) :=
  match toHTTP r with
  | inl err => mret (None, Some err)
  | inr req =>
      '(resp, err) ← Do (req_url r) req;
      match resp with
      | None => mret (None, err)
      | Some resp =>
          if String.eqb (hr_ContentEncoding resp) "gzip" then
            match gzip_NewReader (hr_Body resp) with
            | inl err => mret (None, Some err)
            | inr body => mret (Some (resp <| hr_Body := body |>), err)
            end
          else mret (Some resp, err)
      end
  end.

Definition requireOK (resp : option http_response) (e : option error) : M W (error + http_response) :=
  match e with
  | Some e => mret (inl e)
  | None =>
      resp ← deref resp;
      if negb (hr_StatusCode resp =? 200)
      then mret (inl ("Unexpected response code: " +:+ pretty (hr_StatusCode resp) +:+
                      " (" +:+ hr_Body resp +:+ ")"))
      else mret (inr resp)
  end.

Definition query (address endpoint : string) : M W (error + LeaderResponse) :=
  r ← newRequest address "GET" endpoint;
  match r with
  | inl err => mret (inl err)
  | inr r =>
      '(resp, err) ← doRequest r;
      r ← requireOK resp err;
      match r with
      | inl err => mret (inl err)
      | inr resp => mret (Decode (hr_Body resp))
      end
  end.

(** [Status().Leader()] *)
Definition Api_Leader (address : string) : M W (error + LeaderResponse) :=
  query address "/v1/status/leader".
End client.

(** ** The client against the agent *)

Section roundtrip.
Context {W : Type} {CC : ConsulClient W} (s : Server).
Context (url_Parse : string → error + URL)
  (NewRequest : string → URL → list (string * list string) → error + Request)
  (Do : URL → Request → M W (option http_response * option error))
  (gzip : string → string) (gzip_NewReader : string → error + string)
  (Encode : LeaderResponse → error + string) (Decode : string → error + LeaderResponse).

(** The request reaches the agent, whose response comes back compressed; the
    HTTP server recovers a handler that panics and drops the connection. *)
Context (transport : ∀ u req (w : W), Do u req w =
  match serveHTTP Encode s req w with
  | (Ret resp, w') =>
      (Ret (Some (mkhttp_response (default 200 (rs_Status resp)) "gzip" (gzip (rs_Body resp))), None), w')
  | (Panic _, w') => (Ret (None, Some "EOF"), w')
  end).
Context (gzip_inv : ∀ b, gzip_NewReader (gzip b) = inr b).
Context (json_inv : ∀ l, ∃ b, Encode l = inr b ∧ Decode b = inr l).
(** The URLs are what they look like. *)
Context (address : string) (base : URL).
Context (base_ok : url_Parse address = inr base).
Context (path_ok : url_Parse "/v1/status/leader" = inr (mkURL "" "" "" "/v1/status/leader" [])).
Context (request_ok : ∀ u, u_Path u = "/v1/status/leader" →
  NewRequest "GET" u [] = inr (mkRequest "GET" "/v1/status/leader")).

(** What the caller gets for an answer of the status endpoint of the server. *)
Definition delivered (o : outcome (LeaderResponse * option error)) : error + LeaderResponse :=
  match o with
  | Ret (l, None) => inr l
  | Ret (l, Some e) =>
      if String.eqb e "" then inr l
      else inl ("Unexpected response code: 500 (" +:+ e +:+ ")")
  | Panic _ => inl "EOF"
  end.

Lemma serve_leader w :
  serveHTTP Encode s (mkRequest "GET" "/v1/status/leader") w =
  match Status_Leader (srv_candidate s) (mkLeaderResponse "" "") w with
  | (Ret (l, err), w') =>
      (Ret (if String.eqb (default "" err) ""
            then WriteHeader 200 (match Encode l with
                 | inr b => Write b (fresh_response <| rs_ContentType := "application/json" |>)
                 | inl e => writeError (PlainError e) fresh_response
                 end)
            else WriteHeader 200 (writeError (PlainError (default "" err)) fresh_response)), w')
  | (Panic e, w') => (Panic e, w')
  end.
Proof.
  unfold serveHTTP, wrap, StatusLeaderRequest, Server_RPC, ServeRequest, mbind, M_bind. simpl.
  destruct (Status_Leader _ _ w) as [[[l err]|e] w']; simpl; [|done].
  unfold WriteResponse. destruct (String.eqb (default "" err) ""); simpl; [|done].
  by destruct (Encode l).
Qed.

(** C27. Asking an agent for the leader gives the caller what the agent's
    server answers: through the client, the HTTP server, the RPC layer and
    back, an answer arrives unchanged, an error arrives as a failed request
    that carries its text, and a crash of the handler as a lost connection;
    the request itself changes nothing else. *)
Theorem leader_query_roundtrip w :
  Api_Leader url_Parse NewRequest Do gzip_NewReader Decode address w =
  let '(o, w') := Status_Leader (srv_candidate s) (mkLeaderResponse "" "") w in
  (Ret (delivered o), w').
Proof.
  unfold Api_Leader, query, newRequest, mbind, M_bind. rewrite path_ok, base_ok. simpl.
  unfold doRequest, toHTTP, mbind, M_bind. simpl. rewrite request_ok by done.
  rewrite transport, serve_leader.
  destruct (Status_Leader _ _ w) as [[[l err]|e] w']; [|done].
  destruct (json_inv l) as (b & He & Hd). rewrite He.
  destruct err as [e|]; simpl; [destruct (String.eqb e ""); simpl|]; rewrite gzip_inv; simpl;
    try change ("" +:+ b) with b; rewrite ?Hd; done.
Qed.
End roundtrip.

(** ** Witness *)

#[local] Existing Instance consulClient.

(** A text format for answers: every character of the session is marked. *)
Fixpoint demo_encode (sid node : string) : string :=
  match sid with
  | EmptyString => String "0" node
  | String c sid => String "1" (String c (demo_encode sid node))
  end.
Fixpoint demo_decode_leader (s : string) : error + LeaderResponse :=
  match s with
  | String "0" node => inr (mkLeaderResponse "" node)
  | String "1" (String c s) =>
      match demo_decode_leader s with
      | inr l => inr (l <| lr_SessionID ::= String c |>)
      | inl e => inl e
      end
  | _ => inl "bad document"
  end.

Lemma demo_codec l : ∃ b, inr (A:=error) (demo_encode (lr_SessionID l) (lr_NodeID l)) = inr b ∧
  demo_decode_leader b = inr l.
Proof.
  destruct l as [sid node]. eexists. split; [reflexivity|]. simpl.
  induction sid as [|c sid IH]; simpl; [done|]. by rewrite IH.
Qed.

Definition demo_agent : Server :=
  mkServer (mkLeaderCandidate true "replicator/config/leader" "session-1" 15 ChanOpen) zero_Config ChanOpen false ChanOpen.
Definition demo_leader_kv : world :=
  sim0 <| sim_sessions := {[ "session-1" := mkSessionEntry "session-1" "node-1" "15s" ]} |>.

Definition demo_parse (s : string) : error + URL :=
  if String.eqb s "http://agent:1313" then inr (mkURL "http" "" "agent:1313" "" [])
  else inr (mkURL "" "" "" s []).
Definition demo_new (method : string) (u : URL) (_ : list (string * list string)) : error + Request :=
  inr (mkRequest method (u_Path u)).
Definition demo_do (_ : URL) (req : Request) : M world (option http_response * option error) := λ w,
  match serveHTTP (λ l, inr (demo_encode (lr_SessionID l) (lr_NodeID l))) demo_agent req w with
  | (Ret resp, w') =>
      (Ret (Some (mkhttp_response (default 200 (rs_Status resp)) "gzip" (String "z" (rs_Body resp))), None), w')
  | (Panic _, w') => (Ret (None, Some "EOF"), w')
  end.
Definition demo_gunzip (s : string) : error + string :=
  match s with String "z" b => inr b | _ => inl "gzip: invalid header" end.

Lemma leader_query_roundtrip_witness :
  Api_Leader demo_parse demo_new demo_do demo_gunzip demo_decode_leader "http://agent:1313" demo_leader_kv =
  (Ret (inr (mkLeaderResponse "session-1" "node-1")), demo_leader_kv).
Proof.
  rewrite (leader_query_roundtrip demo_agent demo_parse demo_new demo_do (String "z") demo_gunzip
    (λ l, inr (demo_encode (lr_SessionID l) (lr_NodeID l))) demo_decode_leader
    (λ u req w, eq_refl) (λ b, eq_refl) demo_codec "http://agent:1313"
    (mkURL "http" "" "agent:1313" "" []) eq_refl eq_refl).
  - vm_compute. reflexivity.
  - intros u Hu. unfold demo_new. by rewrite Hu.
Defined.
