(* ===== verification/Agent.v ===== *)
(** * Agent: the agent command

    [command/agent/agent.go]: the flags and the merged configuration, the set-up
    that depends on it, start-up, and the loop over the signals of the process.
    A server is a shared object, referred to by the local variable of [Run], by
    the command and by the server's own tickers, so the agent keeps the servers
    it created in a list and refers to them by position. *)

From S2P Require Import Prelude GoNum Structs Interfaces Sim State Consul Leader Failsafe Config Flags Notifier Server Http.

(** ** Flags and configuration *)

Definition agentFlags : gmap string flag_kind :=
  list_to_map [("config", FString); ("dev", FBool); ("bind-address", FString); ("consul", FString);
    ("consul-key-root", FString); ("consul-token", FString); ("log-level", FString); ("nomad", FString);
    ("nomad-token", FString); ("nomad-tls-server-name", FString); ("cluster-scaling-interval", FInt);
    ("job-scaling-interval", FInt); ("scaling-concurrency", FInt); ("cluster-scaling-disable", FBool);
    ("job-scaling-disable", FBool); ("http-port", FString); ("rpc-port", FInt); ("statsd-address", FString);
    ("cluster-identifier", FString); ("pagerduty-service-key", FString); ("opsgenie-api-key", FString)].

(** The configuration that the flags fill in. *)
Definition cliConfig (set : gmap string flag_value) : Config :=
  {|
    cfg_BindAddress := string_flag set "bind-address";
    cfg_ClusterScalingDisable := bool_flag set "cluster-scaling-disable";
    cfg_ClusterScalingInterval := int_flag set "cluster-scaling-interval";
    cfg_Consul := string_flag set "consul";
    cfg_ConsulClient := None;
    cfg_ConsulKeyRoot := string_flag set "consul-key-root";
    cfg_ConsulToken := string_flag set "consul-token";
    cfg_HTTPPort := string_flag set "http-port";
    cfg_JobScalingDisable := bool_flag set "job-scaling-disable";
    cfg_JobScalingInterval := int_flag set "job-scaling-interval";
    cfg_LogLevel := string_flag set "log-level";
    cfg_Nomad := string_flag set "nomad";
    cfg_NomadToken := string_flag set "nomad-token";
    cfg_NomadTLSServerName := string_flag set "nomad-tls-server-name";
    cfg_NomadClient := None;
    cfg_Notification := Some (mkNotification (string_flag set "cluster-identifier")
      (string_flag set "pagerduty-service-key") (string_flag set "opsgenie-api-key") []);
    cfg_RPCAddr := None;
    cfg_RPCAdvertise := None;
    cfg_RPCPort := int_flag set "rpc-port";
    cfg_ScalingConcurrency := int_flag set "scaling-concurrency";
    cfg_Telemetry := Some (mkTelemetry (string_flag set "statsd-address"));
  |}.

(** Metric sinks, and what the global metrics are set up with. *)
Inductive sink := InmemSink | StatsdSink (address : string).

(** [os.Exit], by [logging.Fatal]. *)
Definition exited : string := "exit status 1".

Inductive signal := SIGHUP | SIGINT | SIGTERM | SIGQUIT.

(** The servers by position: [ag_local] is the variable [server] of [Run] and
    [ag_server] the field of the command. *)
Record agent := mkagent {
  ag_args : list string;
  ag_conf : Config;
  ag_servers : list Server;
  ag_local : nat;
  ag_server : nat;
  ag_http : option HTTPServer;
}.
#[export] Instance eta_agent : Eta agent := λ r,
  mkagent (ag_args r) (ag_conf r) (ag_servers r) (ag_local r) (ag_server r) (ag_http r).

Section agent.
Context {W : Type} {RT : Runtime W} {CC : ConsulClient W}.
(** Configuration files, API clients, statsd, log levels, addresses, sockets. *)
Context (LoadConfig : string → M W (error + Config)).
Context (InitializeClients : Config → Config * option error).
Context (NewStatsdSink : string → M W (option error)).
Context (ParseLevel : string → bool).
Context (net_ParseIP : string → string).
Context (ListenTCP : option TCPAddr → M W (error + TCPAddr)).
Context (ResolveTCPAddr : string → M W (error + TCPAddr)).
Context (net_Listen : string → Z → M W (error + string)).

Definition Agent_parseFlags (args : list string) : M W (option Config) :=
  match flags_Parse agentFlags args ∅ with
  | inl _ => mret None
  | inr set =>
      let config := if bool_flag set "dev" then DevConfig else DefaultConfig in
      let configPath := string_flag set "config" in
      if negb (String.eqb configPath "") then
        r ← LoadConfig configPath;
        match r with
        | inl _ => mret None
        | inr current => mret (Some (Merge (Merge config current) (cliConfig set)))
        end
      else mret (Some (Merge config (cliConfig set)))
  end.

(** ** Set-up *)

(** The sinks of the global metrics and whether the host name is part of them. *)
Definition setupTelemetry (config : option Telemetry) : M W (error + list sink * bool) :=
  let telemetry := default (mkTelemetry "") config in
  r ← (if negb (String.eqb (tel_StatsdAddress telemetry) "") then
         err ← NewStatsdSink (tel_StatsdAddress telemetry);
         match err with
         | Some e => mret (inl e)
         | None => mret (inr [StatsdSink (tel_StatsdAddress telemetry)])
         end
       else mret (inr []));
  match r with
  | inl err => mret (inl err)
  | inr fanout =>
      if (0 <? length fanout)%nat then mret (inr (fanout ++ [InmemSink], true))
      else mret (inr ([InmemSink], false))
  end.

(** The backends with a key are appended; the configuration is updated also
    when the second one fails. *)
Definition setupNotifier (config : Notification) : Notification * option error :=
  let r :=
    if negb (String.eqb (not_PagerDutyServiceKey config) "") then
      match NewProvider "pagerduty" {[ "PagerDutyServiceKey" := not_PagerDutyServiceKey config ]} with
      | inl err => (config, Some err)
      | inr pd => (config <| not_Notifiers ::= λ l, l ++ [pd] |>, None)
      end
    else (config, None) in
  match r with
  | (config, Some err) => (config, Some err)
  | (config, None) =>
      if negb (String.eqb (not_OpsGenieAPIKey config) "") then
        match NewProvider "opsgenie" {[ "OpsGenieAPIKey" := not_OpsGenieAPIKey config ]} with
        | inl err => (config, Some err)
        | inr og => (config <| not_Notifiers ::= λ l, l ++ [og] |>, None)
        end
      else (config, None)
  end.

(** [logging.SetLevel] *)
Definition SetLevel (level : string) : M W unit :=
  if ParseLevel level then mret tt else go_panic exited.

Definition initialzeAgent (config : option Config) : M W (Config * option error) :=
  config ← deref config;
  let config :=
    if negb (String.eqb (cfg_BindAddress config) DefaultBindAddr) || negb (cfg_RPCPort config =? DefaultRPCPort)
    then config <| cfg_RPCAddr := Some (mkTCPAddr (net_ParseIP (cfg_BindAddress config)) (cfg_RPCPort config)) |>
    else config in
  r ← setupTelemetry (cfg_Telemetry config);
  match r with
  | inl err => mret (config, Some err)
  | inr _ =>
      notification ← deref (cfg_Notification config);
      let '(notification, err) := setupNotifier notification in
      let config := config <| cfg_Notification := Some notification |> in
      match err with
      | Some e => mret (config, Some e)
      | None =>
          _ ← SetLevel (cfg_LogLevel config);
          mret (InitializeClients config)
      end
  end.

(** ** The run *)

(** Everything before the loop: the exit code, or the running agent. *)
Definition startAgent (args : list string) : M W (Z + agent) :=
  conf ← Agent_parseFlags args;
  match conf with
  | None => mret (inl 1)
  | Some conf =>
      '(conf, err) ← initialzeAgent (Some conf);
      match err with
      | Some _ => mret (inl 1)
      | None =>
          r ← NewServer ListenTCP conf;
          match r with
          | inl _ => mret (inl 1)
          | inr (server, _) =>
              r ← NewHTTPServer ResolveTCPAddr net_Listen conf;
              match r with
              | inl _ => mret (inl 1)
              | inr http => mret (inr (mkagent args conf [server] 0 0 (Some http)))
              end
          end
      end
  end.

(** [server.Shutdown(); c.httpServer.Shutdown()] on the local variable. *)
Definition stopServers (a : agent) : M W agent :=
  server ← deref (ag_servers a !! ag_local a);
  server ← Shutdown server;
  mret (a <| ag_servers ::= <[ag_local a := server]> |> <| ag_http ::= HTTP_Shutdown |>).

(** The reload: the parsed configuration is set up and dropped, the check of the
    error is of one that was handled before, and the new server is a variable
    of its own. *)
Definition reload (a : agent) : M W (loop agent Z) :=
  a ← stopServers a;
  config ← Agent_parseFlags (ag_args a);
  '(_, err) ← initialzeAgent config;
  match err with
  | Some _ => mret (Return 1)
  | None =>
      r ← NewServer ListenTCP (ag_conf a);
      match r with
      | inl _ => mret (Return 1)
      | inr (server, _) =>
          let a := a <| ag_server := length (ag_servers a) |> <| ag_servers ::= λ l, l ++ [server] |> in
          r ← NewHTTPServer ResolveTCPAddr net_Listen (ag_conf a);
          match r with
          | inl _ => mret (Return 1)
          | inr http => mret (Next (a <| ag_http := Some http |>))
          end
      end
  end.

Definition handleSignal (a : agent) (s : signal) : M W (loop agent Z) :=
  match s with
  | SIGINT | SIGTERM | SIGQUIT => _ ← stopServers a; mret (Return 1)
  | SIGHUP => reload a
  end.

(** What happens to a running agent: a signal, or a tick of the leader ticker of
    one of its servers, which runs until the server is shut down. *)
Inductive event := Signal (s : signal) | Tick (i : nat).

Definition handleEvent (a : agent) (e : event) : M W (loop agent Z) :=
  match e with
  | Signal s => handleSignal a s
  | Tick i =>
      match ag_servers a !! i with
      | Some server =>
          match srv_shutdownChan server with
          | ChanOpen =>
              server ← leaderTick server;
              mret (Next (a <| ag_servers ::= <[i := server]> |>))
          | _ => mret (Next a)
          end
      | None => mret (Next a)
      end
  end.

(** The agent on a sequence of events: it still runs, or it has exited. *)
Definition Agent_Run (args : list string) (events : list event) : M W (loop agent Z) :=
  r ← startAgent args;
  match r with
  | inl code => mret (Return code)
  | inr a => for_range handleEvent events a
  end.

(** [RPC] of the command: of the current server. *)
Definition Agent_RPC (a : agent) (method : string) (reply : LeaderResponse)
    : M W (LeaderResponse * option error) :=
  server ← deref (ag_servers a !! ag_server a);
  Server_RPC server method reply.
End agent.
