(* ===== verification/AgentFacts.v ===== *)
(** * AgentFacts: configuration layers and signals of the agent *)

From S2P Require Import Prelude GoNum Structs Interfaces Sim State Consul Leader Failsafe Config Flags Notifier Server Http Agent.

(** ** Layers of configuration

    The reference for merging: every setting is taken from the last layer that
    sets it. *)

Definition last_string (a : string) (l : list string) : string :=
  default a (List.find (λ s, negb (String.eqb s "")) (reverse l)).
Definition last_pos (a : Z) (l : list Z) : Z :=
  default a (List.find (λ z, 0 <? z) (reverse l)).
Definition any_true (a : bool) (l : list bool) : bool := a || existsb id l.

(** Of the layers that have the block, the settings of the last one that sets
    them; what is not merged comes from the first. *)
Definition layered_block {A B} (layer : B → list B → B) (f : A → option B) (c : A) (cs : list A) : option B :=
  match omap f (c :: cs) with
  | [] => None
  | b :: bs => Some (layer b bs)
  end.

Definition layered_telemetry (t : Telemetry) (ts : list Telemetry) : Telemetry :=
  mkTelemetry (last_string (tel_StatsdAddress t) (tel_StatsdAddress <$> ts)).

Definition layered_notification (n : Notification) (ns : list Notification) : Notification :=
  let s (f : Notification → string) := last_string (f n) (f <$> ns) in
  mkNotification (s not_ClusterIdentifier) (s not_PagerDutyServiceKey) (s not_OpsGenieAPIKey) (not_Notifiers n).

Definition layered (c : Config) (cs : list Config) : Config :=
  let s (f : Config → string) := last_string (f c) (f <$> cs) in
  let p (f : Config → Z) := last_pos (f c) (f <$> cs) in
  let b (f : Config → bool) := any_true (f c) (f <$> cs) in
  {|
    cfg_BindAddress := s cfg_BindAddress;
    cfg_ClusterScalingDisable := b cfg_ClusterScalingDisable;
    cfg_ClusterScalingInterval := p cfg_ClusterScalingInterval;
    cfg_Consul := s cfg_Consul;
    cfg_ConsulClient := cfg_ConsulClient c;
    cfg_ConsulKeyRoot := s cfg_ConsulKeyRoot;
    cfg_ConsulToken := s cfg_ConsulToken;
    cfg_HTTPPort := s cfg_HTTPPort;
    cfg_JobScalingDisable := b cfg_JobScalingDisable;
    cfg_JobScalingInterval := p cfg_JobScalingInterval;
    cfg_LogLevel := s cfg_LogLevel;
    cfg_Nomad := s cfg_Nomad;
    cfg_NomadToken := s cfg_NomadToken;
    cfg_NomadTLSServerName := s cfg_NomadTLSServerName;
    cfg_NomadClient := cfg_NomadClient c;
    cfg_Notification := layered_block layered_notification cfg_Notification c cs;
    cfg_RPCAddr := cfg_RPCAddr c;
    cfg_RPCAdvertise := cfg_RPCAdvertise c;
    cfg_RPCPort := p cfg_RPCPort;
    cfg_ScalingConcurrency := p cfg_ScalingConcurrency;
    cfg_Telemetry := layered_block layered_telemetry cfg_Telemetry c cs;
  |}.

Lemma last_string_snoc a l b : last_string a (l ++ [b]) = set_string (last_string a l) b.
Proof.
  unfold last_string, set_string. rewrite reverse_snoc. simpl. by destruct (String.eqb b "").
Qed.

Lemma last_pos_snoc a l b : last_pos a (l ++ [b]) = set_pos (last_pos a l) b.
Proof. unfold last_pos, set_pos. rewrite reverse_snoc. simpl. by destruct (0 <? b). Qed.

Lemma any_true_snoc a l b : any_true a (l ++ [b]) = set_true (any_true a l) b.
Proof.
  unfold any_true, set_true. rewrite existsb_app. simpl. rewrite orb_false_r, orb_assoc.
  destruct b; simpl; [by rewrite orb_true_r|by rewrite orb_false_r].
Qed.

Lemma layered_block_snoc {A B} (layer : B → list B → B) (merge : B → B → B) (f : A → option B) c cs x :
  (∀ b bs y, layer b (bs ++ [y]) = merge (layer b bs) y) → (∀ b, layer b [] = b) →
  layered_block layer f c (cs ++ [x]) = merge_ptr merge (layered_block layer f c cs) (f x).
Proof.
  intros Hs H0. unfold layered_block. rewrite app_comm_cons, omap_app.
  assert (omap f [x] = match f x with Some y => [y] | None => [] end) as -> by (simpl; by destruct (f x)).
  generalize (omap f (c :: cs)); intros L.
  destruct (f x), L; simpl; by rewrite ?app_nil_r, ?H0, ?Hs.
Qed.

Lemma layered_telemetry_snoc t ts x :
  layered_telemetry t (ts ++ [x]) = Telemetry_Merge (layered_telemetry t ts) x.
Proof. unfold layered_telemetry. rewrite fmap_app. csimpl. by rewrite last_string_snoc. Qed.

Lemma layered_notification_snoc n ns x :
  layered_notification n (ns ++ [x]) = Notification_Merge (layered_notification n ns) x.
Proof. unfold layered_notification. rewrite !fmap_app. csimpl. by rewrite !last_string_snoc. Qed.

Lemma merge_layers c cs : fold_left Merge cs c = layered c cs.
Proof.
  induction cs as [|x cs IH] using rev_ind.
  { destruct c as [? ? ? ? ? ? ? ? ? ? ? ? ? ? ? n ? ? ? ? t]. unfold layered, layered_block, any_true. simpl.
    rewrite !orb_false_r. destruct n as [[]|], t as [[]|]; done. }
  rewrite fold_left_app. simpl. rewrite IH. unfold layered at 2. rewrite !fmap_app. simpl.
  rewrite !last_string_snoc, !last_pos_snoc, !any_true_snoc.
  rewrite (layered_block_snoc layered_telemetry Telemetry_Merge),
    (layered_block_snoc layered_notification Notification_Merge);
    [done|apply layered_notification_snoc|by intros []|apply layered_telemetry_snoc|by intros []].
Qed.

Section facts.
Context {W : Type} {RT : Runtime W} {CC : ConsulClient W}.
Context (LoadConfig : string → M W (error + Config)).
Context (InitializeClients : Config → Config * option error).
Context (NewStatsdSink : string → M W (option error)).
Context (ParseLevel : string → bool).
Context (net_ParseIP : string → string).
Context (ListenTCP : option TCPAddr → M W (error + TCPAddr)).
Context (ResolveTCPAddr : string → M W (error + TCPAddr)).
Context (net_Listen : string → Z → M W (error + string)).

(** C25. The configuration of an agent is the layering of its sources: every
    setting is taken from the command line if it is set there, else from the
    configuration files if it is set in them, else from the defaults (those of
    development with -dev); a disabling switch is on if any layer turns it on.
    The blocks of telemetry and notification are always present. *)
Theorem flag_precedence args w cfg w' :
  Agent_parseFlags LoadConfig args w = (Ret (Some cfg), w') →
  ∃ set files, flags_Parse agentFlags args ∅ = inr set ∧
    (if String.eqb (string_flag set "config") "" then files = [] ∧ w' = w
     else ∃ c, LoadConfig (string_flag set "config") w = (Ret (inr c), w') ∧ files = [c]) ∧
    cfg = layered (if bool_flag set "dev" then DevConfig else DefaultConfig) (files ++ [cliConfig set]) ∧
    is_Some (cfg_Notification cfg) ∧ is_Some (cfg_Telemetry cfg).
Proof.
  unfold Agent_parseFlags. intros H.
  destruct (flags_Parse agentFlags args ∅) as [e|set]; [by apply mret_inv in H as [[=] _]|].
  assert (∀ base files, let cfg := fold_left Merge (files ++ [cliConfig set]) base in
    is_Some (cfg_Notification cfg) ∧ is_Some (cfg_Telemetry cfg)) as Hblocks.
  { intros base files. rewrite fold_left_app. simpl.
    destruct (cfg_Notification _), (cfg_Telemetry _); simpl; eauto. }
  destruct (String.eqb (string_flag set "config") "") eqn:Ec; simpl in H.
  - apply mret_inv in H as [[= <-] <-]. exists set, []. rewrite Ec, <-merge_layers. split_and!; [done..| |];
      apply (Hblocks _ []).
  - go_bind H as r w1 E. destruct r as [e|c]; apply mret_inv in H as [[=] <-]; subst cfg.
    exists set, [c]. rewrite Ec, <-merge_layers. split_and!; [done|eauto|done|..]; apply (Hblocks _ [c]).
Qed.

(** ** Signals *)

Abbreviation reload := (reload LoadConfig InitializeClients NewStatsdSink ParseLevel net_ParseIP ListenTCP ResolveTCPAddr net_Listen).
Abbreviation handleEvent := (handleEvent LoadConfig InitializeClients NewStatsdSink ParseLevel net_ParseIP ListenTCP ResolveTCPAddr net_Listen).

(** The server of the local variable was shut down. *)
Definition stopped (a : agent) : Prop :=
  ∃ s, ag_servers a !! ag_local a = Some s ∧ srv_shutdownChan s = ChanClosed.

Lemma stop_inv a w a' w' :
  stopServers a w = (Ret a', w') →
  stopped a' ∧ ag_conf a' = ag_conf a ∧ ag_local a' = ag_local a ∧ ag_args a' = ag_args a ∧
  length (ag_servers a') = length (ag_servers a).
Proof.
  unfold stopServers. intros H. go_bind H as s w1 E. apply deref_inv in E as [Hs <-].
  go_bind H as s' w2 E. apply shutdown_closes in E as [Hc _]. apply mret_inv in H as [<- _].
  destruct a as [args conf servers local server http]; unfold modify; simpl in *.
  split_and!; [|done|done|done|by rewrite length_insert].
  exists s'. split; [|done]. simpl. apply list_lookup_insert_eq. by eapply lookup_lt_Some.
Qed.

Lemma new_server_config cfg (w : W) s ts w' :
  NewServer ListenTCP cfg w = (Ret (inr (s, ts)), w') → srv_config s = cfg.
Proof.
  unfold NewServer, setupRPC. intros H. go_bind H as [s0 err] w1 E. go_bind E as r w2 E2.
  destruct r as [e|addr].
  { apply mret_inv in E as [[= <- <-] <-]. go_bind H as s1 w3 E3. by apply mret_inv in H as [[=] _]. }
  unfold modify in E; simpl in E. destruct (_ || _).
  - apply mret_inv in E as [[= <- <-] <-]. go_bind H as s1 w3 E3. by apply mret_inv in H as [[=] _].
  - apply mret_inv in E as [[= <- <-] <-]. by apply mret_inv in H as [[= <- <-] _].
Qed.

Lemma reload_inv a w a' w' :
  reload a w = (Ret (Next a'), w') →
  stopped a' ∧ ag_conf a' = ag_conf a ∧
  ∃ s, ag_servers a' !! ag_server a' = Some s ∧ srv_config s = ag_conf a.
Proof.
  unfold Agent.reload. intros H. go_bind H as a1 w1 E. apply stop_inv in E as ((s0 & Hs0 & Hc) & Hconf & Hl & _).
  go_bind H as config w2 E2. go_bind H as [cfg err] w3 E3. destruct err; [by apply mret_inv in H as [[=] _]|].
  go_bind H as r w4 E4. destruct r as [e|[s ts]]; [by apply mret_inv in H as [[=] _]|].
  apply new_server_config in E4.
  go_bind H as r w5 E5. destruct r as [e|http]; [by apply mret_inv in H as [[=] _]|].
  apply mret_inv in H as [[= <-] _]. destruct a1 as [args conf servers local server http0]; unfold modify; simpl in *.
  split_and!; [|done|].
  - exists s0. simpl. split; [|done]. by apply lookup_app_l_Some.
  - exists s. rewrite lookup_app_r, Nat.sub_diag by done. split; [done|congruence].
Qed.

Lemma tick_stopped a i w o w' :
  stopped a → handleEvent a (Tick i) w = (Ret o, w') → ∃ a', o = Next a' ∧ stopped a'.
Proof.
  intros Hst. simpl. destruct (ag_servers a !! i) as [s|] eqn:Hi; intros H; [|apply mret_inv in H as [<- _]; eauto].
  destruct (srv_shutdownChan s) eqn:Hc; try (apply mret_inv in H as [<- _]; by eauto).
  go_bind H as s' w1 E. apply mret_inv in H as [<- _]. eexists. split; [reflexivity|].
  destruct Hst as (s0 & Hs0 & Hc0). exists s0. split; [|done].
  destruct a as [args conf servers local server http]; unfold modify; simpl in *.
  rewrite list_lookup_insert_ne; [done|]. intros ->. congruence.
Qed.

Lemma signal_stopped a s w o w' : stopped a → handleEvent a (Signal s) w ≠ (Ret o, w').
Proof.
  intros (s0 & Hs0 & Hc) H.
  assert (∀ a1 w1, stopServers a w ≠ (Ret a1, w1)) as Hstop.
  { intros a1 w1 E. unfold stopServers in E. rewrite Hs0 in E. go_bind E as s1 w2 E2.
    apply mret_inv in E2 as [<- <-]. go_bind E as s2 w3 E3. by apply shutdown_closed_crashes in E3. }
  destruct s; simpl in H; [unfold Agent.reload in H|..]; go_bind H as a1 w1 E; by apply Hstop in E.
Qed.

Lemma ticks_stopped ticks sig rest a w o w' :
  stopped a → for_range handleEvent ((Tick <$> ticks) ++ Signal sig :: rest) a w ≠ (Ret o, w').
Proof.
  revert a w. induction ticks as [|i ticks IH]; intros a w Hs H; csimpl in H.
  - go_bind H as o1 w1 E. by apply signal_stopped in E.
  - go_bind H as o1 w1 E. apply tick_stopped in E as (a' & -> & Hs'); [|done]. by apply IH in H.
Qed.

(** C29. A reload reaches no server and can be done once.  After SIGHUP the
    server in use runs with the configuration of the start, whatever the
    configuration files say by then (the log level and the telemetry sink, which
    are global to the process, are no part of this statement); and the next
    signal of any kind, after any number of election ticks, crashes the agent:
    unless the reload itself made it exit, the sequence never returns, because
    the signal shuts down the first server again. *)
Theorem reload_once a w :
  (∀ a' w', handleEvent a (Signal SIGHUP) w = (Ret (Next a'), w') →
     ag_conf a' = ag_conf a ∧
     ∃ s, ag_servers a' !! ag_server a' = Some s ∧ srv_config s = ag_conf a) ∧
  (∀ ticks sig rest o w',
     for_range handleEvent (Signal SIGHUP :: (Tick <$> ticks) ++ Signal sig :: rest) a w = (Ret o, w') →
     o = Return 1 ∧ handleEvent a (Signal SIGHUP) w = (Ret (Return 1), w')).
Proof.
  split.
  - intros a' w' H. by apply reload_inv in H as (_ & ? & ?).
  - intros ticks sig rest o w' H. cbn [for_range] in H. go_bind H as o1 w1 E. destruct o1 as [a'|code].
    + simpl in E. apply reload_inv in E as (Hs & _). by apply ticks_stopped in H.
    + apply mret_inv in H as [<- <-]. rewrite E.
      assert (code = 1) as ->; [|done]. clear -E. simpl in E. unfold Agent.reload in E.
      go_bind E as a1 w2 E1. go_bind E as c w3 E2. go_bind E as [cfg err] w4 E3.
      destruct err; [by apply mret_inv in E as [[= <-] _]|].
      go_bind E as r w5 E4. destruct r as [e|[s ts]]; [by apply mret_inv in E as [[= <-] _]|].
      go_bind E as r w6 E5. destruct r; by apply mret_inv in E as [[=] _].
Qed.

(** A reload with a configuration that cannot be loaded crashes as well. *)
Lemma reload_bad_config a w a1 w1 w2 :
  stopServers a w = (Ret a1, w1) → Agent_parseFlags LoadConfig (ag_args a1) w1 = (Ret None, w2) →
  handleEvent a (Signal SIGHUP) w = (Panic "nil pointer dereference", w2).
Proof.
  intros H1 H2. simpl. unfold Agent.reload. rewrite (bind_run _ _ _ _ _ H1), (bind_run _ _ _ _ _ H2). done.
Qed.
End facts.

(** ** Witnesses *)

#[local] Existing Instance consulClient.

(** A configuration file that asks for another port and turns job scaling off. *)
Definition demo_file : Config :=
  zero_Config <| cfg_RPCPort := 2000 |> <| cfg_JobScalingDisable := true |> <| cfg_Consul := "consul:8500" |>.
Definition demo_load : string → M world (error + Config) := λ _, mret (inr demo_file).

Definition demo_args : list string := ["-config=/etc/replicator.hcl"; "-consul"; "other:8500"; "-rpc-port=0x7d1"].

Definition demo_parsed : Config := default zero_Config (run_value None (Agent_parseFlags demo_load demo_args) sim0).

Lemma flag_precedence_witness :
  cfg_Consul demo_parsed = "other:8500" ∧ cfg_RPCPort demo_parsed = 2001 ∧
  cfg_JobScalingDisable demo_parsed = true ∧ cfg_HTTPPort demo_parsed = "1313" ∧
  is_Some (cfg_Notification demo_parsed).
Proof.
  destruct (flag_precedence demo_load demo_args sim0 demo_parsed sim0 ltac:(vm_compute; reflexivity))
    as (set & files & _ & _ & _ & H & _).
  split_and!; [vm_compute; reflexivity..|exact H].
Defined.

Definition demo_listen : option TCPAddr → M world (error + TCPAddr) := λ _, mret (inr (mkTCPAddr "127.0.0.1" 1314)).

(** The agent on events, with sockets that can always be opened. *)
Definition demo_run (events : list event) : outcome (loop agent Z) :=
  (Agent_Run demo_load (λ c, (c, None)) (λ _, mret None) (λ _, true) id demo_listen
     (λ _, mret (inr (mkTCPAddr "127.0.0.1" 1313))) (λ a p, mret (inr a)) demo_args events sim0).1.

(** An orderly exit; a second signal after a reload crashes. *)
Example agent_runs :
  demo_run [Tick 0; Signal SIGTERM] = Ret (Return 1) ∧
  demo_run [Signal SIGHUP; Tick 1; Signal SIGTERM] = Panic "close of closed channel".
Proof. vm_compute. done. Qed.

(** An agent whose clients cannot be set up at the reload. *)
Definition reloading_agent : agent :=
  mkagent demo_args demo_parsed
    [mkServer (newLeaderCandidate "replicator/config/leader" 12) demo_parsed ChanOpen false ChanOpen] 0 0 None.
Definition reloading_handle : agent → event → M world (loop agent Z) :=
  handleEvent demo_load (λ c, (c, Some "no client")) (λ _, mret None) (λ _, true) id demo_listen
    (λ _, mret (inr (mkTCPAddr "127.0.0.1" 1313))) (λ a p, mret (inr a)).

Lemma reload_once_witness :
  for_range reloading_handle [Signal SIGHUP; Tick 0; Signal SIGTERM] reloading_agent sim0 = (Ret (Return 1), sim0) ∧
  reloading_handle reloading_agent (Signal SIGHUP) sim0 = (Ret (Return 1), sim0).
Proof.
  assert (for_range reloading_handle [Signal SIGHUP; Tick 0; Signal SIGTERM] reloading_agent sim0 =
    (Ret (Return 1), sim0)) as H by (vm_compute; reflexivity).
  split; [exact H|].
  exact (proj2 (proj2 (reload_once demo_load (λ c, (c, Some "no client")) (λ _, mret None) (λ _, true) id demo_listen
    (λ _, mret (inr (mkTCPAddr "127.0.0.1" 1313))) (λ a p, mret (inr a)) reloading_agent sim0)
    [0%nat] SIGTERM [] _ _ H)).
Defined.
