(* ===== verification/Controller.v ===== *)
(** * Controller: successive evaluations of a worker pool

    The scaling loop of [replicator/cluster_scaling.go] over several ticks: the
    counters and the time of the last scaling event travel through the state
    store from one evaluation to the next, and an evaluation that passes the
    gates runs the scaling action.  An abstract controller counts consecutive
    requests and waits for its cooldown; the scaling loop refines it in an
    environment in which nobody else touches the state of the pool. *)

From S2P Require Import Prelude GoNum Structs Interfaces Failsafe NodeDiscovery ClusterScaling ClusterFacts.

(** ** The abstract controller

    Consecutive requests in a direction, and the time of the last action.  A
    request in the other direction starts over; [t] requests in a row act, and
    the counting starts over; for [cd] after an action, requests are not
    counted. *)

Record controller := mkcontroller { ct_in : Z; ct_out : Z; ct_last : Time }.

Inductive direction := In | Out.
Definition direction_text (d : direction) : string :=
  match d with In => ScalingDirectionIn | Out => ScalingDirectionOut end.

(** An evaluation: the direction asked for, the time at which it is made, and
    the time at which an action would end. *)
Record round := mkround { rd_direction : direction; rd_now : Time; rd_event : Time }.

Definition held (cd : Z) (c : controller) (now : Time) : bool :=
  negb (ct_last c =? 0) && (now <? ct_last c + cd).

Definition abs_step (t cd : Z) (c : controller) (r : round) : controller * bool :=
  if held cd c (rd_now r) then (c, false)
  else
    match rd_direction r with
    | In => if ct_in c + 1 =? t then (mkcontroller 0 0 (rd_event r), true)
            else (mkcontroller (ct_in c + 1) 0 (ct_last c), false)
    | Out => if ct_out c + 1 =? t then (mkcontroller 0 0 (rd_event r), true)
             else (mkcontroller 0 (ct_out c + 1) (ct_last c), false)
    end.

(** The controller after some rounds, and the directions in which it acted. *)
Fixpoint abs_run (t cd : Z) (c : controller) (rs : list round) : controller * list direction :=
  match rs with
  | [] => (c, [])
  | r :: rs =>
      let '(c, b) := abs_step t cd c r in
      let '(c, acts) := abs_run t cd c rs in
      (c, if b : bool then rd_direction r :: acts else acts)
  end.

(** The counters and the last event of the controller in a state. *)
Definition abstracts (st : ScalingState) (c : controller) : Prop :=
  st_ScaleInRequests st = ct_in c ∧ st_ScaleOutRequests st = ct_out c ∧ st_LastScalingEvent st = ct_last c.

Definition bounded (t : Z) (c : controller) : Prop := 0 ≤ ct_in c < t ∧ 0 ≤ ct_out c < t.

Lemma abs_step_bounded t cd c r : 0 < t → bounded t c → bounded t (abs_step t cd c r).1.
Proof.
  intros Ht [Hi Ho]. unfold abs_step, bounded. destruct (held _ _ _); [done|]. destruct (rd_direction r).
  - destruct (Z.eqb_spec (ct_in c + 1) t); simpl; lia.
  - destruct (Z.eqb_spec (ct_out c + 1) t); simpl; lia.
Qed.

(** What a request makes of a state: the controller's decision, and its
    counters; the event is recorded by the action. *)
Lemma count_refines t cd st c r :
  0 < t ≤ max_int → bounded t c → abstracts st c → st_ScalingDirection st = direction_text (rd_direction r) →
  held cd c (rd_now r) = false →
  (countRequest t st).2 = (abs_step t cd c r).2 ∧
  ∃ i o, (countRequest t st).1 = st <| st_ScaleInRequests := i |> <| st_ScaleOutRequests := o |> ∧
    (abs_step t cd c r).1 = mkcontroller i o (if (abs_step t cd c r).2 then rd_event r else ct_last c).
Proof.
  intros Ht [Hi Ho] (Ei & Eo & El) Hd Hh. unfold abs_step. rewrite Hh. destruct (rd_direction r); simpl in Hd.
  - rewrite (count_in t Ht) by (done || lia). rewrite <-Ei. cbv zeta.
    destruct (_ =? t); simpl; (split; [done|by do 2 eexists]).
  - rewrite (count_out t Ht) by (done || lia). rewrite <-Eo. cbv zeta.
    destruct (_ =? t); simpl; (split; [done|by do 2 eexists]).
Qed.

(** ** The scaling loop *)

(** What an environment shows of a pool: the stored state, what the clock reads
    next, the time at which an action would end, and the directions in which
    the provider scaled the pool. *)
Record view := mkview { vw_state : ScalingState; vw_now : Time; vw_event : Time; vw_scaled : list string }.
#[export] Instance eta_view : Eta view := λ v, mkview (vw_state v) (vw_now v) (vw_event v) (vw_scaled v).

Section refinement.
Context {W : Type} {RT : Runtime W} {CC : ConsulClient W} {NC : NomadClient W}
  {SP : ScalingProvider W} {NT : NotifierAPI W} {RS : RegistryStore W}.
Context (cfg : Config) (jobs : list string).
Context (name : string) (provider : ScalingProviderValue) (t cooldown retry : Z).

(** A pool of these settings, whatever its nodes and its state. *)
Definition steady (p : WorkerPool) : Prop :=
  wp_Name p = name ∧ wp_ScalingProvider p = Some provider ∧ wp_ScalingThreshold p = t ∧
  wp_Cooldown p = cooldown ∧ wp_RetryThreshold p = retry.

Definition registered (reg : NodeRegistry) : Prop :=
  nr_Locked reg = false ∧ ∃ p, nr_WorkerPools reg !! name = Some p ∧ steady p.

(** A quiet environment.  A world that is [calm] and expects the rounds [rs]
    answers the calls of the loop without an error: the pool stays registered,
    an evaluation asks for the next round, the provider finds it safe, a node
    can be found and drained, and the provider's action succeeds and stores the
    time of its end.  The stored state is changed by nobody else. *)
Context (calm : list round → W → Prop) (look : W → view).

Record calm_laws : Prop := {
  calm_get : ∀ rs w, calm rs w → ∃ reg w1, get_registry w = (Ret reg, w1) ∧ registered reg ∧
    calm rs w1 ∧ look w1 = look w;
  calm_put : ∀ rs w reg, calm rs w → registered reg → ∃ w1, put_registry reg w = (Ret tt, w1) ∧
    calm rs w1 ∧ look w1 = look w;
  calm_read : ∀ rs w p, calm rs w → steady p → ∃ x w1, ReadState (poolState cfg p) true w =
    (Ret ((vw_state (look w)) <| st_ScalingDirection := x |>), w1) ∧ calm rs w1 ∧ look w1 = look w;
  calm_evaluate : ∀ r rs w p, calm (r :: rs) w → steady p → ∃ cap w1,
    EvaluatePoolScaling zero_ClusterCapacity p jobs w = (Ret (cap, (true, None)), w1) ∧
    cc_ScalingDirection cap = direction_text (rd_direction r) ∧ calm rs w1 ∧
    look w1 = (look w) <| vw_now := rd_now r |> <| vw_event := rd_event r |>;
  calm_persist : ∀ rs w st, calm rs w → ∃ u w1,
    PersistState st w = (Ret (st <| st_LastUpdated := u |>, None), w1) ∧
    calm rs w1 ∧ look w1 = (look w) <| vw_state := st <| st_LastUpdated := u |> |>;
  calm_safety : ∀ rs w p, calm rs w → steady p → ∃ w1, SafetyCheck provider p w = (Ret true, w1) ∧
    calm rs w1 ∧ look w1 = look w;
  calm_now : ∀ rs w, calm rs w → ∃ w1, time_Now w = (Ret (vw_now (look w)), w1) ∧ calm rs w1 ∧ look w1 = look w;
  calm_node : ∀ rs w cap prot, calm rs w → ∃ id ip w1, LeastAllocatedNode cap prot w = (Ret (id, ip), w1) ∧
    id ≠ "" ∧ ip ≠ "" ∧ calm rs w1 ∧ look w1 = look w;
  calm_drain : ∀ rs w id, calm rs w → ∃ w1, DrainNode id w = (Ret None, w1) ∧ calm rs w1 ∧ look w1 = look w;
  calm_scale : ∀ rs w p st, calm rs w → steady p → wp_State p = Some st → ∃ p' st' w1,
    Scale provider p w = (Ret (p', None), w1) ∧ wp_Name p' = name ∧ wp_State p' = Some st' ∧
    st_LastScalingEvent st' = vw_event (look w) ∧ st_FailureCount st' ≤ st_FailureCount st ∧
    st_FailsafeMode st' = st_FailsafeMode st ∧ st_ScaleInRequests st' = st_ScaleInRequests st ∧
    st_ScaleOutRequests st' = st_ScaleOutRequests st ∧ calm rs w1 ∧
    look w1 = (look w) <| vw_state := st' |> <| vw_scaled ::= λ l, l ++ [st_ScalingDirection st] |>;
}.

Context (L : calm_laws) (Ht : 0 < t ≤ max_int).
Abbreviation cd := (cooldown *! Second).

(** The breaker of the pool is closed. *)
Definition ready (st : ScalingState) : Prop := st_FailsafeMode st = false ∧ st_FailureCount st < retry.

Lemma steady_state p st : steady p → steady (p <| wp_State := st |>).
Proof. done. Qed.

(** The breaker, the cooldown and the counters, for a state that is ready. *)
Lemma breaker_round p st w :
  steady p → ready st → FailsafeCheck st cfg (wp_RetryThreshold p) (poolMessage p) w = (Ret (st, true), w).
Proof.
  intros (_ & _ & _ & _ & ->) (Hm & Hf). unfold FailsafeCheck. rewrite Hm. by rewrite (proj2 (Z.leb_gt _ _)).
Qed.

Lemma cooldown_round rs p st c w :
  calm rs w → steady p → wp_State p = Some st → abstracts st c →
  ∃ w1, checkCooldownThreshold p w = (Ret (negb (held cd c (vw_now (look w)))), w1) ∧ calm rs w1 ∧ look w1 = look w.
Proof.
  intros Hw (_ & _ & _ & Hcd & _) Hst (_ & _ & Hl). unfold checkCooldownThreshold. rewrite Hst.
  rewrite (bind_run _ _ w st w) by done. unfold IsZero, held. rewrite Hl. destruct (ct_last c =? 0); [by exists w|].
  destruct (calm_now L _ _ Hw) as (w1 & E & Hw1 & V). cbv zeta. rewrite (bind_run _ _ _ _ _ E), Hcd.
  exists w1. unfold Before, time_add. by destruct (_ <? _).
Qed.

Lemma threshold_round r rs p st c w :
  calm rs w → steady p → wp_State p = Some st → abstracts st c → bounded t c →
  st_ScalingDirection st = direction_text (rd_direction r) → held cd c (rd_now r) = false →
  ∃ i o u w1,
    let st' := st <| st_ScaleInRequests := i |> <| st_ScaleOutRequests := o |> <| st_LastUpdated := u |> in
    checkPoolScalingThreshold p w = (Ret (p <| wp_State := Some st' |>, (abs_step t cd c r).2), w1) ∧
    (abs_step t cd c r).1 = mkcontroller i o (if (abs_step t cd c r).2 then rd_event r else ct_last c) ∧
    calm rs w1 ∧ look w1 = (look w) <| vw_state := st' |>.
Proof.
  intros Hw (_ & _ & Hth & _) Hst Ha Hb Hd Hh.
  destruct (count_refines t cd st c r Ht Hb Ha Hd Hh) as (Hc & i & o & Hs & Hc').
  unfold checkPoolScalingThreshold. rewrite Hst, (bind_run _ _ w st w) by done. rewrite Hth.
  destruct (countRequest t st) as [st1 b]. simpl in Hc, Hs. subst b st1.
  destruct (calm_persist L _ _ (st <| st_ScaleInRequests := i |> <| st_ScaleOutRequests := o |>) Hw) as (u & w1 & E & Hw1 & V).
  rewrite (bind_run _ _ _ _ _ E). by exists i, o, u, w1.
Qed.

(** ** The scaling action *)

Lemma write_round rs p w :
  calm rs w → wp_Name p = name →
  ∃ w1, on_registry (writeState p) w = (Ret tt, w1) ∧ calm rs w1 ∧ look w1 = look w.
Proof.
  intros Hw Hn. destruct (calm_get L _ _ Hw) as (reg & w1 & E1 & [Hl (q & Hq & Hs)] & Hw1 & V1).
  unfold on_registry. rewrite (bind_run _ _ _ _ _ E1).
  assert (writeState p reg = (Ret tt, set_pool name (q <| wp_State := wp_State p |>) reg)) as Hwr.
  { unfold writeState, mbind, M_bind, Lock. rewrite Hl. simpl. unfold modify at 1; simpl. rewrite Hn, Hq. simpl.
    destruct reg; simpl in *; by subst. }
  rewrite Hwr.
  destruct (calm_put L _ _ (set_pool name (q <| wp_State := wp_State p |>) reg) Hw1) as (w2 & E2 & Hw2 & V2).
  { split; [done|]. eexists. split; [apply lookup_insert_eq|done]. }
  rewrite (bind_run _ _ _ _ _ E2). exists w2. by rewrite V2.
Qed.

(** The provider is called and the state it left is written to the registry. *)
Lemma provider_round rs p st w :
  calm rs w → steady p → wp_State p = Some st → ready st →
  ∃ w1, callProvider p w = (Ret tt, w1) ∧ calm rs w1 ∧ ready (vw_state (look w1)) ∧
    abstracts (vw_state (look w1)) (mkcontroller (st_ScaleInRequests st) (st_ScaleOutRequests st) (vw_event (look w))) ∧
    vw_scaled (look w1) = vw_scaled (look w) ++ [st_ScalingDirection st].
Proof.
  intros Hw Hs Hst [Hm Hf].
  destruct (calm_scale L _ _ _ _ Hw Hs Hst) as (p' & st' & w1 & E1 & Hn & Hst' & He & Hc & Hm' & Hi & Ho & Hw1 & V1).
  destruct (write_round _ p' _ Hw1 Hn) as (w2 & E2 & Hw2 & V2).
  unfold callProvider. rewrite (proj1 (proj2 Hs)). rewrite (bind_run _ _ w provider w) by done.
  rewrite (bind_run _ _ _ _ _ E1). exists w2. rewrite V2, V1. split; [done|]. split; [done|].
  split; [split; simpl; [by rewrite Hm'|lia]|done].
Qed.

Lemma action_round rs p st d cap w :
  calm rs w → steady p → wp_State p = Some st → ready st →
  cc_ScalingDirection cap = direction_text d → st_ScalingDirection st = direction_text d →
  ∃ w1, scalePool p cap w = (Ret tt, w1) ∧ calm rs w1 ∧ ready (vw_state (look w1)) ∧
    abstracts (vw_state (look w1)) (mkcontroller (st_ScaleInRequests st) (st_ScaleOutRequests st) (vw_event (look w))) ∧
    vw_scaled (look w1) = vw_scaled (look w) ++ [direction_text d].
Proof.
  intros Hw Hs Hst Hr Hd Hd'. unfold scalePool. rewrite Hd, <-Hd'. destruct d; simpl in Hd'; rewrite Hd'; simpl.
  - destruct (calm_node L _ _ cap (wp_ProtectedNode p) Hw) as (id & ip & w1 & E1 & Hid & Hip & Hw1 & V1).
    rewrite (bind_run _ _ _ _ _ E1). apply String.eqb_neq in Hid, Hip. rewrite Hid, Hip. cbn [orb].
    rewrite Hst, (bind_run _ _ w1 st w1) by done. cbv zeta.
    destruct (calm_drain L _ _ id Hw1) as (w2 & E2 & Hw2 & V2). rewrite (bind_run _ _ _ _ _ E2).
    rewrite <-V1, <-V2, <-Hd'.
    set (st' := st <| st_EligibleNodes ::= λ l, l ++ [ip] |>).
    exact (provider_round rs (p <| wp_State := Some st' |>) st' w2 Hw2 (steady_state _ (Some st') Hs) eq_refl Hr).
  - rewrite <-Hd'. by apply provider_round.
Qed.

(** ** A round *)

(** The gates up to the cooldown. *)
Lemma gates_head r rs w c :
  calm (r :: rs) w → ready (vw_state (look w)) → abstracts (vw_state (look w)) c →
  ∃ p st cap w1, steady p ∧ wp_State p = Some st ∧ ready st ∧ abstracts st c ∧
    st_ScalingDirection st = direction_text (rd_direction r) ∧
    cc_ScalingDirection cap = direction_text (rd_direction r) ∧
    calm rs w1 ∧ look w1 = (look w) <| vw_now := rd_now r |> <| vw_event := rd_event r |> <| vw_state := st |> ∧
    scalingGates cfg jobs name w =
      (ok ← checkCooldownThreshold p;
       if negb ok then mret None
       else '(p, ok) ← checkPoolScalingThreshold p; if negb ok then mret None else mret (Some (p, cap))) w1.
Proof.
  intros Hw Hr Ha. unfold scalingGates, read_registry.
  destruct (calm_get L _ _ Hw) as (reg & w1 & E1 & [Hl (p & Hp & Hs)] & Hw1 & V1).
  rewrite (bind_run _ _ w reg w1) by (rewrite (bind_run _ _ _ _ _ E1), Hl; done).
  rewrite (bind_run _ _ w1 p w1) by (by rewrite Hp).
  destruct (calm_read L _ _ _ Hw1 Hs) as (x & w2 & E2 & Hw2 & V2). rewrite (bind_run _ _ _ _ _ E2), V1. cbv zeta.
  set (st0 := (vw_state (look w)) <| st_ScalingDirection := x |>).
  rewrite (bind_run _ _ _ _ _ (breaker_round p st0 w2 Hs Hr)). cbn [negb].
  destruct (calm_evaluate L _ _ _ (p <| wp_State := Some st0 |>) Hw2 (steady_state _ _ Hs))
    as (cap & w3 & E3 & Hd & Hw3 & V3). rewrite (bind_run _ _ _ _ _ E3). cbn [orb negb].
  destruct (calm_persist L _ _ (st0 <| st_ScalingDirection := cc_ScalingDirection cap |>) Hw3) as (u & w4 & E4 & Hw4 & V4).
  rewrite (bind_run _ _ _ _ _ E4).
  set (st := st0 <| st_ScalingDirection := cc_ScalingDirection cap |> <| st_LastUpdated := u |>) in *.
  set (q := p <| wp_State := Some st0 |> <| wp_State := Some st |>).
  assert (steady q) as Hq by done. rewrite (bind_run _ _ w4 provider w4) by (by rewrite (proj1 (proj2 Hq))).
  destruct (calm_safety L _ _ _ Hw4 Hq) as (w5 & E5 & Hw5 & V5). rewrite (bind_run _ _ _ _ _ E5). cbn [negb].
  exists q, st, cap, w5. split_and!; try done. by rewrite V5, V4, V3, V2, V1.
Qed.

Lemma pool_round r rs w c :
  calm (r :: rs) w → ready (vw_state (look w)) → abstracts (vw_state (look w)) c → bounded t c →
  ∃ w1, workerPoolScaling_pool cfg jobs name w = (Ret tt, w1) ∧ calm rs w1 ∧ ready (vw_state (look w1)) ∧
    abstracts (vw_state (look w1)) (abs_step t cd c r).1 ∧
    vw_scaled (look w1) = vw_scaled (look w) ++
      (if (abs_step t cd c r).2 then [direction_text (rd_direction r)] else []).
Proof.
  intros Hw Hr Ha Hb. unfold workerPoolScaling_pool.
  destruct (gates_head r rs w c Hw Hr Ha) as (p & st & cap & w1 & Hs & Hst & Hr1 & Ha1 & Hd & Hcap & Hw1 & V1 & E1).
  destruct (cooldown_round _ _ _ _ _ Hw1 Hs Hst Ha1) as (w2 & E2 & Hw2 & V2).
  rewrite V1 in E2. simpl in E2. rewrite (bind_run _ _ _ _ _ E2) in E1.
  destruct (held cd c (rd_now r)) eqn:Hh; cbn [negb] in E1.
  { rewrite (bind_run _ _ _ _ _ E1). exists w2. unfold abs_step. rewrite Hh, V2, V1; simpl. by rewrite app_nil_r. }
  destruct (threshold_round _ _ _ _ _ _ Hw2 Hs Hst Ha1 Hb Hd Hh) as (i & o & u & w3 & E3 & Hc & Hw3 & V3).
  rewrite (bind_run _ _ _ _ _ E3) in E1. rewrite Hc. destruct (abs_step t cd c r).2; cbn [negb] in E1;
    rewrite (bind_run _ _ _ _ _ E1).
  - set (st' := st <| st_ScaleInRequests := i |> <| st_ScaleOutRequests := o |> <| st_LastUpdated := u |>) in *.
    destruct (action_round rs (p <| wp_State := Some st' |>) st' (rd_direction r) cap w3 Hw3
      (steady_state _ (Some st') Hs) eq_refl Hr1 Hcap Hd) as (w4 & E4 & Hw4 & Hr4 & Ha4 & Hsc).
    exists w4. rewrite V3, V2, V1 in Ha4, Hsc. by split_and!.
  - exists w3. rewrite V3, V2, V1. simpl. rewrite app_nil_r. split_and!; try done. by destruct Ha1 as (_ & _ & ?).
Qed.

(** The evaluations of successive ticks, each of which hands the pool to a
    worker. *)
Fixpoint ticks (n : nat) : M W unit :=
  match n with
  | O => mret tt
  | S n => _ ← workerPoolScaling cfg jobs [name]; ticks n
  end.

(** C8. The scaling loop refines the counting controller.  In an environment
    that asks for the rounds [rs], one at each evaluation, and then for others,
    whose calls succeed and in which nobody else changes the pool's state, and
    with the pool's breaker closed, every tick returns; after the ticks of [rs],
    however many they are, the provider was asked to scale the pool just as
    often and in just the directions in which the controller acted in [rs], that
    is after [t] consecutive requests outside the cooldown of the last action;
    and the counters and the time of the last event that are stored by then are
    the controller's. *)
Theorem gates_refine_controller rs rest w c :
  calm (rs ++ rest) w → ready (vw_state (look w)) → abstracts (vw_state (look w)) c → bounded t c →
  ∃ w', ticks (length rs) w = (Ret tt, w') ∧
    vw_scaled (look w') = vw_scaled (look w) ++ (direction_text <$> (abs_run t cd c rs).2) ∧
    abstracts (vw_state (look w')) (abs_run t cd c rs).1.
Proof.
  revert w c. induction rs as [|r rs IH]; intros w c Hw Hr Ha Hb.
  { exists w. by rewrite app_nil_r. }
  destruct (pool_round r (rs ++ rest) w c Hw Hr Ha Hb) as (w1 & E1 & Hw1 & Hr1 & Ha1 & S1).
  pose proof (abs_step_bounded t cd c r (proj1 Ht) Hb) as Hb1.
  cbn [length ticks abs_run]. destruct (abs_step t cd c r) as [c1 b]; simpl in *.
  destruct (IH w1 c1 Hw1 Hr1 Ha1 Hb1) as (w2 & E2 & S2 & Ha2). destruct (abs_run t cd c1 rs) as [c2 acts]; simpl in *.
  exists w2. rewrite (bind_run _ _ w tt w1).
  2:{ unfold workerPoolScaling; simpl. unfold mbind, M_bind; simpl. by rewrite E1. }
  split; [done|]. split; [|done]. rewrite S2, S1. destruct b; simpl; [by rewrite <-(assoc_L (++))|by rewrite app_nil_r].
Qed.
End refinement.

(** ** Witness

    A world that is the stored state of one pool, the registry, the rounds the
    coming evaluations will ask for, and what the clock and the provider show. *)

Record script := mkscript { sc_view : view; sc_rounds : list round; sc_registry : NodeRegistry }.
#[export] Instance eta_script : Eta script := λ s, mkscript (sc_view s) (sc_rounds s) (sc_registry s).

#[local] Instance script_runtime : Runtime script := {
  time_Now := λ w, (Ret (vw_now (sc_view w)), w); range_keys := λ ks, mret ks; poll_ticks := λ _ _, mret 1%nat;
  os_Getenv := λ _, mret ""; int_of_float_undefined := λ _, 0; time_text := λ _, "";
}.
#[local] Instance script_consul : ConsulClient script := {
  ReadState := λ st _ w, (Ret ((vw_state (sc_view w)) <| st_ScalingDirection := st_ScalingDirection st |>), w);
  PersistState := λ st w, let st := st <| st_LastUpdated := 1 |> in
    (Ret (st, None), w <| sc_view ::= λ v, v <| vw_state := st |> |>);
  LoadPoolConfig := λ _, mret (inl ""); AcquireLeadership := λ _ s, mret (true, s);
  CreateSession := λ _, mret (inr "s"); GetLeaderInfo := λ l _ _, mret (l, None); ResignLeadership := λ _ _, mret tt;
}.
#[local] Instance script_nomad : NomadClient script := {
  EvaluatePoolScaling := λ cap _ _ w,
    match sc_rounds w with
    | r :: rs => (Ret (cap <| cc_ScalingDirection := direction_text (rd_direction r) |>, (true, None)),
        w <| sc_rounds := rs |> <| sc_view ::= λ v, v <| vw_now := rd_now r |> <| vw_event := rd_event r |> |>)
    | [] => (Ret (cap, (false, None)), w)
    end;
  LeastAllocatedNode := λ _ _, mret ("node-1", "10.0.0.1"); DrainNode := λ _, mret None;
  NodeReverseLookup := λ _, mret ("", None); EvaluateJobScaling := λ _ gs, mret (gs, None);
  JobGroupScale := λ _ _ st, mret st; IsJobInDeployment := λ _, mret false;
}.
#[local] Instance script_provider : ScalingProvider script := {
  SafetyCheck := λ _ _, mret true;
  Scale := λ _ p w, let v := sc_view w in
    match wp_State p with
    | Some st => let st' := st <| st_LastScalingEvent := vw_event v |> in
        (Ret (p <| wp_State := Some st' |>, None),
         w <| sc_view := v <| vw_state := st' |> <| vw_scaled ::= λ l, l ++ [st_ScalingDirection st] |> |>)
    | None => (Ret (p, Some "no state"), w)
    end;
}.
#[local] Instance script_notifier : NotifierAPI script := { SendNotification := λ _ _, mret tt }.
#[local] Instance script_registry : RegistryStore script := {
  get_registry := λ w, (Ret (sc_registry w), w);
  put_registry := λ reg w, (Ret tt, w <| sc_registry := reg |>);
}.

#[local] Instance script_store_laws : StateStoreLaws script.
Proof.
  split.
  - intros st w st' e w' [= <- <- <-]. by eexists.
  - intros st w st' w' st0 force _ [= <- <-] _. by eexists.
Qed.

Definition script_pool : WorkerPool :=
  NewWorkerPool <| wp_Name := "pool" |> <| wp_ScalingThreshold := 2 |> <| wp_Cooldown := 60 |>
    <| wp_ScalingProvider := Some (AwsScalingProvider "eu") |>.

(** The world that stores [st] and expects the rounds [rs]. *)
Definition script_of (st : ScalingState) (rs : list round) : script :=
  mkscript (mkview st 1 1 []) rs (NewNodeRegistry <| nr_WorkerPools := {[ "pool" := script_pool ]} |>).

Definition script_calm (rs : list round) (w : script) : Prop :=
  sc_rounds w = rs ∧ registered "pool" (AwsScalingProvider "eu") 2 60 (wp_RetryThreshold script_pool) (sc_registry w).

Lemma script_laws :
  calm_laws zero_Config [] "pool" (AwsScalingProvider "eu") 2 60 (wp_RetryThreshold script_pool) script_calm sc_view.
Proof.
  split; intros *.
  - intros Hw. by exists (sc_registry w), w; destruct Hw.
  - intros [Hw _] Hreg. by eexists.
  - intros Hw _. by do 2 eexists.
  - intros [Hw Hreg] _. simpl. rewrite Hw. by do 2 eexists.
  - intros Hw. exists 1. by eexists.
  - intros Hw _. by eexists.
  - intros Hw. by eexists.
  - intros Hw. by exists "node-1", "10.0.0.1", w.
  - intros Hw. by eexists.
  - intros Hw Hs Hst. simpl. rewrite Hst. do 3 eexists. split; [reflexivity|].
    destruct Hw. split; [apply Hs|]. by split_and!.
Qed.

(** Requests at every 30 seconds: two in a row act; the next two fall into the
    cooldown of that action; one that is followed by the other direction does
    not act, two in a row do. *)
Definition script_rounds : list round :=
  (λ '(d, n), mkround d (n * Second) ((n + 10) * Second)) <$>
  [(Out, 30); (Out, 60); (Out, 90); (Out, 120); (Out, 150); (In, 180); (In, 210); (Out, 240)].

(** After four of the ticks, and after all of them. *)
Lemma gates_refine_controller_witness :
  (∃ w', ticks zero_Config [] "pool" 4 (script_of zero_ScalingState script_rounds) = (Ret tt, w') ∧
     vw_scaled (sc_view w') = [ScalingDirectionOut] ∧
     st_ScaleOutRequests (vw_state (sc_view w')) = 0) ∧
  ∃ w', ticks zero_Config [] "pool" 8 (script_of zero_ScalingState script_rounds) = (Ret tt, w') ∧
    vw_scaled (sc_view w') = [ScalingDirectionOut; ScalingDirectionIn] ∧
    st_LastScalingEvent (vw_state (sc_view w')) = 220 * Second.
Proof.
  assert (script_calm script_rounds (script_of zero_ScalingState script_rounds)) as Hcalm
    by (split; [done|]; split; [done|]; by exists script_pool).
  split; [set (done := take 4 script_rounds); set (rest := drop 4 script_rounds)
         |set (done := script_rounds); set (rest := @nil round)];
  (destruct (gates_refine_controller zero_Config [] "pool" (AwsScalingProvider "eu") 2 60 (wp_RetryThreshold script_pool)
    script_calm sc_view script_laws ltac:(unfold max_int; simpl; lia) done rest
    (script_of zero_ScalingState script_rounds) (mkcontroller 0 0 0)) as (w' & H & Hs & _ & Ho & Hl);
  [exact Hcalm|done|done|split; simpl; lia|exists w'; split; [exact H|]; split; [rewrite Hs; vm_compute; reflexivity|]]).
  - rewrite Ho. vm_compute. reflexivity.
  - rewrite Hl. vm_compute. reflexivity.
Defined.
