(* ===== verification/Operator.v ===== *)
(** * Operator: the failsafe command against the scaling loop

    The command and the agent share nothing but the state store; what the
    operator writes there is what the next evaluation of the pool finds. *)

From S2P Require Import Prelude GoNum Structs Interfaces StateFacts Failsafe FailsafeFacts Config Flags FailsafeCmd NodeDiscovery ClusterScaling ClusterFacts Controller.

Section operator.
Context {W : Type} {RT : Runtime W} {CC : ConsulClient W} {NC : NomadClient W}
  {SP : ScalingProvider W} {NT : NotifierAPI W} {RS : RegistryStore W} {SL : StateStoreLaws W}.
Context (LoadConfig : string → M W (error + Config)).
Context (InitializeClients : Config → Config * option error).
Context (UI_Ask : string → M W (error + string)).

(** The store accepts every write. *)
Context (store_writes : ∀ st (w : W) st' e w', PersistState st w = (Ret (st', e), w') → e = None).

(** The state that a run which got past the checks leaves in the store. *)
Lemma run_stores args conf path config st w w1 w2 w' code st0 force :
  args ≠ [] →
  parseFlags LoadConfig args w = (Ret (Some (conf, path)), w1) →
  InitializeClients (fsm_Config conf) = (config, None) →
  checkRequest UI_Ask conf path w1 = (Ret (inr st), w2) → state_ok st →
  Run LoadConfig InitializeClients UI_Ask args w = (Ret code, w') →
  st_StatePath st0 = st_StatePath st →
  code = 0 ∧ ∃ st' w3, ReadState st0 force w' = (Ret st', w3) ∧ st_FailsafeMode st' = fsm_Enable conf.
Proof.
  intros Hargs Hp Hi Hc Hok H Hpath. unfold Run in H. destruct args as [|arg args]; [done|].
  cbn [length Nat.eqb] in H. go_bind H as o wp E. rewrite Hp in E. injection E as <- <-. rewrite Hi in H.
  go_bind H as r wc E. rewrite Hc in E. injection E as <- <-.
  go_bind H as [[m st1] e] w3 E. pose proof E as (Hm & Hpath1 & Hfc & Hin & Hout)%set_failsafe_state.
  pose proof (set_failsafe_written _ _ _ _ _ _ _ _ _ store_writes E) as ->.
  go_bind H as [st2 e] w4 E2. apply mret_inv in H as [<- <-]. split; [done|].
  pose proof (store_writes _ _ _ _ _ E2) as ->. pose proof E2 as [now ->]%persist_touches.
  destruct (persist_then_read st1 w3 (st1 <| st_LastUpdated := now |>) w4 st0 force) as [w5 Hr]; [|exact E2|by rewrite Hpath1|].
  - destruct Hok. split; rewrite ?Hfc, ?Hin, ?Hout; try done.
    unfold modify; simpl. destruct (fsm_Enable conf); [done|]. unfold is_int, min_int, max_int. lia.
  - do 2 eexists. split; [exact Hr|]. unfold modify; simpl. exact Hm.
Qed.

(** C21. An operator who enables failsafe mode of a worker pool stops its
    scaling: once the command has gone through, an agent that evaluates the
    pool of that path next reads the tripped breaker and returns without
    evaluating the cluster, asking the provider or writing anything, whatever
    its configuration and thresholds. *)
Theorem failsafe_command_stops_pool args conf path config st w w1 w2 w' code :
  args ≠ [] →
  parseFlags LoadConfig args w = (Ret (Some (conf, path)), w1) →
  InitializeClients (fsm_Config conf) = (config, None) →
  fsm_Enable conf = true →
  checkRequest UI_Ask conf path w1 = (Ret (inr st), w2) → state_ok st → st_StatePath st = path →
  Run LoadConfig InitializeClients UI_Ask args w = (Ret code, w') →
  code = 0 ∧
  ∀ cfg jobs name reg pool, read_registry w' = (Ret reg, w') → nr_WorkerPools reg !! name = Some pool →
    st_StatePath (poolState cfg pool) = path →
    ∃ st' w3, ReadState (poolState cfg pool) true w' = (Ret st', w3) ∧
      workerPoolScaling_pool cfg jobs name w' = (Ret tt, w3).
Proof.
  intros Hargs Hp Hi He Hc Hok Hst H.
  assert (code = 0) as ->.
  { by eapply (run_stores _ _ _ _ _ _ _ _ _ _ st true) in H as [? _]. }
  split; [done|]. intros cfg jobs name reg pool Hreg Hpool Hpath.
  eapply (run_stores _ _ _ _ _ _ _ _ _ _ (poolState cfg pool) true) in H as (_ & st' & w3 & Hr & Hm);
    [|done..|congruence].
  exists st', w3. split; [done|].
  pose proof (check_stops_pool cfg jobs name w' reg w' pool st' w3 Hreg Hpool Hr) as Hs.
  unfold FailsafeCheck in Hs. by rewrite Hm, He in Hs.
Qed.
End operator.

(** ** Witness

    The world of the script: a store of one state that accepts every write, and
    an evaluation that asks for another node. *)

#[local] Existing Instance script_runtime.
#[local] Existing Instance script_consul.
#[local] Existing Instance script_nomad.
#[local] Existing Instance script_provider.
#[local] Existing Instance script_notifier.
#[local] Existing Instance script_registry.
#[local] Existing Instance script_store_laws.

Definition operator_state : ScalingState :=
  zero_ScalingState <| st_StatePath := "root/state/nodes/pool" |> <| st_LastUpdated := 1 |>.
Definition operator_args : list string := ["-enable"; "-force"; "-state-path=root/state/nodes/pool"].
Definition operator_world : script := script_of operator_state [mkround Out 1 1].
Definition operator_run : M script Z :=
  Run (λ _, mret (inl "no file")) (λ c, (c, None)) (λ _, mret (inl "no terminal")) operator_args.
Definition operator_request : FailsafeMode :=
  mkFailsafeMode (Merge DefaultConfig zero_Config) false true true "enable".

Lemma failsafe_command_stops_pool_witness :
  ∃ st' w3, ReadState (poolState (zero_Config <| cfg_ConsulKeyRoot := "root" |>) script_pool) true
      (operator_run operator_world).2 = (Ret st', w3) ∧
    workerPoolScaling_pool (zero_Config <| cfg_ConsulKeyRoot := "root" |>) [] "pool" (operator_run operator_world).2 =
      (Ret tt, w3).
Proof.
  refine (proj2 (failsafe_command_stops_pool (λ _, mret (inl "no file")) (λ c, (c, None))
    (λ _, mret (inl "no terminal")) _ operator_args operator_request "root/state/nodes/pool"
    (fsm_Config operator_request) operator_state operator_world operator_world operator_world
    (operator_run operator_world).2 0 _ _ _ _ _ _ _ _) _ [] "pool" _ _ _ _ _); try (vm_compute; reflexivity).
  - intros st w st' e w' [= <- <- <-]. done.
  - done.
  - split; by unfold is_int, min_int, max_int; simpl.
Defined.
