(* ===== verification/Breaker.v ===== *)
(** * Breaker: retries that are used up trip the circuit breaker

    The verification of a scale-out ([cloud/aws]) and the failsafe check of the
    next evaluation ([replicator/failsafe.go], [replicator/cluster_scaling.go])
    share only the state store: what the last failed attempt writes there is
    what stops the pool. *)

From S2P Require Import Prelude GoNum Structs Interfaces Frame Sim StateFacts Helper Failsafe FailsafeFacts AwsProvider AwsFacts NodeDiscovery ClusterScaling ClusterFacts Controller.

(** Reading any state gives the same answer in both worlds. *)
Definition same_store {W} {CC : ConsulClient W} (w w' : W) : Prop :=
  ∀ st0 force, (ReadState st0 force w').1 = (ReadState st0 force w).1.

#[export] Instance same_store_preorder {W} {CC : ConsulClient W} : PreOrder (same_store (W := W)).
Proof. split; [by intros ???|]. intros w1 w2 w3 H1 H2 st0 force. by rewrite H2. Qed.

(** The calls of the provider do not write to the state store. *)
Class StoreApart (W : Type) {RT : Runtime W} {AA : AwsAPI W} {CC : ConsulClient W} {RS : RegistryStore W} : Prop := {
  apart_now : keeps same_store time_Now;
  apart_ticks : ∀ a b, keeps same_store (poll_ticks a b);
  apart_range : ∀ ks, keeps same_store (range_keys ks);
  apart_instances : ∀ r f, keeps same_store (DescribeInstances r f);
  apart_activities : ∀ s a, keeps same_store (DescribeScalingActivities s a);
  apart_status : ∀ r i, keeps same_store (DescribeInstanceStatus r i);
  apart_detach : ∀ s g i, keeps same_store (DetachInstances s g i);
  apart_terminate : ∀ r i, keeps same_store (TerminateInstances r i);
  apart_registry : keeps same_store get_registry;
}.

#[export] Hint Resolve apart_now apart_ticks apart_range apart_instances apart_activities apart_status
  apart_detach apart_terminate apart_registry : frame.

Section breaker.
Context {W : Type} {RT : Runtime W} {AA : AwsAPI W} {CC : ConsulClient W} {NC : NomadClient W}
  {SP : ScalingProvider W} {NT : NotifierAPI W} {RS : RegistryStore W} {SL : StateStoreLaws W} {SA : StoreApart W}.

(** The store accepts every write. *)
Context (store_writes : ∀ st (w : W) st' e w', PersistState st w = (Ret (st', e), w') → e = None).

(** ** The provider's calls *)

Lemma apart_read_registry : keeps same_store read_registry.
Proof. unfold read_registry. frame. Qed.
Hint Resolve apart_read_registry : frame.

Lemma apart_find n a : keeps same_store (FindNodeByAddress n a).
Proof. unfold FindNodeByAddress. frame. Qed.

Lemma apart_recent asg region : keeps same_store (getMostRecentInstance asg region).
Proof. unfold getMostRecentInstance. frame. Qed.

Lemma apart_index0 {A} (l : list A) : keeps same_store (index0 l).
Proof. unfold index0. frame. Qed.
Hint Resolve apart_find apart_recent apart_index0 : frame.

Lemma apart_translate ip region : keeps same_store (translateIptoID ip region).
Proof. unfold translateIptoID. frame. Qed.

Lemma apart_terminated i r : keeps same_store (terminateInstance i r).
Proof. unfold terminateInstance. frame. Qed.

Lemma apart_detached g i s : keeps same_store (detachInstance g i s).
Proof. unfold detachInstance, checkClusterScalingResult. frame. Qed.
Hint Resolve apart_translate apart_terminated apart_detached : frame.

Lemma apart_cleanup svc ip wp : keeps same_store (failedEventCleanup svc ip wp).
Proof. unfold failedEventCleanup. frame. Qed.

(** ** What the store holds *)

(** A read of the path of [st] finds [st], whatever object it is read into. *)
Definition holds (st : ScalingState) (w : W) : Prop := ∀ st0 force, st_StatePath st0 = st_StatePath st →
  ∃ w2, ReadState st0 force w = (Ret (st <| st_ScalingDirection := st_ScalingDirection st0 |>), w2).

Lemma holds_same st w w' : same_store w w' → holds st w → holds st w'.
Proof.
  intros Hs Hh st0 force Hp. destruct (Hh st0 force Hp) as [w2 E].
  specialize (Hs st0 force). rewrite E in Hs. simpl in Hs.
  destruct (ReadState st0 force w') as [o w3]. simpl in Hs. subst o. eauto.
Qed.

Lemma persist_holds st w st' e w' : state_ok st → PersistState st w = (Ret (st', e), w') → holds st' w'.
Proof.
  intros Hok E st0 force Hp. pose proof (store_writes _ _ _ _ _ E) as ->.
  pose proof E as [now ->]%persist_touches. eapply persist_then_read; [done|done|].
  by unfold modify in Hp; simpl in Hp.
Qed.

(** A failed attempt leaves the counted failure in the store. *)
Definition failed (st st' : ScalingState) : Prop :=
  st_StatePath st' = st_StatePath st ∧ st_FailsafeMode st' = st_FailsafeMode st ∧
  st_FailureCount st' = st_FailureCount st + 1 ∧ state_ok st'.

Lemma record_failure_holds wp st w wp' w' :
  state_ok st → st_FailureCount st < max_int → recordFailure wp st w = (Ret wp', w') →
  ∃ st', wp' = wp <| wp_State := Some st' |> ∧ failed st st' ∧ holds st' w'.
Proof.
  intros [Hf Hin Hout] Hlt. unfold recordFailure. intros H. go_bind H as [st2 e] w1 E.
  apply mret_inv in H as [<- <-].
  assert (state_ok (st <| st_FailureCount ::= λ n, n +! 1 |>)) as Hok.
  { split; unfold modify; simpl; [apply wrap_range|done..]. }
  exists st2. split; [done|]. split; [|by eapply persist_holds].
  apply persist_touches in E as [now ->]. unfold failed, modify in *; simpl in *. split_and!; try done.
  - apply iadd_id. unfold is_int in *. lia.
  - by destruct Hok; split.
Qed.

Lemma attempt_holds svc wp st w wp' w' :
  wp_State wp = Some st → state_ok st → st_FailureCount st < max_int →
  verifyAttempt svc wp w = (Ret (Next wp'), w') →
  ∃ st', wp' = wp <| wp_State := Some st' |> ∧ failed st st' ∧ holds st' w'.
Proof.
  intros Hst Hok Hlt. unfold verifyAttempt. intros H. go_bind H as st' wd Ed.
  apply deref_inv in Ed as [Hst' <-]. rewrite Hst in Hst'. injection Hst' as <-.
  go_bind H as r w1 Er. destruct r as [e|ip].
  - go_bind H as wp2 w2 E2. apply mret_inv in H as [[= <-] <-]. by eapply record_failure_holds.
  - go_bind H as ok w2 Ef. destruct ok.
    + go_bind H as now w3 E3. go_bind H as [st2 e] w4 E4. by apply mret_inv in H as [? _].
    + go_bind H as wp2 w3 E3. go_bind H as e w4 E4. apply mret_inv in H as [[= <-] <-].
      apply record_failure_holds in E3 as (st' & -> & Hfail & Hh); [|done..].
      exists st'. split; [done|]. split; [done|]. eapply holds_same; [|exact Hh].
      by eapply keeps_run; [apply apart_cleanup|].
Qed.

(** The loop that gives up leaves in the store a count past the threshold. *)
Lemma verify_loop_holds fuel svc wp st w wp' w' :
  wp_State wp = Some st → state_ok st → wp_RetryThreshold wp < max_int →
  (st_FailureCount st ≤ wp_RetryThreshold wp ∨ holds st w) →
  verifyLoop fuel svc wp w = (Ret (Some (wp', false)), w') →
  ∃ st', holds st' w' ∧ st_StatePath st' = st_StatePath st ∧ st_FailsafeMode st' = st_FailsafeMode st ∧
    state_ok st' ∧ wp_RetryThreshold wp < st_FailureCount st'.
Proof.
  revert wp st w. induction fuel as [|fuel IH]; intros wp st w Hst Hok Hr Hh H; simpl in H;
    go_bind H as st0 wd Ed; apply deref_inv in Ed as [Hst0 <-]; rewrite Hst in Hst0; injection Hst0 as <-;
    destruct (Z.leb_spec (st_FailureCount st) (wp_RetryThreshold wp)) as [Hle|Hgt].
  - by apply mret_inv in H as [? _].
  - apply mret_inv in H as [_ <-]. destruct Hh as [?|?]; [lia|]. by exists st.
  - go_bind H as o w1 E. destruct o as [wp2|wp2]; [|by apply mret_inv in H as [? _]].
    apply (attempt_holds _ _ st) in E as (st2 & -> & (Hp & Hm & Hc & Hok2) & Hh2); [|done|done|lia].
    apply (IH _ st2) in H as (st3 & H1 & H2 & H3 & H4 & H5); [|done|done|done|by right].
    exists st3. split_and!; [done|congruence|congruence|done|done].
  - apply mret_inv in H as [_ <-]. destruct Hh as [?|?]; [lia|]. by exists st.
Qed.

(** C22. A scale-out whose retries are used up stops the pool: once the
    verification has given up, the next evaluation of the pool, by any agent and
    with a threshold that was not raised, reads the failures from the store,
    neither evaluates the cluster nor asks the provider, and trips the breaker,
    so that every later read finds the pool in failsafe mode.  Only a
    notification that panics can end it before the breaker is written. *)
Theorem failed_scale_out_stops_pool svc wp st w wp' w' :
  wp_State wp = Some st → state_ok st → st_FailsafeMode st = false →
  st_FailureCount st ≤ wp_RetryThreshold wp < max_int →
  verifyScaledNode svc wp w = (Ret (wp', false), w') →
  ∀ cfg jobs name reg pool, read_registry w' = (Ret reg, w') → nr_WorkerPools reg !! name = Some pool →
    st_StatePath (poolState cfg pool) = st_StatePath st → wp_RetryThreshold pool ≤ wp_RetryThreshold wp + 1 →
  ∃ st1 w1, ReadState (poolState cfg pool) true w' = (Ret st1, w1) ∧
    match workerPoolScaling_pool cfg jobs name w' with
    | (Ret _, w2) => ∀ st0 force, st_StatePath st0 = st_StatePath st →
        ∃ st2 w3, ReadState st0 force w2 = (Ret st2, w3) ∧ st_FailsafeMode st2 = true
    | (Panic e, w2) => FailsafeCheck st1 cfg (wp_RetryThreshold pool) (poolMessage pool) w1 = (Panic e, w2)
    end.
Proof.
  intros Hst Hok Hmode [Hle Hr] H cfg jobs name reg pool Hreg Hpool Hpath Ht.
  unfold verifyScaledNode in H. go_bind H as o w1 E. destruct o as [[wp2 ok]|]; [|discriminate H].
  apply mret_inv in H as [[= -> ->] <-].
  apply (verify_loop_holds _ _ _ st) in E as (st' & Hh & Hp & Hm & Hok' & Hc); [|done|done|done|by left].
  destruct (Hh (poolState cfg pool) true) as [w2 Hread]; [congruence|].
  eexists _, w2. split; [exact Hread|]. set (st1 := _ <| st_ScalingDirection := _ |>) in *.
  assert (FailsafeCheck st1 cfg (wp_RetryThreshold pool) (poolMessage pool) w2 =
    ('(_, state, _) ← SetFailsafeMode st1 cfg true (poolMessage pool); mret (state, false)) w2) as Hcheck.
  { unfold FailsafeCheck, st1, modify; simpl. rewrite Hm, Hmode, (proj2 (Z.leb_le _ _)) by lia. done. }
  pose proof (check_stops_pool cfg jobs name w1 reg w1 pool st1 w2 Hreg Hpool Hread) as Hs.
  rewrite Hcheck in Hs |- *. unfold mbind, M_bind in Hs |- *.
  destruct (SetFailsafeMode st1 cfg true (poolMessage pool) w2) as [[[[m st2] err]|e] w3] eqn:Es; [|by rewrite Hs].
  simpl in Hs. rewrite Hs.
  intros st0 force Hst0. pose proof (set_failsafe_written _ _ _ _ _ _ _ _ _ store_writes Es) as ->.
  pose proof Es as (Hset & _)%set_failsafe_state.
  eapply set_failsafe_read in Es as [w4 Hread4]; [|..].
  - do 2 eexists. split; [exact Hread4|]. unfold modify; simpl. exact Hset.
  - unfold st1, modify. simpl. by destruct Hok'; split.
  - unfold st1, modify. simpl. congruence.
Qed.
End breaker.

(** ** Witness: the world of the script, in which no instance ever shows up. *)

#[local] Existing Instance script_runtime.
#[local] Existing Instance script_consul.
#[local] Existing Instance script_nomad.
#[local] Existing Instance script_provider.
#[local] Existing Instance script_notifier.
#[local] Existing Instance script_registry.
#[local] Existing Instance script_store_laws.

#[local] Instance script_aws : AwsAPI script := {
  DescribeAutoScalingGroups _ _ := mret ([], None); UpdateAutoScalingGroup _ _ _ _ _ := mret None;
  DetachInstances _ _ _ := mret (inl "no instance"); DescribeScalingActivities _ _ := mret (inl "no activity");
  DescribeInstances _ _ := mret (inl "no instance"); TerminateInstances _ _ := mret (Some "no instance");
  DescribeInstanceStatus _ _ := mret (inl "no instance");
}.

#[local] Instance script_apart : StoreApart script.
Proof. split; intros; intros w st0 force; reflexivity. Qed.

Definition breaker_cfg : Config :=
  zero_Config <| cfg_ConsulKeyRoot := "root" |> <| cfg_Notification := Some (mkNotification "" "" "" []) |>.
Definition breaker_state : ScalingState := zero_ScalingState <| st_StatePath := "root/state/nodes/pool" |>.
Definition breaker_pool : WorkerPool := script_pool <| wp_State := Some breaker_state |>.
Definition breaker_run : M script (WorkerPool * bool) := verifyScaledNode "eu" breaker_pool.
Definition breaker_world : script := (breaker_run (script_of breaker_state [mkround Out 1 1])).2.

Example breaker_counts : st_FailureCount (vw_state (sc_view breaker_world)) = 4.
Proof. reflexivity. Qed.

Lemma script_writes st (w : script) st' e w' : PersistState st w = (Ret (st', e), w') → e = None.
Proof. by intros [= _ <- _]. Qed.

Lemma failed_scale_out_stops_pool_witness :
  match workerPoolScaling_pool breaker_cfg [] "pool" breaker_world with
  | (Ret _, w2) => st_FailsafeMode (vw_state (sc_view w2)) = true ∧ sc_rounds w2 = [mkround Out 1 1]
  | (Panic _, _) => False
  end.
Proof.
  destruct (failed_scale_out_stops_pool script_writes "eu" breaker_pool breaker_state (script_of breaker_state [mkround Out 1 1])
    (run_value (breaker_pool, true) breaker_run (script_of breaker_state [mkround Out 1 1])).1 breaker_world)
    with (cfg := breaker_cfg) (jobs := @nil string) (name := "pool") (pool := script_pool)
      (reg := run_value NewNodeRegistry get_registry breaker_world) as (st1 & w1 & _ & Hm).
  1,3,5,6,7,8: vm_compute; reflexivity.
  - by split; unfold is_int, min_int, max_int; simpl.
  - by vm_compute.
  - by vm_compute.
  - revert Hm. destruct (workerPoolScaling_pool breaker_cfg [] "pool" breaker_world) as [[[]|e] w2] eqn:E.
    + intros Hm. destruct (Hm breaker_state true eq_refl) as (st2 & w3 & [= <- <-] & Hf).
      split; [exact Hf|]. by vm_compute in E; simplify_eq.
    + by vm_compute in E.
Defined.
