(* ===== verification/FindIP.v ===== *)
(** * FindIP: the addresses that are found

    The regular expression of [helper.FindIP] against the texts it is meant to
    describe: four decimal numbers up to 255 separated by dots. *)

From Stdlib Require Import Ascii.
From S2P Require Import Prelude GoNum Structs Interfaces Helper.

(** ** Parsers and the texts they consume *)

(** [consumes P L]: what [P] leaves of a text are the rests after a text of
    [L]. *)
Definition consumes (P : string → list string) (L : string → Prop) : Prop :=
  ∀ s rest, rest ∈ P s ↔ ∃ t, s = t +:+ rest ∧ L t.

Lemma append_assoc (a b c : string) : (a +:+ b) +:+ c = a +:+ (b +:+ c).
Proof. induction a as [|x a IH]; [done|exact (f_equal (String x) IH)]. Qed.

Lemma consumes_chr p : consumes (chr p) (λ t, ∃ c, t = String c "" ∧ p c = true).
Proof.
  intros [|c s] rest; simpl.
  - split; [by intros ?%elem_of_nil|]. by intros (? & [=] & c & -> & _).
  - split.
    + intros H. destruct (p c) eqn:E; [|by apply elem_of_nil in H].
      apply list_elem_of_singleton in H as ->. exists (String c ""). eauto.
    + intros (t & Ht & d & -> & Hd). injection Ht as -> ->.
      rewrite Hd. by left.
Qed.

Lemma consumes_bind P Q L1 L2 :
  consumes P L1 → consumes Q L2 →
  consumes (λ s, P s ≫= Q) (λ t, ∃ t1 t2, t = t1 +:+ t2 ∧ L1 t1 ∧ L2 t2).
Proof.
  intros HP HQ s rest. rewrite list_elem_of_bind. split.
  - intros (s1 & H2%HQ & H1%HP). destruct H1 as (t1 & -> & ?), H2 as (t2 & -> & ?).
    exists (t1 +:+ t2). split; [by rewrite append_assoc|]. eauto.
  - intros (t & -> & t1 & t2 & -> & H1 & H2). exists (t2 +:+ rest). split.
    + apply HQ. eauto.
    + apply HP. exists t1. by rewrite append_assoc.
Qed.

Lemma consumes_app P Q L1 L2 :
  consumes P L1 → consumes Q L2 → consumes (λ s, P s ++ Q s) (λ t, L1 t ∨ L2 t).
Proof. intros HP HQ s rest. rewrite elem_of_app, (HP s), (HQ s). naive_solver. Qed.

Lemma consumes_ext P L L' : (∀ t, L t ↔ L' t) → consumes P L → consumes P L'.
Proof. intros H HP s rest. rewrite (HP s). naive_solver. Qed.

(** ** Numbers up to 255 *)

Definition byte_text (t : string) : Prop := ∃ n : N, (n < 256)%N ∧ t = pretty n.

(** Case analysis on a number below 256. *)
Lemma below_256 (Q : N → Prop) : (∀ k : nat, (k < 256)%nat → Q (N.of_nat k)) → ∀ n, (n < 256)%N → Q n.
Proof. intros H n Hn. rewrite <-(N2Nat.id n). apply H. lia. Qed.

Ltac each_byte :=
  refine (below_256 _ _); intros k Hk;
  do 256 (destruct k as [|k]; [try (vm_compute; reflexivity)|]); lia.

Lemma numBlock_complete : ∀ n, (n < 256)%N → "" ∈ numBlock (pretty n).
Proof.
  assert (∀ n, (n < 256)%N → existsb (String.eqb "") (numBlock (pretty n)) = true) as H by each_byte.
  intros n Hn. apply H, existsb_exists in Hn as (x & Hx & ->%String.eqb_eq). by apply list_elem_of_In.
Qed.

(** A number block that is followed by a dot is consumed in one way. *)
Lemma numBlock_dot : ∀ n, (n < 256)%N → ∀ r,
  (numBlock (pretty n +:+ "." +:+ r) ≫= chr (is_char ".")) = [r].
Proof. each_byte. Qed.

(** Before a colon the longest number is preferred. *)
Lemma numBlock_colon : ∀ n, (n < 256)%N → ∀ r,
  head (numBlock (pretty n +:+ ":" +:+ r)) = Some (":" +:+ r).
Proof. each_byte. Qed.

(** What a character class admits, as a list. *)
Ltac char_cases :=
  intros [b0 b1 b2 b3 b4 b5 b6 b7];
  destruct b0, b1, b2, b3, b4, b5, b6, b7; try (vm_compute; discriminate);
  intros _; apply list_elem_of_In; simpl; tauto.

Lemma digits_09 : ∀ c, in_range "0" "9" c = true → c ∈ (["0";"1";"2";"3";"4";"5";"6";"7";"8";"9"])%char.
Proof. char_cases. Qed.

Lemma digits_19 : ∀ c, in_range "1" "9" c = true → c ∈ (["1";"2";"3";"4";"5";"6";"7";"8";"9"])%char.
Proof. char_cases. Qed.

Lemma digits_05 : ∀ c, in_range "0" "5" c = true → c ∈ (["0";"1";"2";"3";"4";"5"])%char.
Proof. char_cases. Qed.

Lemma digits_04 : ∀ c, in_range "0" "4" c = true → c ∈ (["0";"1";"2";"3";"4"])%char.
Proof. char_cases. Qed.

Lemma char_is c : ∀ d, is_char c d = true → d ∈ [c].
Proof. intros d H%Ascii.eqb_eq. subst. by left. Qed.

(** Texts of one character out of each list. *)
Fixpoint texts (cs : list (list ascii)) : list string :=
  match cs with
  | [] => [""]
  | l :: cs' => c ← l; String c <$> texts cs'
  end.

Definition byte_textb (t : string) : bool :=
  existsb (λ k, String.eqb t (pretty (N.of_nat k))) (seq 0 256).

Lemma byte_textb_sound t : byte_textb t = true → byte_text t.
Proof.
  intros (k & Hk%in_seq & ->%String.eqb_eq)%existsb_exists.
  exists (N.of_nat k). split; [lia|done].
Qed.

Lemma texts_cons c t l cs : c ∈ l → t ∈ texts cs → String c t ∈ texts (l :: cs).
Proof. intros ??. apply list_elem_of_bind. exists c. split; [by apply list_elem_of_fmap_2|done]. Qed.

Lemma consumes_texts (p : ascii → bool) l Q cs :
  (∀ c, p c = true → c ∈ l) → (∃ L, consumes Q L ∧ ∀ t, L t → t ∈ texts cs) →
  ∃ L, consumes (λ s, chr p s ≫= Q) L ∧ ∀ t, L t → t ∈ texts (l :: cs).
Proof.
  intros Hp (L & HQ & HL). eexists. split; [exact (consumes_bind _ _ _ _ (consumes_chr p) HQ)|].
  intros t (t1 & t2 & -> & (c & -> & Hc) & Ht2). apply texts_cons; auto.
Qed.

Lemma consumes_text p l : (∀ c, p c = true → c ∈ l) →
  ∃ L, consumes (chr p) L ∧ ∀ t, L t → t ∈ texts [l].
Proof.
  intros Hp. eexists. split; [apply consumes_chr|]. intros t (c & -> & Hc).
  apply texts_cons; [auto|by left].
Qed.

Create HintDb digits.
#[local] Hint Resolve digits_09 digits_19 digits_05 digits_04 char_is : digits.

(** The number block consumes exactly the decimal numbers up to 255. *)
Lemma numBlock_consumes : ∃ L, consumes numBlock L ∧ ∀ t, L t → byte_text t.
Proof.
  assert (∀ cs t, forallb byte_textb (texts cs) = true → t ∈ texts cs → byte_text t) as Hall.
  { intros cs t H Ht%list_elem_of_In. by apply byte_textb_sound, (proj1 (forallb_forall _ _) H). }
  assert (∀ P Q, (∃ L, consumes P L ∧ ∀ t, L t → byte_text t) →
                 (∃ L, consumes Q L ∧ ∀ t, L t → byte_text t) →
                 ∃ L, consumes (λ s, P s ++ Q s) L ∧ ∀ t, L t → byte_text t) as Happ.
  { intros P Q (L1 & H1 & ?) (L2 & H2 & ?). eexists. split; [by apply consumes_app|].
    intros t [?|?]; auto. }
  assert (∀ P cs, forallb byte_textb (texts cs) = true →
                  (∃ L, consumes P L ∧ ∀ t, L t → t ∈ texts cs) →
                  ∃ L, consumes P L ∧ ∀ t, L t → byte_text t) as Hone.
  { intros P cs H (L & ? & ?). exists L. eauto. }
  unfold numBlock. repeat apply Happ; eapply Hone.
  2,4,6,8,10: repeat (refine (consumes_texts _ _ _ _ _ _); [solve [eauto with digits]|]);
              apply consumes_text; solve [eauto with digits].
  all: vm_compute; reflexivity.
Qed.

Lemma append_nil (a : string) : a +:+ "" = a.
Proof. induction a as [|x a IH]; [done|exact (f_equal (String x) IH)]. Qed.

Lemma numBlock_spec : consumes numBlock byte_text.
Proof.
  destruct numBlock_consumes as (L & HL & Hsound). apply (consumes_ext _ L); [|done].
  intros t. split; [auto|]. intros (n & Hn & ->).
  apply numBlock_complete, HL in Hn as (t & Ht & ?). by rewrite append_nil in Ht; subst.
Qed.

(** ** Addresses *)

Definition quad (a b c d : N) : string :=
  pretty a +:+ "." +:+ pretty b +:+ "." +:+ pretty c +:+ "." +:+ pretty d.

Definition is_quad (t : string) : Prop :=
  ∃ a b c d : N, (a < 256 ∧ b < 256 ∧ c < 256 ∧ d < 256)%N ∧ t = quad a b c d.

Lemma regexPattern_spec : consumes regexPattern is_quad.
Proof.
  assert (∀ L P, consumes P L →
    consumes (λ s, s1 ← numBlock s; s2 ← chr (is_char ".") s1; P s2)
             (λ t, ∃ t1 t2, byte_text t1 ∧ L t2 ∧ t = t1 +:+ "." +:+ t2)) as Hstep.
  { intros L P HP. eapply consumes_ext; [|apply consumes_bind; [apply numBlock_spec|];
      apply consumes_bind; [apply consumes_chr|exact HP]].
    intros t. cbn beta. split.
    - intros (t1 & ? & -> & ? & ? & t2 & -> & (x & -> & <-%Ascii.eqb_eq) & ?). eauto.
    - intros (t1 & t2 & ? & ? & ->). do 2 eexists. split; [done|]. split; [done|].
      do 2 eexists. split; [done|]. eauto. }
  eapply consumes_ext; [|exact (Hstep _ _ (Hstep _ _ (Hstep _ _ numBlock_spec)))].
  intros t. unfold byte_text, is_quad, quad. split.
  - intros (? & ? & (a & ? & ->) & (? & ? & (b & ? & ->) & (? & ? & (c & ? & ->) & (d & ? & ->) & ->)
      & ->) & ->). by exists a, b, c, d.
  - intros (a & b & c & d & (? & ? & ? & ?) & ->). repeat eexists; done.
Qed.

Lemma length_append (a b : string) : String.length (a +:+ b) = (String.length a + String.length b)%nat.
Proof. induction a as [|x a IH]; [done|exact (f_equal S IH)]. Qed.

Lemma matched_append (t rest : string) : matched (t +:+ rest) rest = t.
Proof.
  unfold matched. rewrite length_append, Nat.add_sub.
  induction t as [|x t IH]; [by destruct rest|exact (f_equal (String x) IH)].
Qed.

Lemma bind_assoc {A B C} (l : list A) (f : A → list B) (g : B → list C) :
  (l ≫= f) ≫= g = x ← l; f x ≫= g.
Proof. induction l as [|x l IH]; [done|]. cbn. by rewrite bind_app, IH. Qed.

(** A number followed by a dot is taken whole. *)
Lemma block_step {A} n r (f : string → list A) : (n < 256)%N →
  (s1 ← numBlock (pretty n +:+ "." +:+ r); s2 ← chr (is_char ".") s1; f s2) = f r.
Proof. intros Hn. by rewrite <-(bind_assoc _ (chr (is_char "."%char)) f), (numBlock_dot n Hn r), bind_singleton. Qed.

Lemma regexPattern_port a b c d r :
  (a < 256)%N → (b < 256)%N → (c < 256)%N → (d < 256)%N →
  head (regexPattern (quad a b c d +:+ ":" +:+ r)) = Some (":" +:+ r).
Proof.
  intros. unfold quad, regexPattern. rewrite !append_assoc, !block_step by done.
  by apply numBlock_colon.
Qed.

Lemma FindIP_unfold input :
  FindIP input = match head (regexPattern input) with
                 | Some rest => matched input rest
                 | None => match input with "" => "" | String _ input' => FindIP input' end
                 end.
Proof. by destruct input. Qed.

(** The match at a position. *)
Lemma regexPattern_head s :
  match head (regexPattern s) with
  | Some rest => ∃ t, s = t +:+ rest ∧ is_quad t
  | None => ∀ t rest, is_quad t → s ≠ t +:+ rest
  end.
Proof.
  destruct (regexPattern s) as [|rest l] eqn:E; cbn.
  - intros t rest Ht ->. assert (rest ∈ regexPattern (t +:+ rest)) as H by (apply regexPattern_spec; eauto).
    rewrite E in H. by apply elem_of_nil in H.
  - apply regexPattern_spec. rewrite E. by left.
Qed.

(** C32. [FindIP] returns the first dotted quad that the text contains, a part
    of the text made of four numbers up to 255, and the empty text when there
    is none; from an address with a port it returns exactly the address. *)
Theorem find_ip_addresses input a b c d port :
  (a < 256)%N → (b < 256)%N → (c < 256)%N → (d < 256)%N →
  ((∃ pre post, input = pre +:+ FindIP input +:+ post ∧ is_quad (FindIP input) ∧
      ∀ pre' t post', is_quad t → input = pre' +:+ t +:+ post' →
        (String.length pre ≤ String.length pre')%nat) ∨
   (FindIP input = "" ∧ ∀ pre t post, is_quad t → input ≠ pre +:+ t +:+ post)) ∧
  FindIP (quad a b c d +:+ ":" +:+ port) = quad a b c d.
Proof.
  intros Ha Hb Hc Hd. split; [clear|].
  2: { by rewrite FindIP_unfold, regexPattern_port, matched_append. }
  induction input as [|x input IH]; rewrite FindIP_unfold.
  all: match goal with |- context [regexPattern ?s] => pose proof (regexPattern_head s) as Hhead end.
  all: destruct (head _) as [rest|].
  1,3: destruct Hhead as (t & -> & Ht); left; exists "", rest;
       rewrite matched_append; split; [done|]; split; [done|]; intros; cbn; lia.
  - right. split; [done|]. intros [] t post Ht E; [by apply (Hhead t post)|done].
  - destruct IH as [(pre & post & E & Hq & Hmin)|(E & Hnone)].
    + left. exists (String x pre), post. split; [exact (f_equal (String x) E)|]. split; [done|].
      intros [|y pre'] t post' Ht E'; [by destruct (Hhead t post' Ht)|].
      injection E' as _ E'. cbn. apply le_n_S. by apply (Hmin pre' t post').
    + right. split; [done|]. intros [|y pre'] t post' Ht E'; [by destruct (Hhead t post' Ht)|].
      injection E' as _ E'. by apply (Hnone pre' t post').
Qed.

Lemma find_ip_addresses_witness :
  FindIP (quad 127 0 0 1 +:+ ":" +:+ "4646") = quad 127 0 0 1.
Proof. apply (find_ip_addresses "" 127 0 0 1 "4646"); lia. Defined.
