(* ===== verification/Help.v ===== *)
(** * Help: the texts of the commands

    The help texts of [command/agent/agent.go], [command/failsafe.go] and
    [command/init.go], and the flags they document against the flags the
    commands declare. *)

From Stdlib Require Import Ascii.
From S2P Require Import Prelude GoNum Structs Flags FailsafeCmd InitCmd Http Agent Cli.

(** ** [strings.TrimSpace] *)

Definition isSpace (c : ascii) : bool :=
  let n := nat_of_ascii c in (n =? 32)%nat || ((9 <=? n) && (n <=? 13))%nat.

Fixpoint trimLeft (s : list ascii) : list ascii :=
  match s with
  | c :: s' => if isSpace c then trimLeft s' else s
  | [] => []
  end.

(** On the texts of the source, which have no white space beyond ASCII. *)
Definition TrimSpace (s : string) : string :=
  String.string_of_list_ascii (reverse (trimLeft (reverse (trimLeft (String.list_ascii_of_string s))))).

(** ** [command/agent/agent.go] *)

Definition Agent_Help : string :=
  TrimSpace (String.concat newline [
    "";
    "  Usage: replicator agent [options]";
    "";
    "    Starts the Replicator agent and runs until an interrupt is received.";
    "    The Replicator agent's configuration primarily comes from the config";
    "    files used. If no config file is passed, a default config will be";
    "    used.";
    "";
    "  General Options:";
    "";
    "    -bind-address=<addr>";
    "      Specifies which address the Replicator agent will bind to for HTTP API and";
    "      RPC network  services.";
    "";
    "    -cluster-scaling-disable";
    "      Passing this flag will disable cluster scaling completly.";
    "";
    "    -cluster-scaling-interval=<seconds>";
    "      The time period in seconds between Replicator cluster scaling";
    "      evaluation runs.";
    "";
    "    -config=<path>";
    "      The path to either a single config file or a directory of config";
    "      files to use for configuring the Replicator agent. Replicator";
    "      processes configuration files in lexicographic order.";
    "";
    "    -consul=<address:port>";
    "      This is the address of the Consul agent. By default, this is";
    "      localhost:8500, which is the default bind and port for a local";
    "      Consul agent. It is not recommended that you communicate directly";
    "      with a Consul server, and instead communicate with the local";
    "      Consul agent. There are many reasons for this, most importantly";
    "      the Consul agent is able to multiplex connections to the Consul";
    "      server and reduce the number of open HTTP connections. Additionally,";
    "      it provides a " +:+ quote +:+ "well-known" +:+ quote +:+ " IP address for which clients can connect.";
    "";
    "    -consul-key-root=<key>";
    "      The Consul Key/Value Store location that Replicator will use";
    "      for persistent configuration. By default, this is replicator/config.";
    "";
    "    -consul-token=<token>";
    "      The Consul ACL token to use when communicating with an ACL";
    "      protected Consul cluster.";
    "";
    "    -dev";
    "      Start the Replicator agent in development mode. This runs the";
    "      Replicator agent with a configuration which is ideal for development";
    "      or local testing.";
    "";
    "    -http-port=<port>";
    "      The port used to run the HTTP server.";
    "";
    "    -job-scaling-disable";
    "      Passing this flag will disable job scaling completly.";
    "";
    "    -job-scaling-interval=<seconds>";
    "      The time period in seconds between Replicator job scaling evaluation";
    "      runs.";
    "";
    "    -log-level=<level>";
    "      Specify the verbosity level of Replicator's logs. The default is";
    "      INFO.";
    "";
    "    -nomad=<address:port>";
    "      The address and port Replicator will use when making connections";
    "      to the Nomad API. By default, this http://localhost:4646, which";
    "      is the default bind and port for a local Nomad server.";
    "";
    "    -rpc-port=<port>";
    "       The port used for RPC listening.";
    "";
    "  Telemetry Options:";
    "";
    "    -statsd-address=<address:port>";
    "      Specifies the address of a statsd server to forward metrics";
    "      to and should include the port.";
    "";
    "  Notifications Options:";
    "";
    "    -cluster-identifier=<name>";
    "      A human readable cluster name to allow operators to quickly identify";
    "      which cluster is alerting.";
    "";
    "    -pagerduty-service-key=<key>";
    "      The PagerDuty integration key which has been setup to allow";
    "      replicator to send events.";
    "";
    ""]).

Definition Agent_Synopsis : string := "Runs a Replicator agent".

(** ** [command/failsafe.go] *)

Definition Failsafe_Help : string :=
  TrimSpace (String.concat newline [
    "";
    "Usage: replicator failsafe [options]";
    "";
    "  Allows an operator to administratively control the failsafe behavior of";
    "  Replicator. When Replicator places a job or worker pool in failsafe mode, ";
    "  all running copies of Replicator will prohibit any scaling operations";
    "  against the resource in question.";
    "";
    "  Failsafe mode is intended to stabilize a respource that has experienced";
    "  critical failures while attempting to perform scaling operations.";
    "";
    "  To exit failsafe mode, an operator must explicitly remove the failsafe";
    "  lock after identifying the root cause of the failures.";
    "";
    "  General Options:";
    "";
    "    -config=<path>";
    "      The path to either a single config file or a directory of config";
    "      files to use when configuring the Replicator agent. Replicator";
    "      processes configuration files in lexicographic order.";
    "";
    "    -consul=<address:port>";
    "      This is the address of the Consul agent. By default, this is";
    "      localhost:8500, which is the default bind and port for a local";
    "      Consul agent. It is not recommended that you communicate directly";
    "      with a Consul server, and instead communicate with the local";
    "      Consul agent. There are many reasons for this, most importantly";
    "      the Consul agent is able to multiplex connections to the Consul";
    "      server and reduce the number of open HTTP connections. Additionally,";
    "      it provides a " +:+ quote +:+ "well-known" +:+ quote +:+ " IP address for which clients can connect.";
    "";
    "    -consul-token=<token>";
    "      The Consul ACL token to use when communicating with an ACL protected";
    "      Consul cluster.";
    "";
    "    -state-path=<key>";
    "      The full Consul Key/Value path where the state object for the resource";
    "      is stored. By default, Replicator stores all state objects at a common";
    "      base path, replicator/config/state; within this base context, worker";
    "      pools state is stored at nodes/<pool_name> and jobs at";
    "      jobs/<job_name>/<group_name>.";
    "";
    "  Failsafe Mode Options:";
    "";
    "    -disable";
    "      Disable the failsafe lock on the provided resource. All copies of";
    "      Replicator will return to normal operations.";
    "";
    "    -enable";
    "      Enable the failsafe lock on the provided resource. All copies of";
    "      Replicator will be prohibited from taking any scaling actions on";
    "      the failsafe enabled jobgroup or worker pool.";
    "";
    "    -force";
    "      Suppress confirmation prompts when enabling or disabling the failsafe";
    "      lock.";
    ""]).

Definition Failsafe_Synopsis : string := "Provide an administrative interface to control failsafe mode".

(** ** [command/init.go] *)

Definition Init_Help : string :=
  TrimSpace (String.concat newline [
    "";
    "Usage: replicator init [options]";
    "";
    "  Creates example job and cluster scaling configurations.";
    "";
    "  General Options:";
    "";
    "    -job-scaling";
    "      Write a file which contains example job scaling configuration. This";
    "      can be used directly within the Nomad job specification file to enable";
    "      scaling for the desired job group.";
    "";
    "    -cluster-scaling";
    "      Write a file which contains example cluster scaling configuration.";
    "      This can be adapted to your configuration management to enable";
    "      cluster scaling.";
    ""]).

Definition Init_Synopsis : string := "Create example Replicator job and cluster scaling configurations".

(** ** [command/version.go] *)

Definition Version_Help : string := "".
Definition Version_Synopsis : string := "Prints the Replicator version".

(** ** What a text documents *)

(** The lines of a text. *)
Fixpoint splitLines (s : string) : list string :=
  match s with
  | EmptyString => [""]
  | String c s' =>
      if bool_decide (c = ascii_of_nat 10) then "" :: splitLines s'
      else match splitLines s' with
           | l :: ls => String c l :: ls
           | [] => [String c ""]
           end
  end.

(** A line that documents a flag is [-name] or [-name=<value>] after the
    indentation: the name and whether a value is asked for. *)
Definition documentedFlag (l : string) : option (string * bool) :=
  match trimLeft (String.list_ascii_of_string l) with
  | "-"%char :: name =>
      let '(n, v) := splitValue (String.string_of_list_ascii name) in
      Some (n, match v with Some _ => true | None => false end)
  | _ => None
  end.

Definition documented (text : string) : list (string * bool) := omap documentedFlag (splitLines text).

(** The declared flags with whether they take a value. *)
Definition declared (flags : gmap string flag_kind) : gmap string bool :=
  (λ k, match k with FBool => false | _ => true end) <$> flags.

(** The help text of the failsafe and of the init command documents the flags
    of the command, each once and with a value where the flag takes one; that
    of the agent leaves four of them out. *)
Lemma help_documents_flags :
  (NoDup (documented Agent_Help).*1 ∧
   declared agentFlags = list_to_map (documented Agent_Help ++
     [("nomad-token", true); ("nomad-tls-server-name", true); ("scaling-concurrency", true);
      ("opsgenie-api-key", true)])) ∧
  (NoDup (documented Failsafe_Help).*1 ∧ declared failsafeFlags = list_to_map (documented Failsafe_Help)) ∧
  (NoDup (documented Init_Help).*1 ∧ declared initFlags = list_to_map (documented Init_Help)).
Proof.
  split_and!; try (apply (bool_decide_unpack _); vm_compute; exact I); vm_compute; reflexivity.
Qed.
